(* ===== verification/_CoqProject ===== *)
-Q . S2P
Prelude.v
GoLib.v
Buffer.v
GoHeap.v
World.v
Sim.v
Poller.v
Timer.v
Eventloop.v
TaskQueue.v
Engine.v
Addr.v
Frame.v
TcpConn.v
Server.v
Client.v
Reactor.v
Memcached.v
Session.v
