(* ===== verification/Prelude.v ===== *)
(** * A verification of muduo-go

    muduo-go is a reactor library in Go: an event loop waits in epoll for its
    channels, runs their callbacks, then the tasks queued on it by other
    goroutines; timers, TCP servers, clients and connections are built on
    channels and tasks. An example server speaks the memcached protocol.

    ** The parts of the program and the files of the development

    - [buffer.go]: [Buffer.v]. A byte buffer with a read and a write index.
    - [channel.go], [poller.go], [epoll.go]: [Poller.v]. A channel is a
      descriptor with its events and callbacks; the poller keeps the map from
      descriptors to channels and the interest list of epoll.
    - [timer.go]: [GoHeap.v] (the algorithms of container/heap over any
      implementation of its interface) and [Timer.v] (the heap of timer tasks,
      the timer queue, cancellation, the timer descriptor).
    - [eventloop.go]: [Eventloop.v] for one goroutine, [TaskQueue.v] for the
      interleavings of [AsyncExecute], [Stop] and [AsyncStop] with the loop.
    - [eventloop_engine.go], [eventloop_engine_group.go]: [Engine.v]. The start
      of a loop on its own goroutine, and the group that deals out loops.
    - [socket.go], and the address functions of [tcp_server.go] and
      [acceptor.go]: [Addr.v]; the calls on sockets are in [Server.v].
    - [tcp_conn.go]: [TcpConn.v].
    - [acceptor.go], [tcp_server.go]: [Server.v].
    - [connector.go], [tcp_client.go]: [Client.v].
    - [Reactor.v] closes the recursion between the parts: it interprets every
      callback and every queued closure, so that [run_loop] is [Loop] of the
      whole program.
    - [examples/memcached/server]: [Memcached.v] (items, the sharded table) and
      [Session.v] (the protocol).
    - [pkg/util], [pkg/errors]: [Assert] and [CRLF] below, [GoError] in
      [World.v].

    [Prelude.v] holds Go's values, panics, the state monad, record update,
    slices and the shared tactics; [GoLib.v] the functions of the Go standard
    library the program calls; [World.v] the structs and the interface to the
    operating system; [Sim.v] a small concrete kernel for the witnesses;
    [Frame.v] the relations that code keeps.

    ** How Go is modelled

    Code is a function [S -> res (A * S)] ([M S A]): a result with the new
    state, or a panic. An [int] is a [Z], with the wrap-around of fixed-width
    arithmetic written out ([u32], [u64], [i64]) where it can occur. Slices are
    lists; slicing and indexing check their bounds. Structs are records.
    Pointers are numbers into the stores of [World], so that aliases see the
    same object; a nil pointer is [None] or an address not in the store, and
    dereferencing it panics. Closures of the library are data
    ([Callback], [Task], [TimeoutCb], [CloseCb], ...) that carry the captured
    variables. A [container/list] is a list of its elements, except in
    [TaskQueue.v], where the loop keeps iterating over the old list object
    while callers append to the new one: there lists have an identity.

    Parameters of the model: the system calls and the clock ([Kernel], any
    type of kernel states), the closures of the library's user ([UserCode]),
    name resolution and the text of addresses ([Net]), the checksum of the
    memcached table, and, in [TaskQueue.v], the calls a task makes on its loop
    ([effects], for the [n]-th task that is run). What a theorem needs of them is a class of laws or a
    hypothesis: [EpollLaws] (epoll_ctl changes the interest list as documented),
    [FdLaws] (a new descriptor is watched by nobody), [WriteLaws] (a write sends
    a prefix of its data, and other calls send nothing), [UserSteps] (the
    user's closures respect a relation). [ConnFrame] is the interface of the
    relations that the whole program can be shown to keep. [Sim.v] satisfies the laws of the
    kernel.

    ** What the theorems show

    - Buffer: the operations refine a queue of bytes as long as writes fit;
      [Write_lossless_iff] says exactly when they do; [ReadFd] and [Search].
    - Poller: the agreement of channels, [channelMap] and the interest list is
      kept by every operation; [handleEvent] and [poll] on every event.
    - Timer: the handler runs exactly what has expired, in order; insertion,
      cancellation, the programmed delay.
    - Event loop: construction, a round of tasks, the end of the loop; for all
      interleavings, also with tasks that queue tasks, tasks run exactly once
      and in order, no wakeup is lost, every queued task is run unless the loop
      is stopped, and a set [quit] flag ends a loop that does not sleep.
    - Engines: the start handshake ends well; workers are dealt out in turn.
    - Addresses: the hand-written printers are [Itoa]; conversion round trip,
      with what becomes of the empty address and of zones.
    - Connections: what is written is sent in order, by [Write] (unless the
      kernel answers EAGAIN or the outbound buffer drops bytes, which is shown
      apart) and by [handleWrite]; establishment and destruction; over any run of the whole
      loop a connection keeps its identity and only moves forward, and it never
      gets a write callback.
    - Servers and clients: accepting, naming, closing; connection attempts,
      the retry delay, handing on the descriptor.
    - Memcached: for any checksum the table refines a map keyed by slot and key,
      and one map from keys to items as long as every item is hashed under the
      key it carries; the parser ends on
      every input and keeps its invariant; a request from its bytes to the
      table.
    - Several theorems state what the code does where it differs from its
      evident intention (a write answered with EAGAIN, writable connections,
      accept errors, SO_ERROR, [append], the data block of [set], ...).

    ** Bounds and fuel

    - [Loop] runs at most [n] iterations and says whether it ended;
      [Loop_stops] holds for every sufficient [n].
    - The heap algorithms get one step more than the length of the heap;
      running out would be a panic, which their lemmas exclude.
    - The printers get 64 steps, more than a 64-bit number has digits; running
      out would be a panic. [decimal] gets one step per bit.
    - The loop of [OnMsg] gets twice the readable bytes and two more units;
      [OnMsg_ends] shows that they never run out.
    - [TaskQueue.v] and [Engine.v] are step relations without a bound;
      [all_tasks_run] shows that finitely many steps of the loop are enough.

    ** What is not modelled

    Logging ([pkg/logging]) and the text of log lines, except where computing
    their arguments can panic; [events2String]; the empty [internal/pq] and the
    main function of the example; the tests. Sequential theorems about one loop
    treat the code of a goroutine as running alone: interleavings are modelled
    for the task queue and the start of an engine, where goroutines share data;
    data races on other fields (a connection's state read by [AsyncWrite] from
    another goroutine) are not. In [TaskQueue.v] a task makes finitely many
    calls and returns, the eventfd's counter does not overflow, and what
    callers do after the loop has ended and closed the eventfd is not followed
    further. Memory is unbounded. *)

From stdpp Require Import base list gmap strings.
From Stdlib Require Import ZArith Lia Ascii.

#[export] Set Default Goal Selector "!".
Open Scope Z_scope.

(** ** Go values

    A Go [byte] is an [ascii], a [[]byte] and a [string] are lists of bytes
    (Go strings are immutable byte sequences); string constants of the
    source are written [B "..."]. *)

Abbreviation byte := ascii (only parsing).
Abbreviation bytes := (list ascii) (only parsing).

Definition B (s : string) : list ascii := String.list_ascii_of_string s.

(** ["\r\n"] of [pkg/util/util.go]. *)
Definition CRLF : list ascii := ["013"%char; "010"%char].

Definition byte_val (c : ascii) : Z := Z.of_N (N_of_ascii c).
Definition byte_of (z : Z) : ascii := ascii_of_N (Z.to_N (z mod 256)).

(** Wrap-around of Go's fixed-width integers ([int] is 64 bits wide). *)
Definition u32 (z : Z) : Z := z mod 2 ^ 32.
Definition u64 (z : Z) : Z := z mod 2 ^ 64.
Definition i64 (z : Z) : Z := (z + 2 ^ 63) mod 2 ^ 64 - 2 ^ 63.

(** ** Outcomes: a value, or a Go panic *)

Inductive res (A : Type) : Type :=
| Ok (a : A)
| Panic (msg : string).
Arguments Ok {A} a.
Arguments Panic {A} msg.

#[export] Instance res_ret : MRet res := fun A a => Ok a.
#[export] Instance res_bind : MBind res := fun A B f m =>
  match m with Ok a => f a | Panic s => Panic s end.
#[export] Instance res_fmap : FMap res := fun A B f m =>
  match m with Ok a => Ok (f a) | Panic s => Panic s end.

Definition is_ok {A} (r : res A) : bool :=
  match r with Ok _ => true | Panic _ => false end.

Definition panics {A} (r : res A) : Prop := exists msg, r = Panic msg.

(** [util.Assert] of [pkg/util/util.go]: a panic when the condition is false. *)
Definition Assert (cond : bool) (msg : string) : res unit :=
  if cond then Ok tt else Panic msg.

Lemma bind_Ok {A B} (m : res A) (f : A -> res B) b :
  (m ≫= f) = Ok b <-> exists a, m = Ok a /\ f a = Ok b.
Proof.
  destruct m as [a|s]; unfold mbind; simpl; split.
  - intros H; exists a; auto.
  - intros (a' & [= <-] & H); exact H.
  - discriminate.
  - intros (a' & [=] & _).
Qed.

Lemma Assert_Ok c msg u : Assert c msg = Ok u <-> c = true.
Proof. destruct c, u; simpl; split; intros; congruence. Qed.

(** ** State-passing code that may panic *)

Definition M (S A : Type) : Type := S -> res (A * S).

#[export] Instance M_ret {S} : MRet (M S) := fun A a s => Ok (a, s).
#[export] Instance M_bind {S} : MBind (M S) := fun A B f m s =>
  match m s with Ok (a, s') => f a s' | Panic e => Panic e end.

Definition get {S} : M S S := fun s => Ok (s, s).
Definition gets {S A} (f : S -> A) : M S A := fun s => Ok (f s, s).
Definition modify {S} (f : S -> S) : M S unit := fun s => Ok (tt, f s).
Definition panic {S A} (msg : string) : M S A := fun _ => Panic msg.
Definition lift {S A} (r : res A) : M S A := fun s =>
  match r with Ok a => Ok (a, s) | Panic e => Panic e end.
Definition AssertM {S} (cond : bool) (msg : string) : M S unit :=
  lift (Assert cond msg).
Definition when {S} (c : bool) (m : M S unit) : M S unit :=
  if c then m else mret tt.

(** [for _, v := range l { f v }] *)
Fixpoint forM {S A} (l : list A) (f : A -> M S unit) : M S unit :=
  match l with
  | [] => mret tt
  | x :: l' => f x ;; forM l' f
  end.

(** Sequencing: run the first command, then the rest. *)
Lemma bind_Ok_M {S A B} (m : M S A) (f : A -> M S B) (s s1 : S) a r :
  m s = Ok (a, s1) -> f a s1 = r -> (m ≫= f) s = r.
Proof. intros H1 H2. unfold mbind, M_bind. by rewrite H1. Qed.

Lemma AssertM_Ok {S} (c : bool) msg (s : S) : c = true -> AssertM c msg s = Ok (tt, s).
Proof. by intros ->. Qed.

Lemma forM_app {S A} (l k : list A) (f : A -> M S unit) (s : S) :
  forM (l ++ k) f s = (forM l f ;; forM k f) s.
Proof.
  revert s. induction l as [|x l IH]; intros s; simpl; [done|].
  unfold mbind, M_bind in *. destruct (f x s) as [[[] s1]|]; [apply IH|done].
Qed.

Create HintDb go discriminated.
Create Rewrite HintDb zlen.

Ltac mred :=
  cbv beta iota delta [mbind mret res_bind res_ret M_bind M_ret
                       get gets modify panic lift AssertM when Assert] in *.

(** ** Record update *)

Class Eta (R : Type) : Type := eta : R -> R.
Class Setter {R T : Type} (f : R -> T) : Type := upd : (T -> T) -> R -> R.
Arguments upd {R T} f {_} _ _ /.

Ltac derive_setter R f :=
  let e := constr:(_ : Eta R) in
  let e := eval red in e in
  let e := eval cbv beta delta [eta] in e in
  lazymatch eval pattern f in e with
  | ?g _ =>
    let t := eval cbv beta in (fun u => g (fun r => u (f r))) in
    exact t
  end.

#[export] Hint Extern 1 (@Setter ?R _ ?f) => derive_setter R f : typeclass_instances.

Declare Scope record_scope.
Delimit Scope record_scope with record.
Open Scope record_scope.
Notation "r <| f := v |>" := (upd f (fun _ => v) r)
  (at level 1, left associativity, f at level 0, v at level 99,
   format "r <| f  :=  v |>") : record_scope.
Notation "r <| f ::= u |>" := (upd f u r)
  (at level 1, left associativity, f at level 0, u at level 99,
   format "r <| f  ::=  u |>") : record_scope.

(** ** Slices *)

Definition zlen {A} (l : list A) : Z := Z.of_nat (length l).

(** The value of the slice expression [l[i:j]], with its bounds check. *)
Definition slice {A} (l : list A) (i j : Z) : res (list A) :=
  if (0 <=? i) && (i <=? j) && (j <=? zlen l)
  then Ok (take (Z.to_nat (j - i)) (drop (Z.to_nat i) l))
  else Panic "slice bounds out of range".

(** [l[i]] with its bounds check. *)
Definition index {A} (l : list A) (i : Z) : res A :=
  if 0 <=? i then
    match l !! Z.to_nat i with
    | Some x => Ok x
    | None => Panic "index out of range"
    end
  else Panic "index out of range".

(** [l[i] = x] with its bounds check. *)
Definition put {A} (l : list A) (i : Z) (x : A) : res (list A) :=
  if (0 <=? i) && (i <? zlen l) then Ok (<[Z.to_nat i := x]> l)
  else Panic "index out of range".

(** [copy(dst, src)]: the elements of [dst] afterwards (the number copied is
    the smaller of the two lengths; [src] may overlap [dst]). *)
Definition gocopy {A} (dst src : list A) : list A :=
  take (length dst) src ++ drop (length src) dst.

(** [copy(dst[off:], src)], with the bounds check of the slice expression:
    the elements of [dst] afterwards and the number of elements copied. *)
Definition copy_at {A} (dst : list A) (off : Z) (src : list A) : res (list A * Z) :=
  if (0 <=? off) && (off <=? zlen dst)
  then Ok (take (Z.to_nat off) dst ++ gocopy (drop (Z.to_nat off) dst) src,
           Z.min (zlen dst - off) (zlen src))
  else Panic "slice bounds out of range".

(** [make([]byte, n)] *)
Definition make_bytes (n : Z) : res (list ascii) :=
  if n <? 0 then Panic "makeslice: len out of range"
  else Ok (replicate (Z.to_nat n) "000"%char).

Lemma zlen_nil {A} : zlen (@nil A) = 0.
Proof. reflexivity. Qed.
Lemma zlen_cons {A} (x : A) l : zlen (x :: l) = 1 + zlen l.
Proof. unfold zlen; simpl; lia. Qed.
Lemma zlen_app {A} (l k : list A) : zlen (l ++ k) = zlen l + zlen k.
Proof. unfold zlen; rewrite length_app; lia. Qed.
Lemma zlen_nonneg {A} (l : list A) : 0 <= zlen l.
Proof. unfold zlen; lia. Qed.
Lemma zlen_take {A} n (l : list A) :
  zlen (take n l) = Z.min (Z.of_nat n) (zlen l).
Proof. unfold zlen; rewrite length_take; lia. Qed.
Lemma zlen_drop {A} n (l : list A) :
  zlen (drop n l) = Z.max 0 (zlen l - Z.of_nat n).
Proof. unfold zlen; rewrite length_drop; lia. Qed.
Lemma zlen_replicate {A} n (x : A) : zlen (replicate n x) = Z.of_nat n.
Proof. unfold zlen; rewrite length_replicate; lia. Qed.
Lemma length_gocopy {A} (d s : list A) : length (gocopy d s) = length d.
Proof. unfold gocopy; rewrite length_app, length_take, length_drop; lia. Qed.
Lemma zlen_gocopy {A} (d s : list A) : zlen (gocopy d s) = zlen d.
Proof. unfold zlen; by rewrite length_gocopy. Qed.

#[export] Hint Rewrite @zlen_nil @zlen_cons @zlen_app @zlen_take @zlen_drop
  @zlen_replicate @zlen_gocopy : zlen.

(** Arithmetic goals about lengths of slices. *)
Ltac zl :=
  repeat match goal with
  | l : list _ |- _ => lazymatch goal with
      | H : 0 <= zlen l |- _ => fail
      | _ => pose proof (zlen_nonneg l) end
  end;
  autorewrite with zlen in *; unfold zlen in *; try lia.

Lemma slice_Ok {A} (l : list A) i j :
  0 <= i <= j -> j <= zlen l ->
  slice l i j = Ok (take (Z.to_nat (j - i)) (drop (Z.to_nat i) l)).
Proof.
  intros [??] ?; unfold slice.
  by rewrite (proj2 (Z.leb_le 0 i)), (proj2 (Z.leb_le i j)), (proj2 (Z.leb_le j _)).
Qed.

Lemma slice_bounds {A} (l k : list A) i j :
  slice l i j = Ok k -> 0 <= i <= j /\ j <= zlen l /\ zlen k = j - i.
Proof.
  unfold slice. destruct (_ && _) eqn:E; [|discriminate].
  apply andb_prop in E as [[E1 E2]%andb_prop E3].
  intros [= <-]. rewrite zlen_take, zlen_drop. lia.
Qed.

Lemma slice_panics {A} (l : list A) i j :
  ~ (0 <= i <= j /\ j <= zlen l) -> panics (slice l i j).
Proof.
  intros H. unfold slice, panics.
  destruct (_ && _) eqn:E; [|by eauto].
  apply andb_prop in E as [[E1 E2]%andb_prop E3]. lia.
Qed.

Lemma put_Ok {A} (l : list A) i x :
  0 <= i < zlen l -> put l i x = Ok (<[Z.to_nat i := x]> l).
Proof.
  intros [? ?]. unfold put.
  by rewrite (proj2 (Z.leb_le 0 i)), (proj2 (Z.ltb_lt i (zlen l))).
Qed.

Lemma slice_full {A} (l : list A) : slice l 0 (zlen l) = Ok l.
Proof.
  rewrite slice_Ok by zl. rewrite Z.sub_0_r. simpl. unfold zlen.
  by rewrite Nat2Z.id, firstn_all.
Qed.

Lemma copy_at_Ok {A} (dst src : list A) off :
  0 <= off <= zlen dst ->
  copy_at dst off src =
    Ok (take (Z.to_nat off) dst ++ gocopy (drop (Z.to_nat off) dst) src,
        Z.min (zlen dst - off) (zlen src)).
Proof.
  intros [??]; unfold copy_at.
  by rewrite (proj2 (Z.leb_le 0 off)), (proj2 (Z.leb_le off _)).
Qed.

Lemma gocopy_fits {A} (d s : list A) :
  (length s <= length d)%nat -> gocopy d s = s ++ drop (length s) d.
Proof. intros; unfold gocopy; by rewrite take_ge. Qed.

Lemma take_gocopy {A} (d s : list A) n :
  (n <= length d)%nat -> (n <= length s)%nat -> take n (gocopy d s) = take n s.
Proof.
  intros. unfold gocopy. rewrite take_app, take_take, length_take.
  replace (n - _)%nat with 0%nat by lia. rewrite firstn_O, app_nil_r.
  f_equal; lia.
Qed.

(** ** Errors of the operating system *)

(** [errno] values the program distinguishes; [EWOULDBLOCK] is [EAGAIN]. *)
Inductive Errno : Type :=
| EAGAIN | EINTR | EINPROGRESS | EISCONN | EADDRINUSE | EADDRNOTAVAIL
| ECONNREFUSED | ENETUNREACH | EACCES | EPERM | EAFNOSUPPORT | EALREADY
| EBADF | EFAULT | ENOTSOCK | ECONNABORTED | EINVAL | ENOENT | EPIPE
| EOTHER (code : Z).
#[export] Instance Errno_eq_dec : EqDecision Errno.
Proof. solve_decision. Defined.
