(* ===== verification/GoLib.v ===== *)
(** * Functions of the Go standard library that the program calls

    [bytes.Index], [bytes.Fields], [strconv.Itoa] / [ParseUint] / [ParseInt],
    [strings.ToLower] / [Contains] / [Split], with the facts about them that
    the components use. *)

From S2P Require Import Prelude.
From stdpp Require Import base list gmap strings.
From Stdlib Require Import ZArith Lia Ascii.
Open Scope Z_scope.

(** ** bytes.HasPrefix, bytes.Index *)

Fixpoint HasPrefix (s sep : bytes) : bool :=
  match sep, s with
  | [], _ => true
  | _ :: _, [] => false
  | x :: sep', y :: s' => Ascii.eqb x y && HasPrefix s' sep'
  end.

(** [bytes.Index(s, sep)]: the first position of [sep] in [s], or -1. *)
Fixpoint Index (s sep : bytes) : Z :=
  if HasPrefix s sep then 0
  else match s with
       | [] => -1
       | _ :: s' => let k := Index s' sep in if k <? 0 then -1 else k + 1
       end.

Lemma HasPrefix_spec s sep : HasPrefix s sep = true <-> exists t, s = sep ++ t.
Proof.
  revert s; induction sep as [|x sep IH]; intros [|y s]; simpl.
  - split; [exists []; done | done].
  - split; [eexists; done | done].
  - split; [done | intros [t [=]]].
  - rewrite andb_true_iff, Ascii.eqb_eq, IH. split.
    + intros [-> [t ->]]; by exists t.
    + intros [t [= -> ->]]; eauto.
Qed.

(** [sep] occurs in [s] at position [i]. *)
Definition occurs_at (s sep : bytes) (i : nat) : Prop :=
  exists a t, s = a ++ sep ++ t /\ length a = i.

Lemma occurs_at_0 s sep : occurs_at s sep 0 <-> HasPrefix s sep = true.
Proof.
  rewrite HasPrefix_spec. split.
  - intros (a & t & -> & Ha). destruct a; [eexists; done | done].
  - intros [t ->]. by exists [], t.
Qed.

Lemma occurs_at_S y s sep i : occurs_at (y :: s) sep (S i) <-> occurs_at s sep i.
Proof.
  split.
  - intros ([|a0 a] & t & Heq & Ha); [done|].
    simplify_eq/=. by exists a, t.
  - intros (a & t & -> & <-). by exists (y :: a), t.
Qed.

#[local] Arguments HasPrefix : simpl never.

Lemma Index_range s sep : -1 <= Index s sep <= zlen s.
Proof.
  induction s as [|y s IH]; simpl.
  - destruct (HasPrefix [] sep); zl.
  - destruct (HasPrefix (y :: s) sep), (Z.ltb_spec (Index s sep) 0); zl.
Qed.

Lemma Index_spec s sep i :
  Index s sep = Z.of_nat i <->
  occurs_at s sep i /\ forall j, (j < i)%nat -> ~ occurs_at s sep j.
Proof.
  revert i; induction s as [|y s IH]; intros i; simpl;
    [destruct (HasPrefix [] sep) eqn:E | destruct (HasPrefix (y :: s) sep) eqn:E].
  - apply occurs_at_0 in E. split.
    + intros ?; assert (i = 0%nat) as -> by lia. split; [done|lia].
    + intros [_ Hmin]. destruct i; [done|]. exfalso; apply (Hmin 0%nat); [lia|done].
  - split; [lia|]. intros [(a & t & Heq & Ha) _].
    destruct a, sep; simplify_eq/=.
  - apply occurs_at_0 in E. split.
    + intros ?; assert (i = 0%nat) as -> by lia. split; [done|lia].
    + intros [_ Hmin]. destruct i; [done|]. exfalso; apply (Hmin 0%nat); [lia|done].
  - destruct i as [|i].
    { split; [destruct (Index s sep <? 0) eqn:?; lia|].
      intros [?%occurs_at_0 _]; congruence. }
    transitivity (Index s sep = Z.of_nat i).
    { pose proof (Index_range s sep). destruct (Index s sep <? 0) eqn:?; lia. }
    rewrite IH, occurs_at_S. split; intros [H1 Hmin]; split; auto.
    + intros [|j] Hj; [rewrite occurs_at_0; congruence|].
      rewrite occurs_at_S; apply Hmin; lia.
    + intros j Hj. rewrite <- (occurs_at_S y). apply Hmin; lia.
Qed.

Lemma Index_None s sep : Index s sep = -1 <-> forall i, ~ occurs_at s sep i.
Proof.
  split.
  - induction s as [|y s IH]; simpl;
      [destruct (HasPrefix [] sep) eqn:E | destruct (HasPrefix (y :: s) sep) eqn:E];
      intros HI i Hi; try lia.
    + destruct Hi as (a & t & Heq & Ha). by destruct a, sep.
    + destruct i as [|i]; [apply occurs_at_0 in Hi; congruence|].
      apply occurs_at_S in Hi. revert i Hi. apply IH.
      pose proof (Index_range s sep). destruct (Index s sep <? 0) eqn:?; lia.
  - intros Hno. pose proof (Index_range s sep).
    destruct (Z.eq_dec (Index s sep) (-1)) as [|Hne]; [done|].
    destruct (proj1 (Index_spec s sep (Z.to_nat (Index s sep)))) as [Ho _]; [lia|].
    exfalso; by apply (Hno _ Ho).
Qed.

(** ** strconv.Itoa and the value of a decimal numeral *)

Definition digit (d : Z) : ascii := byte_of (48 + d).

Fixpoint decimal_go (fuel : nat) (n : Z) : bytes :=
  match fuel with
  | O => []
  | S fuel => if n <? 10 then [digit n] else decimal_go fuel (n / 10) ++ [digit (n mod 10)]
  end.

(** The decimal digits of [n >= 0]; a numeral has no more digits than bits. *)
Definition decimal (n : Z) : bytes := decimal_go (S (Z.to_nat (Z.log2 n))) n.

Definition Itoa (z : Z) : bytes :=
  if z <? 0 then "-"%char :: decimal (- z) else decimal z.

(** The value of a numeral, most significant digit first. *)
Definition digits_value (l : bytes) : Z :=
  fold_left (fun acc c => acc * 10 + (byte_val c - 48)) l 0.

Lemma byte_val_of z : 0 <= z < 256 -> byte_val (byte_of z) = z.
Proof.
  intros Hz. unfold byte_val, byte_of. rewrite N_ascii_embedding; [|].
  - rewrite Z.mod_small, Z2N.id by lia. done.
  - rewrite Z.mod_small by lia. lia.
Qed.

Lemma digit_value d : 0 <= d < 10 -> byte_val (digit d) - 48 = d.
Proof. intros. unfold digit. rewrite byte_val_of; lia. Qed.

Lemma digits_value_snoc l c :
  digits_value (l ++ [c]) = digits_value l * 10 + (byte_val c - 48).
Proof. unfold digits_value. by rewrite fold_left_app. Qed.

Lemma decimal_fuel n fuel :
  10 <= n -> Z.log2 n < Z.of_nat (S fuel) -> Z.log2 (n / 10) < Z.of_nat fuel.
Proof.
  intros Hn Hf. enough (Z.log2 (n / 10) < Z.log2 n) by lia.
  assert (Hd : 0 < n / 10) by (apply Z.div_str_pos; lia).
  apply Z.log2_lt_pow2; [done|].
  pose proof (Z.log2_spec n ltac:(lia)) as [_ H2].
  pose proof (Z.mul_div_le n 10 ltac:(lia)).
  rewrite Z.pow_succ_r in H2 by apply Z.log2_nonneg. lia.
Qed.

(** More fuel than bits does not change the numeral. *)
Lemma decimal_go_enough fuel fuel' n :
  0 <= n -> Z.log2 n < Z.of_nat fuel -> Z.log2 n < Z.of_nat fuel' ->
  decimal_go fuel n = decimal_go fuel' n.
Proof.
  revert fuel' n. induction fuel as [|fuel IH]; intros fuel' n Hn Hf Hf';
    pose proof (Z.log2_nonneg n); [lia|].
  destruct fuel' as [|fuel']; [lia|]. simpl. destruct (Z.ltb_spec n 10); [done|].
  rewrite (IH fuel' (n / 10)); [done|by apply Z.div_pos|by apply decimal_fuel..].
Qed.

Lemma decimal_step n : 10 <= n -> decimal n = decimal (n / 10) ++ [digit (n mod 10)].
Proof.
  intros Hn. unfold decimal at 1. cbn [decimal_go].
  rewrite (proj2 (Z.ltb_ge n 10)) by done. f_equal. unfold decimal.
  pose proof (Z.log2_nonneg n). pose proof (Z.log2_nonneg (n / 10)).
  pose proof (decimal_fuel n (Z.to_nat (Z.log2 n)) Hn ltac:(lia)).
  apply decimal_go_enough; [by apply Z.div_pos; lia|lia|lia].
Qed.

Lemma decimal_small n : 0 <= n < 10 -> decimal n = [digit n].
Proof. intros Hn. unfold decimal. cbn [decimal_go]. by rewrite (proj2 (Z.ltb_lt n 10)) by lia. Qed.

(** Induction over the decimal digits of a number. *)
Lemma decimal_ind (P : Z -> Prop) :
  (forall n, 0 <= n < 10 -> P n) -> (forall n, 10 <= n -> P (n / 10) -> P n) ->
  forall n, 0 <= n -> P n.
Proof.
  intros Hs Hstep n Hn. pattern n. revert n Hn. apply Zlt_0_ind. intros n IH Hn.
  destruct (Z.lt_ge_cases n 10); [apply Hs; lia|]. apply Hstep; [done|]. apply IH.
  split; [by apply Z.div_pos; lia|apply Z.div_lt; lia].
Qed.

Lemma digits_value_decimal n : 0 <= n -> digits_value (decimal n) = n.
Proof.
  revert n. apply decimal_ind.
  - intros n Hn. rewrite decimal_small by done. unfold digits_value. simpl.
    rewrite digit_value by lia. done.
  - intros n Hn IH. rewrite decimal_step, digits_value_snoc, IH by done.
    rewrite digit_value by (apply Z.mod_pos_bound; lia).
    pose proof (Z.div_mod n 10 ltac:(lia)). lia.
Qed.

Lemma decimal_inj n m : 0 <= n -> 0 <= m -> decimal n = decimal m -> n = m.
Proof.
  intros Hn Hm Heq. by rewrite <- (digits_value_decimal n Hn), Heq, digits_value_decimal.
Qed.

Lemma decimal_length n k :
  0 <= n < 10 ^ Z.of_nat (S k) -> (length (decimal n) <= S k)%nat.
Proof.
  revert n. induction k as [|k IH]; intros n Hn.
  - rewrite decimal_small by lia. done.
  - destruct (Z.lt_ge_cases n 10); [rewrite decimal_small by lia; simpl; lia|].
    rewrite decimal_step, length_app by done. simpl.
    assert (length (decimal (n / 10)) <= S k)%nat; [|lia]. apply IH.
    split; [by apply Z.div_pos; lia|]. apply Z.div_lt_upper_bound; [lia|].
    rewrite <- Z.pow_succ_r by lia. replace (Z.succ _) with (Z.of_nat (S (S k))) by lia. lia.
Qed.

(** ** strings.Contains, strings.Split, strings.ToLower *)

Definition Contains (s sub : bytes) : bool := 0 <=? Index s sub.

(** [strings.Split(s, sep)] for a non-empty separator; every part but the last
    ends before an occurrence of the separator. *)
Fixpoint Split_go (fuel : nat) (s sep : bytes) : list bytes :=
  match fuel with
  | O => [s]
  | S fuel =>
    let m := Index s sep in
    if m <? 0 then [s]
    else take (Z.to_nat m) s :: Split_go fuel (drop (Z.to_nat m + length sep) s) sep
  end.
Definition Split (s sep : bytes) : list bytes := Split_go (S (length s)) s sep.

Definition is_ascii (c : ascii) : bool := byte_val c <? 128.
Definition lower (c : ascii) : ascii :=
  if (65 <=? byte_val c) && (byte_val c <=? 90) then byte_of (byte_val c + 32) else c.

(** [strings.ToLower]: letter by letter for ASCII; what the Unicode tables do
    to other strings is an argument. *)
Definition ToLower (unicode : bytes -> bytes) (s : bytes) : bytes :=
  if forallb is_ascii s then lower <$> s else unicode s.

Lemma lower_idem c : lower (lower c) = lower c.
Proof. destruct c as [[] [] [] [] [] [] [] []]; reflexivity. Qed.

Lemma is_ascii_lower c : is_ascii c = true -> is_ascii (lower c) = true.
Proof. destruct c as [[] [] [] [] [] [] [] []]; (reflexivity || discriminate). Qed.

(** ** bytes.Fields *)

(** The length of the white-space rune at the front, 0 if there is none. The
    lead bytes of the multi-byte ones are never continuation bytes, so that
    matching them bytewise agrees with decoding UTF-8. *)
Definition space_len (s : bytes) : nat :=
  match s with
  | [] => 0
  | a :: s' =>
    let a := byte_val a in
    if ((9 <=? a)%Z && (a <=? 13)%Z) || (a =? 32)%Z then 1
    else match s' with
    | [] => 0
    | b :: s'' =>
      let b := byte_val b in
      if (a =? 194)%Z && ((b =? 133)%Z || (b =? 160)%Z) then 2          (* U+0085, U+00A0 *)
      else match s'' with
      | [] => 0
      | c :: _ =>
        let c := byte_val c in
        if ((a =? 225) && (b =? 154) && (c =? 128)                      (* U+1680 *)
            || (a =? 226) && (b =? 128) &&                              (* U+2000 to U+200A, *)
               ((128 <=? c) && (c <=? 138) || (c =? 168) ||             (* U+2028, U+2029, *)
                (c =? 169) || (c =? 175))                               (* U+202F *)
            || (a =? 226) && (b =? 129) && (c =? 159)                   (* U+205F *)
            || (a =? 227) && (b =? 128) && (c =? 128))%Z                (* U+3000 *)
        then 3 else 0
      end
    end
  end%nat.

(** The fields of [s], with the bytes [cur] of an unfinished one before it. *)
Fixpoint Fields_go (fuel : nat) (cur s : bytes) : list bytes :=
  let flush rest := match cur with [] => rest | _ => cur :: rest end in
  match fuel with
  | O => flush []
  | S fuel =>
    match s with
    | [] => flush []
    | c :: s' =>
      match space_len s with
      | O => Fields_go fuel (cur ++ [c]) s'
      | n => flush (Fields_go fuel [] (drop n s))
      end
    end
  end.
Definition Fields (s : bytes) : list bytes := Fields_go (S (length s)) [] s.

(** ** strconv.ParseUint, strconv.ParseInt in base 10 *)

Definition is_digit (c : ascii) : bool := (48 <=? byte_val c) && (byte_val c <=? 57).

Definition ParseUint (s : bytes) (bits : Z) : option Z :=
  if bool_decide (s = []) || negb (forallb is_digit s) then None
  else let n := digits_value s in if n <? 2 ^ bits then Some n else None.

Definition ParseInt (s : bytes) (bits : Z) : option Z :=
  match s with
  | "+"%char :: s' => n ← ParseUint s' 64; if n <? 2 ^ (bits - 1) then Some n else None
  | "-"%char :: s' => n ← ParseUint s' 64; if n <=? 2 ^ (bits - 1) then Some (- n) else None
  | s' => n ← ParseUint s' 64; if n <? 2 ^ (bits - 1) then Some n else None
  end.

Lemma Fields_go_nonempty fuel cur s : Forall (fun t => t <> []) (Fields_go fuel cur s).
Proof.
  revert cur s. induction fuel as [|fuel IH]; intros cur s; cbn [Fields_go].
  { destruct cur; repeat constructor. discriminate. }
  destruct s as [|c s]; [destruct cur; repeat constructor; discriminate|].
  destruct (space_len (c :: s)); [apply IH|].
  destruct cur; [apply IH|]. constructor; [discriminate|apply IH].
Qed.

Lemma Fields_nonempty s : Forall (fun t => t <> []) (Fields s).
Proof. apply Fields_go_nonempty. Qed.
