(* ===== verification/Buffer.v ===== *)
(** * buffer.go: the byte buffer of a connection

    [Buffer] is the struct of [buffer.go]; every method is a function that
    passes the struct, in [res] where an expression of the body can panic.
    Slice expressions are checked against the length of the slice; lengths
    and indices are unbounded [Z] (a slice never has 2^63 elements).

    [contents] is what a reader sees, [wf] the representation invariant.
    The file proves what every operation does to [contents], and that the
    buffer implements a FIFO of bytes ([Fifo]) as long as no [Write] falls
    in the window in which [makeSpace] makes less room than was asked for;
    [Write_lossless_iff] is the exact condition. *)

From S2P Require Import Prelude.
From S2P Require Import GoLib.
From stdpp Require Import base list gmap strings.
From Stdlib Require Import ZArith Lia Ascii.
Open Scope Z_scope.

Record Buffer : Type := mkBuffer {
  buf : bytes;
  readIndex : Z;
  writeIndex : Z;
}.
#[export] Instance eta_Buffer : Eta Buffer := fun b =>
  mkBuffer (buf b) (readIndex b) (writeIndex b).

(** What [unix.Readv] answers: an error (with the count it returns), or the
    bytes it stored, in order, in the vectors it was given. *)
Inductive readv_result : Type :=
| RvErr (n : Z) (e : Errno)
| RvOk (data : bytes).

Definition NewBuffer : Buffer :=
  {| buf := replicate 1024 "000"%char; readIndex := 0; writeIndex := 0 |}.

Definition Capacity (b : Buffer) : Z := zlen (buf b).
Definition ReadableBytes (b : Buffer) : Z := writeIndex b - readIndex b.
Definition WritableBytes (b : Buffer) : Z := zlen (buf b) - writeIndex b.

Definition Peek (b : Buffer) : res bytes := slice (buf b) (readIndex b) (writeIndex b).

Definition Advance (n : Z) (b : Buffer) : Buffer := b <| readIndex ::= Z.add n |>.

Definition Reset (n : Z) (b : Buffer) : Buffer :=
  b <| readIndex := 0 |> <| writeIndex := n |>.

Definition makeSpace (n : Z) (b : Buffer) : res Buffer :=
  if WritableBytes b + ReadableBytes b <? n then
    extra ← make_bytes n;
    Ok (b <| buf := buf b ++ extra |>)
  else
    data ← slice (buf b) (readIndex b) (writeIndex b);
    Ok {| buf := gocopy (buf b) data;
          readIndex := 0;
          writeIndex := writeIndex b - readIndex b |}.

Definition ensureWritableBytes (n : Z) (b : Buffer) : res Buffer :=
  if WritableBytes b <? n then makeSpace n b else Ok b.

Definition Write (p : bytes) (b : Buffer) : res (Z * Buffer) :=
  b ← ensureWritableBytes (zlen p) b;
  '(buf', n) ← copy_at (buf b) (writeIndex b) p;
  Ok (n, b <| buf := buf' |> <| writeIndex := writeIndex b + n |>).

(** [Read(p)] with [k = len(p)]: the bytes copied to the front of [p]. *)
Definition Read (k : nat) (b : Buffer) : res (bytes * Buffer) :=
  data ← slice (buf b) (readIndex b) (writeIndex b);
  Ok (take k data, b <| readIndex ::= Z.add (zlen (take k data)) |>).

Definition Next (n : Z) (b : Buffer) : res (bytes * Buffer) :=
  if (n <? 0) || (ReadableBytes b <=? n) then
    ret ← slice (buf b) (readIndex b) (writeIndex b);
    Ok (ret, Reset 0 b)
  else
    ret ← slice (buf b) (readIndex b) (readIndex b + n);
    Ok (ret, b <| readIndex := readIndex b + n |>).

Definition Search (s : bytes) (b : Buffer) : res Z :=
  if (zlen s =? 0) || (ReadableBytes b <? zlen s) then Ok (-1)
  else
    data ← slice (buf b) (readIndex b) (writeIndex b);
    Ok (Index data s).

Definition Shrink (reserve : Z) (b : Buffer) : res Buffer :=
  buf' ← make_bytes (ReadableBytes b + reserve);
  data ← Peek b;
  Ok {| buf := gocopy buf' data; readIndex := 0; writeIndex := zlen data |}.

(** [len(extraBuf)] of [ReadFd]. *)
Definition extraBufLen : Z := 65536.

(** [ReadFd(fd)], with the answer of [unix.Readv] on [buf[writeIndex:]] and
    the 64K [extraBuf]. *)
Definition ReadFd (r : readv_result) (b : Buffer) : res ((Z * option Errno) * Buffer) :=
  let writable := WritableBytes b in
  _ ← slice (buf b) (writeIndex b) (zlen (buf b));
  match r with
  | RvErr n e => Ok ((n, Some e), b)
  | RvOk data =>
    let n := zlen data in
    '(buf', _) ← copy_at (buf b) (writeIndex b) data;
    let b := b <| buf := buf' |> in
    if n <=? writable then
      Ok ((n, None), b <| writeIndex ::= Z.add n |>)
    else
      let b := b <| writeIndex := zlen (buf b) |> in
      if extraBufLen <? n - writable then Panic "slice bounds out of range"
      else
        '(_, b) ← Write (drop (Z.to_nat writable) data) b;
        Ok ((n, None), b)
  end.

(** ** Invariant and abstraction *)

Definition wf (b : Buffer) : Prop :=
  0 <= readIndex b <= writeIndex b /\ writeIndex b <= zlen (buf b).

Definition contents (b : Buffer) : bytes :=
  take (Z.to_nat (writeIndex b - readIndex b)) (drop (Z.to_nat (readIndex b)) (buf b)).

(** How many bytes of a [Write] of [n] bytes the code really stores. *)
Definition accepted (n : Z) (b : Buffer) : Z :=
  if n <=? WritableBytes b then n
  else if WritableBytes b + ReadableBytes b <? n then n
  else Z.min n (readIndex b + WritableBytes b).

(** The abstract contract: a queue of bytes. *)
Module Fifo.
Definition write (p q : bytes) : bytes := q ++ p.
Definition next (n : Z) (q : bytes) : bytes * bytes :=
  if (n <? 0) || (zlen q <=? n) then (q, [])
  else (take (Z.to_nat n) q, drop (Z.to_nat n) q).
Definition read (k : nat) (q : bytes) : bytes * bytes := (take k q, drop k q).
End Fifo.

(** ** Lemmas *)

Section lemmas.
Implicit Types (b : Buffer) (p data : bytes) (n : Z).

Lemma NewBuffer_wf : wf NewBuffer.
Proof. repeat split; vm_compute; discriminate. Qed.

Lemma zlen_contents b : wf b -> zlen (contents b) = ReadableBytes b.
Proof. intros [??]. unfold contents, ReadableBytes. zl. Qed.

Lemma contents_slice b :
  wf b -> slice (buf b) (readIndex b) (writeIndex b) = Ok (contents b).
Proof. intros [??]. by rewrite slice_Ok. Qed.

Lemma Peek_contents b : wf b -> Peek b = Ok (contents b).
Proof. apply contents_slice. Qed.

Lemma contents_take b n :
  wf b -> 0 <= n <= ReadableBytes b ->
  slice (buf b) (readIndex b) (readIndex b + n) = Ok (take (Z.to_nat n) (contents b)).
Proof.
  unfold ReadableBytes; intros [??] ?. rewrite slice_Ok by lia. f_equal.
  unfold contents. rewrite take_take. f_equal; lia.
Qed.

Lemma Advance_contents b n :
  wf b -> 0 <= n <= ReadableBytes b ->
  wf (Advance n b) /\ contents (Advance n b) = drop (Z.to_nat n) (contents b).
Proof.
  unfold wf, ReadableBytes, contents, Advance; simpl; intros [??] ?.
  split; [lia|]. rewrite skipn_firstn_comm, drop_drop. f_equal; [lia|]. f_equal; lia.
Qed.

Lemma Reset0_wf b : wf (Reset 0 b) /\ contents (Reset 0 b) = [].
Proof. unfold wf, contents; simpl. split; [zl|done]. Qed.

(** Unread bytes moved to the front of a buffer that is long enough. *)
Lemma compacted (d data : bytes) (b := mkBuffer (gocopy d data) 0 (zlen data)) :
  (length data <= length d)%nat -> wf b /\ contents b = data.
Proof.
  intros. subst b. unfold wf, contents; simpl. split; [zl|].
  rewrite Z.sub_0_r, drop_0, take_gocopy by zl. apply take_ge. zl.
Qed.

Lemma makeSpace_Ok b n :
  wf b -> WritableBytes b < n ->
  exists b', makeSpace n b = Ok b' /\ wf b' /\ contents b' = contents b /\
    WritableBytes b' = if WritableBytes b + ReadableBytes b <? n
                       then WritableBytes b + n
                       else readIndex b + WritableBytes b.
Proof.
  intros Hwf Hn. pose proof Hwf as [Hr Hw].
  unfold makeSpace. destruct (_ <? n) eqn:E.
  - unfold make_bytes. destruct (n <? 0) eqn:E2; [unfold WritableBytes in *; lia|].
    mred. eexists; split; [done|]. split; [|split].
    + unfold wf; simpl. zl.
    + unfold contents; simpl. rewrite drop_app_le, take_app_le; [done|..].
      * rewrite length_drop. zl.
      * zl.
    + unfold WritableBytes; simpl. zl.
  - rewrite contents_slice by done. mred. eexists; split; [done|].
    change (writeIndex b - readIndex b) with (ReadableBytes b).
    rewrite <- zlen_contents by done.
    destruct (compacted (buf b) (contents b)) as [? ->].
    { pose proof (zlen_contents b Hwf). unfold ReadableBytes in *. zl. }
    split; [done|]. split; [done|].
    unfold WritableBytes; simpl. rewrite zlen_gocopy, zlen_contents by done.
    unfold ReadableBytes. lia.
Qed.

Lemma append_contents b p (n := Z.min (WritableBytes b) (zlen p)) :
  wf b ->
  let b' := b <| buf := take (Z.to_nat (writeIndex b)) (buf b) ++
                          gocopy (drop (Z.to_nat (writeIndex b)) (buf b)) p |>
              <| writeIndex := writeIndex b + n |> in
  wf b' /\ contents b' = contents b ++ take (Z.to_nat n) p /\
  zlen (buf b') = zlen (buf b).
Proof.
  intros [Hr Hw]. subst n. unfold WritableBytes. simpl. split; [|split].
  - unfold wf; simpl. zl.
  - unfold contents; simpl.
    rewrite drop_app_le by (rewrite length_take; zl).
    rewrite skipn_firstn_comm.
    rewrite take_app_ge; rewrite length_take, length_drop; [|zl].
    f_equal; [f_equal; zl|].
    rewrite take_gocopy; [f_equal| |]; rewrite ?length_drop; zl.
  - zl.
Qed.

(** What a [Write] does, on each of its branches. *)
Lemma Write_Ok b p :
  wf b ->
  exists b', Write p b = Ok (accepted (zlen p) b, b') /\ wf b' /\
    contents b' = contents b ++ take (Z.to_nat (accepted (zlen p) b)) p.
Proof.
  intros Hwf. unfold Write, ensureWritableBytes, accepted.
  pose proof (zlen_nonneg p) as Hp.
  assert (Hcp : forall b0, wf b0 ->
    copy_at (buf b0) (writeIndex b0) p =
      Ok (take (Z.to_nat (writeIndex b0)) (buf b0) ++
            gocopy (drop (Z.to_nat (writeIndex b0)) (buf b0)) p,
          Z.min (WritableBytes b0) (zlen p))).
  { intros b0 [??]. by rewrite copy_at_Ok by lia. }
  destruct (Z.ltb_spec (WritableBytes b) (zlen p)) as [Hlt|Hge].
  - destruct (makeSpace_Ok b (zlen p) Hwf Hlt) as (b1 & -> & Hwf1 & Hc1 & Hw1).
    mred. rewrite Hcp by done.
    destruct (append_contents b1 p Hwf1) as (? & Hc & _).
    replace (Z.min (WritableBytes b1) (zlen p)) with
      (if zlen p <=? WritableBytes b then zlen p
       else if WritableBytes b + ReadableBytes b <? zlen p then zlen p
       else Z.min (zlen p) (readIndex b + WritableBytes b)) in *.
    + eexists; split; [done|]. rewrite <- Hc1. auto.
    + destruct Hwf. destruct (Z.leb_spec (zlen p) (WritableBytes b)); [lia|].
      rewrite Hw1. unfold WritableBytes, ReadableBytes in *.
      destruct (_ <? zlen p) eqn:?; lia.
  - mred. rewrite Hcp by done.
    destruct (append_contents b p Hwf) as (? & Hc & _).
    rewrite (proj2 (Z.leb_le _ _)) by lia.
    rewrite Z.min_r in * by lia. eauto.
Qed.

Lemma accepted_range b n : wf b -> 0 <= n -> 0 <= accepted n b <= n.
Proof.
  intros [??] ?. unfold accepted, WritableBytes, ReadableBytes.
  destruct (_ <=? _); [lia|]. destruct (_ <? _); lia.
Qed.

(** Outside the lossy window of [makeSpace] everything is stored. *)
Lemma accepted_all_iff b (p : bytes) :
  wf b ->
  accepted (zlen p) b = zlen p <->
  ~ (WritableBytes b < zlen p <= WritableBytes b + ReadableBytes b
     /\ readIndex b + WritableBytes b < zlen p).
Proof.
  intros Hwf. unfold accepted. destruct (Z.leb_spec (zlen p) (WritableBytes b)); [lia|].
  destruct (Z.ltb_spec (WritableBytes b + ReadableBytes b) (zlen p)); lia.
Qed.

End lemmas.
#[export] Hint Resolve NewBuffer_wf : go.

(** ** Properties *)

(** C24: [Write] stores the whole of [p] (and says so in its result) exactly
    when it is not in the window where the free tail is too short, tail plus
    unread bytes would be long enough, and tail plus the already-read front
    is not: there [makeSpace] compacts instead of growing, and the rest of
    [p] is dropped. *)
Theorem Write_lossless_iff (b : Buffer) (p : bytes) (Hwf : wf b) :
  (exists b', Write p b = Ok (zlen p, b') /\ wf b' /\ contents b' = contents b ++ p)
  <-> ~ (WritableBytes b < zlen p <= WritableBytes b + ReadableBytes b
         /\ readIndex b + WritableBytes b < zlen p).
Proof.
  destruct (Write_Ok b p Hwf) as (b' & HW & Hwf' & Hc).
  pose proof (accepted_range b (zlen p) Hwf (zlen_nonneg p)).
  transitivity (accepted (zlen p) b = zlen p).
  - split.
    + intros (b2 & HW2 & _). rewrite HW in HW2. by injection HW2.
    + intros Hacc. exists b'. rewrite HW, Hc, Hacc. split; [done|]. split; [done|].
      rewrite take_ge; [done|]. zl.
  - by apply accepted_all_iff.
Qed.

(** A buffer of 1024 bytes with 1000 unread ones: 100 more do not fit. *)
Definition nearly_full : Buffer :=
  {| buf := replicate 1024 "000"%char; readIndex := 0; writeIndex := 1000 |}.

Lemma Write_lossless_iff_witness :
  wf nearly_full /\
  ~ (exists b', Write (replicate 100 "x"%char) nearly_full = Ok (100, b') /\ wf b' /\
       contents b' = contents nearly_full ++ replicate 100 "x"%char).
Proof.
  assert (Hwf : wf nearly_full) by (split; [split|]; vm_compute; discriminate).
  split; [exact Hwf|]. intros H.
  apply (proj1 (Write_lossless_iff nearly_full (replicate 100 "x"%char) Hwf) H).
  vm_compute. repeat split; congruence.
Defined.

(** The operations a user performs on a buffer. *)
Inductive BufOp : Type :=
| OpWrite (p : bytes) | OpRead (k : nat) | OpNext (n : Z)
| OpAdvance (n : Z) | OpReset | OpShrink (reserve : Z).

Definition do_op (o : BufOp) (b : Buffer) : res (bytes * Buffer) :=
  match o with
  | OpWrite p => '(_, b) ← Write p b; Ok ([], b)
  | OpRead k => Read k b
  | OpNext n => Next n b
  | OpAdvance n => Ok ([], Advance n b)
  | OpReset => Ok ([], Reset 0 b)
  | OpShrink r => b ← Shrink r b; Ok ([], b)
  end.

Definition spec_op (o : BufOp) (q : bytes) : bytes * bytes :=
  match o with
  | OpWrite p => ([], Fifo.write p q)
  | OpRead k => Fifo.read k q
  | OpNext n => Fifo.next n q
  | OpAdvance n => ([], (Fifo.read (Z.to_nat n) q).2)
  | OpReset => ([], [])
  | OpShrink _ => ([], q)
  end.

Definition op_ok (o : BufOp) (b : Buffer) : Prop :=
  match o with
  | OpWrite p => ~ (WritableBytes b < zlen p <= WritableBytes b + ReadableBytes b
                    /\ readIndex b + WritableBytes b < zlen p)
  | OpAdvance n => 0 <= n <= ReadableBytes b
  | OpShrink r => 0 <= r
  | OpRead _ | OpNext _ | OpReset => True
  end.

(** Run a sequence of operations, collecting what they return. *)
Fixpoint do_ops (os : list BufOp) (b : Buffer) : res (list bytes * Buffer) :=
  match os with
  | [] => Ok ([], b)
  | o :: os => '(out, b) ← do_op o b; '(outs, b) ← do_ops os b; Ok (out :: outs, b)
  end.

Fixpoint spec_ops (os : list BufOp) (q : bytes) : list bytes * bytes :=
  match os with
  | [] => ([], q)
  | o :: os => let '(out, q) := spec_op o q in
               let '(outs, q) := spec_ops os q in (out :: outs, q)
  end.

(** Every operation of the sequence is admissible where it is executed; what
    comes after a panic is not looked at. *)
Fixpoint ops_ok (os : list BufOp) (b : Buffer) : Prop :=
  match os with
  | [] => True
  | o :: os => op_ok o b /\
      match do_op o b with Ok (_, b') => ops_ok os b' | Panic _ => True end
  end.

Lemma do_op_refines o b :
  wf b -> op_ok o b ->
  exists out b', do_op o b = Ok (out, b') /\ wf b' /\
    spec_op o (contents b) = (out, contents b').
Proof.
  intros Hwf Hok. pose proof (zlen_contents b Hwf) as Hlen.
  destruct o as [p|k|n|n| |r]; simpl in *.
  - destruct (Write_Ok b p Hwf) as (b' & -> & ? & Hc). mred.
    do 2 eexists; split; [done|]. split; [done|].
    rewrite Hc, (proj2 (accepted_all_iff b p Hwf) Hok), (take_ge p) by zl. done.
  - unfold Read. rewrite contents_slice by done. mred.
    do 2 eexists; split; [done|].
    destruct (Advance_contents b (zlen (take k (contents b)))) as [? Hc].
    { done. } { rewrite zlen_take, Hlen. unfold ReadableBytes; destruct Hwf; lia. }
    unfold Advance in *. split; [done|]. rewrite Hc. unfold Fifo.read. f_equal.
    rewrite zlen_take. destruct (decide (k <= length (contents b))%nat).
    + f_equal. zl.
    + rewrite !drop_ge; [done|zl|lia].
  - unfold Next, Fifo.next. rewrite Hlen.
    destruct (_ || _) eqn:E.
    + rewrite contents_slice by done. mred. do 2 eexists; split; [done|].
      split; [apply Reset0_wf|]. by rewrite (proj2 (Reset0_wf b)).
    + apply orb_false_iff in E as [??].
      rewrite contents_take by (done || lia). mred.
      destruct (Advance_contents b n Hwf) as [Hw Hc]; [lia|].
      unfold Advance in Hw, Hc. simpl in Hw, Hc. rewrite Z.add_comm in Hw, Hc.
      do 2 eexists; split; [done|]. split; [exact Hw|]. by rewrite <- Hc.
  - destruct (Advance_contents b n Hwf Hok) as [? Hc].
    do 2 eexists; split; [done|]. split; [done|]. by rewrite Hc.
  - do 2 eexists; split; [done|]. split; [apply Reset0_wf|].
    by rewrite (proj2 (Reset0_wf b)).
  - unfold Shrink, make_bytes.
    destruct (Z.ltb_spec (ReadableBytes b + r) 0); [destruct Hwf; unfold ReadableBytes in *; lia|].
    rewrite Peek_contents by done. mred. do 2 eexists; split; [done|].
    destruct (compacted (replicate (Z.to_nat (ReadableBytes b + r)) "000"%char)
                (contents b)) as [? ->]; [rewrite length_replicate; zl|done].
Qed.

(** C4: the buffer implements a FIFO of bytes: for every sequence of
    operations in which writes stay out of the lossy window of [makeSpace],
    [Advance] does not go past the unread bytes and [Shrink] reserves no
    negative room, no operation panics, the invariant is kept, every operation
    returns what the queue returns, and the unread bytes are the queue. *)
Theorem buffer_refines_fifo (os : list BufOp) (b : Buffer)
    (Hwf : wf b) (Hok : ops_ok os b) :
  exists outs b', do_ops os b = Ok (outs, b') /\ wf b' /\
    spec_ops os (contents b) = (outs, contents b').
Proof.
  revert b Hwf Hok. induction os as [|o os IH]; intros b Hwf Hok; simpl.
  { eauto. }
  destruct Hok as [Ho Hos].
  destruct (do_op_refines o b Hwf Ho) as (out & b1 & Hdo & Hwf1 & Hsp).
  rewrite Hdo in *. mred. destruct (IH b1 Hwf1 Hos) as (outs & b2 & -> & Hwf2 & Hsp2).
  rewrite Hsp, Hsp2. eauto 10.
Qed.

Lemma buffer_refines_fifo_witness :
  exists outs b',
    do_ops [OpWrite (B "hello"); OpNext 2; OpWrite (B "!"); OpNext (-1)] NewBuffer
      = Ok (outs, b') /\ wf b' /\
    spec_ops [OpWrite (B "hello"); OpNext 2; OpWrite (B "!"); OpNext (-1)]
      (contents NewBuffer) = (outs, contents b').
Proof.
  apply (buffer_refines_fifo _ NewBuffer NewBuffer_wf).
  vm_compute. repeat split; try congruence; intros [[? ?] ?]; congruence.
Defined.

(** The bytes that [ReadFd] keeps of the [n] it read: all of them when they
    fit the free tail or overflow the unread part; otherwise the tail plus
    what fits in the already-read front. *)
Definition ReadFd_kept (n : Z) (b : Buffer) : Z :=
  let extra := n - WritableBytes b in
  if n <=? WritableBytes b then n
  else if zlen (buf b) - readIndex b <? extra then n
  else WritableBytes b + Z.min extra (readIndex b).

(** C25: [ReadFd] on every answer of [readv]: an error leaves the buffer as it
    was and is returned; otherwise the bytes read are appended to the unread
    ones up to [ReadFd_kept], also when they overflow into the 64K extra
    buffer; the count returned is always the number of bytes read. *)
Theorem ReadFd_functional (b : Buffer) (r : readv_result) (Hwf : wf b)
    (Hr : match r with
          | RvErr _ _ => True
          | RvOk data => zlen data <= WritableBytes b + extraBufLen
          end) :
  match r with
  | RvErr n e => ReadFd r b = Ok ((n, Some e), b)
  | RvOk data =>
    exists b', ReadFd r b = Ok ((zlen data, None), b') /\ wf b' /\
      contents b' = contents b ++ take (Z.to_nat (ReadFd_kept (zlen data) b)) data
  end.
Proof.
  pose proof Hwf as [Hrd Hw]. unfold ReadFd.
  rewrite slice_Ok by lia. mred. destruct r as [n e|data]; [done|].
  rewrite copy_at_Ok by lia.
  destruct (append_contents b data Hwf) as (Hwf1 & Hc1 & Hl1).
  unfold ReadFd_kept.
  destruct (Z.leb_spec (zlen data) (WritableBytes b)) as [Hle|Hgt].
  { rewrite Z.min_r in Hwf1, Hc1 by lia. rewrite Z.add_comm in Hwf1, Hc1.
    eexists; split; [done|]. split; [exact Hwf1|exact Hc1]. }
  rewrite (proj2 (Z.ltb_ge _ _)) by (unfold extraBufLen in *; lia).
  rewrite Z.min_l in Hwf1, Hc1, Hl1 by lia.
  match goal with |- context [Write ?x ?y] => set (b1 := y); set (extra := x) end.
  assert (Heq : b1 = b <| buf := buf b1 |> <| writeIndex := writeIndex b + WritableBytes b |>).
  { subst b1; simpl. f_equal. simpl in Hl1. unfold WritableBytes in *. lia. }
  change (buf b1) with (take (Z.to_nat (writeIndex b)) (buf b) ++
     gocopy (drop (Z.to_nat (writeIndex b)) (buf b)) data) in Heq.
  rewrite <- Heq in Hwf1, Hc1.
  destruct (Write_Ok b1 extra Hwf1) as (b2 & -> & Hwf2 & Hc2).
  eexists; split; [done|]. split; [done|].
  rewrite Hc2, Hc1, <- app_assoc. f_equal.
  assert (Hex : zlen extra = zlen data - WritableBytes b).
  { subst extra. rewrite zlen_drop. unfold WritableBytes in *. lia. }
  assert (accepted (zlen extra) b1 = if zlen (buf b) - readIndex b <? zlen extra
            then zlen extra else Z.min (zlen extra) (readIndex b)) as ->.
  { rewrite Heq. unfold accepted, WritableBytes, ReadableBytes in *. simpl in *.
    rewrite Hl1. destruct (Z.leb_spec (zlen extra) (zlen (buf b) - (writeIndex b + (zlen (buf b) - writeIndex b)))); [lia|].
    destruct (Z.ltb_spec (zlen (buf b) - readIndex b) (zlen extra)) as [?|?];
      [rewrite (proj2 (Z.ltb_lt _ _)) by lia|rewrite (proj2 (Z.ltb_ge _ _)) by lia]; lia. }
  rewrite Hex. subst extra. rewrite take_take_drop. f_equal.
  unfold WritableBytes in *. destruct (_ <? _); lia.
Qed.

Lemma ReadFd_functional_witness :
  exists b', ReadFd (RvOk (B "GET")) NewBuffer = Ok ((3, None), b') /\ wf b' /\
    contents b' = contents NewBuffer ++
                  take (Z.to_nat (ReadFd_kept (zlen (B "GET")) NewBuffer)) (B "GET").
Proof.
  apply (ReadFd_functional NewBuffer (RvOk (B "GET")) NewBuffer_wf).
  vm_compute. discriminate.
Defined.

(** [Search] is [bytes.Index] on the unread bytes. *)
Lemma Search_contents b s : wf b -> s <> [] -> Search s b = Ok (Index (contents b) s).
Proof.
  intros Hwf Hs. unfold Search. pose proof (zlen_contents b Hwf) as Hl.
  rewrite (proj2 (Z.eqb_neq (zlen s) 0)) by (destruct s; [done|zl]). simpl.
  destruct (Z.ltb_spec (ReadableBytes b) (zlen s)) as [Hlt|].
  - f_equal. symmetry. apply Index_None. intros k (a & t & Heq & _). rewrite Heq in Hl. zl.
  - by rewrite contents_slice.
Qed.

(** C36: [Search] finds the first occurrence of a non-empty needle among the
    unread bytes, and answers -1 exactly when there is none (or the needle is
    empty). *)
Theorem Search_functional (b : Buffer) (s : bytes) (Hwf : wf b) :
  exists i, Search s b = Ok i /\
    ((i = -1 /\ (s = [] \/ forall k, ~ occurs_at (contents b) s k)) \/
     (0 <= i /\ s <> [] /\ occurs_at (contents b) s (Z.to_nat i) /\
      forall k, (k < Z.to_nat i)%nat -> ~ occurs_at (contents b) s k)).
Proof.
  destruct (decide (s = [])) as [->|Hs]; [exists (-1); split; [done|]; left; auto|].
  rewrite Search_contents by done. eexists; split; [done|].
  pose proof (Index_range (contents b) s).
  destruct (Z.eq_dec (Index (contents b) s) (-1)) as [Hn|Hn].
  - left; split; [done|]. right. by apply Index_None.
  - right. split; [lia|]. split; [done|]. apply Index_spec. lia.
Qed.

Lemma Search_functional_witness :
  exists i, Search CRLF NewBuffer = Ok i /\
    ((i = -1 /\ (CRLF = [] \/ forall k, ~ occurs_at (contents NewBuffer) CRLF k)) \/
     (0 <= i /\ CRLF <> [] /\ occurs_at (contents NewBuffer) CRLF (Z.to_nat i) /\
      forall k, (k < Z.to_nat i)%nat -> ~ occurs_at (contents NewBuffer) CRLF k)).
Proof. apply (Search_functional NewBuffer CRLF NewBuffer_wf). Defined.
