(* ===== verification/GoHeap.v ===== *)
(** * container/heap, over its interface

    The Go package [container/heap] works on any type that implements
    [heap.Interface] (Len, Less, Swap, Push, Pop). The interface is the class
    [HeapInterface], the algorithms [up], [down], [Push], [Pop] and [Remove]
    are written over it as in the Go sources, and what an implementation
    promises is the class [HeapLaws]. The theorems of this file are proved
    against the laws; [Timer.v] discharges them for the timer queue.

    Loops take a fuel argument and answer a panic when it runs out, so the
    lemmas, which say that an operation returns [Ok], also say that the fuel
    that [Push], [Pop] and [Remove] choose is enough. *)

From S2P Require Import Prelude.
From stdpp Require Import base list gmap strings.
From Stdlib Require Import ZArith Lia.
Open Scope Z_scope.

(** ** Exchanging two elements of a list *)

Definition lswap {A} (i j : nat) (l : list A) : list A :=
  match l !! i, l !! j with
  | Some x, Some y => <[i:=y]> (<[j:=x]> l)
  | _, _ => l
  end.

Section lswap.
Context {A : Type}.
Implicit Types (l : list A) (i j k : nat).

Lemma length_lswap i j l : length (lswap i j l) = length l.
Proof. unfold lswap. repeat case_match; by rewrite ?length_insert. Qed.

Lemma lookup_lswap i j k l :
  (i < length l)%nat -> (j < length l)%nat ->
  lswap i j l !! k = if decide (k = i) then l !! j
                     else if decide (k = j) then l !! i else l !! k.
Proof.
  intros Hi Hj. unfold lswap.
  destruct (lookup_lt_is_Some_2 l i Hi) as [x Hx], (lookup_lt_is_Some_2 l j Hj) as [y Hy].
  rewrite Hx, Hy. destruct (decide (k = i)) as [->|Hki].
  { by rewrite list_lookup_insert_eq by (by rewrite length_insert). }
  rewrite list_lookup_insert_ne by done. destruct (decide (k = j)) as [->|Hkj].
  - by rewrite list_lookup_insert_eq.
  - by rewrite list_lookup_insert_ne.
Qed.

Lemma lswap_Permutation i j l : lswap i j l ≡ₚ l.
Proof.
  unfold lswap. destruct (l !! i) as [x|] eqn:Hx, (l !! j) as [y|] eqn:Hy; try done.
  pose proof (lookup_lt_Some _ _ _ Hx); pose proof (lookup_lt_Some _ _ _ Hy).
  apply Permutation_inj. split; [by rewrite !length_insert|].
  exists (fun k => if decide (k = i) then j else if decide (k = j) then i else k). split.
  - intros k1 k2. repeat case_decide; congruence.
  - intros k. destruct (decide (k = i)) as [->|Hki].
    { by rewrite list_lookup_insert_eq by (by rewrite length_insert). }
    rewrite list_lookup_insert_ne by done. destruct (decide (k = j)) as [->|Hkj].
    + by rewrite list_lookup_insert_eq.
    + by rewrite list_lookup_insert_ne.
Qed.

End lswap.

(** ** The interface and the algorithms *)

Class HeapInterface (S X : Type) : Type := {
  hLen : S -> nat;
  hLess : nat -> nat -> S -> res bool;
  hSwap : nat -> nat -> S -> res S;
  hPush : X -> S -> res S;
  hPop : S -> res (X * S);
}.

Definition parent (j : nat) : nat := ((j - 1) / 2)%nat.

Section algorithms.
Context {S X : Type} `{HI : HeapInterface S X}.

Fixpoint up (fuel j : nat) (h : S) : res S :=
  match fuel with
  | O => Panic "up: out of fuel"
  | Datatypes.S fuel =>
    let i := parent j in
    if (i =? j)%nat then Ok h
    else
      less ← hLess j i h;
      if negb less then Ok h
      else h ← hSwap i j h; up fuel i h
  end.

(** The state and the final [i] of the loop of [down(h, i0, n)]. *)
Fixpoint down_loop (fuel i n : nat) (h : S) : res (nat * S) :=
  match fuel with
  | O => Panic "down: out of fuel"
  | Datatypes.S fuel =>
    let j1 := (2 * i + 1)%nat in
    if (n <=? j1)%nat then Ok (i, h)
    else
      let j2 := (j1 + 1)%nat in
      right ← (if (j2 <? n)%nat then hLess j2 j1 h else Ok false);
      let j := if (right : bool) then j2 else j1 in
      less ← hLess j i h;
      if negb less then Ok (i, h)
      else h ← hSwap i j h; down_loop fuel j n h
  end.

Definition down (i0 n : nat) (h : S) : res (bool * S) :=
  '(i, h) ← down_loop (Datatypes.S n) i0 n h; Ok ((i0 <? i)%nat, h).

Definition Push (x : X) (h : S) : res S :=
  h ← hPush x h; let n := (hLen h - 1)%nat in up (Datatypes.S n) n h.

Definition Pop (h : S) : res (X * S) :=
  let n := (hLen h - 1)%nat in
  h ← hSwap 0 n h;
  '(_, h) ← down 0 n h;
  hPop h.

Definition Remove (i : nat) (h : S) : res (X * S) :=
  let n := (hLen h - 1)%nat in
  h ← (if (n =? i)%nat then Ok h
       else
         h ← hSwap i n h;
         '(moved, h) ← down i n h;
         if (moved : bool) then Ok h else up (Datatypes.S i) i h);
  hPop h.

End algorithms.

(** ** What an implementation promises

    [view] is the slice of entries, [key] their priority; ties between equal
    keys are broken by position. [frame] relates states that differ only in
    what the heap may change. *)

Class HeapLaws (S X E : Type) `{HI : HeapInterface S X}
    (view : S -> list E) (key : E -> Z) (elem : E -> X)
    (inv : S -> Prop) (pushable : X -> E -> S -> Prop) (frame : S -> S -> Prop) : Prop := {
  law_refl s : frame s s;
  law_trans s1 s2 s3 : frame s1 s2 -> frame s2 s3 -> frame s1 s3;
  law_len s : inv s -> hLen s = length (view s);
  law_less s i j x y :
    inv s -> view s !! i = Some x -> view s !! j = Some y ->
    hLess i j s = Ok ((key x <? key y) || ((key x =? key y) && (i <? j)%nat));
  law_swap s i j :
    inv s -> (i < length (view s))%nat -> (j < length (view s))%nat ->
    exists s', hSwap i j s = Ok s' /\ inv s' /\ view s' = lswap i j (view s) /\ frame s s';
  law_push s x e :
    inv s -> pushable x e s ->
    exists s', hPush x s = Ok s' /\ inv s' /\ view s' = view s ++ [e] /\ frame s s';
  law_pop s l e :
    inv s -> view s = l ++ [e] ->
    exists s', hPop s = Ok (elem e, s') /\ inv s' /\ view s' = l /\ frame s s';
}.

(** ** Heap order *)

Section order.
Context {E : Type} (key : E -> Z).
Implicit Types (l : list E) (i j k n : nat).

Definition le_at l (i j : nat) : Prop :=
  forall x y, l !! i = Some x -> l !! j = Some y -> key x <= key y.

(** The first [n] entries are heap ordered. *)
Definition hordn n l : Prop := forall k, (0 < k < n)%nat -> le_at l (parent k) k.
Definition hord l : Prop := hordn (length l) l.

(** Heap order except around position [i]. *)
Definition hole i n l : Prop :=
  (forall k, (0 < k < n)%nat -> k <> i -> parent k <> i -> le_at l (parent k) k) /\
  (forall k, (0 < k < n)%nat -> parent k = i -> (0 < i)%nat -> le_at l (parent i) k).

(** ... and position [i] may only be smaller than its parent. *)
Definition hole_up i n l : Prop :=
  hole i n l /\ forall k, (0 < k < n)%nat -> parent k = i -> le_at l i k.

Lemma parent_lt k : (0 < k)%nat -> (parent k < k)%nat.
Proof. intros; unfold parent. apply Nat.Div0.div_lt_upper_bound; lia. Qed.

Lemma parent_eq k i : (0 < k)%nat -> parent k = i <-> (k = 2 * i + 1)%nat \/ (k = 2 * i + 2)%nat.
Proof.
  intros Hk; unfold parent. pose proof (Nat.div_mod_eq (k - 1) 2).
  pose proof (Nat.mod_upper_bound (k - 1) 2 ltac:(lia)). lia.
Qed.

Lemma le_at_refl l i : le_at l i i.
Proof. intros x y Hx Hy. simplify_eq. lia. Qed.

Lemma le_at_trans l i j k :
  is_Some (l !! j) -> le_at l i j -> le_at l j k -> le_at l i k.
Proof. intros [y Hy] H1 H2 x z Hx Hz. specialize (H1 _ _ Hx Hy). specialize (H2 _ _ Hy Hz). lia. Qed.

(** The root is minimal. *)
Lemma hordn_root n l k :
  hordn n l -> (k < n)%nat -> (n <= length l)%nat -> le_at l 0 k.
Proof.
  intros Ho Hk Hn. induction k as [k IH] using lt_wf_ind.
  destruct (decide (k = 0)%nat) as [->|]; [apply le_at_refl|].
  pose proof (parent_lt k ltac:(lia)).
  apply (le_at_trans _ _ (parent k)).
  - apply lookup_lt_is_Some_2; lia.
  - apply IH; lia.
  - apply Ho; lia.
Qed.

Lemma hordn_hole i n l : hordn n l -> (n <= length l)%nat -> hole i n l.
Proof.
  intros Ho Hn. split; [auto|]. intros k Hk <- Hi.
  pose proof (parent_lt k ltac:(lia)).
  apply (le_at_trans _ _ (parent k)); [apply lookup_lt_is_Some_2; lia|..]; apply Ho; lia.
Qed.

Lemma hole_up_done i n l :
  hole_up i n l -> ((0 < i)%nat -> le_at l (parent i) i) -> hordn n l.
Proof.
  intros [[H1 H2] H3] Hi k Hk.
  destruct (decide (k = i)) as [->|]; [apply Hi; lia|].
  destruct (decide (parent k = i)) as [<-|]; [by apply H3|]. by apply H1.
Qed.

Lemma le_at_ext l l' a b :
  l !! a = l' !! a -> l !! b = l' !! b -> le_at l a b -> le_at l' a b.
Proof. intros Ha Hb H x y. rewrite <- Ha, <- Hb. apply H. Qed.

Lemma hordn_ext n l l' :
  (forall k, (k < n)%nat -> l !! k = l' !! k) -> hordn n l -> hordn n l'.
Proof.
  intros Heq Ho k Hk. pose proof (parent_lt k ltac:(lia)).
  apply (le_at_ext l); [apply Heq; lia..|by apply Ho].
Qed.

(** Replacing the entry at [i] of a heap (by the one past its end) leaves a hole. *)
Lemma hole_lswap i n l :
  hord l -> length l = S n -> (i < n)%nat -> hole i n (lswap i n l).
Proof.
  intros Ho Hl Hi. unfold hord in Ho.
  assert (Hsw : forall k, (k < n)%nat -> k <> i -> l !! k = lswap i n l !! k).
  { intros k Hk Hki. rewrite lookup_lswap by lia. by rewrite !decide_False by lia. }
  pose proof (hordn_hole i (length l) l Ho ltac:(lia)) as [H1 H2].
  split; intros k Hk.
  - intros Hki Hpk. pose proof (parent_lt k ltac:(lia)).
    apply (le_at_ext l); [apply Hsw; lia..|]. apply H1; lia.
  - intros Hpk Hpos. pose proof (parent_lt k ltac:(lia)). pose proof (parent_lt i Hpos).
    apply (le_at_ext l); [apply Hsw; lia..|]. apply H2; lia.
Qed.

(** One iteration of the loop of [up]. *)
Lemma hole_up_swap j n l :
  (0 < j < n)%nat -> (n <= length l)%nat ->
  hole_up j n l -> le_at l j (parent j) ->
  hole_up (parent j) n (lswap (parent j) j l).
Proof.
  intros Hj Hn [[H1 H2] H3] Hlt.
  pose proof (parent_lt j ltac:(lia)) as Hpj. set (i := parent j) in *.
  assert (Hsw : forall k, lswap i j l !! k = if decide (k = i) then l !! j
            else if decide (k = j) then l !! i else l !! k).
  { intros k; apply lookup_lswap; lia. }
  assert (Hsome : forall k, (k < n)%nat -> is_Some (l !! k)).
  { intros; apply lookup_lt_is_Some_2; lia. }
  assert (Hpi : (0 < i)%nat -> (parent i < i)%nat) by apply parent_lt.
  split; [split|].
  - intros k Hk Hki Hpk x y. rewrite !Hsw. pose proof (parent_lt k ltac:(lia)).
    rewrite (decide_False (P := k = i)), (decide_False (P := parent k = i)) by done.
    destruct (decide (k = j)) as [->|]; [done|].
    destruct (decide (parent k = j)) as [Hpkj|].
    + by apply (H2 k); [lia|..|lia].
    + apply H1; done.
  - intros k Hk Hpk Hi x y. rewrite !Hsw. pose proof (parent_lt k ltac:(lia)).
    rewrite (decide_False (P := parent i = i)), (decide_False (P := parent i = j)) by lia.
    rewrite (decide_False (P := k = i)) by lia.
    assert (le_at l (parent i) i) by (apply H1; lia).
    destruct (decide (k = j)) as [->|]; [auto|].
    apply (le_at_trans _ _ i); [apply Hsome; lia|done|].
    rewrite <- Hpk. apply H1; lia.
  - intros k Hk Hpk x y. rewrite !Hsw. pose proof (parent_lt k ltac:(lia)).
    rewrite (decide_True (P := i = i)), (decide_False (P := k = i)) by lia.
    destruct (decide (k = j)) as [->|]; [auto|].
    apply (le_at_trans _ _ i); [apply Hsome; lia|done|].
    rewrite <- Hpk. apply H1; lia.
Qed.

(** One iteration of the loop of [down]: [j] is the smaller child of [i]. *)
Lemma hole_swap_down i j n l :
  (0 < j < n)%nat -> (n <= length l)%nat -> parent j = i ->
  hole i n l -> le_at l j i ->
  (forall k, (0 < k < n)%nat -> parent k = i -> le_at l j k) ->
  hole j n (lswap i j l) /\ le_at (lswap i j l) i j.
Proof.
  intros Hj Hn <- [H1 H2] Hlt Hmin.
  pose proof (parent_lt j ltac:(lia)) as Hpj. set (i := parent j) in *.
  assert (Hsw : forall k, lswap i j l !! k = if decide (k = i) then l !! j
            else if decide (k = j) then l !! i else l !! k).
  { intros k; apply lookup_lswap; lia. }
  assert (Hpi : (0 < i)%nat -> (parent i < i)%nat) by apply parent_lt.
  split; [split|].
  - intros k Hk Hkj Hpk x y. rewrite !Hsw. pose proof (parent_lt k ltac:(lia)).
    rewrite (decide_False (P := k = j)), (decide_False (P := parent k = j)) by done.
    destruct (decide (k = i)) as [->|].
    { rewrite (decide_False (P := parent i = i)) by lia. apply (H2 j); [lia|done|lia]. }
    destruct (decide (parent k = i)) as [Hpki|].
    + by apply Hmin.
    + apply H1; done.
  - intros k Hk Hpk _ x y. rewrite !Hsw. fold i. pose proof (parent_lt k ltac:(lia)).
    rewrite (decide_True (P := i = i)) by done.
    rewrite (decide_False (P := k = i)), (decide_False (P := k = j)) by lia.
    rewrite <- Hpk. apply H1; lia.
  - intros x y. rewrite !Hsw.
    rewrite (decide_True (P := i = i)), (decide_False (P := j = i)),
      (decide_True (P := j = j)) by lia. apply Hlt.
Qed.

End order.

(** ** The algorithms keep heap order *)

Section correctness.
Context {S X E : Type} {HI : HeapInterface S X}.
Context (view : S -> list E) (key : E -> Z) (elem : E -> X).
Context (inv : S -> Prop) (pushable : X -> E -> S -> Prop) (frame : S -> S -> Prop).
Context {HL : HeapLaws S X E view key elem inv pushable frame}.
Implicit Types (s : S).

(** The only comparisons the algorithms make are [Less(j, i)] with [j > i]:
    there the tie-break by position never answers true. *)
Lemma less_strict s i j x y :
  inv s -> (i < j)%nat -> view s !! i = Some x -> view s !! j = Some y ->
  hLess j i s = Ok (key y <? key x).
Proof.
  intros. erewrite law_less by done.
  rewrite (proj2 (Nat.ltb_ge j i)) by lia. by rewrite andb_false_r, orb_false_r.
Qed.

(** States that a sift may produce from [s]. *)
Record sifted (n : nat) (s s' : S) : Prop := {
  sift_inv : inv s';
  sift_frame : frame s s';
  sift_perm : view s' ≡ₚ view s;
  sift_tail : forall k, (n <= k)%nat -> view s' !! k = view s !! k;
}.

Lemma sifted_refl n s : inv s -> sifted n s s.
Proof. split; [done|apply law_refl|done|done]. Qed.

Lemma sifted_trans n s1 s2 s3 : sifted n s1 s2 -> sifted n s2 s3 -> sifted n s1 s3.
Proof.
  intros [] []; split; [done|by eapply law_trans|by etransitivity|].
  intros k Hk. rewrite sift_tail1, sift_tail0 by done. done.
Qed.

Lemma sifted_len n s s' : sifted n s s' -> length (view s') = length (view s).
Proof. intros []. by apply Permutation_length. Qed.

Lemma swap_sifted n s i j :
  inv s -> (i < n)%nat -> (j < n)%nat -> (n <= length (view s))%nat ->
  exists s', hSwap i j s = Ok s' /\ sifted n s s' /\ view s' = lswap i j (view s).
Proof.
  intros Hinv Hi Hj Hn.
  destruct (law_swap s i j Hinv) as (s' & ? & ? & Hv & ?); [lia..|].
  exists s'; split; [done|]. split; [|done]. split; [done|done|..]; rewrite Hv.
  - apply lswap_Permutation.
  - intros k Hk. rewrite lookup_lswap by lia. by rewrite !decide_False by lia.
Qed.

Lemma up_ok fuel j n s :
  inv s -> (j < fuel)%nat -> (j < n)%nat -> (n <= length (view s))%nat ->
  hole_up key j n (view s) ->
  exists s', up fuel j s = Ok s' /\ sifted n s s' /\ hordn key n (view s').
Proof.
  revert j s. induction fuel as [|fuel IH]; intros j s Hinv Hf Hj Hn Hh; [lia|].
  simpl. destruct (Nat.eqb_spec (parent j) j) as [Hpj|Hpj].
  { exists s. split; [done|]. split; [by apply sifted_refl|].
    apply (hole_up_done key j); [done|]. intros Hpos. pose proof (parent_lt j Hpos). lia. }
  assert (0 < j)%nat as Hpos by (destruct j; [done|lia]).
  pose proof (parent_lt j Hpos) as Hlt.
  destruct (lookup_lt_is_Some_2 (view s) j) as [y Hy]; [lia|].
  destruct (lookup_lt_is_Some_2 (view s) (parent j)) as [x Hx]; [lia|].
  rewrite (less_strict s (parent j) j x y) by done. mred.
  destruct (Z.ltb_spec (key y) (key x)) as [Hless|Hge]; simpl.
  - destruct (swap_sifted n s (parent j) j Hinv) as (s1 & -> & Hs1 & Hv1); [lia..|].
    destruct (IH (parent j) s1) as (s' & -> & Hs' & Ho).
    + by destruct Hs1.
    + lia.
    + lia.
    + by rewrite (sifted_len _ _ _ Hs1).
    + rewrite Hv1. apply hole_up_swap; [lia|lia|done|]. intros a b Ha Hb. simplify_eq. lia.
    + exists s'. split; [done|]. split; [by apply (sifted_trans _ _ s1)|done].
  - exists s. split; [done|]. split; [by apply sifted_refl|].
    apply (hole_up_done key j); [done|]. intros _ a b Ha Hb. simplify_eq. lia.
Qed.

(** The smaller child, as [down] picks it. *)
Lemma pick_child i n s :
  inv s -> (2 * i + 1 < n)%nat -> (n <= length (view s))%nat ->
  exists right,
    (if (2 * i + 1 + 1 <? n)%nat then hLess (2 * i + 1 + 1) (2 * i + 1) s else Ok false)
      = Ok right /\
    let j := if (right : bool) then (2 * i + 1 + 1)%nat else (2 * i + 1)%nat in
    (0 < j < n)%nat /\ parent j = i /\
    forall k, (0 < k < n)%nat -> parent k = i -> le_at key (view s) j k.
Proof.
  intros Hinv Hj Hn.
  destruct (lookup_lt_is_Some_2 (view s) (2 * i + 1)) as [x Hx]; [lia|].
  destruct (Nat.ltb_spec (2 * i + 1 + 1) n) as [H2|H2].
  - destruct (lookup_lt_is_Some_2 (view s) (2 * i + 1 + 1)) as [y Hy]; [lia|].
    rewrite (less_strict s (2 * i + 1) (2 * i + 1 + 1) x y) by (done || lia).
    eexists; split; [done|]. cbn zeta.
    destruct (Z.ltb_spec (key y) (key x)); (split; [lia|]); (split; [apply parent_eq; lia|]);
      intros k Hk Hpk a b Ha Hb;
      (apply parent_eq in Hpk as [->| ->]; [| |lia]);
      try replace (2 * i + 2)%nat with (2 * i + 1 + 1)%nat in Hb by lia;
      simplify_eq; lia.
  - exists false. split; [done|]. cbn zeta. split; [lia|]. split; [apply parent_eq; lia|].
    intros k Hk Hpk. apply parent_eq in Hpk as [->| ->]; [apply le_at_refl|lia|lia].
Qed.

Lemma down_loop_ok fuel i n s :
  inv s -> (n - i < fuel)%nat -> (n <= length (view s))%nat ->
  hole key i n (view s) ->
  exists i' s', down_loop fuel i n s = Ok (i', s') /\ sifted n s s' /\
    hole_up key i' n (view s') /\ (i <= i')%nat /\
    (i' = i -> s' = s) /\ (i < i' -> le_at key (view s') (parent i') i')%nat.
Proof.
  revert i s. induction fuel as [|fuel IH]; intros i s Hinv Hf Hn Hh; [lia|].
  cbn [down_loop]. destruct (Nat.leb_spec n (2 * i + 1)) as [Hge|Hlt].
  { exists i, s. split; [done|]. split; [by apply sifted_refl|]. split; [|split; [lia|split; [done|lia]]].
    split; [done|]. intros k Hk Hpk. apply parent_eq in Hpk; lia. }
  destruct (pick_child i n s Hinv Hlt Hn) as (right & -> & Hpick). mred.
  cbn zeta in Hpick. set (j := if (right : bool) then _ else _) in *.
  destruct Hpick as (Hj & Hpj & Hmin).
  pose proof (parent_lt j ltac:(lia)) as Hij. rewrite Hpj in Hij.
  destruct (lookup_lt_is_Some_2 (view s) j) as [y Hy]; [lia|].
  destruct (lookup_lt_is_Some_2 (view s) i) as [x Hx]; [lia|].
  rewrite (less_strict s i j x y) by done.
  destruct (Z.ltb_spec (key y) (key x)) as [Hless|Hnless]; simpl.
  - destruct (swap_sifted n s i j Hinv) as (s1 & -> & Hs1 & Hv1); [lia..|].
    destruct (hole_swap_down key i j n (view s)) as [Hh1 Hle]; [done|done|done|done| |done|].
    { intros a b Ha Hb. simplify_eq. lia. }
    rewrite <- Hv1 in Hh1, Hle.
    destruct (IH j s1) as (i' & s' & -> & Hs' & Hup & Hji & Heq & Hle').
    { by destruct Hs1. } { lia. } { by rewrite (sifted_len _ _ _ Hs1). } { done. }
    exists i', s'. split; [done|]. split; [by apply (sifted_trans _ _ s1)|].
    split; [done|]. split; [lia|]. split; [lia|]. intros _.
    destruct (decide (i' = j)) as [->|]; [|apply Hle'; lia].
    rewrite (Heq eq_refl), Hpj. exact Hle.
  - exists i, s. split; [done|]. split; [by apply sifted_refl|].
    split; [|split; [lia|split; [done|lia]]]. split; [done|].
    intros k Hk Hpk. apply (le_at_trans _ _ _ j); [by eexists| |by apply Hmin].
    intros a b Ha Hb. simplify_eq. lia.
Qed.

(** [n = h.Len() - 1] after the last swap: the entry to return is last. *)
Lemma pop_last n s e :
  inv s -> length (view s) = Datatypes.S n -> view s !! n = Some e ->
  hordn key n (view s) ->
  exists s', hPop s = Ok (elem e, s') /\ inv s' /\ frame s s' /\
    hord key (view s') /\ view s ≡ₚ e :: view s'.
Proof.
  intros Hinv Hl He Ho.
  assert (Hv : view s = take n (view s) ++ [e]).
  { rewrite <- (take_drop n (view s)) at 1. f_equal.
    rewrite (drop_S _ e) by done. f_equal. apply drop_ge. lia. }
  destruct (law_pop s _ _ Hinv Hv) as (s' & -> & ? & Hv' & ?).
  exists s'. do 3 (split; [done|]). split.
  - unfold hord. rewrite Hv', length_take, Nat.min_l by lia.
    apply (hordn_ext key n (view s)); [|done]. intros k Hk. by rewrite lookup_take_lt.
  - rewrite Hv' at 1. rewrite Hv at 1. by rewrite Permutation_app_comm.
Qed.

Lemma Push_ok s x e :
  inv s -> hord key (view s) -> pushable x e s ->
  exists s', Push x s = Ok s' /\ inv s' /\ frame s s' /\
    hord key (view s') /\ view s' ≡ₚ e :: view s.
Proof.
  intros Hinv Ho Hp. unfold Push.
  destruct (law_push s x e Hinv Hp) as (s1 & -> & Hinv1 & Hv1 & Hf1). mred.
  assert (Hl : length (view s1) = Datatypes.S (length (view s))).
  { rewrite Hv1, length_app. simpl. lia. }
  rewrite (law_len s1) by done. rewrite Hl. simpl. rewrite Nat.sub_0_r.
  destruct (up_ok (Datatypes.S (length (view s))) (length (view s))
              (Datatypes.S (length (view s))) s1) as (s' & Hup & [] & Ho').
  { done. } { lia. } { lia. } { lia. }
  { assert (Hpre : forall k, (0 < k < Datatypes.S (length (view s)))%nat ->
              parent k <> length (view s)).
    { intros k Hk. pose proof (parent_lt k ltac:(lia)). lia. }
    split; [split|].
    - intros k Hk Hne _. pose proof (parent_lt k ltac:(lia)).
      apply (le_at_ext key (view s)); [rewrite Hv1, lookup_app_l by lia; done..|].
      apply Ho. lia.
    - intros k Hk Hpk. by destruct (Hpre k Hk).
    - intros k Hk Hpk. by destruct (Hpre k Hk). }
  exists s'. split; [done|]. split; [done|]. split; [by eapply law_trans|]. split.
  - unfold hord. by rewrite (Permutation_length sift_perm0), Hl.
  - rewrite sift_perm0, Hv1. by rewrite Permutation_app_comm.
Qed.

(** [down] after an entry was moved into position [i]: ordered if it moved. *)
Lemma down_ok i n s :
  inv s -> (n <= length (view s))%nat -> hole key i n (view s) ->
  exists moved s', down i n s = Ok (moved, s') /\ sifted n s s' /\
    (moved = false -> s' = s /\ hole_up key i n (view s)) /\
    (moved = true \/ i = 0%nat -> hordn key n (view s')).
Proof.
  intros Hinv Hn Hh. unfold down.
  destruct (down_loop_ok (Datatypes.S n) i n s Hinv ltac:(lia) Hn Hh)
    as (i' & s' & -> & Hs & Hup & Hle & Heq & Hord). mred.
  do 2 eexists; split; [done|]. split; [done|]. split.
  - intros Hm%Nat.ltb_ge. assert (i' = i) as -> by lia.
    rewrite (Heq eq_refl) in *. done.
  - intros [Hm%Nat.ltb_lt| ->].
    + apply (hole_up_done key i'); [done|]. intros _. apply Hord. lia.
    + apply (hole_up_done key i'); [done|]. intros. apply Hord. lia.
Qed.

Lemma Pop_ok s top rest :
  inv s -> hord key (view s) -> view s = top :: rest ->
  exists s', Pop s = Ok (elem top, s') /\ inv s' /\ frame s s' /\
    hord key (view s') /\ view s ≡ₚ top :: view s' /\
    Forall (fun e => key top <= key e) (view s).
Proof.
  intros Hinv Ho Hv. unfold Pop. rewrite (law_len s) by done.
  assert (Hl : length (view s) = Datatypes.S (length rest)) by (by rewrite Hv).
  rewrite Hl. simpl. rewrite Nat.sub_0_r. set (n := length rest) in *.
  destruct (law_swap s 0 n Hinv) as (s1 & -> & Hinv1 & Hv1 & Hf1); [lia..|]. mred.
  assert (Hl1 : length (view s1) = Datatypes.S n) by (by rewrite Hv1, length_lswap).
  destruct (down_ok 0 n s1) as (moved & s2 & -> & Hs2 & _ & Ho2).
  { done. } { lia. }
  { destruct (decide (n = 0)%nat) as [->|Hn0].
    { split; intros; lia. }
    rewrite Hv1. apply hole_lswap; [done|done|lia]. }
  pose proof (sifted_len _ _ _ Hs2) as Hl2. destruct Hs2.
  assert (He : view s2 !! n = Some top).
  { rewrite sift_tail0 by lia. rewrite Hv1, lookup_lswap by lia.
    destruct (decide (n = 0)%nat) as [->|]; [by rewrite Hv|].
    by rewrite decide_True by done; rewrite Hv. }
  destruct (pop_last n s2 top) as (s3 & -> & ? & ? & ? & Hp3); [done|lia|done|auto|].
  exists s3. split; [done|]. split; [done|].
  split; [do 2 (eapply law_trans; [done|]); done|]. split; [done|]. split.
  - rewrite <- Hp3, sift_perm0, Hv1. by rewrite lswap_Permutation.
  - apply Forall_lookup. intros k e Hk.
    apply (hordn_root key (length (view s)) (view s) k); [done| |done|by rewrite Hv|done].
    by eapply lookup_lt_Some.
Qed.

Lemma Remove_ok s i e :
  inv s -> hord key (view s) -> view s !! i = Some e ->
  exists s', Remove i s = Ok (elem e, s') /\ inv s' /\ frame s s' /\
    hord key (view s') /\ view s ≡ₚ e :: view s'.
Proof.
  intros Hinv Ho Hi. pose proof (lookup_lt_Some _ _ _ Hi) as Hlt.
  unfold Remove. rewrite (law_len s) by done.
  destruct (length (view s)) as [|n] eqn:Hl; [lia|].
  replace (Datatypes.S n - 1)%nat with n by lia.
  destruct (Nat.eqb_spec n i) as [->|Hne].
  { mred. apply (pop_last i); [done|done|done|]. intros k Hk. apply Ho. lia. }
  destruct (law_swap s i n Hinv) as (s1 & -> & Hinv1 & Hv1 & Hf1); [lia..|]. mred.
  assert (Hl1 : length (view s1) = Datatypes.S n) by (by rewrite Hv1, length_lswap).
  destruct (down_ok i n s1) as (moved & s2 & -> & Hs2 & Hstay & Ho2).
  { done. } { lia. } { rewrite Hv1. apply hole_lswap; [done|done|lia]. }
  assert (exists s3, (if moved then Ok s2 else up (Datatypes.S i) i s2) = Ok s3 /\
            sifted n s1 s3 /\ hordn key n (view s3)) as (s3 & -> & Hs3 & Ho3).
  { destruct moved; [eauto 10|]. destruct (Hstay eq_refl) as [-> Hup].
    destruct (up_ok (Datatypes.S i) i n s1) as (s3 & -> & ? & ?);
      [done|lia|lia|lia|done|eauto]. }
  pose proof (sifted_len _ _ _ Hs3) as Hl3. destruct Hs3.
  destruct (pop_last n s3 e) as (s4 & -> & ? & ? & ? & Hp4); [done|lia| |done|].
  { rewrite sift_tail0 by lia. rewrite Hv1, lookup_lswap by lia.
    by rewrite decide_False, decide_True by lia. }
  exists s4. split; [done|]. split; [done|].
  split; [do 2 (eapply law_trans; [done|]); done|]. split; [done|].
  rewrite <- Hp4, sift_perm0, Hv1. by rewrite lswap_Permutation.
Qed.

End correctness.
