(* ===== verification/World.v ===== *)
(** * The data of the program and the interface to the operating system

    The structs of the Go package, as records; pointers to them are numbers,
    dereferenced in the stores of [World], so that two holders of a pointer
    see the same object. Closures that the package itself makes are the
    constructors of [Callback], [Task], [TimeoutCb] and [CloseCb], with the
    variables they capture; closures of the user of the package are numbers
    interpreted by the class [UserCode].

    System calls (package [golang.org/x/sys/unix] and the clock) are the
    class [Kernel]: functions on an arbitrary type of kernel states. What the
    theorems assume of them is stated where it is used, as classes of laws. *)

From S2P Require Import Prelude.
From S2P Require Import GoLib.
From S2P Require Import Buffer.
From stdpp Require Import base list gmap strings.
From Stdlib Require Import ZArith Lia Ascii.
Open Scope Z_scope.

(** ** Errors and addresses *)

Inductive GoError : Type :=
| Sys (e : Errno)
| ErrUnsupportedProtocol | ErrUnsupportedTCPProtocol
| ErrAcceptSocket | ErrConnNotOpened
| AddrError (err : bytes)
| UserError (n : nat).
#[export] Instance GoError_eq_dec : EqDecision GoError.
Proof. solve_decision. Defined.

(** [unix.Sockaddr] and [net.Addr]: the variants the program handles. *)
Inductive Sockaddr : Type :=
| SockaddrInet4 (port : Z) (addr : bytes)
| SockaddrInet6 (port : Z) (zoneId : Z) (addr : bytes)
| SockaddrUnix (name : bytes)
| SockaddrOther.

Inductive NetAddr : Type :=
| TCPAddr (ip : bytes) (port : Z) (zone : bytes)
| UnixAddr (name : bytes) (net : bytes).

(** ** Closures *)

(** Callbacks of a [Channel]. *)
Inductive Callback : Type :=
| CbTimerQueue (el : nat)          (** [tq.handleRead] *)
| CbWakeup (el : nat)              (** [el.handleRead] *)
| CbConnRead (conn : nat)          (** [conn.handleRead] *)
| CbAcceptor (a : nat)             (** [a.handleRead] *)
| CbConnectorWrite (c : nat)       (** [c.handleWrite] *)
| CbConnectorError (c : nat)       (** [c.handleError] *)
| CbUser (u : nat).
#[export] Instance Callback_eq_dec : EqDecision Callback.
Proof. solve_decision. Defined.

(** [TimeoutCallback] of a timer. *)
Inductive TimeoutCb : Type :=
| TcConnectorStart (c : nat)       (** [c.start] *)
| TcNothing                        (** the empty closure of [TcpClient.Destroy] *)
| TcUser (u : nat).

(** Tasks of [AsyncExecute]. *)
Inductive Task : Type :=
| TaskUser (u : nat)
| TaskCancel (tt : nat)                       (** [timerQueue.cancel] *)
| TaskAddTask0 (el tt : nat)                  (** [AsyncSchedule...] *)
| TaskWriteComplete (conn : nat)
| TaskAsyncWrite (conn : nat) (p : bytes) (cb : option nat)
| TaskShutdownWrite (conn : nat)
| TaskConnectEstablished (conn : nat)
| TaskRemoveConnInLoop (svr conn : nat)
| TaskDestroyAndClose (conn : nat)            (** [removeConnInLoop]'s closure *)
| TaskConnectDestroyed (conn : nat)           (** [TcpClient.removeConn] *)
| TaskListen (a : nat)
| TaskConnectorStart (c : nat)
| TaskConnectorClearCh (c : nat)              (** [func() { c.ch = nil }] *)
| TaskClientSetOnClose (cli conn : nat).      (** [TcpClient.Destroy] *)

(** [onClose] of a connection. *)
Inductive CloseCb : Type :=
| CcServerRemove (svr : nat)       (** [s.removeConn] *)
| CcClientRemove (cli : nat)       (** [c.removeConn] *)
| CcClientDestroy (cli : nat).     (** the closure set by [TcpClient.Destroy] *)

(** ** Structs *)

Record Channel : Type := mkChannel {
  ele : option nat;                (** its position in [activeChannels] *)
  ch_el : nat;
  ch_fd : Z;
  events : Z;
  revents : Z;
  ch_index : Z;
  readCallback : option Callback;
  writeCallback : option Callback;
  errorCallback : option Callback;
  closeCallback : option Callback;
  evtHandling : bool;
}.
#[export] Instance eta_Channel : Eta Channel := fun c =>
  mkChannel (ele c) (ch_el c) (ch_fd c) (events c) (revents c) (ch_index c)
    (readCallback c) (writeCallback c) (errorCallback c) (closeCallback c)
    (evtHandling c).

Record Poller : Type := mkPoller {
  epollFd : Z;
  eventListLen : Z;                (** [len(eventList)] *)
  channelMap : gmap Z nat;
}.
#[export] Instance eta_Poller : Eta Poller := fun p =>
  mkPoller (epollFd p) (eventListLen p) (channelMap p).

Record TimerTask : Type := mkTimerTask {
  tt_tq : nat;                     (** the event loop that owns the queue *)
  expire : Z;                      (** nanoseconds since the epoch *)
  interval : Z;
  tt_repeat : bool;
  tt_cb : TimeoutCb;
  tt_index : Z;
  canceled : bool;
}.
#[export] Instance eta_TimerTask : Eta TimerTask := fun t =>
  mkTimerTask (tt_tq t) (expire t) (interval t) (tt_repeat t) (tt_cb t) (tt_index t)
    (canceled t).

Record Eventloop : Type := mkEventloop {
  el_id : bytes;
  looping : Z;
  quit : Z;
  activeChannels : list nat;
  poller : option Poller;          (** [nil] when [newPoller] failed *)
  timerFd : Z;                     (** [tq.timerFd] *)
  timerFdChannel : nat;            (** [tq.timerFdChannel] *)
  tasks : list nat;                (** [tq.tasks.tasks] *)
  pendingTasks : list Task;
  evtFd : Z;
  wakeupChannel : nat;
  runningPendingTasks : bool;
}.
#[export] Instance eta_Eventloop : Eta Eventloop := fun e =>
  mkEventloop (el_id e) (looping e) (quit e) (activeChannels e) (poller e)
    (timerFd e) (timerFdChannel e) (tasks e) (pendingTasks e) (evtFd e)
    (wakeupChannel e) (runningPendingTasks e).

Inductive ConnState : Type := Connecting | Connected | Disconnecting | Disconnected.
#[export] Instance ConnState_eq_dec : EqDecision ConnState.
Proof. solve_decision. Defined.

Record TcpConn : Type := mkTcpConn {
  c_el : nat;
  c_name : bytes;
  c_so : Z;                        (** [so.fd] *)
  c_ch : nat;
  localAddr : option NetAddr;
  peerAddr : option NetAddr;
  c_state : ConnState;
  onConn : option nat;
  onMsg : option nat;
  onClose : option CloseCb;
  onWriteComplete : option nat;
  inbound : Buffer;
  outbound : Buffer;
  c_ctx : option nat;              (** the word that [SetContext] stores *)
}.
#[export] Instance eta_TcpConn : Eta TcpConn := fun c =>
  mkTcpConn (c_el c) (c_name c) (c_so c) (c_ch c) (localAddr c) (peerAddr c)
    (c_state c) (onConn c) (onMsg c) (onClose c) (onWriteComplete c)
    (inbound c) (outbound c) (c_ctx c).

(** The callback of an acceptor. *)
Inductive AcceptCb : Type := AcServer (svr : nat) | AcUser (u : nat).

Record acceptor : Type := mkAcceptor {
  a_el : nat;
  a_so : Z;
  a_ch : nat;
  a_cb : option AcceptCb;
  a_localAddr : option NetAddr;
  listening : bool;
}.
#[export] Instance eta_acceptor : Eta acceptor := fun a =>
  mkAcceptor (a_el a) (a_so a) (a_ch a) (a_cb a) (a_localAddr a) (listening a).

Record EventloopEngineGroup : Type := mkGroup {
  boss : nat;
  works : list nat;
  engines : list bytes;            (** the ids of the engines *)
  engineCnt : Z;
  g_started : bool;
  g_next : Z;
}.
#[export] Instance eta_group : Eta EventloopEngineGroup := fun g =>
  mkGroup (boss g) (works g) (engines g) (engineCnt g) (g_started g) (g_next g).

Record TcpServer : Type := mkTcpServer {
  s_el : nat;
  s_name : bytes;
  s_addr : bytes;
  s_ac : nat;
  s_group : EventloopEngineGroup;
  s_onConn : option nat;
  s_onMsg : option nat;
  s_onWriteComplete : option nat;
  s_started : bool;
  s_nextConnId : Z;
  connMap : gmap bytes nat;
  s_tcpNoDelay : Z;
  s_keepAlive : Z;
}.
#[export] Instance eta_TcpServer : Eta TcpServer := fun s =>
  mkTcpServer (s_el s) (s_name s) (s_addr s) (s_ac s) (s_group s) (s_onConn s)
    (s_onMsg s) (s_onWriteComplete s) (s_started s) (s_nextConnId s) (connMap s)
    (s_tcpNoDelay s) (s_keepAlive s).

Inductive ConnectState : Type :=
| connectorDisconnected | connectorConnecting | connectorConnected.
#[export] Instance ConnectState_eq_dec : EqDecision ConnectState.
Proof. solve_decision. Defined.

(** [cb] of a connector: [TcpClient.newConn], or a closure of the user. *)
Inductive ConnectCb : Type := KcClient (cli : nat) | KcUser (u : nat).

Record Connector : Type := mkConnector {
  k_el : nat;
  svrAddr : bytes;
  unixSvrAddr : Sockaddr;
  k_connect : bool;
  k_state : ConnectState;
  k_ch : option nat;
  k_cb : option ConnectCb;
  retryDelay : Z;                  (** nanoseconds *)
  k_tt : option nat;
}.
#[export] Instance eta_Connector : Eta Connector := fun c =>
  mkConnector (k_el c) (svrAddr c) (unixSvrAddr c) (k_connect c) (k_state c)
    (k_ch c) (k_cb c) (retryDelay c) (k_tt c).

Record TcpClient : Type := mkTcpClient {
  cl_el : nat;
  cl_connector : nat;
  cl_onConn : option nat;
  cl_onMsg : option nat;
  cl_onWriteComplete : option nat;
  cl_retry : bool;
  cl_connect : bool;               (** [_connect] *)
  cl_nextConnId : Z;
  cl_conn : option nat;
}.
#[export] Instance eta_TcpClient : Eta TcpClient := fun c =>
  mkTcpClient (cl_el c) (cl_connector c) (cl_onConn c) (cl_onMsg c)
    (cl_onWriteComplete c) (cl_retry c) (cl_connect c) (cl_nextConnId c) (cl_conn c).

(** ** The operating system *)

(** An operation of [epoll_ctl]. *)
Inductive CtlOp : Type := EPOLL_CTL_ADD | EPOLL_CTL_MOD | EPOLL_CTL_DEL.

(** A result of a call that returns a descriptor or an error. *)
Abbreviation fd_result := (Z + Errno)%type.

(** The calls the program makes; every one may change the kernel's state.
    A count returned with an error is part of the answer ([k_write]). *)
Class Kernel (K : Type) : Type := {
  k_now : K -> Z * K;                                       (* time.Now *)
  k_write : Z -> bytes -> K -> (Z * option Errno) * K;
  k_readv : Z -> Z -> K -> readv_result * K;                (* fd, room of iov[0] *)
  k_read8 : Z -> K -> option Errno * K;                     (* timerfd, eventfd *)
  k_write8 : Z -> K -> K;                                   (* eventfd += 1 *)
  k_close : Z -> K -> option Errno * K;
  k_shutdown : Z -> K -> option Errno * K;                  (* SHUT_WR *)
  k_epoll_create : K -> fd_result * K;
  k_epoll_ctl : Z -> CtlOp -> Z -> Z -> nat -> K -> option Errno * K;
  k_epoll_wait : Z -> Z -> Z -> K -> (list (Z * nat) + (Z * Errno)) * K;
  k_eventfd : K -> fd_result * K;
  k_timerfd_create : K -> fd_result * K;
  k_timerfd_settime : Z -> Z -> K -> option Errno * K;      (* fd, nanoseconds *)
  k_socket : K -> fd_result * K;
  k_bind : Z -> Sockaddr -> K -> option Errno * K;
  k_listen : Z -> K -> option Errno * K;
  k_accept : Z -> K -> ((Z * Sockaddr) + Errno) * K;
  k_connect_to : Z -> Sockaddr -> K -> option Errno * K;
  k_so_error : Z -> K -> (Z * option Errno) * K;            (* SO_ERROR: value, err *)
  k_getsockname : Z -> K -> (Sockaddr + Errno) * K;
  k_set_reuseaddr : Z -> Z -> K -> option Errno * K;
  k_set_nodelay : Z -> Z -> K -> option Errno * K;
}.

Record World (K : Type) : Type := mkWorld {
  w_k : K;
  w_els : gmap nat Eventloop;
  w_chs : gmap nat Channel;
  w_tts : gmap nat TimerTask;
  w_conns : gmap nat TcpConn;
  w_accs : gmap nat acceptor;
  w_svrs : gmap nat TcpServer;
  w_ctors : gmap nat Connector;
  w_clis : gmap nat TcpClient;
}.
Arguments mkWorld {K} _ _ _ _ _ _ _ _ _.
Arguments w_k {K} _.
Arguments w_els {K} _.
Arguments w_chs {K} _.
Arguments w_tts {K} _.
Arguments w_conns {K} _.
Arguments w_accs {K} _.
Arguments w_svrs {K} _.
Arguments w_ctors {K} _.
Arguments w_clis {K} _.
#[export] Instance eta_World K : Eta (World K) := fun w =>
  mkWorld (w_k w) (w_els w) (w_chs w) (w_tts w) (w_conns w) (w_accs w) (w_svrs w)
    (w_ctors w) (w_clis w).

(** ** Dereferencing *)

Section deref.
Context {K : Type}.

(** A store of [World]: how to read it and how to replace it. *)
Definition load {V} (store : World K -> gmap nat V) (p : nat) : M (World K) V :=
  fun w => match store w !! p with
           | Some v => Ok (v, w)
           | None => Panic "invalid memory address or nil pointer dereference"
           end.

Definition sys {A} (f : K -> A * K) : M (World K) A :=
  fun w => let '(a, k) := f (w_k w) in Ok (a, w <| w_k := k |>).

Definition set_el (p : nat) (v : Eventloop) : M (World K) unit :=
  modify (fun w => w <| w_els ::= <[p:=v]> |>).
Definition set_ch (p : nat) (v : Channel) : M (World K) unit :=
  modify (fun w => w <| w_chs ::= <[p:=v]> |>).
Definition set_tt (p : nat) (v : TimerTask) : M (World K) unit :=
  modify (fun w => w <| w_tts ::= <[p:=v]> |>).
Definition set_conn (p : nat) (v : TcpConn) : M (World K) unit :=
  modify (fun w => w <| w_conns ::= <[p:=v]> |>).
Definition set_acc (p : nat) (v : acceptor) : M (World K) unit :=
  modify (fun w => w <| w_accs ::= <[p:=v]> |>).
Definition set_svr (p : nat) (v : TcpServer) : M (World K) unit :=
  modify (fun w => w <| w_svrs ::= <[p:=v]> |>).
Definition set_ctor (p : nat) (v : Connector) : M (World K) unit :=
  modify (fun w => w <| w_ctors ::= <[p:=v]> |>).
Definition set_cli (p : nat) (v : TcpClient) : M (World K) unit :=
  modify (fun w => w <| w_clis ::= <[p:=v]> |>).

Definition upd_el (p : nat) (f : Eventloop -> Eventloop) : M (World K) unit :=
  v ← load w_els p; set_el p (f v).
Definition upd_ch (p : nat) (f : Channel -> Channel) : M (World K) unit :=
  v ← load w_chs p; set_ch p (f v).
Definition upd_tt (p : nat) (f : TimerTask -> TimerTask) : M (World K) unit :=
  v ← load w_tts p; set_tt p (f v).
Definition upd_conn (p : nat) (f : TcpConn -> TcpConn) : M (World K) unit :=
  v ← load w_conns p; set_conn p (f v).
Definition upd_acc (p : nat) (f : acceptor -> acceptor) : M (World K) unit :=
  v ← load w_accs p; set_acc p (f v).
Definition upd_svr (p : nat) (f : TcpServer -> TcpServer) : M (World K) unit :=
  v ← load w_svrs p; set_svr p (f v).
Definition upd_ctor (p : nat) (f : Connector -> Connector) : M (World K) unit :=
  v ← load w_ctors p; set_ctor p (f v).
Definition upd_cli (p : nat) (f : TcpClient -> TcpClient) : M (World K) unit :=
  v ← load w_clis p; set_cli p (f v).

Lemma sys_ok {A} (f : K -> A * K) (w : World K) :
  sys f w = Ok (fst (f (w_k w)), w <| w_k := snd (f (w_k w)) |>).
Proof. unfold sys. by destruct (f (w_k w)). Qed.

(** Allocation of a new object: an address not in use. *)
Definition alloc {V} (store : World K -> gmap nat V) : M (World K) nat :=
  fun w => Ok (fresh (dom (store w)), w).

End deref.

(** ** Closures of the user of the package *)

Class UserCode (K : Type) : Type := {
  u_task : nat -> M (World K) unit;                       (* Task, TimeoutCallback *)
  u_event : nat -> M (World K) unit;                      (* channel callbacks *)
  u_conn : nat -> nat -> M (World K) unit;                (* onConn, onWriteComplete *)
  u_msg : nat -> nat -> Z -> M (World K) unit;            (* onMsg *)
  u_async : nat -> nat -> option GoError -> M (World K) (option GoError); (* AsyncCallback *)
  u_accept : nat -> Z -> option NetAddr -> M (World K) unit;
  u_connected : nat -> Z -> M (World K) unit;
}.

(** Symbolic execution of monadic code. *)
Ltac wred :=
  cbv beta iota delta [mbind mret res_bind res_ret M_bind M_ret
    get gets modify panic lift AssertM when Assert
    load sys set_el set_ch set_tt set_conn set_acc set_svr set_ctor set_cli
    upd_el upd_ch upd_tt upd_conn upd_acc upd_svr upd_ctor upd_cli alloc] in *;
  cbn [upd w_k w_els w_chs w_tts w_conns w_accs w_svrs w_ctors w_clis] in *.
