(* ===== verification/Sim.v ===== *)
(** * A small simulated kernel

    A concrete instance of the class [Kernel], used to show that the laws the
    components rely on can hold and to run the program on examples. It keeps
    the interest lists of epoll instances, the bytes written to each
    descriptor, the timers armed, the eventfd counters and the descriptors
    closed; what arrives from outside is scripted. *)

From S2P Require Import Prelude.
From S2P Require Import Buffer.
From S2P Require Import World.
From stdpp Require Import base list gmap strings.
From Stdlib Require Import ZArith Lia Ascii.
Open Scope Z_scope.

Record Sim : Type := mkSim {
  sim_now : Z;
  sim_nextfd : Z;
  sim_epoll : gmap Z (gmap Z (Z * nat));
  sim_sent : gmap Z bytes;
  sim_armed : gmap Z Z;
  sim_evt : gmap Z Z;
  sim_closed : list Z;
  sim_window : Z;                           (** bytes one write accepts; 0: EAGAIN *)
  sim_input : list readv_result;
  sim_ready : list (list (Z * nat));
  sim_accept : list ((Z * Sockaddr) + Errno);
  sim_connect : list (option Errno);
}.
#[export] Instance eta_Sim : Eta Sim := fun s =>
  mkSim (sim_now s) (sim_nextfd s) (sim_epoll s) (sim_sent s) (sim_armed s) (sim_evt s)
    (sim_closed s) (sim_window s) (sim_input s) (sim_ready s) (sim_accept s)
    (sim_connect s).

Definition sim0 : Sim :=
  {| sim_now := 1000000000; sim_nextfd := 3; sim_epoll := ∅; sim_sent := ∅;
     sim_armed := ∅; sim_evt := ∅; sim_closed := []; sim_window := 4;
     sim_input := []; sim_ready := []; sim_accept := []; sim_connect := [] |}.

Definition sim_interest (k : Sim) (ep : Z) : gmap Z (Z * nat) := default ∅ (sim_epoll k !! ep).

Definition sim_sent_on (k : Sim) (fd : Z) : bytes := default [] (sim_sent k !! fd).

Definition sim_set_interest (ep : Z) (m : gmap Z (Z * nat)) (k : Sim) : Sim :=
  k <| sim_epoll ::= <[ep := m]> |>.

Definition sim_ctl (ep : Z) (op : CtlOp) (fd ev : Z) (d : nat) (k : Sim) :
    option Errno * Sim :=
  let m := sim_interest k ep in
  match op, m !! fd with
  | EPOLL_CTL_ADD, None => (None, sim_set_interest ep (<[fd:=(ev, d)]> m) k)
  | EPOLL_CTL_ADD, Some _ => (Some (EOTHER 17), k)
  | EPOLL_CTL_MOD, Some _ => (None, sim_set_interest ep (<[fd:=(ev, d)]> m) k)
  | EPOLL_CTL_DEL, Some _ => (None, sim_set_interest ep (delete fd m) k)
  | _, None => (Some ENOENT, k)
  end.

Definition sim_write (fd : Z) (p : bytes) (k : Sim) : (Z * option Errno) * Sim :=
  if sim_window k =? 0 then ((-1, Some EAGAIN), k)
  else
    let q := take (Z.to_nat (sim_window k)) p in
    ((zlen q, None), k <| sim_sent ::= <[fd := sim_sent_on k fd ++ q]> |>).

(** The descriptors in use by some interest list. *)
Definition sim_watched (k : Sim) : gset Z :=
  ⋃ ((fun x => dom x.2) <$> map_to_list (sim_epoll k)).

Definition sim_newfd (k : Sim) : (Z + Errno) * Sim :=
  let fd := if decide (sim_nextfd k ∈ sim_watched k) then fresh (sim_watched k)
            else sim_nextfd k in
  (inl fd, k <| sim_nextfd := 1 + fd |>).

#[export] Instance SimKernel : Kernel Sim := {|
  k_now k := (sim_now k, k);
  k_write := sim_write;
  k_readv fd _ k :=
    match sim_input k with
    | r :: rs => (r, k <| sim_input := rs |>)
    | [] => (RvErr (-1) EAGAIN, k)
    end;
  k_read8 fd k := (None, k <| sim_evt ::= delete fd |>);
  k_write8 fd k := k <| sim_evt ::= <[fd := 1 + default 0 (sim_evt k !! fd)]> |>;
  k_close fd k := (None, k <| sim_closed ::= cons fd |>);
  k_shutdown fd k := (None, k);
  k_epoll_create k :=
    match sim_newfd k with
    | (inl fd, k) => (inl fd, sim_set_interest fd ∅ k)
    | r => r
    end;
  k_epoll_ctl := sim_ctl;
  k_epoll_wait _ _ _ k :=
    match sim_ready k with
    | r :: rs => (inl r, k <| sim_ready := rs |>)
    | [] => (inl [], k)
    end;
  k_eventfd := sim_newfd;
  k_timerfd_create := sim_newfd;
  k_timerfd_settime fd ns k := (None, k <| sim_armed ::= <[fd := ns]> |>);
  k_socket := sim_newfd;
  k_bind _ _ k := (None, k);
  k_listen _ k := (None, k);
  k_accept _ k :=
    match sim_accept k with
    | r :: rs => (r, k <| sim_accept := rs |>)
    | [] => (inr EAGAIN, k)
    end;
  k_connect_to _ _ k :=
    match sim_connect k with
    | r :: rs => (r, k <| sim_connect := rs |>)
    | [] => (Some EINPROGRESS, k)
    end;
  k_so_error _ k := ((0, None), k);
  k_getsockname _ k := (inl (SockaddrInet4 40000 ["127"; "000"; "000"; "001"]%char), k);
  k_set_reuseaddr _ _ k := (None, k);
  k_set_nodelay _ _ k := (None, k);
|}.

(** A user whose closures do nothing. *)
#[export] Instance NoUser : UserCode Sim := {|
  u_task _ := mret tt;
  u_event _ := mret tt;
  u_conn _ _ := mret tt;
  u_msg _ _ _ := mret tt;
  u_async _ _ e := mret e;
  u_accept _ _ _ := mret tt;
  u_connected _ _ := mret tt;
|}.

Definition world0 : World Sim :=
  mkWorld sim0 ∅ ∅ ∅ ∅ ∅ ∅ ∅ ∅.

Lemma sim_interest_set ep m k : sim_interest (sim_set_interest ep m k) ep = m.
Proof. unfold sim_interest, sim_set_interest; simpl. by rewrite lookup_insert_eq. Qed.

Lemma sim_newfd_unwatched k fd k' :
  sim_newfd k = (inl fd, k') -> sim_epoll k' = sim_epoll k /\ forall ep, sim_interest k ep !! fd = None.
Proof.
  unfold sim_newfd. intros [= <- <-]. split; [done|]. intros ep.
  assert (Hw : forall x y, sim_interest k ep !! x = Some y -> x ∈ sim_watched k).
  { intros x y Hx. unfold sim_interest in Hx. destruct (sim_epoll k !! ep) as [m|] eqn:E; [|done].
    apply elem_of_union_list. exists (dom m). split; [|by eapply elem_of_dom_2].
    apply list_elem_of_fmap. exists (ep, m). split; [done|]. by apply elem_of_map_to_list. }
  destruct (sim_interest k ep !! _) as [y|] eqn:E; [|done]. exfalso. apply Hw in E.
  case_decide; [|done]. by apply (is_fresh (sim_watched k)).
Qed.
