(* ===== verification/Poller.v ===== *)
(** * channel.go, poller.go, epoll.go: channels and the epoll registration

    A [Channel] ties a descriptor to callbacks; the [Poller] of an event loop
    keeps [channelMap] and the interest list of its epoll instance. The
    invariant [poller_inv] says that the three agree: a channel is in
    [channelMap] exactly when its [index] is not [channelNew], and the epoll
    instance watches exactly the channels whose [index] is [channelAdd], with
    their current [events]. Every operation keeps it, and none of the
    assertions of the code fails under it. *)

From S2P Require Import Prelude.
From S2P Require Import World.
From S2P Require Import Sim.
From stdpp Require Import base list gmap strings.
From Stdlib Require Import ZArith Lia.
Open Scope Z_scope.

(** ** Constants *)

Definition POLLIN : Z := 1.
Definition POLLPRI : Z := 2.
Definition POLLOUT : Z := 4.
Definition POLLERR : Z := 8.
Definition POLLHUP : Z := 16.
Definition POLLNVAL : Z := 32.
Definition POLLRDHUP : Z := 8192.

Definition eventRead : Z := Z.lor POLLIN POLLPRI.
Definition eventWrite : Z := POLLOUT.
Definition eventNone : Z := 0.

Definition channelNew : Z := -1.
Definition channelAdd : Z := 1.
Definition channelDel : Z := 2.

Definition has (ev mask : Z) : bool := negb (Z.land ev mask =? 0).

(** ** epoll.go *)

(** [errnoErr]: the boxed values are the errors they box. *)
Definition errnoErr (e : Errno) : GoError :=
  match e with
  | EAGAIN => Sys EAGAIN
  | EINVAL => Sys EINVAL
  | ENOENT => Sys ENOENT
  | e => Sys e
  end.

Section ops.
Context {K : Type} `{!Kernel K}.
Abbreviation W := (World K).

Definition epollWait (epfd n msec : Z) : M W (list (Z * nat) + (Z * GoError)) :=
  r ← sys (k_epoll_wait epfd n msec);
  match r with
  | inl evs => mret (inl evs)
  | inr (np, e) => mret (inr (np, errnoErr e))
  end.

Definition epollCtl (epfd : Z) (op : CtlOp) (fd ev : Z) (data : nat) : M W (option GoError) :=
  r ← sys (k_epoll_ctl epfd op fd ev data);
  mret (errnoErr <$> r).

(** ** poller.go *)

(** [el.poller], which is [nil] when [newPoller] failed. *)
Definition get_poller (el : nat) : M W Poller :=
  e ← load w_els el;
  match poller e with
  | Some p => mret p
  | None => panic "invalid memory address or nil pointer dereference"
  end.

Definition set_poller (el : nat) (p : Poller) : M W unit :=
  upd_el el (fun e => e <| poller := Some p |>).

Definition newPoller : M W (option Poller) :=
  r ← sys k_epoll_create;
  match r with
  | inr _ => mret None
  | inl fd => mret (Some {| epollFd := fd; eventListLen := 16; channelMap := ∅ |})
  end.

(** [(p *Poller) update(op, channel)]; the error is only logged. *)
Definition poller_update (el : nat) (op : CtlOp) (c : nat) : M W unit :=
  p ← get_poller el;
  ch ← load w_chs c;
  _ ← epollCtl (epollFd p) op (ch_fd ch) (events ch) c;
  mret tt.

Definition IsNoneEvent (ch : Channel) : bool := events ch =? eventNone.

Definition poller_updateChannel (el c : nat) : M W unit :=
  p ← get_poller el;
  ch ← load w_chs c;
  let idx := ch_index ch in
  let fd := ch_fd ch in
  if (idx =? channelNew) || (idx =? channelDel) then
    (if idx =? channelNew then
       AssertM (bool_decide (channelMap p !! fd = None)) "channelMap should not have fd" ;;
       set_poller el (p <| channelMap ::= <[fd:=c]> |>)
     else
       AssertM (bool_decide (channelMap p !! fd = Some c)) "channelMap should have fd") ;;
    upd_ch c (fun ch => ch <| ch_index := channelAdd |>) ;;
    poller_update el EPOLL_CTL_ADD c
  else
    AssertM (bool_decide (channelMap p !! fd = Some c)) "channelMap should have fd" ;;
    AssertM (idx =? channelAdd) "channel index should be channelAdd" ;;
    if IsNoneEvent ch then
      poller_update el EPOLL_CTL_DEL c ;;
      upd_ch c (fun ch => ch <| ch_index := channelDel |>)
    else
      poller_update el EPOLL_CTL_MOD c.

Definition poller_removeChannel (el c : nat) : M W unit :=
  p ← get_poller el;
  ch ← load w_chs c;
  let fd := ch_fd ch in
  let idx := ch_index ch in
  AssertM (bool_decide (channelMap p !! fd = Some c)) "channelMap should have fd" ;;
  AssertM ((idx =? channelAdd) || (idx =? channelDel))
    "channel index should be channelAdd or channelDel" ;;
  set_poller el (p <| channelMap ::= delete fd |>) ;;
  (if idx =? channelAdd then poller_update el EPOLL_CTL_DEL c else mret tt) ;;
  upd_ch c (fun ch => ch <| ch_index := channelNew |>).

(** One event of [fillActiveChannels]: [revents], [PushBack], [ele]. *)
Definition activate (el : nat) (ev : Z * nat) : M W unit :=
  e ← load w_els el;
  upd_ch ev.2 (fun ch => ch <| revents := ev.1 |>) ;;
  set_el el (e <| activeChannels := activeChannels e ++ [ev.2] |>) ;;
  upd_ch ev.2 (fun ch => ch <| ele := Some (length (activeChannels e)) |>).

Definition fillActiveChannels (el : nat) (evs : list (Z * nat)) : M W unit :=
  p ← get_poller el;
  AssertM (zlen evs <=? eventListLen p)
    "numEvents should not be greater than len(p.eventList)" ;;
  forM evs (activate el).

(** [if numEvents == len(p.eventList) { p.eventList = make(..., len*2) }] *)
Definition growEventList (el : nat) (numEvents : Z) : M W unit :=
  p ← get_poller el;
  if numEvents =? eventListLen p
  then set_poller el (p <| eventListLen := eventListLen p * 2 |>)
  else mret tt.

Definition poll (el : nat) (timeoutMills : Z) : M W Z :=
  p ← get_poller el;
  r ← epollWait (epollFd p) (eventListLen p) timeoutMills;
  now ← sys k_now;
  match r with
  | inr (numEvents, err) =>
    (* a timeout, EINTR, or an error that is logged: nothing else happens *)
    mret now
  | inl evs =>
    if zlen evs =? 0 then mret now
    else
      fillActiveChannels el evs ;;
      growEventList el (zlen evs) ;;
      mret now
  end.

(** ** eventloop.go: the calls that go to the poller *)

Definition el_updateChannel (el c : nat) : M W unit := poller_updateChannel el c.
Definition el_removeChannel (el c : nat) : M W unit := poller_removeChannel el c.

(** ** channel.go *)

Definition NewChannel (el : nat) (fd : Z) : M W nat :=
  c ← alloc w_chs;
  set_ch c {| ele := None; ch_el := el; ch_fd := fd; events := eventNone; revents := 0;
              ch_index := channelNew; readCallback := None; writeCallback := None;
              errorCallback := None; closeCallback := None; evtHandling := false |} ;;
  mret c.

Definition setReadCallback (c : nat) (cb : Callback) : M W unit :=
  upd_ch c (fun ch => ch <| readCallback := Some cb |>).
Definition setWriteCallback (c : nat) (cb : Callback) : M W unit :=
  upd_ch c (fun ch => ch <| writeCallback := Some cb |>).
Definition setErrorCallback (c : nat) (cb : Callback) : M W unit :=
  upd_ch c (fun ch => ch <| errorCallback := Some cb |>).
Definition setCloseCallback (c : nat) (cb : Callback) : M W unit :=
  upd_ch c (fun ch => ch <| closeCallback := Some cb |>).

Definition channel_update (c : nat) : M W unit :=
  ch ← load w_chs c; el_updateChannel (ch_el ch) c.

Definition enableReading (c : nat) : M W unit :=
  upd_ch c (fun ch => ch <| events := Z.lor (events ch) eventRead |>) ;; channel_update c.

Definition disableAll (c : nat) : M W unit :=
  upd_ch c (fun ch => ch <| events := eventNone |>) ;; channel_update c.

Definition disableWriting (c : nat) : M W unit :=
  upd_ch c (fun ch => ch <| events := Z.land (events ch) (2 ^ 32 - 1 - eventWrite) |>) ;;
  channel_update c.

Definition enableWriting (c : nat) : M W unit :=
  upd_ch c (fun ch => ch <| events := Z.lor (events ch) eventWrite |>) ;; channel_update c.

Definition isWriting (ch : Channel) : bool := has (events ch) eventWrite.

(** A guarded callback of [handleEvent]: [if cond && c.cb != nil { c.cb() }]. *)
Definition fire (dispatch : Callback -> Z -> M W unit) (c : nat) (ts : Z)
    (cond : Channel -> bool) (cb : Channel -> option Callback) : M W unit :=
  ch ← load w_chs c;
  if cond ch then
    match cb ch with Some f => dispatch f ts | None => mret tt end
  else mret tt.

Definition hup_only (ch : Channel) : bool :=
  has (revents ch) POLLHUP && negb (has (revents ch) POLLIN).

Definition handleEvent (dispatch : Callback -> Z -> M W unit) (c : nat) (ts : Z) : M W unit :=
  upd_ch c (fun ch => ch <| evtHandling := true |>) ;;
  fire dispatch c ts hup_only closeCallback ;;
  fire dispatch c ts (fun ch => has (revents ch) (Z.lor POLLERR POLLNVAL)) errorCallback ;;
  fire dispatch c ts
    (fun ch => has (revents ch) (Z.lor POLLIN (Z.lor POLLPRI POLLRDHUP))) readCallback ;;
  fire dispatch c ts (fun ch => has (revents ch) POLLOUT) writeCallback ;;
  upd_ch c (fun ch => ch <| evtHandling := false |>).

End ops.

(** ** What epoll_ctl(2) promises *)

Class EpollLaws (K : Type) `{!Kernel K} : Type := {
  (** the interest list of an epoll instance: events and user data *)
  interest : K -> Z -> gmap Z (Z * nat);
  law_ctl_add ep fd ev d k :
    interest k ep !! fd = None ->
    exists k', k_epoll_ctl ep EPOLL_CTL_ADD fd ev d k = (None, k') /\
      interest k' ep = <[fd:=(ev, d)]> (interest k ep);
  law_ctl_mod ep fd ev d k :
    is_Some (interest k ep !! fd) ->
    exists k', k_epoll_ctl ep EPOLL_CTL_MOD fd ev d k = (None, k') /\
      interest k' ep = <[fd:=(ev, d)]> (interest k ep);
  law_ctl_del ep fd ev d k :
    is_Some (interest k ep !! fd) ->
    exists k', k_epoll_ctl ep EPOLL_CTL_DEL fd ev d k = (None, k') /\
      interest k' ep = delete fd (interest k ep);
}.

Section invariant.
Context {K : Type} `{!Kernel K} `{!EpollLaws K}.
Abbreviation W := (World K).
Implicit Types (w : W) (p : Poller) (el c : nat) (ch : Channel).

Definition poller_of w el : option Poller := w_els w !! el ≫= poller.

(** What the epoll instance should watch on descriptor [fd]. *)
Definition expected (chs : gmap nat Channel) (m : gmap Z nat) (fd : Z) : option (Z * nat) :=
  c ← m !! fd; ch ← chs !! c;
  if ch_index ch =? channelAdd then Some (events ch, c) else None.

Record poller_ok el p w : Prop := {
  ok_poller : poller_of w el = Some p;
  ok_map fd c : channelMap p !! fd = Some c ->
    exists ch, w_chs w !! c = Some ch /\ ch_fd ch = fd /\ ch_el ch = el /\
      (ch_index ch = channelAdd \/ ch_index ch = channelDel);
  ok_chan c ch : w_chs w !! c = Some ch -> ch_el ch = el ->
    ch_index ch = channelNew \/ channelMap p !! ch_fd ch = Some c;
  ok_reg fd : interest (w_k w) (epollFd p) !! fd = expected (w_chs w) (channelMap p) fd;
}.
Definition poller_inv el w : Prop := exists p, poller_ok el p w.

(** Everything except channel [c], the poller of [el] and the kernel is as it was. *)
Record chan_frame el c w w' : Prop := {
  cf_els i : i <> el -> w_els w' !! i = w_els w !! i;
  cf_el (e : Eventloop) : w_els w !! el = Some e ->
    exists po : option Poller, w_els w' !! el = Some (e <| poller := po |>);
  cf_chs i : i <> c -> w_chs w' !! i = w_chs w !! i;
  cf_tts : w_tts w' = w_tts w;
  cf_conns : w_conns w' = w_conns w;
  cf_accs : w_accs w' = w_accs w;
  cf_svrs : w_svrs w' = w_svrs w;
  cf_ctors : w_ctors w' = w_ctors w;
  cf_clis : w_clis w' = w_clis w;
}.

(** The [index] of a channel after an update with the given events. *)
Definition next_index ch ev : Z :=
  if ch_index ch =? channelAdd then (if ev =? eventNone then channelDel else channelAdd)
  else channelAdd.

Lemma poller_of_inv w el p :
  poller_of w el = Some p <-> exists e, w_els w !! el = Some e /\ poller e = Some p.
Proof.
  unfold poller_of. destruct (w_els w !! el) as [e|]; simpl.
  - split; [by exists e|]. intros (e' & [= <-] & ?). done.
  - split; [done|]. by intros (e' & ? & _).
Qed.

Lemma get_poller_ok w el p :
  poller_of w el = Some p -> get_poller el w = Ok (p, w).
Proof.
  intros (e & He & Hp)%poller_of_inv. unfold get_poller. wred.
  by rewrite He, Hp.
Qed.

Lemma set_poller_ok w el p p' :
  poller_of w el = Some p ->
  exists e, w_els w !! el = Some e /\
    set_poller el p' w = Ok (tt, w <| w_els ::= <[el := e <| poller := Some p' |>]> |>).
Proof.
  intros (e & He & Hp)%poller_of_inv. exists e. split; [done|].
  unfold set_poller. wred. by rewrite He.
Qed.

Lemma upd_ch_ok w c ch (f : Channel -> Channel) :
  w_chs w !! c = Some ch ->
  upd_ch c f w = Ok (tt, w <| w_chs ::= <[c := f ch]> |>).
Proof. intros Hc. wred. by rewrite Hc. Qed.

Lemma load_ch_ok w c ch : w_chs w !! c = Some ch -> load w_chs c w = Ok (ch, w).
Proof. intros Hc. wred. by rewrite Hc. Qed.

(** [update] with an operation the kernel accepts. *)
Lemma poller_update_ok w el op c p ch k' :
  poller_of w el = Some p -> w_chs w !! c = Some ch ->
  k_epoll_ctl (epollFd p) op (ch_fd ch) (events ch) c (w_k w) = (None, k') ->
  poller_update el op c w = Ok (tt, w <| w_k := k' |>).
Proof.
  intros Hp Hc Hk. unfold poller_update, epollCtl. wred.
  rewrite (get_poller_ok w el p Hp). rewrite Hc. by rewrite Hk.
Qed.

(** Two channels of the loop that are registered have different descriptors. *)
Lemma ok_fd_inj el p w c1 c2 ch1 ch2 :
  poller_ok el p w -> w_chs w !! c1 = Some ch1 -> w_chs w !! c2 = Some ch2 ->
  ch_el ch1 = el -> ch_el ch2 = el -> ch_fd ch1 = ch_fd ch2 ->
  ch_index ch1 <> channelNew -> ch_index ch2 <> channelNew -> c1 = c2.
Proof.
  intros [] H1 H2 E1 E2 Efd N1 N2.
  destruct (ok_chan0 _ _ H1 E1) as [|M1]; [done|].
  destruct (ok_chan0 _ _ H2 E2) as [|M2]; [done|].
  rewrite Efd in M1. congruence.
Qed.

Lemma ok_index el p w c ch :
  poller_ok el p w -> w_chs w !! c = Some ch -> ch_el ch = el ->
  ch_index ch = channelNew \/ ch_index ch = channelAdd \/ ch_index ch = channelDel.
Proof.
  intros [] Hc He. destruct (ok_chan0 _ _ Hc He) as [|Hm]; [by left|].
  destruct (ok_map0 _ _ Hm) as (ch' & ? & _ & _ & ?). simplify_eq. by right.
Qed.

(** The invariant after channel [c] was changed to [ch'] and the interest list
    and [channelMap] were changed accordingly on its descriptor. *)
Lemma poller_ok_change el p w c ch p' w' ch' :
  poller_ok el p w -> w_chs w !! c = Some ch -> ch_el ch = el ->
  (forall c0, channelMap p !! ch_fd ch = Some c0 -> c0 = c) ->
  poller_of w' el = Some p' -> epollFd p' = epollFd p ->
  w_chs w' !! c = Some ch' -> (forall i, i <> c -> w_chs w' !! i = w_chs w !! i) ->
  ch_fd ch' = ch_fd ch -> ch_el ch' = el ->
  (ch_index ch' = channelAdd \/ ch_index ch' = channelDel) /\
    channelMap p' = <[ch_fd ch := c]> (channelMap p) \/
  ch_index ch' = channelNew /\ channelMap p' = delete (ch_fd ch) (channelMap p) ->
  interest (w_k w') (epollFd p) =
    (if ch_index ch' =? channelAdd
     then <[ch_fd ch := (events ch', c)]> (interest (w_k w) (epollFd p))
     else delete (ch_fd ch) (interest (w_k w) (epollFd p))) ->
  poller_ok el p' w'.
Proof.
  intros [_ Hmap Hchan Hreg] Hc Hel Hown Hp' Hep Hc' Hframe Hfd' Hel' Hm Hint.
  assert (Hmne : forall fd, fd <> ch_fd ch -> channelMap p' !! fd = channelMap p !! fd).
  { intros fd Hne. destruct Hm as [[_ ->]|[_ ->]];
      [by rewrite lookup_insert_ne|by rewrite lookup_delete_ne]. }
  split; [done|..].
  - intros fd c0 Hl. destruct (decide (fd = ch_fd ch)) as [->|Hne].
    + destruct Hm as [[? Hm]|[_ Hm]]; rewrite Hm in Hl; simplify_map_eq. by exists ch'.
    + rewrite Hmne in Hl by done. destruct (Hmap _ _ Hl) as (ch0 & H0 & ? & ?).
      exists ch0. rewrite Hframe; [done|]. intros ->. congruence.
  - intros c0 ch0 Hl Hel0. destruct (decide (c0 = c)) as [->|Hne].
    + simplify_eq. rewrite Hfd'. destruct Hm as [[_ ->]|[? _]]; [|by left].
      right. by rewrite lookup_insert_eq.
    + rewrite Hframe in Hl by done. destruct (Hchan _ _ Hl Hel0) as [|Hl0]; [by left|].
      destruct (decide (ch_fd ch0 = ch_fd ch)) as [Heq|Hn].
      * rewrite Heq in Hl0. by destruct Hne, (Hown _ Hl0).
      * right. by rewrite Hmne.
  - intros fd. rewrite Hep, Hint. unfold expected. destruct (decide (fd = ch_fd ch)) as [->|Hne].
    + destruct Hm as [[_ ->]|[Hnew ->]].
      * rewrite lookup_insert_eq. simpl. rewrite Hc'. simpl.
        destruct (_ =? _); by simplify_map_eq.
      * rewrite Hnew, lookup_delete_eq. simpl. by rewrite lookup_delete_eq.
    + rewrite Hmne by done. transitivity (interest (w_k w) (epollFd p) !! fd).
      { destruct (_ =? _); by simplify_map_eq. }
      rewrite Hreg. unfold expected. destruct (channelMap p !! fd) as [c0|] eqn:E; [|done].
      simpl. rewrite Hframe; [done|]. intros ->.
      destruct (Hmap _ _ E) as (ch0 & ? & ? & _). congruence.
Qed.

(** Reading the interest list off the invariant. *)
Lemma ok_interest el p w c ch :
  poller_ok el p w -> w_chs w !! c = Some ch -> channelMap p !! ch_fd ch = Some c ->
  interest (w_k w) (epollFd p) !! ch_fd ch =
    if ch_index ch =? channelAdd then Some (events ch, c) else None.
Proof. intros [] Hc Hm. rewrite ok_reg0. unfold expected. rewrite Hm. simpl. by rewrite Hc. Qed.

Lemma ok_interest_free el p w (fd : Z) :
  poller_ok el p w -> channelMap p !! fd = None ->
  interest (w_k w) (epollFd p) !! fd = None.
Proof. intros [] Hm. rewrite ok_reg0. unfold expected. by rewrite Hm. Qed.

Lemma poller_of_set_ch w el c ch :
  poller_of (w <| w_chs ::= <[c:=ch]> |>) el = poller_of w el.
Proof. done. Qed.

Lemma poller_of_set_el w el e p :
  poller_of (w <| w_els ::= <[el := e <| poller := Some p |>]> |>) el = Some p.
Proof. unfold poller_of; simpl. by rewrite lookup_insert_eq. Qed.

Lemma updateChannel_fresh w el p c ch (Hidx : ch_index ch = channelNew) :
  poller_of w el = Some p -> w_chs w !! c = Some ch ->
  channelMap p !! ch_fd ch = None -> interest (w_k w) (epollFd p) !! ch_fd ch = None ->
  exists p' w', poller_updateChannel el c w = Ok (tt, w') /\ chan_frame el c w w' /\
    poller_of w' el = Some p' /\ epollFd p' = epollFd p /\
    channelMap p' = <[ch_fd ch := c]> (channelMap p) /\
    w_chs w' !! c = Some (ch <| ch_index := channelAdd |>) /\
    interest (w_k w') (epollFd p) =
      <[ch_fd ch := (events ch, c)]> (interest (w_k w) (epollFd p)).
Proof.
  intros Hp Hc Hm Hi.
  destruct (law_ctl_add (epollFd p) (ch_fd ch) (events ch) c (w_k w) Hi) as (k' & Hk & Hint).
  destruct (set_poller_ok w el p (p <| channelMap ::= <[ch_fd ch:=c]> |>) Hp) as (e & He & Hset).
  eexists _, _. split; [|split; [|split; [|split; [|split; [|split]]]]].
  - unfold poller_updateChannel.
    eapply bind_Ok_M; [by apply get_poller_ok|]. eapply bind_Ok_M; [by apply load_ch_ok|].
    rewrite Hidx. cbn [orb Z.eqb channelNew Pos.eqb]. eapply bind_Ok_M.
    { eapply bind_Ok_M; [by rewrite bool_decide_eq_true_2|exact Hset]. }
    eapply bind_Ok_M; [apply upd_ch_ok; exact Hc|].
    eapply poller_update_ok; [apply poller_of_set_el|simpl; apply lookup_insert_eq|].
    simpl. exact Hk.
  - split; simpl; try done.
    + intros i Hne. by rewrite lookup_insert_ne.
    + intros e' He'. rewrite lookup_insert_eq. simplify_eq. by eexists.
    + intros i Hne. by rewrite lookup_insert_ne.
  - apply (poller_of_set_el w el e).
  - done.
  - done.
  - simpl. by rewrite lookup_insert_eq.
  - simpl. done.
Qed.

Lemma updateChannel_known w el p c ch :
  poller_of w el = Some p -> w_chs w !! c = Some ch ->
  channelMap p !! ch_fd ch = Some c ->
  ch_index ch = channelAdd /\ is_Some (interest (w_k w) (epollFd p) !! ch_fd ch) \/
  ch_index ch = channelDel /\ interest (w_k w) (epollFd p) !! ch_fd ch = None ->
  exists w', poller_updateChannel el c w = Ok (tt, w') /\ chan_frame el c w w' /\
    poller_of w' el = Some p /\
    w_chs w' !! c = Some (ch <| ch_index := next_index ch (events ch) |>) /\
    interest (w_k w') (epollFd p) =
      (if next_index ch (events ch) =? channelAdd
       then <[ch_fd ch := (events ch, c)]> (interest (w_k w) (epollFd p))
       else delete (ch_fd ch) (interest (w_k w) (epollFd p))).
Proof.
  intros Hp Hc Hm Hcase.
  assert (Hframe : forall k' ch', chan_frame el c w
            (w <| w_chs ::= <[c := ch']> |> <| w_k := k' |>)).
  { intros k' ch'. split; simpl; try done.
    - intros e He. exists (poller e). destruct e; exact He.
    - intros i Hne. by rewrite lookup_insert_ne. }
  assert (Hch : ch_index ch = channelAdd -> w <| w_chs ::= <[c := ch]> |> = w).
  { intros _. destruct w; simpl in *. by rewrite insert_id. }
  unfold next_index. destruct Hcase as [[Hidx Hi]|[Hidx Hi]]; rewrite Hidx; simpl.
  - destruct (Z.eqb_spec (events ch) eventNone) as [Hev|Hev].
    + destruct (law_ctl_del (epollFd p) (ch_fd ch) (events ch) c (w_k w) Hi)
        as (k' & Hk & Hint).
      eexists. split; [|split; [apply (Hframe k' (ch <| ch_index := channelDel |>))|]].
      * unfold poller_updateChannel.
        eapply bind_Ok_M; [by apply get_poller_ok|]. eapply bind_Ok_M; [by apply load_ch_ok|].
        rewrite Hidx. simpl. eapply bind_Ok_M; [by apply AssertM_Ok, bool_decide_eq_true_2|].
        eapply bind_Ok_M; [by apply AssertM_Ok|]. unfold IsNoneEvent.
        rewrite (proj2 (Z.eqb_eq _ _) Hev).
        eapply bind_Ok_M; [by eapply poller_update_ok|]. by rewrite (upd_ch_ok _ _ ch).
      * simpl. by rewrite lookup_insert_eq.
    + destruct (law_ctl_mod (epollFd p) (ch_fd ch) (events ch) c (w_k w) Hi)
        as (k' & Hk & Hint).
      exists (w <| w_chs ::= <[c := ch]> |> <| w_k := k' |>).
      split; [|split; [apply Hframe|]].
      * unfold poller_updateChannel.
        eapply bind_Ok_M; [by apply get_poller_ok|]. eapply bind_Ok_M; [by apply load_ch_ok|].
        rewrite Hidx. simpl. eapply bind_Ok_M; [by apply AssertM_Ok, bool_decide_eq_true_2|].
        eapply bind_Ok_M; [by apply AssertM_Ok|]. unfold IsNoneEvent.
        rewrite (proj2 (Z.eqb_neq _ _) Hev), (poller_update_ok w el _ c p ch k') by done.
        simpl. by rewrite (insert_id (w_chs w)).
      * simpl. rewrite lookup_insert_eq. split; [done|]. split; [|done].
        destruct ch; simpl in *. by subst.
  - destruct (law_ctl_add (epollFd p) (ch_fd ch) (events ch) c (w_k w) Hi)
        as (k' & Hk & Hint).
    eexists. split; [|split; [apply (Hframe k' (ch <| ch_index := channelAdd |>))|]].
    * unfold poller_updateChannel.
      eapply bind_Ok_M; [by apply get_poller_ok|]. eapply bind_Ok_M; [by apply load_ch_ok|].
      rewrite Hidx. simpl. eapply bind_Ok_M; [by apply AssertM_Ok, bool_decide_eq_true_2|].
      eapply bind_Ok_M; [by apply (upd_ch_ok _ _ ch)|].
      by rewrite (poller_update_ok _ el _ c p (ch <| ch_index := channelAdd |>) k')
        by (done || apply lookup_insert_eq).
    * simpl. by rewrite lookup_insert_eq.
Qed.

(** Changing the events of a channel and telling the poller. *)
Definition set_events (c : nat) (f : Z -> Z) : M W unit :=
  upd_ch c (fun ch => ch <| events := f (events ch) |>) ;; channel_update c.

Lemma chan_frame_trans el c w1 w2 w3 :
  chan_frame el c w1 w2 -> chan_frame el c w2 w3 -> chan_frame el c w1 w3.
Proof.
  intros [] []. split; try congruence.
  - intros i Hi. rewrite cf_els1, cf_els0; done.
  - intros e He. destruct (cf_el0 e He) as [po1 He1]. destruct (cf_el1 _ He1) as [po2 He2].
    by exists po2.
  - intros i Hi. rewrite cf_chs1, cf_chs0; done.
Qed.

Lemma chan_frame_set_ch el c w ch :
  chan_frame el c w (w <| w_chs ::= <[c := ch]> |>).
Proof.
  split; simpl; try done.
  - intros e He. exists (poller e). destruct e; exact He.
  - intros i Hne. by rewrite lookup_insert_ne.
Qed.

Lemma set_events_ok el p w c ch (f : Z -> Z) (ev := f (events ch)) :
  poller_ok el p w -> w_chs w !! c = Some ch -> ch_el ch = el ->
  (ch_index ch = channelNew -> channelMap p !! ch_fd ch = None) ->
  exists p' w', set_events c f w = Ok (tt, w') /\ poller_ok el p' w' /\
    chan_frame el c w w' /\ epollFd p' = epollFd p /\
    w_chs w' !! c = Some (ch <| events := ev |> <| ch_index := next_index ch ev |>) /\
    channelMap p' = <[ch_fd ch := c]> (channelMap p).
Proof.
  intros Hok Hc <- Hfree. subst ev. set (el := ch_el ch) in *.
  set (ch1 := ch <| events := f (events ch) |>).
  set (w1 := w <| w_chs ::= <[c := ch1]> |>).
  assert (Hc1 : w_chs w1 !! c = Some ch1) by (simpl; apply lookup_insert_eq).
  assert (Hprog : forall w', poller_updateChannel el c w1 = Ok (tt, w') ->
            set_events c f w = Ok (tt, w')).
  { intros w' Hw'. unfold set_events. eapply bind_Ok_M; [by apply upd_ch_ok|].
    unfold channel_update. eapply bind_Ok_M; [by apply load_ch_ok|]. exact Hw'. }
  assert (Hf1 : chan_frame el c w w1) by apply chan_frame_set_ch.
  pose proof (ok_poller _ _ _ Hok) as Hp.
  destruct (ok_chan _ _ _ Hok _ _ Hc eq_refl) as [Hnew|Hm].
  - destruct (updateChannel_fresh w1 el p c ch1) as
      (p' & w' & Hup & Hf' & Hp' & Hep & Hm' & Hc' & Hint); [done|done|done| | |].
    { by apply Hfree. } { apply (ok_interest_free el p w); [done|by apply Hfree]. }
    exists p', w'. split; [by apply Hprog|]. split; [|split; [by eapply chan_frame_trans|]].
    + apply (poller_ok_change el p w c ch p' w' (ch1 <| ch_index := channelAdd |>)); try done.
      * intros c0. by rewrite Hfree.
      * intros i Hi. rewrite (cf_chs _ _ _ _ Hf'), (cf_chs _ _ _ _ Hf1) by done. done.
      * left. by split; [left|].
    + split; [done|]. split; [|done]. rewrite Hc'. unfold next_index. by rewrite Hnew.
  - pose proof (ok_interest el p w c ch Hok Hc Hm) as Hi.
    destruct (updateChannel_known w1 el p c ch1) as (w' & Hup & Hf' & Hp' & Hc' & Hint);
      [done|done|done| |].
    { destruct (ok_map _ _ _ Hok _ _ Hm) as (ch0 & H0 & _ & _ & [Hx|Hx]); simplify_eq.
      - left. split; [done|]. simpl. rewrite Hi, Hx. by eexists.
      - right. split; [done|]. simpl. by rewrite Hi, Hx. }
    exists p, w'. split; [by apply Hprog|]. split; [|split; [by eapply chan_frame_trans|]].
    + eapply (poller_ok_change el p w c ch p w' _ Hok Hc eq_refl); try done.
      * intros c0 Hc0. congruence.
      * intros i Hi'. rewrite (cf_chs _ _ _ _ Hf'), (cf_chs _ _ _ _ Hf1) by done. done.
      * left. split.
        { simpl. unfold next_index. repeat case_match; auto. }
        by rewrite insert_id.
    + split; [done|]. split; [by rewrite Hc'|]. by rewrite insert_id.
Qed.

Lemma removeChannel_ok el p w c ch :
  poller_ok el p w -> w_chs w !! c = Some ch -> ch_el ch = el ->
  ch_index ch <> channelNew ->
  exists p' w', poller_removeChannel el c w = Ok (tt, w') /\ poller_ok el p' w' /\
    chan_frame el c w w' /\ epollFd p' = epollFd p /\
    channelMap p' = delete (ch_fd ch) (channelMap p) /\
    w_chs w' !! c = Some (ch <| ch_index := channelNew |>).
Proof.
  intros Hok Hc Hel Hnew. pose proof (ok_poller _ _ _ Hok) as Hp.
  destruct (ok_chan _ _ _ Hok _ _ Hc Hel) as [|Hm]; [done|].
  pose proof (ok_interest el p w c ch Hok Hc Hm) as Hi.
  set (p' := p <| channelMap ::= delete (ch_fd ch) |>).
  destruct (set_poller_ok w el p p' Hp) as (e & He & Hset).
  set (w1 := w <| w_els ::= <[el := e <| poller := Some p' |>]> |>) in *.
  assert (Hdel : exists k', (if ch_index ch =? channelAdd
            then poller_update el EPOLL_CTL_DEL c else mret tt) w1 =
              Ok (tt, w1 <| w_k := k' |>) /\
            interest k' (epollFd p) = delete (ch_fd ch) (interest (w_k w) (epollFd p))).
  { destruct (Z.eqb_spec (ch_index ch) channelAdd) as [Hx|Hx].
    - destruct (law_ctl_del (epollFd p) (ch_fd ch) (events ch) c (w_k w)) as (k' & Hk & Hint).
      { rewrite Hi. by eexists. }
      exists k'. split; [|done].
      eapply poller_update_ok; [apply (poller_of_set_el w el e)|done|done].
    - exists (w_k w). split; [done|]. by rewrite delete_id. }
  destruct Hdel as (k' & Hdel & Hint).
  set (ch' := ch <| ch_index := channelNew |>).
  set (w' := w1 <| w_k := k' |> <| w_chs ::= <[c := ch']> |>).
  assert (Hf : chan_frame el c w w').
  { split; simpl; try done.
    - intros i Hne. by rewrite lookup_insert_ne.
    - intros e' He'. rewrite lookup_insert_eq. simplify_eq. by eexists.
    - intros i Hne. by rewrite lookup_insert_ne. }
  assert (Hc' : w_chs w' !! c = Some ch') by (simpl; apply lookup_insert_eq).
  assert (Hp' : poller_of w' el = Some p') by apply (poller_of_set_el w el e).
  exists p', w'. split; [|split; [|auto 10]].
  - unfold poller_removeChannel.
    eapply bind_Ok_M; [by apply get_poller_ok|]. eapply bind_Ok_M; [by apply load_ch_ok|].
    eapply bind_Ok_M; [by apply AssertM_Ok, bool_decide_eq_true_2|].
    eapply bind_Ok_M.
    { apply AssertM_Ok. destruct (ok_index _ _ _ _ _ Hok Hc Hel) as [?|[-> | ->]]; done. }
    eapply bind_Ok_M; [exact Hset|]. eapply bind_Ok_M; [exact Hdel|].
    by apply (upd_ch_ok _ _ ch).
  - apply (poller_ok_change el p w c ch p' w' ch'); try done.
    + intros c0. congruence.
    + by destruct Hf.
    + by right.
Qed.

End invariant.

(** ** Properties *)

(** The operations a component performs on a channel it owns. *)
Inductive ChanOp : Type :=
| OpEnableReading | OpEnableWriting | OpDisableWriting | OpDisableAll | OpRemove.
#[export] Instance ChanOp_eq_dec : EqDecision ChanOp.
Proof. solve_decision. Defined.

Section properties.
Context {K : Type} `{!Kernel K}.
Abbreviation W := (World K).

Definition do_chanop (o : ChanOp) (c : nat) : M W unit :=
  match o with
  | OpEnableReading => enableReading c
  | OpEnableWriting => enableWriting c
  | OpDisableWriting => disableWriting c
  | OpDisableAll => disableAll c
  | OpRemove => ch ← load w_chs c; el_removeChannel (ch_el ch) c
  end.

(** The events the channel asks for afterwards. *)
Definition chanop_events (o : ChanOp) (ev : Z) : Z :=
  match o with
  | OpEnableReading => Z.lor ev eventRead
  | OpEnableWriting => Z.lor ev eventWrite
  | OpDisableWriting => Z.land ev (2 ^ 32 - 1 - eventWrite)
  | OpDisableAll => eventNone
  | OpRemove => ev
  end.

Definition chanop_index (o : ChanOp) (ch : Channel) : Z :=
  match o with
  | OpRemove => channelNew
  | _ => next_index ch (chanop_events o (events ch))
  end.

(** A new channel needs a free descriptor; only a known one can be removed. *)
Definition chanop_ok (o : ChanOp) (p : Poller) (ch : Channel) : Prop :=
  match o with
  | OpRemove => ch_index ch <> channelNew
  | _ => ch_index ch = channelNew -> channelMap p !! ch_fd ch = None
  end.

Lemma do_chanop_set_events (o : ChanOp) (c : nat) :
  o <> OpRemove -> do_chanop o c = set_events c (chanop_events o).
Proof. by destruct o. Qed.

(** C3: every operation on a channel succeeds (no assertion of the poller
    fails), keeps the agreement of channels, [channelMap] and the epoll
    interest list, and leaves the descriptor watched exactly for the events
    the channel now has, or not at all when its index is not [channelAdd]. *)
Theorem channel_ops_keep_registration `{!EpollLaws K} (o : ChanOp) (w : W)
    (el c : nat) (p : Poller) (ch : Channel)
    (Hok : poller_ok el p w) (Hc : w_chs w !! c = Some ch) (Hel : ch_el ch = el)
    (Hpre : chanop_ok o p ch) :
  exists p' w',
    do_chanop o c w = Ok (tt, w') /\ poller_ok el p' w' /\ epollFd p' = epollFd p /\
    w_chs w' !! c = Some (ch <| events := chanop_events o (events ch) |>
                             <| ch_index := chanop_index o ch |>) /\
    interest (w_k w') (epollFd p) !! ch_fd ch =
      if chanop_index o ch =? channelAdd
      then Some (chanop_events o (events ch), c) else None.
Proof.
  assert (Hstep : exists p' w', do_chanop o c w = Ok (tt, w') /\ poller_ok el p' w' /\
    epollFd p' = epollFd p /\
    w_chs w' !! c = Some (ch <| events := chanop_events o (events ch) |>
                             <| ch_index := chanop_index o ch |>)).
  { destruct (decide (o = OpRemove)) as [->|Hne].
    - destruct (removeChannel_ok el p w c ch Hok Hc Hel Hpre)
        as (p' & w' & Hrun & Hok' & _ & Hep & _ & Hc').
      exists p', w'. split; [|split; [done|split; [done|]]].
      + simpl. eapply bind_Ok_M; [by apply load_ch_ok|]. rewrite Hel. exact Hrun.
      + rewrite Hc'. by destruct ch.
    - rewrite do_chanop_set_events by done.
      destruct (set_events_ok el p w c ch (chanop_events o) Hok Hc Hel)
        as (p' & w' & Hrun & Hok' & _ & Hep & Hc' & _); [by destruct o|].
      exists p', w'. do 3 (split; [done|]). rewrite Hc'. by destruct o. }
  destruct Hstep as (p' & w' & Hrun & Hok' & Hep & Hc').
  exists p', w'. do 4 (split; [done|]). rewrite <- Hep.
  set (ch' := ch <| events := _ |> <| ch_index := _ |>) in *.
  change (ch_fd ch) with (ch_fd ch'). destruct (ok_chan _ _ _ Hok' _ _ Hc' Hel) as [Hnew|Hm].
  - simpl in Hnew. rewrite Hnew. simpl. apply ok_interest_free with el; [done|].
    destruct (channelMap p' !! ch_fd ch) as [c0|] eqn:E; [|done].
    destruct (ok_map _ _ _ Hok' _ _ E) as (ch0 & H0 & Hfd0 & Hel0 & Hidx0).
    destruct o; simpl in Hnew; unfold next_index in Hnew; repeat case_match; try done.
    destruct (removeChannel_ok el p w c ch Hok Hc Hel Hpre)
      as (p1 & w1 & Hrun1 & Hok1 & _ & _ & Hm1 & _).
    simpl in Hrun. unfold mbind, M_bind in Hrun. rewrite (load_ch_ok _ _ _ Hc), Hel in Hrun.
    unfold el_removeChannel in Hrun. rewrite Hrun1 in Hrun. injection Hrun as <-.
    pose proof (ok_poller _ _ _ Hok1). pose proof (ok_poller _ _ _ Hok'). simplify_eq.
    rewrite Hm1 in E. by rewrite lookup_delete_eq in E.
  - by apply (ok_interest el p' w' c ch').
Qed.

(** The callbacks that [handleEvent] owes to a channel, in order, by the bits
    of poll(2): IN is bit 0, PRI 1, OUT 2, ERR 3, HUP 4, NVAL 5, RDHUP 13. *)
Definition plan (ch : Channel) : list Callback :=
  let got := Z.testbit (revents ch) in
  (if got 4 && negb (got 0) then option_list (closeCallback ch) else []) ++
  (if got 3 || got 5 then option_list (errorCallback ch) else []) ++
  (if got 0 || got 1 || got 13 then option_list (readCallback ch) else []) ++
  (if got 2 then option_list (writeCallback ch) else []).

(** The masks of the source as bits. *)
Lemma has_bit ev i : 0 <= i -> has ev (2 ^ i) = Z.testbit ev i.
Proof.
  intros Hi. unfold has. destruct (Z.eqb_spec (Z.land ev (2 ^ i)) 0) as [E|E]; simpl.
  - pose proof (f_equal (fun z => Z.testbit z i) E) as H. simpl in H.
    by rewrite Z.land_spec, Z.pow2_bits_true, andb_true_r, Z.bits_0 in H.
  - destruct (Z.testbit ev i) eqn:T; [done|]. destruct E. apply Z.bits_inj'. intros n Hn.
    rewrite Z.land_spec, Z.pow2_bits_eqb, Z.bits_0 by done.
    destruct (Z.eqb_spec i n) as [<-|]; [by rewrite T|apply andb_false_r].
Qed.
Lemma has_lor ev a b : has ev (Z.lor a b) = has ev a || has ev b.
Proof.
  unfold has. rewrite Z.land_lor_distr_r.
  destruct (Z.eqb_spec (Z.land ev a) 0) as [-> |Ha]; simpl; [by rewrite Z.lor_0_l|].
  apply negb_true_iff, Z.eqb_neq. by intros [? _]%Z.lor_eq_0_iff.
Qed.

Lemma plan_masks ch :
  plan ch =
  (if hup_only ch then option_list (closeCallback ch) else []) ++
  (if has (revents ch) (Z.lor POLLERR POLLNVAL) then option_list (errorCallback ch) else []) ++
  (if has (revents ch) (Z.lor POLLIN (Z.lor POLLPRI POLLRDHUP))
   then option_list (readCallback ch) else []) ++
  (if has (revents ch) POLLOUT then option_list (writeCallback ch) else []).
Proof.
  unfold plan, hup_only. rewrite !has_lor.
  change POLLHUP with (2 ^ 4). change POLLIN with (2 ^ 0). change POLLERR with (2 ^ 3).
  change POLLNVAL with (2 ^ 5). change POLLPRI with (2 ^ 1). change POLLRDHUP with (2 ^ 13).
  change POLLOUT with (2 ^ 2). rewrite !has_bit, orb_assoc by lia. done.
Qed.

(** The parts of a channel that [handleEvent] reads. *)
Definition same_callbacks (ch ch' : Channel) : Prop :=
  revents ch' = revents ch /\ closeCallback ch' = closeCallback ch /\
  errorCallback ch' = errorCallback ch /\ readCallback ch' = readCallback ch /\
  writeCallback ch' = writeCallback ch.

(** Channel [c] is still there, with the revents and callbacks of [ch]. *)
Definition sees (c : nat) (ch : Channel) (w : W) : Prop :=
  exists ch', w_chs w !! c = Some ch' /\ same_callbacks ch ch'.

Section handle.
Context (dispatch : Callback -> Z -> M W unit) (c : nat) (ch : Channel) (ts : Z).
Hypothesis Hkeep : forall f w w', sees c ch w -> dispatch f ts w = Ok (tt, w') -> sees c ch w'.

Lemma fire_plan cond cb w :
  (forall ch', same_callbacks ch ch' -> cond ch' = cond ch /\ cb ch' = cb ch) ->
  sees c ch w ->
  fire dispatch c ts cond cb w =
    forM (if cond ch then option_list (cb ch) else []) (fun f => dispatch f ts) w.
Proof.
  intros Hinv (ch' & Hc & Hs). destruct (Hinv ch' Hs) as [Hcond Hcb].
  unfold fire. unfold mbind, M_bind, load. rewrite Hc, Hcond, Hcb.
  destruct (cond ch); [|done]. destruct (cb ch) as [f|]; [|done].
  simpl. unfold mbind, M_bind. by destruct (dispatch f ts w) as [[[] w1]|].
Qed.

Lemma forM_sees l w w' :
  sees c ch w -> forM l (fun f => dispatch f ts) w = Ok (tt, w') -> sees c ch w'.
Proof.
  revert w. induction l as [|f l IH]; intros w Hs; simpl.
  - by intros [= <-].
  - unfold mbind, M_bind. destruct (dispatch f ts w) as [[[] w1]|] eqn:E; [|done].
    apply IH. by eapply Hkeep.
Qed.

End handle.

(** C17: [handleEvent] calls exactly the callbacks that the received events ask
    for and that are set, in the order close, error, read, write: close for a
    hang-up with nothing to read; error for an error or an invalid descriptor;
    read for data, urgent data or the peer's shutdown; write for room to write
    ([plan], by the bits of poll(2)). [evtHandling] is up while they run. The callbacks may do anything except
    replace the callbacks of this channel. *)
Theorem handleEvent_plan (dispatch : Callback -> Z -> M W unit) (c : nat) (ch : Channel)
    (ts : Z) (w : W) (Hc : w_chs w !! c = Some ch)
    (Hkeep : forall f w w', sees c ch w -> dispatch f ts w = Ok (tt, w') -> sees c ch w') :
  handleEvent dispatch c ts w =
    (upd_ch c (fun ch => ch <| evtHandling := true |>) ;;
     forM (plan ch) (fun f => dispatch f ts) ;;
     upd_ch c (fun ch => ch <| evtHandling := false |>)) w.
Proof.
  rewrite plan_masks. unfold handleEvent. unfold mbind at 1 6, M_bind at 1 6.
  rewrite (upd_ch_ok w c ch) by done.
  set (w1 := w <| w_chs ::= _ |>).
  assert (Hs : sees c ch w1).
  { exists (ch <| evtHandling := true |>). simpl. by rewrite lookup_insert_eq. }
  clearbody w1. clear Hc.
  assert (Hstep : forall cond cb (rest : list Callback) (k : M W unit) w,
    (forall ch', same_callbacks ch ch' -> cond ch' = cond ch /\ cb ch' = cb ch) ->
    sees c ch w ->
    (forall w', sees c ch w' -> k w' = (forM rest (fun f => dispatch f ts) ;;
        upd_ch c (fun ch => ch <| evtHandling := false |>)) w') ->
    (fire dispatch c ts cond cb ;; k) w =
    (forM ((if cond ch then option_list (cb ch) else []) ++ rest) (fun f => dispatch f ts) ;;
        upd_ch c (fun ch => ch <| evtHandling := false |>)) w).
  { intros cond cb rest k w0 Hinv Hs0 Hk. unfold mbind, M_bind.
    rewrite (fire_plan dispatch c ch ts) by done. rewrite forM_app.
    unfold mbind, M_bind.
    destruct (forM _ _ w0) as [[[] w2]|] eqn:E; [|done].
    rewrite Hk; [done|]. by eapply forM_sees. }
  apply Hstep; [unfold hup_only; by intros ch' (-> & -> & _)|done|]. intros w2 Hs2.
  apply Hstep; [by intros ch' (-> & _ & -> & _)|done|]. intros w3 Hs3.
  apply Hstep; [by intros ch' (-> & _ & _ & -> & _)|done|]. intros w4 Hs4.
  rewrite <- (app_nil_r (if has _ POLLOUT then _ else _)).
  apply Hstep; [by intros ch' (-> & _ & _ & _ & ->)|done|]. by intros w5 Hs5.
Qed.

(** What [fillActiveChannels] leaves in the channel of an event. *)
Definition activated (pos : nat) (ev : Z) (ch : Channel) : Channel :=
  ch <| revents := ev |> <| ele := Some pos |>.

Lemma activate_ok (el c : nat) (ev : Z) (w : W) (e : Eventloop) (ch : Channel) :
  w_els w !! el = Some e -> w_chs w !! c = Some ch ->
  activate el (ev, c) w =
    Ok (tt, w <| w_chs ::= <[c := activated (length (activeChannels e)) ev ch]> |>
              <| w_els ::= <[el := e <| activeChannels := activeChannels e ++ [c] |>]> |>).
Proof.
  intros He Hc. unfold activate.
  eapply bind_Ok_M; [unfold load; by rewrite He|].
  eapply bind_Ok_M; [by apply upd_ch_ok|]. eapply bind_Ok_M; [reflexivity|]. cbn [fst snd].
  rewrite (upd_ch_ok _ _ (ch <| revents := ev |>)) by apply lookup_insert_eq.
  simpl. by rewrite insert_insert_eq.
Qed.

Lemma activate_all (el : nat) (evs : list (Z * nat)) (w : W) (e : Eventloop) :
  w_els w !! el = Some e -> NoDup evs.*2 ->
  (forall i ev c, evs !! i = Some (ev, c) -> is_Some (w_chs w !! c)) ->
  exists w', forM evs (activate el) w = Ok (tt, w') /\ w_k w' = w_k w /\
    w_els w' = <[el := e <| activeChannels := activeChannels e ++ evs.*2 |>]> (w_els w) /\
    (forall c, c ∉ evs.*2 -> w_chs w' !! c = w_chs w !! c) /\
    (forall i ev c ch, evs !! i = Some (ev, c) -> w_chs w !! c = Some ch ->
       w_chs w' !! c = Some (activated (length (activeChannels e) + i) ev ch)).
Proof.
  revert w e. induction evs as [|[ev c] evs IH]; intros w e He Hnd Hval.
  { exists w. split; [done|]. split; [done|]. split; [|split; [done|]].
    - simpl. rewrite app_nil_r, insert_id; [done|]. by destruct e.
    - intros i ??? Hi. by rewrite lookup_nil in Hi. }
  rewrite fmap_cons in *. cbn [forM snd] in *. apply NoDup_cons in Hnd as [Hnin Hnd].
  destruct (Hval 0%nat ev c eq_refl) as [ch Hc].
  set (e1 := e <| activeChannels := activeChannels e ++ [c] |>).
  set (w1 := w <| w_chs ::= <[c := activated (length (activeChannels e)) ev ch]> |>
              <| w_els ::= <[el := e1]> |>).
  assert (Hact : activate el (ev, c) w = Ok (tt, w1)).
  { by apply activate_ok. }
  destruct (IH w1 e1) as (w' & Hrun & Hk & Hels & Hother & Hev).
  - simpl. apply lookup_insert_eq.
  - done.
  - intros i ev' c' Hi. simpl. destruct (decide (c' = c)) as [->|].
    + rewrite lookup_insert_eq. by eexists.
    + rewrite lookup_insert_ne by done. by apply (Hval (S i) ev').
  - exists w'. split; [by eapply bind_Ok_M|]. split; [done|]. split; [|split].
    + rewrite Hels. simpl. rewrite insert_insert_eq, <- app_assoc. done.
    + intros c' [Hne Hc']%not_elem_of_cons. rewrite Hother by done. simpl.
      by rewrite lookup_insert_ne.
    + intros [|i] ev' c' ch' Hi Hc'; simpl in Hi.
      * simplify_eq. rewrite Hother by done. simpl.
        rewrite lookup_insert_eq, Nat.add_0_r. done.
      * assert (c' <> c).
        { intros ->. apply Hnin, list_elem_of_lookup. exists i.
          by rewrite list_lookup_fmap, Hi. }
        rewrite (Hev i ev' c' ch'); [|done|simpl; by rewrite lookup_insert_ne].
        simpl. rewrite length_app. simpl. do 2 f_equal. lia.
Qed.

Lemma growEventList_ok (w : W) (el : nat) (e : Eventloop) (p : Poller) (n : Z) :
  w_els w !! el = Some e -> poller e = Some p ->
  exists w', growEventList el n w = Ok (tt, w') /\ w_k w' = w_k w /\ w_chs w' = w_chs w /\
    w_els w' !! el = Some (e <| poller := Some (p <| eventListLen :=
      if n =? eventListLen p then eventListLen p * 2 else eventListLen p |>) |>).
Proof.
  intros He Hp. assert (Hp1 : poller_of w el = Some p) by (apply poller_of_inv; eauto).
  destruct (set_poller_ok w el p (p <| eventListLen := eventListLen p * 2 |>) Hp1)
    as (e' & He' & Hset). simplify_eq.
  destruct (n =? eventListLen p) eqn:E; eexists;
    (split; [eapply bind_Ok_M; [by apply get_poller_ok|]; rewrite E; first [done|exact Hset]|]).
  - split; [done|]. split; [done|]. apply lookup_insert_eq.
  - split; [done|]. split; [done|]. rewrite He.
    destruct e as [? ? ? ? po ? ? ? ? ? ? ?], p; simpl in *. by subst po.
Qed.

(** C18: [poll] when [epoll_wait] answers events on live, distinct channels:
    each channel gets its own event mask and a place in [activeChannels], in
    the order of the kernel's answer, nothing else changes, and the event
    list doubles exactly when it was full. *)
Theorem poll_functional (w : W) (el : nat) (e : Eventloop) (p : Poller)
    (timeout now : Z) (evs : list (Z * nat)) (k1 k2 : K)
    (He : w_els w !! el = Some e) (Hp : poller e = Some p)
    (Hwait : k_epoll_wait (epollFd p) (eventListLen p) timeout (w_k w) = (inl evs, k1))
    (Hnow : k_now k1 = (now, k2))
    (Hlen : zlen evs <= eventListLen p) (Hnd : NoDup evs.*2)
    (Hlive : forall i ev c, evs !! i = Some (ev, c) -> is_Some (w_chs w !! c)) :
  exists w', poll el timeout w = Ok (now, w') /\ w_k w' = k2 /\
    w_els w' !! el = Some (e <| activeChannels := activeChannels e ++ evs.*2 |>
      <| poller := Some (p <| eventListLen :=
           if bool_decide (evs <> []) && (zlen evs =? eventListLen p)
           then eventListLen p * 2 else eventListLen p |>) |>) /\
    (forall c, c ∉ evs.*2 -> w_chs w' !! c = w_chs w !! c) /\
    (forall i ev c ch, evs !! i = Some (ev, c) -> w_chs w !! c = Some ch ->
       w_chs w' !! c = Some (activated (length (activeChannels e) + i) ev ch)).
Proof.
  set (w0 := w <| w_k := k2 |>).
  assert (Hp0 : poller_of w el = Some p) by (apply poller_of_inv; eauto).
  destruct (activate_all el evs w0 e He Hnd Hlive) as (w1 & Hfill & Hk & Hels & Hother & Hev).
  assert (Hrun : forall r, (if zlen evs =? 0 then mret now
      else fillActiveChannels el evs ;; growEventList el (zlen evs) ;; mret now) w0 = r -> poll el timeout w = r).
  { intros r Hr. unfold poll. eapply bind_Ok_M; [by apply get_poller_ok|].
    eapply bind_Ok_M; [unfold epollWait, sys, mbind, M_bind; by rewrite Hwait|].
    eapply bind_Ok_M; [unfold sys; simpl; by rewrite Hnow|]. exact Hr. }
  destruct (decide (evs = [])) as [->|Hnil].
  { exists w0. split; [by apply Hrun|]. split; [done|]. split; [|split; [done|by intros [|]]].
    rewrite app_nil_r. simpl. rewrite He. destruct e as [? ? ? ? po ? ? ? ? ? ? ?], p;
      simpl in *. by subst po. }
  set (e1 := e <| activeChannels := _ |>) in Hels.
  assert (He1 : w_els w1 !! el = Some e1) by (rewrite Hels; apply lookup_insert_eq).
  assert (Hp1 : poller_of w1 el = Some p) by (apply poller_of_inv; eauto).
  rewrite (bool_decide_eq_true_2 (evs <> [])) by done. cbn [andb].
  destruct (growEventList_ok w1 el e1 p (zlen evs) He1 Hp) as (w2 & Hgrow & Hk2 & Hch2 & He2).
  assert (Hne : (zlen evs =? 0) = false).
  { destruct evs; [done|]. rewrite zlen_cons. zl. }
  exists w2. rewrite Hk2, Hch2, He2. split; [|auto].
  apply Hrun. rewrite Hne. unfold fillActiveChannels. eapply bind_Ok_M.
  { eapply bind_Ok_M; [apply get_poller_ok, poller_of_inv; eauto|].
    eapply bind_Ok_M; [by apply AssertM_Ok, Z.leb_le|exact Hfill]. }
  eapply bind_Ok_M; [exact Hgrow|done].
Qed.

End properties.

#[export] Instance SimEpollLaws : EpollLaws Sim.
Proof.
  refine {| interest := sim_interest |}; intros ep fd ev d k; simpl; unfold sim_ctl.
  - intros ->. eexists; split; [done|]. apply sim_interest_set.
  - intros [x ->]. eexists; split; [done|]. apply sim_interest_set.
  - intros [x ->]. eexists; split; [done|]. apply sim_interest_set.
Defined.

(** A loop with one new channel on descriptor 9. *)
Definition demo_channel : Channel :=
  mkChannel None 0 9 0 0 channelNew (Some (CbConnRead 0)) None None None false.
Definition demo_poller : Poller := mkPoller 3 16 ∅.
Definition demo_loop : Eventloop :=
  mkEventloop (B "demo") 0 0 [] (Some demo_poller) 4 1 [] [] 5 2 false.
Definition demo_world : World Sim :=
  world0 <| w_els := {[ 0%nat := demo_loop ]} |> <| w_chs := {[ 7%nat := demo_channel ]} |>.

Lemma demo_poller_ok : poller_ok 0 demo_poller demo_world.
Proof.
  split; simpl.
  - done.
  - intros fd c. by rewrite lookup_empty.
  - intros c ch [_ <-]%lookup_singleton_Some _. by left.
  - intros fd. unfold expected; simpl. rewrite lookup_empty. done.
Qed.

Lemma channel_ops_keep_registration_witness :
  exists p' w',
    do_chanop OpEnableReading 7 demo_world = Ok (tt, w') /\ poller_ok 0 p' w' /\
    epollFd p' = 3 /\
    w_chs w' !! 7%nat = Some (demo_channel <| events := 3 |> <| ch_index := channelAdd |>) /\
    interest (w_k w') 3 !! 9 = Some (3, 7%nat).
Proof.
  apply (channel_ops_keep_registration OpEnableReading demo_world 0 7 demo_poller
           demo_channel demo_poller_ok eq_refl eq_refl). intros _. reflexivity.
Defined.

(** A channel with all callbacks that is hung up, in error and writable. *)
Definition demo_hup : Channel :=
  demo_channel <| revents := 28 |>
    <| closeCallback := Some (CbUser 1) |> <| errorCallback := Some (CbUser 2) |>
    <| readCallback := Some (CbUser 3) |> <| writeCallback := Some (CbUser 4) |>.
(** Callbacks that leave a trace in the kernel. *)
Definition demo_trace (f : Callback) (ts : Z) : M (World Sim) unit :=
  modify (fun w => w <| w_k ::= k_write8 (match f with CbUser u => Z.of_nat u | _ => 0 end) |>).

Lemma handleEvent_plan_witness :
  handleEvent demo_trace 7 0 (demo_world <| w_chs ::= <[7%nat := demo_hup]> |>) =
    (upd_ch 7 (fun ch => ch <| evtHandling := true |>) ;;
     forM [CbUser 1; CbUser 2; CbUser 4] (fun f => demo_trace f 0) ;;
     upd_ch 7 (fun ch => ch <| evtHandling := false |>))
      (demo_world <| w_chs ::= <[7%nat := demo_hup]> |>).
Proof.
  apply (handleEvent_plan demo_trace 7 demo_hup 0).
  - reflexivity.
  - intros f w w' Hs [= <-]. exact Hs.
Defined.

(** The kernel reports channel 7 readable. *)
Definition demo_ready : World Sim :=
  demo_world <| w_k := sim0 <| sim_ready := [[(1, 7%nat)]] |> |>.

Lemma poll_functional_witness :
  exists w', poll 0 10000 demo_ready = Ok (1000000000, w') /\ w_k w' = sim0 /\
    w_els w' !! 0%nat = Some (demo_loop <| activeChannels := [7%nat] |>
      <| poller := Some (demo_poller <| eventListLen := 16 |>) |>) /\
    (forall c, c ∉ [7%nat] -> w_chs w' !! c = w_chs demo_ready !! c) /\
    (forall i ev c ch, [(1, 7%nat)] !! i = Some (ev, c) -> w_chs demo_ready !! c = Some ch ->
       w_chs w' !! c = Some (activated i ev ch)).
Proof.
  apply (poll_functional demo_ready 0 demo_loop demo_poller 10000 1000000000
           [(1, 7%nat)] sim0 sim0).
  - reflexivity.
  - reflexivity.
  - vm_compute. reflexivity.
  - reflexivity.
  - vm_compute. discriminate.
  - apply NoDup_singleton.
  - intros [|i] ev c Hi; [|done]. injection Hi as <- <-. by exists demo_channel.
Defined.
