(* ===== verification/Timer.v ===== *)
(** * timer.go: the timer queue of an event loop

    [THeap] is the [timerTaskHeap] with the timer tasks it points to; it
    implements [heap.Interface], and its [HeapLaws] say that the [index] field
    of every queued task is its position. The operations of [timerQueue] work
    on the queue of an event loop of the world. Times are nanoseconds. *)

From S2P Require Import Prelude.
From S2P Require Import GoHeap.
From S2P Require Import World.
From S2P Require Import Sim.
From S2P Require Import Poller.
From stdpp Require Import base list gmap strings sorting.
From Stdlib Require Import ZArith Lia.
Open Scope Z_scope.

(** ** timerTaskHeap *)

Record THeap : Type := mkTHeap {
  h_tts : gmap nat TimerTask;
  h_tasks : list nat;
}.
#[export] Instance eta_THeap : Eta THeap := fun h => mkTHeap (h_tts h) (h_tasks h).

Definition nth_task (i : nat) (h : THeap) : res (nat * TimerTask) :=
  match h_tasks h !! i with
  | None => Panic "index out of range"
  | Some id =>
    match h_tts h !! id with
    | None => Panic "invalid memory address or nil pointer dereference"
    | Some t => Ok (id, t)
    end
  end.

Definition heap_Len (h : THeap) : nat := length (h_tasks h).

Definition heap_Less (i j : nat) (h : THeap) : res bool :=
  '(_, ti) ← nth_task i h;
  '(_, tj) ← nth_task j h;
  if expire ti <? expire tj then Ok true
  else if expire ti =? expire tj then Ok (i <? j)%nat
  else Ok false.

Definition set_index (id : nat) (z : Z) (h : THeap) : THeap :=
  h <| h_tts ::= alter (fun t => t <| tt_index := z |>) id |>.

Definition heap_Swap (i j : nat) (h : THeap) : res THeap :=
  '(a, _) ← nth_task i h;
  '(b, _) ← nth_task j h;
  let h := h <| h_tasks := <[i:=b]> (<[j:=a]> (h_tasks h)) |> in
  Ok (set_index a (Z.of_nat j) (set_index b (Z.of_nat i) h)).

Definition heap_Push (x : nat) (h : THeap) : res THeap :=
  match h_tts h !! x with
  | None => Panic "invalid memory address or nil pointer dereference"
  | Some _ =>
    let h := h <| h_tasks := h_tasks h ++ [x] |> in
    Ok (set_index x (Z.of_nat (length (h_tasks h)) - 1) h)
  end.

Definition heap_Pop (h : THeap) : res (nat * THeap) :=
  match h_tasks h with
  | [] => Panic "index out of range"
  | _ =>
    let n := (length (h_tasks h) - 1)%nat in
    '(x, _) ← nth_task n h;
    Ok (x, (set_index x (-1) h) <| h_tasks := take n (h_tasks h) |>)
  end.

Definition Top (h : THeap) : res (nat * TimerTask) := nth_task 0 h.

#[export] Instance timerTaskHeap : HeapInterface THeap nat := {|
  hLen := heap_Len; hLess := heap_Less; hSwap := heap_Swap;
  hPush := heap_Push; hPop := heap_Pop
|}.

(** The loop of [getAndRemoveExpired]; every iteration pops one task. *)
Fixpoint getExpired_loop (fuel : nat) (t : Z) (h : THeap) : res (list nat * THeap) :=
  match fuel with
  | O => Panic "getAndRemoveExpired: out of fuel"
  | S fuel =>
    if (heap_Len h =? 0)%nat then Ok ([], h)
    else
      '(pop, task) ← Top h;
      if (expire task <? t) || (expire task =? t) then
        '(tmp, h) ← GoHeap.Pop h;
        _ ← Assert (tmp =? pop)%nat "t == pop";
        '(ret, h) ← getExpired_loop fuel t h;
        Ok (pop :: ret, h)
      else Ok ([], h)
  end.

Definition getAndRemoveExpired (t : Z) (h : THeap) : res (list nat * THeap) :=
  getExpired_loop (S (heap_Len h)) t h.

(** [timerQueue.insert] on the heap. *)
Definition insert_heap (task : nat) (h : THeap) : res (bool * THeap) :=
  match h_tts h !! task with
  | None => Panic "invalid memory address or nil pointer dereference"
  | Some tk =>
    earliestChanged ← (if (heap_Len h =? 0)%nat then Ok true
                       else '(_, top) ← Top h; Ok (expire tk <? expire top));
    h ← GoHeap.Push task h;
    Ok (earliestChanged, h)
  end.

(** The part of [timerQueue.cancel]'s closure that touches the heap. *)
Definition cancel_heap (task : nat) (h : THeap) : res THeap :=
  match h_tts h !! task with
  | None => Panic "invalid memory address or nil pointer dereference"
  | Some t =>
    let t := t <| tt_repeat := false |> <| canceled := true |> in
    let h := h <| h_tts ::= <[task := t]> |> in
    if 0 <? tt_index t
    then '(_, h) ← Remove (Z.to_nat (tt_index t)) h; Ok h
    else Ok h
  end.

(** ** time.Time.Sub and the delay that is programmed into the timerfd *)

Definition maxDuration : Z := 2 ^ 63 - 1.
Definition minDuration : Z := - 2 ^ 63.

(** [t.Sub(u)] saturates. *)
Definition Sub (t u : Z) : Z := Z.max minDuration (Z.min maxDuration (t - u)).

(** [duration.Microseconds()]. *)
Definition Microseconds (d : Z) : Z := Z.quot d 1000.

Definition timer_delay (t now : Z) : Z :=
  let duration := Sub t now in
  if Microseconds duration <? 100 then 100 * 1000 else duration.

Definition invalidTime : Z := 0.

Section ops.
Context {K : Type} `{!Kernel K}.
Abbreviation W := (World K).

(** ** eventloop.go: AsyncExecute and Wakeup *)

Definition Wakeup (el : nat) : M W unit :=
  e ← load w_els el; modify (fun w => w <| w_k ::= k_write8 (evtFd e) |>).

Definition AsyncExecute (el : nat) (task : Task) : M W unit :=
  upd_el el (fun e => e <| pendingTasks := pendingTasks e ++ [task] |>) ;;
  Wakeup el.

(** ** timerQueue *)

(** Run code on the heap of the queue of [el]. *)
Definition with_heap {A} (el : nat) (f : THeap -> res (A * THeap)) : M W A :=
  e ← load w_els el;
  w ← get;
  '(a, h) ← lift (f {| h_tts := w_tts w; h_tasks := tasks e |});
  modify (fun w => w <| w_tts := h_tts h |>) ;;
  set_el el (e <| tasks := h_tasks h |>) ;;
  mret a.

Definition newTimerTask (el : nat) (cb : TimeoutCb) (t itv : Z) : M W nat :=
  p ← alloc w_tts;
  set_tt p {| tt_tq := el; expire := t; interval := itv; tt_repeat := 0 <? itv;
              tt_cb := cb; tt_index := -1; canceled := false |} ;;
  mret p.

(** [newTimerQueue]: the descriptor and its channel; the queue is empty. *)
Definition newTimerQueue (el : nat) : M W (Z * nat) :=
  r ← sys k_timerfd_create;
  match r with
  | inr _ => panic "TimerfdCreate"
  | inl timerFd =>
    timerFdChannel ← NewChannel el timerFd;
    setReadCallback timerFdChannel (CbTimerQueue el) ;;
    enableReading timerFdChannel ;;
    mret (timerFd, timerFdChannel)
  end.

Definition resetTimerFd (timerFd t : Z) : M W unit :=
  now ← sys k_now;
  _ ← sys (k_timerfd_settime timerFd (timer_delay t now));
  mret tt.

Definition timer_insert (el task : nat) : M W bool := with_heap el (insert_heap task).

Definition addTask (el : nat) (cb : TimeoutCb) (t itv : Z) : M W nat :=
  task ← newTimerTask el cb t itv;
  earliestChanged ← timer_insert el task;
  e ← load w_els el;
  (if (earliestChanged : bool) then resetTimerFd (timerFd e) t else mret tt) ;;
  mret task.

Definition addTask0 (el task : nat) : M W unit :=
  earliestChanged ← timer_insert el task;
  e ← load w_els el;
  t ← load w_tts task;
  if (earliestChanged : bool) then resetTimerFd (timerFd e) (expire t) else mret tt.

(** [tt.Cancel()], [timerQueue.cancel]: the work is queued. *)
Definition Cancel (task : nat) : M W unit :=
  t ← load w_tts task; AsyncExecute (tt_tq t) (TaskCancel task).

(** The closure that [cancel] queues. *)
Definition cancel_closure (task : nat) : M W unit :=
  t ← load w_tts task;
  with_heap (tt_tq t) (fun h => h ← cancel_heap task h; Ok (tt, h)).

Definition restart (task : nat) (t : Z) : M W unit :=
  upd_tt task (fun tk => if tt_repeat tk then tk <| expire := t + interval tk |>
                         else tk <| expire := 0 |>).

Definition getExpired (el : nat) (t : Z) : M W (list nat) :=
  with_heap el (getAndRemoveExpired t).

Definition reset (el : nat) (expired : list nat) (t : Z) : M W unit :=
  forM expired (fun v =>
    tv ← load w_tts v;
    if tt_repeat tv && negb (canceled tv)
    then restart v t ;; _ ← timer_insert el v; mret tt
    else mret tt) ;;
  e ← load w_els el;
  w ← get;
  if (0 <? length (tasks e))%nat then
    '(_, top) ← lift (Top {| h_tts := w_tts w; h_tasks := tasks e |});
    if invalidTime <? expire top then resetTimerFd (timerFd e) (expire top) else mret tt
  else mret tt.

(** [v.run()] for the tasks that are not cancelled. *)
Definition run_expired (run : TimeoutCb -> M W unit) (expired : list nat) : M W unit :=
  forM expired (fun v =>
    tv ← load w_tts v;
    if negb (canceled tv) then run (tt_cb tv) else mret tt).

Definition timer_handleRead (run : TimeoutCb -> M W unit) (el : nat) (ts : Z) : M W unit :=
  e ← load w_els el;
  _ ← sys (k_read8 (timerFd e));
  now ← sys k_now;
  expired ← getExpired el now;
  run_expired run expired ;;
  reset el expired now.

Definition timer_shutdown (el : nat) : M W unit :=
  e ← load w_els el; _ ← sys (k_close (timerFd e)); mret tt.

End ops.

(** ** The heap is a heap *)

Definition entry (h : THeap) (id : nat) : nat * Z :=
  (id, default 0 (expire <$> h_tts h !! id)).

Definition heap_view (h : THeap) : list (nat * Z) := entry h <$> h_tasks h.

(** Every queued task exists and knows its position. *)
Definition heap_inv (h : THeap) : Prop :=
  forall i id, h_tasks h !! i = Some id ->
    exists t, h_tts h !! id = Some t /\ tt_index t = Z.of_nat i.

Definition heap_pushable (x : nat) (e : nat * Z) (h : THeap) : Prop :=
  exists t, h_tts h !! x = Some t /\ (x ∉ h_tasks h) /\ e = (x, expire t).

Definition no_index (t : TimerTask) : TimerTask := t <| tt_index := 0 |>.

(** Only [index] fields change, and a task that left the heap has index -1. *)
Definition heap_frame (h h' : THeap) : Prop :=
  (forall id, no_index <$> h_tts h' !! id = no_index <$> h_tts h !! id) /\
  (forall id, id ∉ h_tasks h' ->
     ((id ∉ h_tasks h) /\ h_tts h' !! id = h_tts h !! id) \/
     (exists t, h_tts h' !! id = Some t /\ tt_index t = -1)).

Section heap.
Implicit Types (h : THeap) (i j id : nat).

Lemma heap_inv_inj h i j id :
  heap_inv h -> h_tasks h !! i = Some id -> h_tasks h !! j = Some id -> i = j.
Proof.
  intros Hinv Hi Hj. destruct (Hinv _ _ Hi) as (t & Ht & ?).
  destruct (Hinv _ _ Hj) as (t' & Ht' & ?). simplify_eq. lia.
Qed.

Lemma heap_inv_NoDup h : heap_inv h -> NoDup (h_tasks h).
Proof. intros Hinv. apply NoDup_alt. intros i j id. by apply heap_inv_inj. Qed.

Lemma heap_frame_refl h : heap_frame h h.
Proof. split; [done|]. intros; left; done. Qed.

Lemma heap_frame_trans h1 h2 h3 :
  heap_frame h1 h2 -> heap_frame h2 h3 -> heap_frame h1 h3.
Proof.
  intros [S1 F1] [S2 F2]. split.
  - intros id. by rewrite S2, S1.
  - intros id Hid. destruct (F2 id Hid) as [[H2 E2]|]; [|by right].
    destruct (F1 id H2) as [[H1 E1]|(t & Ht & ?)].
    + left. by rewrite E2.
    + right. exists t. by rewrite E2.
Qed.

Lemma no_index_expire (o o' : option TimerTask) :
  no_index <$> o = no_index <$> o' -> expire <$> o = expire <$> o'.
Proof. destruct o, o'; simpl; intros H; try done. injection H; intros; simpl; congruence. Qed.

Lemma entry_frame h h' id : heap_frame h h' -> entry h' id = entry h id.
Proof. intros [Hs _]. unfold entry. f_equal. f_equal. by apply no_index_expire. Qed.

Lemma view_frame h h' : heap_frame h h' -> heap_view h' = entry h <$> h_tasks h'.
Proof. intros Hf. apply list_fmap_ext. intros _ id _. by apply entry_frame. Qed.

Lemma nth_task_ok h i id :
  heap_inv h -> h_tasks h !! i = Some id ->
  exists t, nth_task i h = Ok (id, t) /\ h_tts h !! id = Some t /\
    heap_view h !! i = Some (id, expire t).
Proof.
  intros Hinv Hi. destruct (Hinv i id Hi) as (t & Ht & _). exists t.
  unfold nth_task, heap_view. rewrite list_lookup_fmap, Hi. simpl. unfold entry.
  by rewrite Ht.
Qed.

Lemma view_lookup h i x :
  heap_view h !! i = Some x -> exists id, h_tasks h !! i = Some id.
Proof. unfold heap_view. rewrite list_lookup_fmap. destruct (_ !! i); [eauto|done]. Qed.

Lemma lookup_set_index h id id' z :
  h_tts (set_index id z h) !! id' =
    if decide (id = id') then (fun t => t <| tt_index := z |>) <$> h_tts h !! id'
    else h_tts h !! id'.
Proof. unfold set_index; simpl. rewrite lookup_alter. by case_decide; subst. Qed.

Lemma set_index_strip h id z id' :
  no_index <$> h_tts (set_index id z h) !! id' = no_index <$> h_tts h !! id'.
Proof. rewrite lookup_set_index. case_decide; [|done]. by destruct (_ !! id'). Qed.

Lemma lswap_fmap {A B} (f : A -> B) i j (l : list A) : f <$> lswap i j l = lswap i j (f <$> l).
Proof.
  unfold lswap. rewrite !list_lookup_fmap.
  destruct (l !! i), (l !! j); simpl; try done. by rewrite !list_fmap_insert.
Qed.

Lemma heap_Swap_law h i j :
  heap_inv h -> (i < length (heap_view h))%nat -> (j < length (heap_view h))%nat ->
  exists h', heap_Swap i j h = Ok h' /\ heap_inv h' /\
    heap_view h' = lswap i j (heap_view h) /\ heap_frame h h'.
Proof.
  intros Hinv Hi Hj. unfold heap_view in Hi, Hj. rewrite length_fmap in Hi, Hj.
  destruct (lookup_lt_is_Some_2 _ _ Hi) as [a Ha], (lookup_lt_is_Some_2 _ _ Hj) as [b Hb].
  destruct (nth_task_ok h i a Hinv Ha) as (ta & Hna & Hta & _).
  destruct (nth_task_ok h j b Hinv Hb) as (tb & Hnb & Htb & _).
  unfold heap_Swap. rewrite Hna, Hnb. mred. eexists; split; [done|].
  set (h1 := h <| h_tasks := _ |>). set (h' := set_index _ _ _).
  assert (Htk : h_tasks h' = lswap i j (h_tasks h)).
  { simpl. unfold lswap. by rewrite Ha, Hb. }
  assert (Hf : heap_frame h h').
  { split.
    - intros id. subst h'. by rewrite !set_index_strip.
    - intros id Hid. left.
      assert (Hp : h_tasks h' ≡ₚ h_tasks h) by (rewrite Htk; apply lswap_Permutation).
      rewrite Hp in Hid. split; [done|]. subst h'. rewrite !lookup_set_index.
      rewrite !decide_False; [done|..]; intros ->; apply Hid; eapply list_elem_of_lookup_2;
        eassumption. }
  split; [|split; [|done]].
  - intros k id. rewrite Htk, lookup_lswap by done. subst h'. rewrite !lookup_set_index.
    change (h_tts h1) with (h_tts h).
    intros Hk. destruct (decide (a = id)) as [->|Hna'].
    + assert (k = j) as ->.
      { repeat case_decide; subst; simplify_eq; try done.
        - by eapply heap_inv_inj.
        - by destruct (heap_inv_inj h k i id Hinv Hk Ha). }
      destruct (decide (b = id)); rewrite Hta; simpl; eauto.
    + destruct (decide (b = id)) as [->|Hnb'].
      * assert (k = i) as ->.
        { repeat case_decide; subst; simplify_eq; try done.
          by destruct (heap_inv_inj h k j id Hinv Hk Hb). }
        rewrite Htb. simpl. eauto.
      * repeat case_decide; subst; simplify_eq. by apply Hinv.
  - rewrite (view_frame h h') by done. rewrite Htk. apply lswap_fmap.
Qed.

Lemma heap_Push_law h x e :
  heap_inv h -> heap_pushable x e h ->
  exists h', heap_Push x h = Ok h' /\ heap_inv h' /\
    heap_view h' = heap_view h ++ [e] /\ heap_frame h h'.
Proof.
  intros Hinv (t & Ht & Hx & ->). unfold heap_Push. rewrite Ht. eexists; split; [done|].
  set (h' := set_index _ _ _).
  assert (Hf : heap_frame h h').
  { split; [intros id; subst h'; by rewrite set_index_strip|].
    intros id Hid. left. simpl in Hid.
    apply not_elem_of_app in Hid as [? Hne].
    split; [done|]. subst h'. rewrite lookup_set_index, decide_False; [done|].
    intros ->. by apply Hne, list_elem_of_singleton. }
  split; [|split; [|done]].
  - intros i id Hi. subst h'. rewrite lookup_set_index. simpl in Hi.
    apply lookup_app_Some in Hi as [Hi|[Hi Hl]].
    + rewrite decide_False; [by apply Hinv|]. intros ->.
      apply Hx. by eapply list_elem_of_lookup_2.
    + destruct (i - length (h_tasks h))%nat eqn:E; [|done]. simpl in Hl. simplify_eq.
      rewrite decide_True by done. simpl. rewrite Ht. eexists; split; [done|].
      simpl. rewrite length_app. simpl. lia.
  - rewrite (view_frame h h') by done. simpl. rewrite fmap_app. simpl. f_equal.
    unfold entry. by rewrite Ht.
Qed.

Lemma heap_Pop_law h l e :
  heap_inv h -> heap_view h = l ++ [e] ->
  exists h', heap_Pop h = Ok (e.1, h') /\ heap_inv h' /\ heap_view h' = l /\ heap_frame h h'.
Proof.
  intros Hinv Hv.
  assert (Hlen : length (h_tasks h) = S (length l)).
  { rewrite <- (length_fmap (entry h)). unfold heap_view in Hv. rewrite Hv, length_app.
    simpl. lia. }
  destruct (lookup_lt_is_Some_2 (h_tasks h) (length l)) as [x Hx]; [lia|].
  destruct (nth_task_ok h _ _ Hinv Hx) as (t & Hn & Ht & Hvx).
  rewrite Hv, list_lookup_middle in Hvx by done. injection Hvx as ->.
  unfold heap_Pop. destruct (h_tasks h) as [|x0 tk] eqn:Htk; [done|]. rewrite <- Htk in *.
  replace (length (h_tasks h) - 1)%nat with (length l) by lia. rewrite Hn. mred.
  eexists; split; [done|]. set (h' := _ <| h_tasks := _ |>).
  assert (Hin : x ∉ take (length l) (h_tasks h)).
  { intros (i & Hi)%list_elem_of_lookup. apply lookup_take_Some in Hi as [Hi ?].
    pose proof (heap_inv_inj h _ _ _ Hinv Hi Hx). lia. }
  assert (Hf : heap_frame h h').
  { split; [intros id; apply (set_index_strip h)|]. intros id Hid. simpl in Hid.
    change (h_tts h') with (h_tts (set_index x (-1) h)). rewrite lookup_set_index.
    destruct (decide (x = id)) as [<-|Hne].
    - right. rewrite Ht. simpl. eauto.
    - left. split; [|done]. intros Hel.
      rewrite <- (take_drop (length l) (h_tasks h)) in Hel.
      apply elem_of_app in Hel as [?|Hel]; [done|].
      rewrite (drop_S _ x) in Hel by done. rewrite drop_ge in Hel by lia.
      apply list_elem_of_singleton in Hel. done. }
  split; [|split; [|done]].
  - intros i id Hi. simpl in Hi.
    change (h_tts h') with (h_tts (set_index x (-1) h)). rewrite lookup_set_index.
    rewrite decide_False.
    + apply lookup_take_Some in Hi as [Hi _]. by apply Hinv.
    + intros <-. apply Hin. by eapply list_elem_of_lookup_2.
  - rewrite (view_frame h h') by done. simpl. rewrite fmap_take.
    unfold heap_view in Hv. rewrite Hv. apply take_app_length.
Qed.

#[export] Instance timerTaskHeap_laws :
  HeapLaws THeap nat (nat * Z) heap_view snd fst heap_inv heap_pushable heap_frame.
Proof.
  split.
  - apply heap_frame_refl.
  - apply heap_frame_trans.
  - intros h _. unfold heap_view. by rewrite length_fmap.
  - intros h i j x y Hinv Hx Hy. simpl. unfold heap_Less.
    destruct (view_lookup _ _ _ Hx) as [a Ha], (view_lookup _ _ _ Hy) as [b Hb].
    destruct (nth_task_ok h i a Hinv Ha) as (ta & -> & _ & Hva).
    destruct (nth_task_ok h j b Hinv Hb) as (tb & -> & _ & Hvb). simplify_eq. mred. simpl.
    destruct (expire ta <? expire tb); [done|]. by destruct (expire ta =? expire tb).
  - apply heap_Swap_law.
  - apply heap_Push_law.
  - apply heap_Pop_law.
Qed.

End heap.

(** ** What the operations on the heap do *)

Definition heap_ordered (h : THeap) : Prop := hord snd (heap_view h).
Definition expire_of (h : THeap) (id : nat) : Z := (entry h id).2.

(** A well-formed timer heap. *)
Definition heap_ok (h : THeap) : Prop := heap_inv h /\ heap_ordered h.

Section heap_ops.
Implicit Types (h : THeap) (id : nat).

Lemma view_tasks h : (heap_view h).*1 = h_tasks h.
Proof.
  unfold heap_view. rewrite <- list_fmap_compose. apply list_fmap_id.
Qed.

Lemma expire_frame h h' id : heap_frame h h' -> expire_of h' id = expire_of h id.
Proof. intros Hf. unfold expire_of. by rewrite (entry_frame h). Qed.

Lemma expire_of_task h id t : h_tts h !! id = Some t -> expire_of h id = expire t.
Proof. intros Ht. unfold expire_of, entry. by rewrite Ht. Qed.

Lemma Forall_view h (P : Z -> Prop) :
  Forall (fun e => P e.2) (heap_view h) <-> Forall (fun id => P (expire_of h id)) (h_tasks h).
Proof. unfold heap_view. by rewrite Forall_fmap. Qed.

Lemma view_perm_tasks h h' e :
  heap_view h ≡ₚ e :: heap_view h' -> h_tasks h ≡ₚ e.1 :: h_tasks h'.
Proof. intros Hp. rewrite <- !view_tasks. by rewrite Hp. Qed.

Lemma Top_ok h id rest :
  heap_ok h -> h_tasks h = id :: rest ->
  exists t, Top h = Ok (id, t) /\ h_tts h !! id = Some t /\
    heap_view h = (id, expire t) :: (entry h <$> rest) /\
    Forall (fun i => expire t <= expire_of h i) (h_tasks h).
Proof.
  intros [Hinv Ho] Htk.
  destruct (nth_task_ok h 0 id Hinv) as (t & Hn & Ht & Hv); [by rewrite Htk|].
  exists t. split; [done|]. split; [done|].
  assert (Hvw : heap_view h = (id, expire t) :: (entry h <$> rest)).
  { unfold heap_view. rewrite Htk. simpl. unfold entry at 1. by rewrite Ht. }
  split; [done|]. apply (Forall_view h (fun z => expire t <= z)).
  apply Forall_lookup. intros k x Hk.
  apply (hordn_root snd (length (heap_view h)) (heap_view h) k Ho) with (x := (id, expire t));
    [by eapply lookup_lt_Some|done|by rewrite Hvw|done].
Qed.

Lemma getExpired_loop_ok fuel t h :
  heap_ok h -> (length (h_tasks h) < fuel)%nat ->
  exists ret h', getExpired_loop fuel t h = Ok (ret, h') /\ heap_ok h' /\ heap_frame h h' /\
    h_tasks h ≡ₚ ret ++ h_tasks h' /\
    Forall (fun id => expire_of h id <= t) ret /\
    Forall (fun id => t < expire_of h id) (h_tasks h') /\
    StronglySorted (fun a b => expire_of h a <= expire_of h b) ret.
Proof.
  revert h. induction fuel as [|fuel IH]; intros h Hok Hf; [lia|].
  simpl. unfold heap_Len. destruct (h_tasks h) as [|id rest] eqn:Htk; simpl.
  { exists [], h. rewrite Htk. do 2 (split; [done|]). split; [apply heap_frame_refl|].
    split; [done|]. repeat split; constructor. }
  rewrite <- Htk in *.
  destruct (Top_ok h id rest Hok Htk) as (tk & -> & Ht & Hv & Hmin). mred.
  destruct (Z.leb_spec (expire tk) t) as [Hle|Hgt].
  - rewrite (proj2 (orb_true_iff _ _)) by lia.
    destruct (Pop_ok heap_view snd fst heap_inv heap_pushable heap_frame h _ _
                (proj1 Hok) (proj2 Hok) Hv) as (h1 & -> & Hi1 & Hf1 & Ho1 & Hp1 & _).
    simpl. rewrite Nat.eqb_refl. apply view_perm_tasks in Hp1. simpl in Hp1.
    destruct (IH h1) as (ret & h' & -> & Hok' & Hf' & Hp' & Hdue & Hlate & Hsort).
    { done. } { apply Permutation_length in Hp1. simpl in Hp1. lia. }
    exists (id :: ret), h'. split; [done|]. split; [done|].
    split; [by eapply heap_frame_trans|]. split; [by rewrite Hp1, Hp'|].
    assert (Heq : forall i, expire_of h1 i = expire_of h i)
      by (intros; by apply expire_frame).
    split; [|split].
    + constructor; [by rewrite (expire_of_task _ _ _ Ht)|].
      eapply Forall_impl; [exact Hdue|]. simpl. intros i. by rewrite Heq.
    + eapply Forall_impl; [exact Hlate|]. simpl. intros i. by rewrite Heq.
    + constructor.
      * eapply StronglySorted_ind with (P := fun l => StronglySorted _ l);
          [constructor| |exact Hsort].
        intros a l _ IHl Ha. constructor; [done|]. eapply Forall_impl; [exact Ha|].
        simpl. intros b. by rewrite !Heq.
      * rewrite (expire_of_task _ _ _ Ht). rewrite Hp1, Hp' in Hmin.
        inversion Hmin as [|? ? _ Hm]; subst. by apply Forall_app in Hm as [? _].
  - rewrite (proj2 (orb_false_iff _ _)) by lia. exists [], h.
    do 2 (split; [done|]). split; [apply heap_frame_refl|]. split; [done|].
    split; [constructor|]. split; [|constructor].
    eapply Forall_impl; [exact Hmin|]. simpl. intros i. lia.
Qed.

Lemma insert_heap_ok task t h :
  heap_ok h -> h_tts h !! task = Some t -> task ∉ h_tasks h ->
  exists b h', insert_heap task h = Ok (b, h') /\ heap_ok h' /\ heap_frame h h' /\
    h_tasks h' ≡ₚ task :: h_tasks h /\
    (b = true <-> Forall (fun id => expire t < expire_of h id) (h_tasks h)).
Proof.
  intros Hok Ht Hnin. unfold insert_heap. rewrite Ht.
  destruct (Push_ok heap_view snd fst heap_inv heap_pushable heap_frame h task
      (task, expire t) (proj1 Hok) (proj2 Hok)) as (h' & Hpush & Hi' & Hf' & Ho' & Hp').
  { by exists t. }
  assert (Hp : h_tasks h' ≡ₚ task :: h_tasks h).
  { rewrite <- !view_tasks, Hp'. done. }
  unfold heap_Len. destruct (h_tasks h) as [|id rest] eqn:Htk; simpl.
  - mred. rewrite Hpush. do 2 eexists. do 4 (split; [done|]). split; [constructor|done].
  - rewrite <- Htk in *.
    destruct (Top_ok h id rest Hok Htk) as (tk & -> & Hid & Hv & Hmin). mred.
    rewrite Hpush. do 2 eexists. do 4 (split; [done|]).
    rewrite Z.ltb_lt, <- (expire_of_task _ _ _ Hid). split.
    + intros Hlt. eapply Forall_impl; [exact Hmin|]. simpl. intros i.
      rewrite (expire_of_task _ _ _ Hid) in Hlt. lia.
    + intros Hall. rewrite Htk in Hall. by inversion Hall.
Qed.

(** A task's [index] says whether and where it is queued. *)
Definition index_ok (h : THeap) (task : nat) (t : TimerTask) : Prop :=
  (tt_index t = -1 /\ (task ∉ h_tasks h)) \/
  (0 <= tt_index t /\ h_tasks h !! Z.to_nat (tt_index t) = Some task).

(** Replacing a task by one with the same expiry and index keeps the heap. *)
Lemma heap_ok_replace h task t t' :
  heap_ok h -> h_tts h !! task = Some t ->
  expire t' = expire t \/ (task ∉ h_tasks h) -> tt_index t' = tt_index t ->
  let h' := h <| h_tts ::= <[task := t']> |> in
  heap_ok h' /\ heap_view h' = heap_view h.
Proof.
  intros [Hinv Ho] Ht Hexp Hidx h'.
  assert (Hv : heap_view h' = heap_view h).
  { unfold heap_view. simpl. apply list_fmap_ext. intros i id Hi. unfold entry. simpl.
    rewrite lookup_insert. case_decide as Hd; [subst|done]. rewrite Ht. simpl.
    destruct Hexp as [->|Hn]; [done|]. destruct Hn. by eapply list_elem_of_lookup_2. }
  split; [split|done].
  - intros i id Hi. simpl in *. rewrite lookup_insert.
    destruct (Hinv i id Hi) as (t0 & Ht0 & Hi0).
    case_decide as Hd; [subst; simplify_eq|]; eauto. exists t'. split; [done|]. congruence.
  - unfold heap_ordered. by rewrite Hv.
Qed.

Lemma cancel_heap_ok h task t :
  heap_ok h -> h_tts h !! task = Some t -> index_ok h task t ->
  exists h' t', cancel_heap task h = Ok h' /\ heap_ok h' /\
    h_tts h' !! task = Some t' /\ canceled t' = true /\ tt_repeat t' = false /\
    (forall id, id <> task -> no_index <$> h_tts h' !! id = no_index <$> h_tts h !! id) /\
    (if 0 <? tt_index t then h_tasks h ≡ₚ task :: h_tasks h' else h_tasks h' = h_tasks h).
Proof.
  intros Hok Ht Hidx. unfold cancel_heap. rewrite Ht.
  set (t1 := t <| tt_repeat := false |> <| canceled := true |>).
  set (h1 := h <| h_tts ::= <[task := t1]> |>).
  destruct (heap_ok_replace h task t t1 Hok Ht) as [Hok1 Hv1]; [by left|done|].
  fold h1 in Hok1, Hv1.
  assert (Ht1 : h_tts h1 !! task = Some t1) by (simpl; apply lookup_insert_eq).
  change (tt_index t1) with (tt_index t).
  destruct (Z.ltb_spec 0 (tt_index t)) as [Hpos|Hnp].
  - destruct Hidx as [[? _]|[_ Hl]]; [lia|].
    destruct (nth_task_ok h1 (Z.to_nat (tt_index t)) task (proj1 Hok1) Hl) as (t2 & _ & _ & Hvl).
    destruct (Remove_ok heap_view snd fst heap_inv heap_pushable heap_frame h1 _ _
                (proj1 Hok1) (proj2 Hok1) Hvl) as (h' & -> & Hi' & Hf' & Ho' & Hp').
    mred. pose proof (proj1 Hf' task) as Hs. rewrite Ht1 in Hs.
    destruct (h_tts h' !! task) as [t'|] eqn:Ht'; [|done].
    assert (Heq : no_index t' = no_index t1) by (apply (inj Some); exact Hs).
    exists h', t'. do 3 (split; [done|]).
    split; [by apply (f_equal canceled) in Heq|].
    split; [by apply (f_equal tt_repeat) in Heq|]. split.
    + intros id Hne. rewrite (proj1 Hf' id). simpl. by rewrite lookup_insert_ne.
    + apply view_perm_tasks in Hp'. done.
  - mred. exists h1, t1. do 5 (split; [done|]). split; [|done].
    intros id Hne. simpl. by rewrite lookup_insert_ne.
Qed.

End heap_ops.

(** ** The queue of an event loop *)

Section world.
Context {K : Type} `{!Kernel K}.
Abbreviation W := (World K).
Implicit Types (w : W) (el : nat) (e : Eventloop).

Definition heap_of w e : THeap := {| h_tts := w_tts w; h_tasks := tasks e |}.

(** Loop [el] is [e] and its timer heap is well formed. *)
Definition queue_ok el e w : Prop := w_els w !! el = Some e /\ heap_ok (heap_of w e).

Definition put_heap el e (h : THeap) w : W :=
  w <| w_tts := h_tts h |> <| w_els ::= <[el := e <| tasks := h_tasks h |>]> |>.

Lemma with_heap_ok {A} el e w (f : THeap -> res (A * THeap)) a h :
  w_els w !! el = Some e -> f (heap_of w e) = Ok (a, h) ->
  with_heap el f w = Ok (a, put_heap el e h w).
Proof.
  intros He Hf. unfold with_heap.
  eapply bind_Ok_M; [unfold load; by rewrite He|].
  eapply bind_Ok_M; [reflexivity|].
  eapply bind_Ok_M; [unfold lift; unfold heap_of in Hf; rewrite Hf; reflexivity|].
  reflexivity.
Qed.

Lemma queue_ok_put el e w h :
  heap_ok h -> queue_ok el (e <| tasks := h_tasks h |>) (put_heap el e h w).
Proof.
  intros Hok. split; [apply lookup_insert_eq|]. unfold heap_of, put_heap; simpl.
  by destruct h.
Qed.

(** What [restart] makes of a task that [reset] puts back. *)
Definition again (t : TimerTask) : bool := tt_repeat t && negb (canceled t).
Definition rearm (now : Z) (t : TimerTask) : TimerTask :=
  if again t then t <| expire := now + interval t |> else t.

Definition again_id w (id : nat) : bool :=
  match w_tts w !! id with Some t => again t | None => false end.

Definition reset_one el now (v : nat) : M W unit :=
  tv ← load w_tts v;
  if tt_repeat tv && negb (canceled tv)
  then restart v now ;; _ ← timer_insert el v; mret tt
  else mret tt.

(** [w'] is [w] with the tasks [vs] put back where they repeat. *)
Record reset_to el e (vs : list nat) (now : Z) w e' w' : Prop := {
  rt_queue : queue_ok el e' w';
  rt_k : w_k w' = w_k w;
  rt_e : e' = e <| tasks := tasks e' |>;
  rt_perm : tasks e' ≡ₚ filter (fun id => again_id w id = true) vs ++ tasks e;
  rt_tts id : no_index <$> w_tts w' !! id =
    no_index <$> (if decide (id ∈ vs) then rearm now <$> w_tts w !! id else w_tts w !! id);
}.

Lemma reset_one_ok el e w now v t :
  queue_ok el e w -> w_tts w !! v = Some t -> v ∉ tasks e ->
  exists e' w', reset_one el now v w = Ok (tt, w') /\ reset_to el e [v] now w e' w'.
Proof.
  intros [He Hok] Hv Hnin. unfold reset_one.
  assert (Hbase : (if again t then [v] else []) = filter (fun id => again_id w id = true) [v]).
  { assert (Ha : again_id w v = again t) by (unfold again_id; by rewrite Hv).
    destruct (again t) eqn:Hag;
      [rewrite filter_cons_True|rewrite filter_cons_False]; by rewrite ?Ha. }
  destruct (again t) eqn:Hag.
  - set (t1 := t <| expire := now + interval t |>).
    set (w1 := w <| w_tts ::= <[v := t1]> |>).
    destruct (heap_ok_replace (heap_of w e) v t t1 Hok Hv) as [Hok1 _]; [by right|done|].
    destruct (insert_heap_ok v t1 (heap_of w1 e)) as (b & h' & Hins & Hok' & Hf & Hp & _).
    { done. } { simpl. apply lookup_insert_eq. } { done. }
    exists (e <| tasks := h_tasks h' |>), (put_heap el e h' w1). split.
    + eapply bind_Ok_M; [unfold load; by rewrite Hv|]. unfold again in Hag. rewrite Hag.
      eapply bind_Ok_M.
      { unfold restart. eapply bind_Ok_M; [unfold load; by rewrite Hv|].
        apply andb_prop in Hag as [-> _]. reflexivity. }
      eapply bind_Ok_M; [by apply (with_heap_ok el e w1 _ b h')|reflexivity].
    + split; [by apply queue_ok_put|done|done|by rewrite <- Hbase|].
      intros id. simpl. rewrite (proj1 Hf id). simpl. rewrite lookup_insert.
      destruct (decide (v = id)) as [<-|Hne].
      * rewrite decide_True by (by apply list_elem_of_singleton). rewrite Hv. simpl.
        unfold rearm. by rewrite Hag.
      * rewrite decide_False; [done|]. by intros ?%list_elem_of_singleton.
  - exists e, w. split.
    + eapply bind_Ok_M; [unfold load; by rewrite Hv|]. unfold again in Hag. by rewrite Hag.
    + split; [done|done|by destruct e|by rewrite <- Hbase|].
      intros id. case_decide as Hd; [|done]. apply list_elem_of_singleton in Hd as ->.
      rewrite Hv. simpl. unfold rearm. by rewrite Hag.
Qed.

Lemma again_no_index (t t' : TimerTask) : no_index t = no_index t' -> again t = again t'.
Proof. intros Heq. unfold again. by injection Heq as _ _ _ -> _ ->. Qed.

Lemma filter_again_ext w w' (vs : list nat) :
  (forall x, x ∈ vs -> again_id w x = again_id w' x) ->
  filter (fun id => again_id w id = true) vs = filter (fun id => again_id w' id = true) vs.
Proof.
  induction vs as [|v vs IH]; intros Heq; [done|].
  pose proof (Heq v (list_elem_of_here _ _)) as Hv.
  rewrite !filter_cons, IH by (intros; by apply Heq, list_elem_of_further).
  by do 2 case_decide; [|congruence|congruence|].
Qed.

Lemma reset_loop_ok el vs e w now :
  queue_ok el e w -> NoDup vs ->
  (forall v, v ∈ vs -> is_Some (w_tts w !! v) /\ (v ∉ tasks e)) ->
  exists e' w', forM vs (reset_one el now) w = Ok (tt, w') /\ reset_to el e vs now w e' w'.
Proof.
  revert e w. induction vs as [|v vs IH]; intros e w Hq Hnd Hvs; simpl.
  { exists e, w. split; [done|]. split; [done|done|by destruct e|done|].
    intros id. rewrite decide_False; [done|]. apply not_elem_of_nil. }
  apply NoDup_cons in Hnd as [Hnin Hnd].
  destruct (Hvs v) as [[t Ht] Hv]; [by apply list_elem_of_here|].
  destruct (reset_one_ok el e w now v t Hq Ht Hv) as (e1 & w1 & Hrun1 & [Hq1 Hk1 He1 Hp1 Ht1]).
  assert (Hsame : forall id, id <> v -> no_index <$> w_tts w1 !! id = no_index <$> w_tts w !! id).
  { intros id Hne. rewrite Ht1, decide_False; [done|]. by intros ?%list_elem_of_singleton. }
  destruct (IH e1 w1 Hq1 Hnd) as (e2 & w2 & Hrun2 & [Hq2 Hk2 He2 Hp2 Ht2]).
  { intros x Hx. destruct (Hvs x) as [[tx Hsx] Hxn]; [by apply list_elem_of_further|].
    assert (x <> v) as Hxv by (by intros ->). split.
    - specialize (Hsame x Hxv). rewrite Hsx in Hsame.
      destruct (w_tts w1 !! x); [by eexists|done].
    - rewrite Hp1. intros [[_ ?%list_elem_of_singleton]%list_elem_of_filter|?]%elem_of_app; done. }
  assert (Hag : forall x, x ∈ vs -> again_id w1 x = again_id w x).
  { intros x Hx. assert (x <> v) as Hxv by (by intros ->). specialize (Hsame x Hxv).
    unfold again_id. destruct (w_tts w1 !! x), (w_tts w !! x); try done.
    apply again_no_index. by apply (inj Some). }
  exists e2, w2. split; [by eapply bind_Ok_M|]. split; [done|congruence| | |].
  - rewrite He2, He1. done.
  - rewrite Hp2, Hp1, (filter_again_ext _ _ vs Hag).
    rewrite app_assoc, (Permutation_app_comm _ (filter _ [v])), <- filter_app. done.
  - intros id. rewrite Ht2. destruct (decide (id = v)) as [->|Hne].
    + rewrite decide_False, decide_True by (done || apply list_elem_of_here).
      rewrite Ht1, decide_True by (by apply list_elem_of_singleton). done.
    + rewrite (decide_ext (id ∈ v :: vs) (id ∈ vs)).
      2:{ rewrite elem_of_cons. split; [by intros [?|?]|by right]. }
      specialize (Hsame id Hne). case_decide; [|done].
      destruct (w_tts w1 !! id) as [a|], (w_tts w !! id) as [b|]; try done. simpl.
      apply (inj Some) in Hsame. unfold rearm. rewrite (again_no_index _ _ Hsame).
      destruct (again b); [|by simpl in *; congruence].
      injection Hsame as Ha Hb Hc Hd He Hf. f_equal. unfold no_index. simpl. congruence.
Qed.

(** The kernel after [resetTimerFd fd t]. *)
Definition arm (fd t : Z) (k : K) : K :=
  let '(now, k) := k_now k in snd (k_timerfd_settime fd (timer_delay t now) k).

Lemma resetTimerFd_ok fd t w : resetTimerFd fd t w = Ok (tt, w <| w_k ::= arm fd t |>).
Proof.
  unfold resetTimerFd, arm. wred. destruct (k_now (w_k w)) as [now k1]. simpl.
  by destruct (k_timerfd_settime fd (timer_delay t now) k1).
Qed.

(** [m] is the earliest expiry of the queue. *)
Definition earliest w e (m : Z) : Prop :=
  (exists id, id ∈ tasks e /\ expire_of (heap_of w e) id = m) /\
  Forall (fun id => m <= expire_of (heap_of w e) id) (tasks e).

(** The timer descriptor is programmed with the earliest expiry, if any. *)
Definition armed w e (k k' : K) : Prop :=
  (tasks e = [] /\ k' = k) \/
  exists m, earliest w e m /\ k' = (if invalidTime <? m then arm (timerFd e) m k else k).

Lemma reset_ok el e w now vs :
  queue_ok el e w -> NoDup vs ->
  (forall v, v ∈ vs -> is_Some (w_tts w !! v) /\ (v ∉ tasks e)) ->
  exists e' w1 k', reset el vs now w = Ok (tt, w1 <| w_k := k' |>) /\
    reset_to el e vs now w e' w1 /\ armed w1 e' (w_k w) k'.
Proof.
  intros Hq Hnd Hvs. destruct (reset_loop_ok el vs e w now Hq Hnd Hvs) as (e' & w1 & Hrun & Hto).
  destruct (rt_queue _ _ _ _ _ _ _ Hto) as [He' Hok'].
  pose proof (rt_k _ _ _ _ _ _ _ Hto) as Hk.
  assert (Hred : forall r,
    ((if (0 <? length (tasks e'))%nat then
       '(_, top) ← lift (Top (heap_of w1 e'));
       if invalidTime <? expire top then resetTimerFd (timerFd e') (expire top) else mret tt
     else mret tt) : M W unit) w1 = r -> reset el vs now w = r).
  { intros r Hr. unfold reset. eapply bind_Ok_M; [exact Hrun|].
    eapply bind_Ok_M; [unfold load; by rewrite He'|]. eapply bind_Ok_M; [reflexivity|]. exact Hr. }
  destruct (tasks e') as [|id rest] eqn:Htk.
  - exists e', w1, (w_k w). split; [|split; [done|by left]]. apply Hred.
    rewrite <- Hk. by destruct w1.
  - destruct (Top_ok (heap_of w1 e') id rest Hok' Htk) as (t & Ht & Hid & _ & Hmin).
    exists e', w1, (if invalidTime <? expire t then arm (timerFd e') (expire t) (w_k w) else w_k w).
    split; [|split; [done|right; exists (expire t); split; [split|done]]].
    + apply Hred. cbn [length Nat.ltb Nat.leb]. eapply bind_Ok_M; [unfold lift; by rewrite Ht|].
      simpl. rewrite <- Hk. destruct (invalidTime <? expire t); [apply resetTimerFd_ok|].
      by destruct w1.
    + exists id. rewrite Htk. split; [apply list_elem_of_here|by apply expire_of_task].
    + exact Hmin.
Qed.

(** What code that runs on behalf of a timer may do to the queue: add tasks,
    but not touch, queue or unqueue a task that exists. *)
Record timer_rel el w w' : Prop := {
  tr_queue : exists e e', queue_ok el e w /\ queue_ok el e' w' /\ timerFd e' = timerFd e /\
    (forall id, id ∈ tasks e -> id ∈ tasks e') /\
    (forall id, is_Some (w_tts w !! id) -> (id ∉ tasks e) -> (id ∉ tasks e'));
  tr_tts id t : w_tts w !! id = Some t -> no_index <$> w_tts w' !! id = Some (no_index t);
}.

Lemma tr_some el w w' id : timer_rel el w w' -> is_Some (w_tts w !! id) -> is_Some (w_tts w' !! id).
Proof.
  intros [_ Ht] [t Hid]. specialize (Ht id t Hid). destruct (w_tts w' !! id); [by eexists|done].
Qed.

Lemma timer_rel_refl el e w : queue_ok el e w -> timer_rel el w w.
Proof. intros Hq. split; [by exists e, e|]. by intros id t ->. Qed.

Lemma timer_rel_trans el w1 w2 w3 :
  timer_rel el w1 w2 -> timer_rel el w2 w3 -> timer_rel el w1 w3.
Proof.
  intros R1 R2. split.
  - destruct (tr_queue _ _ _ R1) as (e1 & e2 & Q1 & Q2 & F1 & A1 & B1).
    destruct (tr_queue _ _ _ R2) as (e2' & e3 & Q2' & Q3 & F2 & A2 & B2).
    assert (e2' = e2) as -> by (destruct Q2, Q2'; congruence).
    exists e1, e3. split; [done|]. split; [done|]. split; [congruence|]. split; [by auto|].
    intros id Hid Hn. apply B2; [by eapply tr_some|by apply B1].
  - intros id t Hid. pose proof (tr_tts _ _ _ R1 id t Hid) as H1.
    destruct (w_tts w2 !! id) as [t2|] eqn:H2; [|done]. rewrite (tr_tts _ _ _ R2 id t2 H2).
    by simpl in H1.
Qed.

(** The callbacks due: those of the tasks that are not cancelled, in order. *)
Definition due w (vs : list nat) : list TimeoutCb :=
  omap (fun v => t ← w_tts w !! v; if canceled t then None else Some (tt_cb t)) vs.

Lemma due_ext w w' vs :
  (forall v, v ∈ vs -> no_index <$> w_tts w' !! v = no_index <$> w_tts w !! v) ->
  due w' vs = due w vs.
Proof.
  induction vs as [|v vs IH]; intros Hvs; [done|]. unfold due in *. cbn [omap list_omap].
  pose proof (Hvs v (list_elem_of_here _ _)) as Hs.
  rewrite IH by (intros; by apply Hvs, list_elem_of_further).
  destruct (w_tts w' !! v) as [t'|], (w_tts w !! v) as [t|]; try done.
  apply (inj Some) in Hs. simpl. by injection Hs as _ _ _ _ -> ->.
Qed.

Lemma due_rel el w w' vs :
  timer_rel el w w' -> (forall v, v ∈ vs -> is_Some (w_tts w !! v)) -> due w' vs = due w vs.
Proof.
  intros R Hvs. apply due_ext. intros v Hv. destruct (Hvs v Hv) as [t Ht].
  by rewrite (tr_tts _ _ _ R v t Ht), Ht.
Qed.

Lemma run_expired_ok el (run : TimeoutCb -> M W unit) vs e w :
  (forall cb w0 e0, queue_ok el e0 w0 -> exists w1, run cb w0 = Ok (tt, w1) /\ timer_rel el w0 w1) ->
  queue_ok el e w -> (forall v, v ∈ vs -> is_Some (w_tts w !! v)) ->
  exists w', run_expired run vs w = Ok (tt, w') /\ forM (due w vs) run w = Ok (tt, w') /\
    timer_rel el w w'.
Proof.
  intros Hrun. revert w e. induction vs as [|v vs IH]; intros w e Hq Hvs.
  { exists w. split; [done|]. split; [done|]. by eapply timer_rel_refl. }
  destruct (Hvs v (list_elem_of_here _ _)) as [t Ht].
  assert (Hvs' : forall x, x ∈ vs -> is_Some (w_tts w !! x))
    by (intros; by apply Hvs, list_elem_of_further).
  assert (Hstep : exists w1, (if negb (canceled t) then run (tt_cb t) else mret tt) w = Ok (tt, w1) /\
    forM (due w (v :: vs)) run w = forM (due w vs) run w1 /\ timer_rel el w w1).
  { unfold due. cbn [omap list_omap]. rewrite Ht. simpl. destruct (canceled t).
    - exists w. split; [done|]. split; [done|]. by eapply timer_rel_refl.
    - destruct (Hrun (tt_cb t) w e Hq) as (w1 & Hr & R). exists w1. split; [done|]. split; [|done].
      cbn [forM]. by eapply bind_Ok_M. }
  destruct Hstep as (w1 & Hr & -> & R). destruct (tr_queue _ _ _ R) as (_ & e1 & _ & Hq1 & _).
  destruct (IH w1 e1 Hq1) as (w' & Hr' & Hf' & R'); [intros; by eapply tr_some, Hvs'|].
  rewrite (due_rel el w w1) in Hf' by done.
  exists w'. split; [|split; [done|by eapply timer_rel_trans]].
  unfold run_expired. cbn [forM]. eapply bind_Ok_M; [|exact Hr'].
  eapply bind_Ok_M; [unfold load; by rewrite Ht|exact Hr].
Qed.

(** C2: the handler of the timer descriptor takes out of the queue exactly the
    tasks whose expiry has passed: the callbacks start in the world [w1], which
    is [w] with the queue reduced to the tasks that are not due. They are those
    of the expired tasks that are not cancelled, in order of expiry. No expired
    task is in the queue [e2] they leave; of them, exactly the repeating ones
    that are not cancelled are then put back, one interval after now. The heap
    stays well formed and the descriptor is programmed with the earliest expiry
    of what is queued. The callbacks may schedule timers. *)
Theorem timer_handleRead_exact (run : TimeoutCb -> M W unit) (el : nat) (ts : Z)
    (e : Eventloop) (w : W) (err : option Errno) (k1 k2 : K) (now : Z)
    (Hq : queue_ok el e w)
    (Hread : k_read8 (timerFd e) (w_k w) = (err, k1)) (Hnow : k_now k1 = (now, k2))
    (Hrun : forall cb w0 e0, queue_ok el e0 w0 ->
       exists w1, run cb w0 = Ok (tt, w1) /\ timer_rel el w0 w1) :
  exists expired rest w1 e2 w2 e3 w3 k3,
    timer_handleRead run el ts w = Ok (tt, w3 <| w_k := k3 |>) /\
    (tasks e ≡ₚ expired ++ rest /\
     Forall (fun id => expire_of (heap_of w e) id <= now) expired /\
     Forall (fun id => now < expire_of (heap_of w e) id) rest /\
     StronglySorted (fun a b => expire_of (heap_of w e) a <= expire_of (heap_of w e) b) expired) /\
    w1 = w <| w_k := k2 |> <| w_els ::= <[el := e <| tasks := rest |>]> |> <| w_tts := w_tts w1 |> /\
    (forall id, no_index <$> w_tts w1 !! id = no_index <$> w_tts w !! id) /\
    queue_ok el (e <| tasks := rest |>) w1 /\
    forM (due w expired) run w1 = Ok (tt, w2) /\ timer_rel el w1 w2 /\ queue_ok el e2 w2 /\
    (forall id, id ∈ rest -> id ∈ tasks e2) /\ (forall id, id ∈ expired -> (id ∉ tasks e2)) /\
    tasks e3 ≡ₚ filter (fun id => again_id w2 id = true) expired ++ tasks e2 /\
    reset_to el e2 expired now w2 e3 w3 /\ armed w3 e3 (w_k w2) k3.
Proof.
  destruct Hq as [He Hok]. set (w0 := w <| w_k := k2 |>).
  destruct (getExpired_loop_ok (S (heap_Len (heap_of w e))) now (heap_of w e) Hok)
    as (expired & h1 & Hget & Hok1 & Hf1 & Hperm & Hdue & Hlate & Hsort).
  { unfold heap_Len. lia. }
  set (e1 := e <| tasks := h_tasks h1 |>). set (w1 := put_heap el e h1 w0).
  assert (Hq1 : queue_ok el e1 w1) by by apply queue_ok_put.
  assert (Hnd : NoDup (expired ++ h_tasks h1)).
  { rewrite <- Hperm. apply heap_inv_NoDup, Hok. }
  assert (Hex : forall v, v ∈ expired -> is_Some (w_tts w !! v)).
  { intros v Hv. assert (Hin : v ∈ tasks e) by (rewrite Hperm; apply elem_of_app; by left).
    apply list_elem_of_lookup in Hin as [i Hi].
    destruct (proj1 Hok i v Hi) as (t & Ht & _). by exists t. }
  assert (Hsame : forall v, no_index <$> w_tts w1 !! v = no_index <$> w_tts w !! v)
    by exact (proj1 Hf1).
  assert (Hex1 : forall v, v ∈ expired -> is_Some (w_tts w1 !! v)).
  { intros v Hv. specialize (Hsame v). destruct (Hex v Hv) as [t Ht]. rewrite Ht in Hsame.
    destruct (w_tts w1 !! v); [by eexists|done]. }
  destruct (run_expired_ok el run expired e1 w1 Hrun Hq1 Hex1) as (w2 & Hr & Hfm & R).
  rewrite (due_ext w w1) in Hfm by auto.
  destruct (tr_queue _ _ _ R) as (e1' & e2 & Hq1' & Hq2 & _ & Hkeep & Hout).
  assert (e1' = e1) as -> by (destruct Hq1, Hq1'; congruence).
  apply NoDup_app in Hnd as (Hnd & Hdisj & _).
  assert (Hgone : forall v, v ∈ expired -> (v ∉ tasks e2)).
  { intros v Hv. apply Hout; [by apply Hex1|by apply Hdisj]. }
  destruct (reset_ok el e2 w2 now expired Hq2 Hnd) as (e3 & w3 & k3 & Hreset & Hto & Harm).
  { intros v Hv. split; [by eapply tr_some; [|apply Hex1]|by apply Hgone]. }
  exists expired, (h_tasks h1), w1, e2, w2, e3, w3, k3.
  split; [|do 9 (split; [done|]); split; [exact (rt_perm _ _ _ _ _ _ _ Hto)|done]].
  unfold timer_handleRead. eapply bind_Ok_M; [unfold load; by rewrite He|].
  eapply bind_Ok_M; [unfold sys; by rewrite Hread|].
  eapply bind_Ok_M; [unfold sys; simpl; by rewrite Hnow|].
  eapply bind_Ok_M; [by apply (with_heap_ok el e w0)|].
  eapply bind_Ok_M; [exact Hr|exact Hreset].
Qed.

(** The new task of [newTimerTask]. *)
Definition new_task (el : nat) (cb : TimeoutCb) (t itv : Z) : TimerTask :=
  mkTimerTask el t itv (0 <? itv) cb (-1) false.

(** A task that is not queued is put into the queue; the kernel is asked for
    the new expiry exactly when it is the strictly earliest one. *)
Lemma insert_arm_ok el e w task t :
  queue_ok el e w -> w_tts w !! task = Some t -> task ∉ tasks e ->
  exists w1 e1 b, timer_insert el task w = Ok (b, w1) /\ queue_ok el e1 w1 /\
    e1 = e <| tasks := tasks e1 |> /\ tasks e1 ≡ₚ task :: tasks e /\ w_k w1 = w_k w /\
    (forall id, no_index <$> w_tts w1 !! id = no_index <$> w_tts w !! id) /\
    (b = true <-> Forall (fun id => expire t < expire_of (heap_of w e) id) (tasks e)).
Proof.
  intros [He Hok] Ht Hnin.
  destruct (insert_heap_ok task t (heap_of w e) Hok Ht Hnin)
    as (b & h' & Hins & Hok' & Hf & Hp & Hb).
  exists (put_heap el e h' w), (e <| tasks := h_tasks h' |>), b.
  split; [by apply with_heap_ok|]. split; [by apply queue_ok_put|].
  do 3 (split; [done|]). split; [exact (proj1 Hf)|done].
Qed.

Lemma newTimerTask_ok el cb t itv w :
  exists id, w_tts w !! id = None /\
    newTimerTask el cb t itv w =
      Ok (id, w <| w_tts ::= <[id := new_task el cb t itv]> |>).
Proof.
  eexists. split; [|reflexivity]. apply not_elem_of_dom, is_fresh.
Qed.

Lemma new_task_queue_ok el e w id t :
  queue_ok el e w -> w_tts w !! id = None ->
  let w1 := w <| w_tts ::= <[id := t]> |> in
  queue_ok el e w1 /\ (id ∉ tasks e) /\
  (forall i, i ∈ tasks e -> expire_of (heap_of w1 e) i = expire_of (heap_of w e) i).
Proof.
  intros [He [Hinv Ho]] Hid w1.
  assert (Hnin : id ∉ tasks e).
  { intros Hin. apply list_elem_of_lookup in Hin as [i Hi].
    destruct (Hinv i id Hi) as (t0 & Ht0 & _). simpl in Ht0. congruence. }
  assert (Hne : forall i, i ∈ tasks e -> <[id:=t]> (w_tts w) !! i = w_tts w !! i).
  { intros i Hi. apply lookup_insert_ne. by intros ->. }
  assert (Hentry : forall i, i ∈ tasks e -> entry (heap_of w1 e) i = entry (heap_of w e) i).
  { intros i Hi. unfold entry. simpl. by rewrite Hne. }
  split; [split; [done|split]|split; [done|]].
  - intros i j Hj. simpl in *. rewrite Hne by (by eapply list_elem_of_lookup_2).
    by apply (Hinv i j).
  - unfold heap_ordered.
    replace (heap_view (heap_of w1 e)) with (heap_view (heap_of w e)); [exact Ho|].
    apply list_fmap_ext. intros j i Hi. symmetry. by eapply Hentry, list_elem_of_lookup_2.
  - intros i Hi. unfold expire_of. by rewrite Hentry.
Qed.

(** C22: [addTask] makes a new task, queues it, and programs the timer
    descriptor exactly when the new expiry is strictly earlier than every
    queued one; every other task stays as it was and the heap stays a heap. *)
Theorem addTask_functional (el : nat) (cb : TimeoutCb) (t itv : Z) (e : Eventloop) (w : W)
    (Hq : queue_ok el e w) :
  exists id e' w', addTask el cb t itv w = Ok (id, w') /\ timer_rel el w w' /\
    w_tts w !! id = None /\ no_index <$> w_tts w' !! id = Some (no_index (new_task el cb t itv)) /\
    queue_ok el e' w' /\ tasks e' ≡ₚ id :: tasks e /\
    ((Forall (fun i => t < expire_of (heap_of w e) i) (tasks e) /\
      w_k w' = arm (timerFd e) t (w_k w)) \/
     (~ Forall (fun i => t < expire_of (heap_of w e) i) (tasks e) /\ w_k w' = w_k w)).
Proof.
  destruct (newTimerTask_ok el cb t itv w) as (id & Hid & Hnew).
  set (w1 := w <| w_tts ::= <[id := new_task el cb t itv]> |>) in *.
  destruct (new_task_queue_ok el e w id (new_task el cb t itv) Hq Hid) as (Hq1 & Hnin & Hexp).
  fold w1 in Hq1, Hexp.
  destruct (insert_arm_ok el e w1 id (new_task el cb t itv) Hq1)
    as (w2 & e2 & b & Hins & Hq2 & He2 & Hp2 & Hk2 & Htts & Hb); [apply lookup_insert_eq|done|].
  assert (Hb' : b = true <-> Forall (fun i => t < expire_of (heap_of w e) i) (tasks e)).
  { rewrite Hb. simpl. rewrite !Forall_forall. split; intros HF i Hi; specialize (HF i Hi);
      rewrite Hexp in * by done; done. }
  assert (Hold : forall i, i <> id -> no_index <$> w_tts w2 !! i = no_index <$> w_tts w !! i).
  { intros i Hi. rewrite Htts. simpl. by rewrite lookup_insert_ne. }
  assert (Hfd : timerFd e2 = timerFd e) by by rewrite He2.
  set (k3 := if b then arm (timerFd e) t (w_k w) else w_k w).
  exists id, e2, (w2 <| w_k := k3 |>). split; [|split; [split|]].
  - unfold addTask. eapply bind_Ok_M; [exact Hnew|]. eapply bind_Ok_M; [exact Hins|].
    destruct Hq2 as [He2' _]. eapply bind_Ok_M; [unfold load; by rewrite He2'|].
    rewrite Hfd. unfold k3. change (w_k w) with (w_k w1). rewrite <- Hk2.
    destruct b; [eapply bind_Ok_M; [apply resetTimerFd_ok|done]|].
    eapply bind_Ok_M; [done|]. by destruct w2.
  - exists e, e2. split; [done|]. split; [exact Hq2|]. split; [done|]. split.
    + intros i Hi. rewrite Hp2. by apply list_elem_of_further.
    + intros i [ti Hi] Hni. rewrite Hp2. intros [Heq|?]%elem_of_cons; [congruence|done].
  - intros i ti Hi. simpl. rewrite Hold by congruence. by rewrite Hi.
  - split; [done|]. split; [simpl; rewrite Htts; simpl; by rewrite lookup_insert_eq|].
    split; [exact Hq2|]. split; [done|]. simpl. unfold k3.
    destruct b; [left|right]; (split; [|done]); rewrite <- Hb'; done.
Qed.

(** C23: cancelling a task of the queue: it is marked, it will not repeat, and
    it leaves the queue unless it is at its head or not queued; no other task
    changes and the heap stays a heap. A marked task is never run by
    [timer_handleRead] ([due] skips it). *)
Theorem cancel_functional (task : nat) (t : TimerTask) (e : Eventloop) (w : W)
    (Hq : queue_ok (tt_tq t) e w) (Ht : w_tts w !! task = Some t)
    (Hidx : index_ok (heap_of w e) task t) :
  exists e' w' t', cancel_closure task w = Ok (tt, w') /\ queue_ok (tt_tq t) e' w' /\
    w_k w' = w_k w /\ e' = e <| tasks := tasks e' |> /\
    w_tts w' !! task = Some t' /\ canceled t' = true /\ tt_repeat t' = false /\
    due w' [task] = [] /\
    (forall id, id <> task -> no_index <$> w_tts w' !! id = no_index <$> w_tts w !! id) /\
    (if 0 <? tt_index t then tasks e ≡ₚ task :: tasks e' else tasks e' = tasks e).
Proof.
  destruct Hq as [He Hok].
  destruct (cancel_heap_ok (heap_of w e) task t Hok Ht Hidx)
    as (h' & t' & Hc & Hok' & Ht' & Hcan & Hrep & Hoth & Hp).
  exists (e <| tasks := h_tasks h' |>), (put_heap (tt_tq t) e h' w), t'.
  split; [|split; [by apply queue_ok_put|do 5 (split; [done|])]].
  - unfold cancel_closure. eapply bind_Ok_M; [unfold load; by rewrite Ht|].
    apply with_heap_ok; [done|]. by rewrite Hc.
  - split; [|split; [exact Hoth|exact Hp]]. unfold due. simpl. simpl in Ht'.
    rewrite Ht'. simpl. by rewrite Hcan.
Qed.

Lemma AsyncExecute_ok el e w task :
  w_els w !! el = Some e ->
  AsyncExecute el task w =
    Ok (tt, w <| w_els ::= <[el := e <| pendingTasks := pendingTasks e ++ [task] |>]> |>
              <| w_k ::= k_write8 (evtFd e) |>).
Proof.
  intros He. unfold AsyncExecute. eapply bind_Ok_M.
  { unfold upd_el. eapply bind_Ok_M; [unfold load; by rewrite He|reflexivity]. }
  unfold Wakeup. eapply bind_Ok_M; [unfold load; simpl; by rewrite lookup_insert_eq|reflexivity].
Qed.

(** Queueing a task for the loop does not touch the timers. *)
Lemma AsyncExecute_rel el e w task :
  queue_ok el e w -> exists w', AsyncExecute el task w = Ok (tt, w') /\ timer_rel el w w'.
Proof.
  intros [He Hok]. eexists. split; [by apply AsyncExecute_ok|].
  split; [|by intros id t Ht; simpl; rewrite Ht].
  eexists e, _. split; [done|]. split; [split; [apply lookup_insert_eq|exact Hok]|]. done.
Qed.

End world.

(** The delay programmed into the timer descriptor is the time left, but
    at least 100 microseconds and at most the largest duration: it is never
    zero, which would disarm the descriptor, and never negative. *)
Theorem timer_delay_clamped (t now : Z) :
  timer_delay t now = Z.min maxDuration (Z.max 100000 (t - now)).
Proof.
  unfold timer_delay, Microseconds, Sub, minDuration, maxDuration.
  set (d := Z.max _ _). assert (Hd : d = Z.max (- 2 ^ 63) (Z.min (2 ^ 63 - 1) (t - now))) by done.
  clearbody d. destruct (Z.ltb_spec (Z.quot d 1000) 100) as [H|H].
  - assert (d < 100000).
    { destruct (Z.lt_ge_cases d 0); [lia|]. rewrite Z.quot_div_nonneg in H by lia.
      pose proof (Z.div_mod d 1000). pose proof (Z.mod_pos_bound d 1000). lia. }
    lia.
  - assert (100000 <= d).
    { destruct (Z.lt_ge_cases d 0).
      - pose proof (Z.quot_opp_l d 1000). pose proof (Z.quot_pos (- d) 1000). lia.
      - rewrite Z.quot_div_nonneg in H by lia.
        pose proof (Z.div_mod d 1000). pose proof (Z.mod_pos_bound d 1000). lia. }
    lia.
Qed.

(** ** Examples *)

(** A queue with a due repeating task, a due cancelled one and a late one. *)
Definition demo_task (id : Z) (exp itv : Z) (c : bool) : TimerTask :=
  mkTimerTask 0 exp itv (0 <? itv) TcNothing id c.
Definition demo_timers : gmap nat TimerTask :=
  {[ 0%nat := demo_task 0 900000000 500000000 false;
     1%nat := demo_task 1 950000000 0 true;
     2%nat := demo_task 2 5000000000 0 false ]}.
Definition demo_tloop : Eventloop := demo_loop <| tasks := [0; 1; 2]%nat |>.
Definition demo_tworld : World Sim :=
  world0 <| w_els := {[ 0%nat := demo_tloop ]} |> <| w_tts := demo_timers |>.

Lemma demo_queue_ok : queue_ok 0 demo_tloop demo_tworld.
Proof.
  split; [done|]. split.
  - intros [|[|[|i]]] id Hi; try done; injection Hi as <-; eexists; done.
  - intros k Hk. unfold heap_view in *. simpl in Hk.
    destruct k as [|[|[|k]]]; [lia| | |lia]; intros x y; vm_compute;
      intros [= <-] [= <-]; discriminate.
Qed.

Lemma timer_handleRead_exact_witness :
  exists expired rest w1 e2 w2 e3 w3 k3,
    timer_handleRead (fun _ => AsyncExecute 0 (TaskUser 1)) 0 0 demo_tworld =
      Ok (tt, w3 <| w_k := k3 |>) /\
    (tasks demo_tloop ≡ₚ expired ++ rest /\
     Forall (fun id => expire_of (heap_of demo_tworld demo_tloop) id <= 1000000000) expired /\
     Forall (fun id => 1000000000 < expire_of (heap_of demo_tworld demo_tloop) id) rest /\
     StronglySorted (fun a b => expire_of (heap_of demo_tworld demo_tloop) a
                                <= expire_of (heap_of demo_tworld demo_tloop) b) expired) /\
    w1 = demo_tworld <| w_k := sim0 |>
           <| w_els ::= <[0%nat := demo_tloop <| tasks := rest |>]> |> <| w_tts := w_tts w1 |> /\
    (forall id, no_index <$> w_tts w1 !! id = no_index <$> w_tts demo_tworld !! id) /\
    queue_ok 0 (demo_tloop <| tasks := rest |>) w1 /\
    forM (due demo_tworld expired) (fun _ => AsyncExecute 0 (TaskUser 1)) w1 = Ok (tt, w2) /\
    timer_rel 0 w1 w2 /\ queue_ok 0 e2 w2 /\
    (forall id, id ∈ rest -> id ∈ tasks e2) /\ (forall id, id ∈ expired -> (id ∉ tasks e2)) /\
    tasks e3 ≡ₚ filter (fun id => again_id w2 id = true) expired ++ tasks e2 /\
    reset_to 0 e2 expired 1000000000 w2 e3 w3 /\ armed w3 e3 (w_k w2) k3.
Proof.
  apply (timer_handleRead_exact (fun _ => AsyncExecute 0 (TaskUser 1)) 0 0 demo_tloop
    demo_tworld None sim0 sim0 1000000000 demo_queue_ok).
  - vm_compute. reflexivity.
  - reflexivity.
  - intros _ w0 e0 Hq. by apply AsyncExecute_rel with e0.
Defined.

Lemma addTask_functional_witness :
  exists id e' w', addTask 0 TcNothing 800000000 0 demo_tworld = Ok (id, w') /\
    timer_rel 0 demo_tworld w' /\
    w_tts demo_tworld !! id = None /\
    no_index <$> w_tts w' !! id = Some (no_index (new_task 0 TcNothing 800000000 0)) /\
    queue_ok 0 e' w' /\ tasks e' ≡ₚ id :: tasks demo_tloop /\
    ((Forall (fun i => 800000000 < expire_of (heap_of demo_tworld demo_tloop) i)
        (tasks demo_tloop) /\ w_k w' = arm (timerFd demo_tloop) 800000000 (w_k demo_tworld)) \/
     (~ Forall (fun i => 800000000 < expire_of (heap_of demo_tworld demo_tloop) i)
        (tasks demo_tloop) /\ w_k w' = w_k demo_tworld)).
Proof.
  apply (addTask_functional 0 TcNothing 800000000 0 demo_tloop demo_tworld demo_queue_ok).
Defined.

Lemma cancel_functional_witness :
  exists e' w' t', cancel_closure 2 demo_tworld = Ok (tt, w') /\ queue_ok 0 e' w' /\
    w_k w' = w_k demo_tworld /\ e' = demo_tloop <| tasks := tasks e' |> /\
    w_tts w' !! 2%nat = Some t' /\ canceled t' = true /\ tt_repeat t' = false /\
    due w' [2%nat] = [] /\
    (forall id, id <> 2%nat -> no_index <$> w_tts w' !! id = no_index <$> w_tts demo_tworld !! id) /\
    tasks demo_tloop ≡ₚ 2%nat :: tasks e'.
Proof.
  apply (cancel_functional 2 (demo_task 2 5000000000 0 false) demo_tloop demo_tworld demo_queue_ok).
  - reflexivity.
  - right. split; [vm_compute; discriminate|reflexivity].
Defined.
