(* ===== verification/Eventloop.v ===== *)
(** * eventloop.go: the event loop

    [NewEventloop], the loop itself, its task queue seen from the loop's own
    goroutine, and the scheduling entry points. What a channel's callback and
    a queued task do is a parameter here ([dispatch], [exec]); [Reactor]
    instantiates it. The interleaving of the loop with other goroutines is in
    [TaskQueue]. *)

From S2P Require Import Prelude.
From S2P Require Import World.
From S2P Require Import Sim.
From S2P Require Import Poller.
From S2P Require Import GoHeap.
From S2P Require Import Timer.
From stdpp Require Import base list gmap strings.
From Stdlib Require Import ZArith Lia.
Open Scope Z_scope.

Definition pollTimeoutMills : Z := 10000.

Section ops.
Context {K : Type} `{!Kernel K}.
Abbreviation W := (World K).

Definition createEventFd : M W Z :=
  r ← sys k_eventfd;
  match r with inl fd => mret fd | inr _ => panic "Eventfd" end.

Definition NewEventloop (id : bytes) : M W nat :=
  el ← alloc w_els;
  set_el el {| el_id := id; looping := 0; quit := 0; activeChannels := []; poller := None;
               timerFd := 0; timerFdChannel := 0; tasks := []; pendingTasks := [];
               evtFd := 0; wakeupChannel := 0; runningPendingTasks := false |} ;;
  po ← newPoller;
  upd_el el (fun e => e <| poller := po |>) ;;
  '(tfd, tch) ← newTimerQueue el;
  upd_el el (fun e => e <| timerFd := tfd |> <| timerFdChannel := tch |> <| tasks := [] |>) ;;
  efd ← createEventFd;
  upd_el el (fun e => e <| evtFd := efd |>) ;;
  wch ← NewChannel el efd;
  upd_el el (fun e => e <| wakeupChannel := wch |>) ;;
  setReadCallback wch (CbWakeup el) ;;
  enableReading wch ;;
  mret el.

Definition el_handleRead (el : nat) : M W unit :=
  e ← load w_els el; _ ← sys (k_read8 (evtFd e)); mret tt.

(** The queue is replaced by an empty one before its tasks run. *)
Definition runPendingTasks (exec : Task -> M W unit) (el : nat) : M W unit :=
  e ← load w_els el;
  let pt := pendingTasks e in
  upd_el el (fun e => e <| runningPendingTasks := true |>) ;;
  upd_el el (fun e => e <| pendingTasks := [] |>) ;;
  forM pt exec ;;
  upd_el el (fun e => e <| runningPendingTasks := false |>).

Definition Schedule (el : nat) (cb : TimeoutCb) (t : Z) : M W nat := addTask el cb t 0.

Definition AsyncSchedule (el : nat) (cb : TimeoutCb) (t : Z) : M W nat :=
  task ← newTimerTask el cb t 0;
  AsyncExecute el (TaskAddTask0 el task) ;;
  mret task.

Definition ScheduleDelay (el : nat) (cb : TimeoutCb) (d : Z) : M W nat :=
  now ← sys k_now; addTask el cb (now + d) 0.

Definition AsyncScheduleDelay (el : nat) (cb : TimeoutCb) (d : Z) : M W nat :=
  now ← sys k_now;
  task ← newTimerTask el cb (now + d) 0;
  AsyncExecute el (TaskAddTask0 el task) ;;
  mret task.

Definition ScheduleAtFixRate (el : nat) (cb : TimeoutCb) (interval : Z) : M W nat :=
  t ← sys k_now; addTask el cb (t + interval) interval.

Definition AsyncScheduleAtFixRate (el : nat) (cb : TimeoutCb) (interval : Z) : M W nat :=
  t ← sys k_now;
  task ← newTimerTask el cb (t + interval) interval;
  AsyncExecute el (TaskAddTask0 el task) ;;
  mret task.

Definition destroy (el : nat) : M W unit :=
  e ← load w_els el; _ ← sys (k_close (evtFd e)); timer_shutdown el.

Definition Stop (el : nat) : M W unit := upd_el el (fun e => e <| quit := 1 |>).
Definition AsyncStop (el : nat) : M W unit := Stop el ;; Wakeup el.

Section loop.
Context (dispatch : Callback -> Z -> M W unit) (exec : Task -> M W unit).

(** The body of the loop. *)
Definition iteration (el : nat) : M W unit :=
  upd_el el (fun e => e <| activeChannels := [] |>) ;;
  retTs ← poll el pollTimeoutMills;
  e ← load w_els el;
  forM (activeChannels e) (fun c => handleEvent dispatch c retTs) ;;
  runPendingTasks exec el.

(** At most [n] iterations: whether the loop ended. *)
Fixpoint loop (n : nat) (el : nat) : M W bool :=
  e ← load w_els el;
  if negb (quit e =? 0) then mret true
  else match n with
       | O => mret false
       | S n => iteration el ;; loop n el
       end.

Definition Loop (n : nat) (el : nat) : M W bool :=
  upd_el el (fun e => e <| looping := 1 |>) ;;
  upd_el el (fun e => e <| quit := 0 |>) ;;
  ended ← loop n el;
  if (ended : bool)
  then upd_el el (fun e => e <| looping := 0 |>) ;; destroy el ;; mret true
  else mret false.

End loop.
End ops.

(** ** Lemmas *)

Section lemmas.
Context {K : Type} `{!Kernel K}.
Abbreviation W := (World K).
Implicit Types (w : W) (el c : nat) (e : Eventloop).

Lemma load_el_ok w el e : w_els w !! el = Some e -> load w_els el w = Ok (e, w).
Proof. intros He. unfold load. by rewrite He. Qed.

Lemma upd_el_ok w el e (f : Eventloop -> Eventloop) :
  w_els w !! el = Some e -> upd_el el f w = Ok (tt, w <| w_els ::= <[el := f e]> |>).
Proof. intros He. unfold upd_el. by eapply bind_Ok_M; [apply load_el_ok|]. Qed.

Lemma set_els_twice w el e1 e2 :
  w <| w_els ::= <[el := e1]> |> <| w_els ::= <[el := e2]> |> = w <| w_els ::= <[el := e2]> |>.
Proof. simpl. by rewrite insert_insert_eq. Qed.

Lemma destroy_ok w el e :
  w_els w !! el = Some e ->
  destroy el w =
    Ok (tt, w <| w_k := snd (k_close (timerFd e) (snd (k_close (evtFd e) (w_k w)))) |>).
Proof.
  intros He. unfold destroy, timer_shutdown. eapply bind_Ok_M; [by apply load_el_ok|].
  eapply bind_Ok_M; [apply sys_ok|]. eapply bind_Ok_M; [by apply load_el_ok|].
  by eapply bind_Ok_M; [apply sys_ok|].
Qed.

(** The invariant does not depend on the other stores or fields. *)
Lemma poller_ok_ext `{!EpollLaws K} el p w w' :
  poller_ok el p w -> poller_of w' el = Some p -> w_chs w' = w_chs w ->
  interest (w_k w') (epollFd p) = interest (w_k w) (epollFd p) -> poller_ok el p w'.
Proof.
  intros [] Hp Hch Hi. split; [done|by rewrite Hch|by rewrite Hch|].
  intros fd. by rewrite Hi, Hch.
Qed.

(** The channel that [NewChannel] makes. *)
Definition blank_channel (el : nat) (fd : Z) : Channel :=
  mkChannel None el fd eventNone 0 channelNew None None None None false.

Lemma NewChannel_ok el (fd : Z) w :
  exists c, w_chs w !! c = None /\
    NewChannel el fd w = Ok (c, w <| w_chs ::= <[c := blank_channel el fd]> |>).
Proof. eexists. split; [apply not_elem_of_dom, is_fresh|reflexivity]. Qed.

(** A new channel is not registered, so the poller still agrees. *)
Lemma poller_ok_new_channel `{!EpollLaws K} el p w c ch :
  poller_ok el p w -> w_chs w !! c = None -> ch_index ch = channelNew ->
  poller_ok el p (w <| w_chs ::= <[c := ch]> |>).
Proof.
  intros [Hp Hm Hc Hr] Hfree Hnew.
  assert (Hne : forall fd c', channelMap p !! fd = Some c' -> c <> c').
  { intros fd c' Hl ->. destruct (Hm _ _ Hl) as (? & ? & _). congruence. }
  split; [done|..]; simpl.
  - intros fd c' Hl. rewrite lookup_insert_ne by eauto. by apply Hm.
  - intros c' ch' Hl. rewrite lookup_insert in Hl. case_decide; [|by apply Hc].
    simplify_eq. by left.
  - intros fd. rewrite Hr. unfold expected.
    destruct (channelMap p !! fd) as [c'|] eqn:E; [|done]. simpl.
    by rewrite lookup_insert_ne by eauto.
Qed.

(** The agreement only depends on a channel's descriptor, loop, index and events. *)
Lemma poller_ok_same_ch `{!EpollLaws K} el p w c ch ch' :
  poller_ok el p w -> w_chs w !! c = Some ch ->
  ch_fd ch' = ch_fd ch -> ch_el ch' = ch_el ch -> ch_index ch' = ch_index ch ->
  events ch' = events ch ->
  poller_ok el p (w <| w_chs ::= <[c := ch']> |>).
Proof.
  intros [Hp Hm Hc Hr] Hch Hfd Hel Hidx Hev. split; [done|..]; simpl.
  - intros fd c' Hl. destruct (Hm _ _ Hl) as (ch0 & H0 & ? & ? & ?). rewrite lookup_insert.
    case_decide; [|by eauto]. simplify_eq. exists ch'.
    by rewrite Hfd, Hel, Hidx.
  - intros c' ch0 Hl. rewrite lookup_insert in Hl. case_decide; [|by apply Hc].
    simplify_eq. rewrite Hel, Hfd, Hidx. by apply Hc.
  - intros fd. rewrite Hr. unfold expected.
    destruct (channelMap p !! fd) as [c'|] eqn:E; [|done]. simpl.
    rewrite lookup_insert. case_decide; [|done]. simplify_eq. rewrite Hch. simpl.
    by rewrite Hidx, Hev.
Qed.

(** The first use of a channel: its read callback is set and reading enabled. *)
Lemma register_ok `{!EpollLaws K} el p w c (fd : Z) cb :
  poller_ok el p w -> w_chs w !! c = Some (blank_channel el fd) -> channelMap p !! fd = None ->
  exists w1 p' w', setReadCallback c cb w = Ok (tt, w1) /\ enableReading c w1 = Ok (tt, w') /\
    poller_ok el p' w' /\ epollFd p' = epollFd p /\ chan_frame el c w w' /\
    w_chs w' !! c = Some ((blank_channel el fd) <| readCallback := Some cb |>
                            <| events := eventRead |> <| ch_index := channelAdd |>) /\
    channelMap p' = <[fd := c]> (channelMap p).
Proof.
  intros Hok Hc Hfree. set (ch := (blank_channel el fd) <| readCallback := Some cb |>).
  set (w1 := w <| w_chs ::= <[c := ch]> |>).
  assert (Hok1 : poller_ok el p w1) by by eapply poller_ok_same_ch.
  assert (Hc1 : w_chs w1 !! c = Some ch) by apply lookup_insert_eq.
  destruct (set_events_ok el p w1 c ch (fun ev => Z.lor ev eventRead) Hok1)
    as (p' & w' & Hrun & Hok' & Hf & Hep & Hc' & Hm'); [done|done|done|].
  exists w1, p', w'. split; [by apply upd_ch_ok|]. do 3 (split; [done|]).
  split; [by eapply chan_frame_trans; [apply chan_frame_set_ch|exact Hf]|]. done.
Qed.

End lemmas.

(** ** What the calls that make descriptors promise *)

(** A new descriptor is in no interest list: closing a descriptor takes it out
    of every epoll instance. *)
Class FdLaws (K : Type) `{!Kernel K} `{!EpollLaws K} : Type := {
  law_epoll_create k fd k' : k_epoll_create k = (inl fd, k') -> interest k' fd = ∅;
  law_timerfd k fd k' : k_timerfd_create k = (inl fd, k') ->
    forall ep, interest k' ep = interest k ep /\ interest k ep !! fd = None;
  law_eventfd k fd k' : k_eventfd k = (inl fd, k') ->
    forall ep, interest k' ep = interest k ep /\ interest k ep !! fd = None;
}.

#[export] Instance SimFdLaws : FdLaws Sim.
Proof.
  split.
  - intros k fd k'. simpl. intros [= <- <-].
    apply sim_interest_set.
  - intros k fd k' H ep. apply sim_newfd_unwatched in H as [He Hn]. split; [|done].
    simpl. unfold sim_interest. by rewrite He.
  - intros k fd k' H ep. apply sim_newfd_unwatched in H as [He Hn]. split; [|done].
    simpl. unfold sim_interest. by rewrite He.
Qed.

(** ** Properties *)

Section properties.
Context {K : Type} `{!Kernel K}.
Abbreviation W := (World K).

(** What a new loop looks like. *)
Record fresh_loop `{!EpollLaws K} (id : bytes) (el : nat) (e : Eventloop) (w : W) : Prop := {
  fl_el : w_els w !! el = Some e;
  fl_id : el_id e = id;
  fl_quit : quit e = 0;
  fl_pending : pendingTasks e = [];
  fl_queue : queue_ok el e w;
  fl_timers : tasks e = [];
  fl_poller : exists p, poller_ok el p w /\
    channelMap p = {[ evtFd e := wakeupChannel e; timerFd e := timerFdChannel e ]} /\
    interest (w_k w) (epollFd p) !! evtFd e = Some (eventRead, wakeupChannel e) /\
    interest (w_k w) (epollFd p) !! timerFd e = Some (eventRead, timerFdChannel e);
  fl_wakeup : readCallback <$> w_chs w !! wakeupChannel e = Some (Some (CbWakeup el));
  fl_timer : readCallback <$> w_chs w !! timerFdChannel e = Some (Some (CbTimerQueue el));
}.

Lemma poller_ok_create `{!EpollLaws K} el e w (ep : Z) :
  w_els w !! el = Some e -> poller e = Some (mkPoller ep 16 ∅) ->
  interest (w_k w) ep = ∅ -> (forall c ch, w_chs w !! c = Some ch -> ch_el ch <> el) ->
  poller_ok el (mkPoller ep 16 ∅) w.
Proof.
  intros He Hp Hi Hch. split; simpl.
  - apply poller_of_inv. eauto.
  - intros fd c. by rewrite lookup_empty.
  - intros c ch Hc Hel. by destruct (Hch c ch Hc).
  - intros fd. unfold expected. by rewrite Hi, !lookup_empty.
Qed.

(** [newTimerQueue] on a loop whose poller is in order. *)
Lemma newTimerQueue_ok `{!EpollLaws K} `{!FdLaws K} el p (w : W) fd k' :
  poller_ok el p w -> channelMap p = ∅ -> k_timerfd_create (w_k w) = (inl fd, k') ->
  exists c p' w', newTimerQueue el w = Ok ((fd, c), w') /\ poller_ok el p' w' /\
    epollFd p' = epollFd p /\ channelMap p' = {[ fd := c ]} /\
    chan_frame el c (w <| w_k := k' |>) w' /\
    w_chs w' !! c = Some ((blank_channel el fd) <| readCallback := Some (CbTimerQueue el) |>
                            <| events := eventRead |> <| ch_index := channelAdd |>).
Proof.
  intros Hok Hm Hk. destruct (law_timerfd _ _ _ Hk (epollFd p)) as [Hi _].
  set (w1 := w <| w_k := k' |>).
  assert (Hok1 : poller_ok el p w1)
    by (eapply poller_ok_ext; [exact Hok|exact (ok_poller _ _ _ Hok)|done|exact Hi]).
  destruct (NewChannel_ok el fd w1) as (c & Hc & Hnew).
  set (w2 := w1 <| w_chs ::= <[c := blank_channel el fd]> |>) in *.
  destruct (register_ok el p w2 c fd (CbTimerQueue el))
    as (w3 & p' & w' & Hset & Hen & Hok' & Hep & Hf & Hc' & Hm').
  { by apply poller_ok_new_channel. } { apply lookup_insert_eq. } { by rewrite Hm. }
  exists c, p', w'. split; [|split; [done|split; [done|split; [by rewrite Hm', Hm|]]]].
  - unfold newTimerQueue. eapply bind_Ok_M; [unfold sys; by rewrite Hk|].
    eapply bind_Ok_M; [exact Hnew|]. eapply bind_Ok_M; [exact Hset|].
    by eapply bind_Ok_M; [exact Hen|].
  - split; [|done]. eapply chan_frame_trans; [apply chan_frame_set_ch|exact Hf].
Qed.

(** The second half of [NewEventloop]: the wakeup descriptor. *)
Definition add_wakeup (el : nat) : M W nat :=
  efd ← createEventFd;
  upd_el el (fun e => e <| evtFd := efd |>) ;;
  wch ← NewChannel el efd;
  upd_el el (fun e => e <| wakeupChannel := wch |>) ;;
  setReadCallback wch (CbWakeup el) ;;
  enableReading wch ;;
  mret el.

Lemma add_wakeup_ok `{!EpollLaws K} `{!FdLaws K} el e p (w : W) efd k' :
  poller_ok el p w -> w_els w !! el = Some e -> k_eventfd (w_k w) = (inl efd, k') ->
  (forall fd, is_Some (channelMap p !! fd) -> is_Some (interest (w_k w) (epollFd p) !! fd)) ->
  exists wc p' w', add_wakeup el w = Ok (el, w') /\ poller_ok el p' w' /\
    channelMap p' = <[efd := wc]> (channelMap p) /\ channelMap p !! efd = None /\
    w_els w' = <[el := e <| evtFd := efd |> <| wakeupChannel := wc |>
                         <| poller := Some p' |>]> (w_els w) /\
    w_chs w !! wc = None /\
    w_chs w' = <[wc := (blank_channel el efd) <| readCallback := Some (CbWakeup el) |>
                         <| events := eventRead |> <| ch_index := channelAdd |>]> (w_chs w).
Proof.
  intros Hok He Hef Hreg. destruct (law_eventfd _ _ _ Hef (epollFd p)) as [Hi Hfree].
  assert (Hm : channelMap p !! efd = None).
  { destruct (channelMap p !! efd) eqn:E; [|done].
    destruct (Hreg efd) as [x Hx]; [by eexists|]. congruence. }
  set (w1 := w <| w_els ::= <[el := e <| evtFd := efd |>]> |> <| w_k := k' |>).
  destruct (NewChannel_ok el efd w1) as (wc & Hwc & Hnew).
  set (e2 := e <| evtFd := efd |> <| wakeupChannel := wc |>).
  set (w2 := w1 <| w_chs ::= <[wc := blank_channel el efd]> |> <| w_els ::= <[el := e2]> |>).
  assert (Hpe : poller e = Some p).
  { apply ok_poller, poller_of_inv in Hok as (e0 & ? & ?). congruence. }
  assert (Hok2 : poller_ok el p w2).
  { apply (poller_ok_ext el p (w1 <| w_chs ::= <[wc := blank_channel el efd]> |>)); try done.
    - apply poller_ok_new_channel; [|done|done]. eapply poller_ok_ext; [exact Hok| |done|exact Hi].
      unfold poller_of, w1. simpl. by rewrite lookup_insert_eq.
    - unfold poller_of, w2. simpl. by rewrite lookup_insert_eq. }
  destruct (register_ok el p w2 wc efd (CbWakeup el))
    as (w3 & p' & w' & Hset & Hen & Hok' & Hep' & Hf' & Hc' & Hm'); [done|by apply lookup_insert_eq|done|].
  destruct (cf_el _ _ _ _ Hf' e2 (lookup_insert_eq _ _ _)) as [po' He'].
  exists wc, p', w'. split; [|do 3 (split; [done|]); split; [|split; [done|]]].
  - unfold add_wakeup. eapply bind_Ok_M; [unfold createEventFd, sys, mbind, M_bind; by rewrite Hef|].
    eapply bind_Ok_M; [by apply upd_el_ok|].
    eapply bind_Ok_M; [exact Hnew|]. eapply bind_Ok_M; [apply upd_el_ok, lookup_insert_eq|].
    eapply bind_Ok_M; [exact Hset|]. by eapply bind_Ok_M; [exact Hen|].
  - assert (po' = Some p') as ->.
    { pose proof (ok_poller _ _ _ Hok') as H. unfold poller_of in H. by rewrite He' in H. }
    apply map_eq. intros i. destruct (decide (i = el)) as [->|Hi'].
    + by rewrite lookup_insert_eq.
    + rewrite (cf_els _ _ _ _ Hf') by done. simpl. by rewrite !lookup_insert_ne.
  - apply map_eq. intros i. destruct (decide (i = wc)) as [->|Hi'].
    + by rewrite lookup_insert_eq.
    + rewrite (cf_chs _ _ _ _ Hf') by done. simpl. by rewrite !lookup_insert_ne.
Qed.

(** The first half: the timer queue of a loop that watches nothing yet. *)
Lemma timer_half_ok `{!EpollLaws K} `{!FdLaws K} el e p (w : W) fd k' :
  poller_ok el p w -> channelMap p = ∅ -> w_els w !! el = Some e ->
  k_timerfd_create (w_k w) = (inl fd, k') ->
  exists c p' w', newTimerQueue el w = Ok ((fd, c), w') /\ poller_ok el p' w' /\
    channelMap p' = {[ fd := c ]} /\ chan_frame el c (w <| w_k := k' |>) w' /\
    w_chs w' !! c = Some ((blank_channel el fd) <| readCallback := Some (CbTimerQueue el) |>
                            <| events := eventRead |> <| ch_index := channelAdd |>) /\
    w_els w' !! el = Some (e <| poller := Some p' |>) /\
    interest (w_k w') (epollFd p') !! fd = Some (eventRead, c).
Proof.
  intros Hok Hm He Hk.
  destruct (newTimerQueue_ok el p w fd k' Hok Hm Hk) as (c & p' & w' & H & Hok' & _ & Hm' & Hf & Hc).
  destruct (cf_el _ _ _ _ Hf e He) as [po He'].
  assert (po = Some p') as ->.
  { pose proof (ok_poller _ _ _ Hok') as Hp. unfold poller_of in Hp. by rewrite He' in Hp. }
  exists c, p', w'. repeat (split; [done|]).
  rewrite (ok_reg _ _ _ Hok'). unfold expected. rewrite Hm', lookup_singleton_eq. simpl.
  by rewrite Hc.
Qed.

Lemma NewEventloop_ok `{!EpollLaws K} `{!FdLaws K} (id : bytes) (w : W) (ep : Z) (k1 : K) :
  (forall c ch, w_chs w !! c = Some ch -> is_Some (w_els w !! ch_el ch)) ->
  k_epoll_create (w_k w) = (inl ep, k1) ->
  (forall k, exists fd k', k_timerfd_create k = (inl fd, k')) ->
  (forall k, exists fd k', k_eventfd k = (inl fd, k')) ->
  exists el e w', NewEventloop id w = Ok (el, w') /\ w_els w !! el = None /\
    fresh_loop id el e w' /\ (forall i, i <> el -> w_els w' !! i = w_els w !! i) /\
    (forall c ch, w_chs w' !! c = Some ch -> w_chs w !! c = Some ch \/ ch_el ch = el).
Proof.
  intros Hch Hep Htimer Hevent. set (el := fresh (dom (w_els w))).
  assert (Hel : w_els w !! el = None) by apply not_elem_of_dom, is_fresh.
  set (e1 := mkEventloop id 0 0 [] (Some (mkPoller ep 16 ∅)) 0 0 [] [] 0 0 false).
  set (w1 := w <| w_k := k1 |> <| w_els ::= <[el := e1]> |>).
  assert (Hok1 : poller_ok el (mkPoller ep 16 ∅) w1).
  { apply (poller_ok_create _ e1); [apply lookup_insert_eq|done| |].
    - exact (law_epoll_create _ _ _ Hep).
    - intros c ch Hc Heq. destruct (Hch c ch Hc) as [e0 He0]. congruence. }
  destruct (Htimer k1) as (tfd & k2 & Htf).
  destruct (timer_half_ok el e1 _ w1 tfd k2 Hok1 eq_refl (lookup_insert_eq _ _ _) Htf)
    as (tc & p3 & w3 & Hntq & Hok3 & Hm3 & Hf3 & Htc & He3 & Htfd).
  set (e4 := e1 <| poller := Some p3 |> <| timerFd := tfd |> <| timerFdChannel := tc |>).
  set (w4 := w3 <| w_els ::= <[el := e4]> |>).
  destruct (Hevent (w_k w3)) as (efd & k5 & Hef).
  destruct (add_wakeup_ok el e4 p3 w4 efd k5)
    as (wc & p' & w' & Hadd & Hok' & Hm' & Hfree & Hels & Hwc & Hchs).
  { eapply poller_ok_ext; [exact Hok3| |done|done]. unfold poller_of. simpl.
    by rewrite lookup_insert_eq. }
  { apply lookup_insert_eq. } { exact Hef. }
  { intros fd. rewrite Hm3. intros [c Hc]. apply lookup_singleton_Some in Hc as [<- <-].
    by exists (eventRead, tc). }
  assert (Hne : efd <> tfd) by (intros ->; rewrite Hm3, lookup_singleton_eq in Hfree; done).
  assert (Hntc : tc <> wc) by (intros ->; simpl in Hwc; congruence).
  eexists el, _, w'. split; [|split; [done|split; [|split]]].
  - unfold NewEventloop. eapply bind_Ok_M; [reflexivity|]. fold el.
    eapply bind_Ok_M; [reflexivity|].
    eapply bind_Ok_M; [unfold newPoller, sys, mbind, M_bind; simpl; by rewrite Hep|].
    eapply bind_Ok_M; [apply upd_el_ok, lookup_insert_eq|]. simpl. rewrite insert_insert_eq.
    eapply bind_Ok_M; [exact Hntq|]. eapply bind_Ok_M; [by apply upd_el_ok|exact Hadd].
  - assert (Htc' : w_chs w' !! tc = w_chs w3 !! tc) by (rewrite Hchs; by apply lookup_insert_ne).
    split; [rewrite Hels; apply lookup_insert_eq|done|done|done| |done| | |].
    + split; [rewrite Hels; apply lookup_insert_eq|done].
    + exists p'. split; [done|]. split; [by rewrite Hm', Hm3|].
      rewrite !(ok_reg _ _ _ Hok'). unfold expected. rewrite Hm', Hm3. simpl.
      rewrite lookup_insert_eq, lookup_insert_ne, lookup_singleton_eq by done. simpl.
      by rewrite Htc', Htc, Hchs, lookup_insert_eq.
    + simpl. by rewrite Hchs, lookup_insert_eq.
    + simpl. by rewrite Htc', Htc.
  - intros i Hi. rewrite Hels, !lookup_insert_ne by done. simpl.
    rewrite !lookup_insert_ne, (cf_els _ _ _ _ Hf3) by done. simpl. by rewrite lookup_insert_ne.
  - intros c ch Hc. rewrite Hchs, lookup_insert in Hc. case_decide; [right; by simplify_eq|].
    destruct (decide (c = tc)) as [->|Hc']; [right; simpl in Hc; by simplify_eq|left].
    simpl in Hc. by rewrite (cf_chs _ _ _ _ Hf3) in Hc.
Qed.

(** C21: a new event loop: when the kernel gives the three descriptors, the
    constructor does not panic and returns a loop at an unused address whose
    poller agrees with the kernel, which watches exactly the wakeup and the
    timer descriptor for reading, with an empty timer heap, no pending task
    and the quit flag clear; the other loops are untouched. *)
Theorem NewEventloop_functional `{!EpollLaws K} `{!FdLaws K} (id : bytes) (w : W)
    (ep : Z) (k1 : K)
    (Hch : forall c ch, w_chs w !! c = Some ch -> is_Some (w_els w !! ch_el ch))
    (Hep : k_epoll_create (w_k w) = (inl ep, k1))
    (Htimer : forall k, exists fd k', k_timerfd_create k = (inl fd, k'))
    (Hevent : forall k, exists fd k', k_eventfd k = (inl fd, k')) :
  exists el e w', NewEventloop id w = Ok (el, w') /\ w_els w !! el = None /\
    fresh_loop id el e w' /\ (forall i, i <> el -> w_els w' !! i = w_els w !! i).
Proof.
  destruct (NewEventloop_ok id w ep k1 Hch Hep Htimer Hevent)
    as (el & e & w' & Hrun & Hnew & Hfl & Hoth & _). by exists el, e, w'.
Qed.

Lemma forM_spawns (exec : Task -> M W unit) (spawn : Task -> list Task) el :
  (forall t w0 e0, w_els w0 !! el = Some e0 ->
     exists w1 e1, exec t w0 = Ok (tt, w1) /\ w_els w1 !! el = Some e1 /\
       pendingTasks e1 = pendingTasks e0 ++ spawn t) ->
  forall (ts : list Task) w e, w_els w !! el = Some e ->
    exists w1 e1, forM ts exec w = Ok (tt, w1) /\ w_els w1 !! el = Some e1 /\
      pendingTasks e1 = pendingTasks e ++ (ts ≫= spawn).
Proof.
  intros Hexec. induction ts as [|t ts IH]; intros w e He.
  - exists w, e. by rewrite app_nil_r.
  - destruct (Hexec t w e He) as (w1 & e1 & Hr & He1 & Hp1).
    destruct (IH w1 e1 He1) as (w2 & e2 & Hr2 & He2 & Hp2).
    exists w2, e2. split; [by eapply bind_Ok_M|]. split; [done|].
    by rewrite Hp2, Hp1, bind_cons, app_assoc.
Qed.

(** C19: one round of the pending tasks, for tasks that may queue further
    tasks ([spawn]): exactly the tasks that were queued run, each once and in
    the order they were queued, on a loop whose queue is already empty;
    afterwards the queue holds exactly what they queued, in that order. *)
Theorem runPendingTasks_round (exec : Task -> M W unit) (spawn : Task -> list Task)
    (el : nat) (e : Eventloop) (w : W)
    (He : w_els w !! el = Some e)
    (Hexec : forall t w0 e0, w_els w0 !! el = Some e0 ->
       exists w1 e1, exec t w0 = Ok (tt, w1) /\ w_els w1 !! el = Some e1 /\
         pendingTasks e1 = pendingTasks e0 ++ spawn t) :
  exists w1 e1,
    forM (pendingTasks e) exec
      (w <| w_els ::= <[el := e <| runningPendingTasks := true |>
                                <| pendingTasks := [] |>]> |>) = Ok (tt, w1) /\
    w_els w1 !! el = Some e1 /\ pendingTasks e1 = pendingTasks e ≫= spawn /\
    runPendingTasks exec el w =
      Ok (tt, w1 <| w_els ::= <[el := e1 <| runningPendingTasks := false |>]> |>).
Proof.
  set (e0 := e <| runningPendingTasks := true |> <| pendingTasks := [] |>).
  set (w0 := w <| w_els ::= <[el := e0]> |>).
  destruct (forM_spawns exec spawn el Hexec (pendingTasks e) w0 e0) as (w1 & e1 & Hr & He1 & Hp).
  { apply lookup_insert_eq. }
  exists w1, e1. do 3 (split; [done|]). unfold runPendingTasks.
  eapply bind_Ok_M; [by apply load_el_ok|]. eapply bind_Ok_M; [by apply upd_el_ok|].
  eapply bind_Ok_M; [apply upd_el_ok, lookup_insert_eq|]. rewrite set_els_twice.
  eapply bind_Ok_M; [exact Hr|]. by rewrite (upd_el_ok w1 el e1).
Qed.

(** The state after [n] iterations. *)
Fixpoint iterate (dispatch : Callback -> Z -> M W unit) (exec : Task -> M W unit)
    (n : nat) (el : nat) : M W unit :=
  match n with
  | O => mret tt
  | S n => iteration dispatch exec el ;; iterate dispatch exec n el
  end.

Lemma loop_iterate dispatch exec (n m : nat) el w w' e' :
  (forall i wi, (i < n)%nat -> iterate dispatch exec i el w = Ok (tt, wi) ->
     exists ei, w_els wi !! el = Some ei /\ quit ei = 0) ->
  iterate dispatch exec n el w = Ok (tt, w') -> w_els w' !! el = Some e' -> quit e' <> 0 ->
  (n <= m)%nat -> loop dispatch exec m el w = Ok (true, w').
Proof.
  revert m w. induction n as [|n IH]; intros m w Hq Hit He' Hquit Hm.
  - injection Hit as <-. destruct m; simpl; (eapply bind_Ok_M; [by apply load_el_ok|]);
      by rewrite (proj2 (Z.eqb_neq _ _) Hquit).
  - destruct m as [|m]; [lia|]. simpl in Hit. unfold mbind, M_bind in Hit.
    destruct (iteration dispatch exec el w) as [[[] w1]|] eqn:E; [|done].
    destruct (Hq 0%nat w) as (e & He & Hz); [lia|done|].
    simpl. eapply bind_Ok_M; [by apply load_el_ok|]. rewrite Hz. simpl.
    eapply bind_Ok_M; [exact E|]. apply IH; try done; [|lia].
    intros i wi Hi Hiw. apply (Hq (S i)); [lia|]. simpl. by eapply bind_Ok_M.
Qed.

(** [Loop] without its first two stores. *)
Lemma Loop_start dispatch exec n el e w :
  w_els w !! el = Some e ->
  Loop dispatch exec n el w =
    (ended ← loop dispatch exec n el;
     if (ended : bool)
     then upd_el el (fun e => e <| looping := 0 |>) ;; destroy el ;; mret true
     else mret false)
    (w <| w_els ::= <[el := e <| looping := 1 |> <| quit := 0 |>]> |>).
Proof.
  intros He. unfold Loop. eapply bind_Ok_M; [by apply upd_el_ok|].
  eapply bind_Ok_M; [apply upd_el_ok, lookup_insert_eq|]. by rewrite set_els_twice.
Qed.

(** C20: the loop ends after the first iteration that leaves the quit flag set
    (its active channels and pending tasks are still served), for every bound
    on the iterations that is large enough; it then closes the wakeup and the
    timer descriptor, in this order, and clears [looping]. *)
Theorem Loop_stops (dispatch : Callback -> Z -> M W unit) (exec : Task -> M W unit)
    (n m : nat) (el : nat) (e e' : Eventloop) (w w' : W)
    (w0 := w <| w_els ::= <[el := e <| looping := 1 |> <| quit := 0 |>]> |>)
    (He : w_els w !! el = Some e)
    (Hruns : forall i wi, (i < n)%nat -> iterate dispatch exec i el w0 = Ok (tt, wi) ->
       exists ei, w_els wi !! el = Some ei /\ quit ei = 0)
    (Hit : iterate dispatch exec n el w0 = Ok (tt, w'))
    (He' : w_els w' !! el = Some e') (Hquit : quit e' <> 0) (Hm : (n <= m)%nat) :
  Loop dispatch exec m el w =
    Ok (true, w' <| w_els ::= <[el := e' <| looping := 0 |>]> |>
                 <| w_k := snd (k_close (timerFd e') (snd (k_close (evtFd e') (w_k w')))) |>).
Proof.
  rewrite (Loop_start _ _ _ _ e) by done.
  eapply bind_Ok_M; [by apply (loop_iterate dispatch exec n m el w0 w' e')|].
  cbn beta iota. eapply bind_Ok_M; [by apply upd_el_ok|].
  eapply bind_Ok_M; [apply destroy_ok, lookup_insert_eq|]. done.
Qed.

(** A stop requested before the goroutine of the loop has reached [Loop]
    is lost: [Loop] clears the flag, so that the loop then runs as if only the
    wakeup had been requested, for every number of iterations. *)
Theorem AsyncStop_before_Loop_lost (dispatch : Callback -> Z -> M W unit)
    (exec : Task -> M W unit) (n el : nat) (w : W) :
  (AsyncStop el ;; Loop dispatch exec n el) w = (Wakeup el ;; Loop dispatch exec n el) w.
Proof.
  destruct (w_els w !! el) as [e|] eqn:He.
  2:{ unfold AsyncStop, Stop, Wakeup. wred. by rewrite He. }
  set (w1 := w <| w_els ::= <[el := e <| quit := 1 |>]> |>).
  assert (He1 : w_els w1 !! el = Some (e <| quit := 1 |>)) by apply lookup_insert_eq.
  transitivity (Loop dispatch exec n el (w1 <| w_k ::= k_write8 (evtFd e) |>)).
  { eapply bind_Ok_M; [|reflexivity]. unfold AsyncStop, Stop.
    eapply bind_Ok_M; [by apply upd_el_ok|]. unfold Wakeup.
    by eapply bind_Ok_M; [apply load_el_ok|]. }
  symmetry. eapply bind_Ok_M; [unfold Wakeup; by eapply bind_Ok_M; [apply load_el_ok|]|].
  rewrite (Loop_start _ _ _ _ e) by done. rewrite (Loop_start _ _ _ _ (e <| quit := 1 |>)) by done.
  unfold w1. simpl. by rewrite insert_insert_eq.
Qed.

End properties.

(** ** Examples *)

Lemma NewEventloop_functional_witness :
  exists el e w', NewEventloop (B "worker") demo_world = Ok (el, w') /\
    w_els demo_world !! el = None /\ fresh_loop (B "worker") el e w' /\
    (forall i, i <> el -> w_els w' !! i = w_els demo_world !! i).
Proof.
  apply (NewEventloop_functional (B "worker") demo_world 3
           (sim_set_interest 3 ∅ (sim0 <| sim_nextfd := 4 |>))).
  - intros c ch Hc. unfold demo_world in Hc. simpl in Hc.
    apply lookup_singleton_Some in Hc as [_ <-]. by exists demo_loop.
  - vm_compute. reflexivity.
  - intros k. by do 2 eexists.
  - intros k. by do 2 eexists.
Defined.

(** Tasks that queue one more task until the count reaches zero. *)
Definition demo_spawn (t : Task) : list Task :=
  match t with TaskUser (S n) => [TaskUser n] | _ => [] end.
Definition demo_exec (t : Task) : M (World Sim) unit := forM (demo_spawn t) (AsyncExecute 0).
Definition demo_pending : Eventloop :=
  demo_loop <| pendingTasks := [TaskUser 2; TaskUser 0; TaskUser 1] |>.
Definition demo_pworld : World Sim := world0 <| w_els := {[ 0%nat := demo_pending ]} |>.

Lemma runPendingTasks_round_witness :
  exists w1 e1,
    forM (pendingTasks demo_pending) demo_exec
      (demo_pworld <| w_els ::= <[0%nat := demo_pending <| runningPendingTasks := true |>
                                     <| pendingTasks := [] |>]> |>) = Ok (tt, w1) /\
    w_els w1 !! 0%nat = Some e1 /\
    pendingTasks e1 = [TaskUser 1; TaskUser 0] /\
    runPendingTasks demo_exec 0 demo_pworld =
      Ok (tt, w1 <| w_els ::= <[0%nat := e1 <| runningPendingTasks := false |>]> |>).
Proof.
  apply (runPendingTasks_round demo_exec demo_spawn 0 demo_pending demo_pworld eq_refl).
  intros t w0 e0 He. unfold demo_exec. assert (Hnil : exists w1 e1,
    (mret tt : M (World Sim) unit) w0 = Ok (tt, w1) /\ w_els w1 !! 0%nat = Some e1 /\
    pendingTasks e1 = pendingTasks e0 ++ []) by (exists w0, e0; by rewrite app_nil_r).
  destruct t as [[|n]| | | | | | | | | | | | |]; try exact Hnil.
  eexists _, (e0 <| pendingTasks := pendingTasks e0 ++ [TaskUser n] |>).
  split; [by eapply bind_Ok_M; [apply (AsyncExecute_ok 0 e0)|]|].
  split; [apply lookup_insert_eq|reflexivity].
Defined.

(** The first pending task stops the loop; the others still run. *)
Definition demo_stop (t : Task) : M (World Sim) unit :=
  match t with TaskUser 2 => Stop 0 | _ => Wakeup 0 end.

Lemma Loop_stops_witness :
  exists w', Loop (fun _ _ => mret tt) demo_stop 5 0 demo_pworld = Ok (true, w').
Proof.
  eexists. eapply (Loop_stops (fun _ _ => mret tt) demo_stop 1 5 0 demo_pending).
  - reflexivity.
  - intros [|i] wi Hi; [|lia]. intros [= <-]. eexists. split; reflexivity.
  - vm_compute. reflexivity.
  - vm_compute. reflexivity.
  - discriminate.
  - lia.
Defined.
