(* ===== verification/TaskQueue.v ===== *)
(** * The task queue of an event loop under concurrency

    [AsyncExecute], [Stop] and [AsyncStop] may be called by any goroutine while
    the loop's goroutine runs [Loop]; they may also be called on the loop's own
    goroutine, by a task or by the handler of an active channel. The shared
    objects are the field [pendingTasks] (a pointer to a list object), the
    mutex, the eventfd and the [quit] flag. Each action below is one shared
    access of the source: the loop reads the field outside the lock, so the
    list objects live in a store of their own and a caller may still append to
    the list the loop is about to take. [pushed] and [ran] record history.

    What the user's tasks do with the queue is the parameter [effects]: the
    calls made by the [n]-th task the loop runs. *)

From S2P Require Import Prelude.
From S2P Require Import World.
From stdpp Require Import base list gmap strings.
From Stdlib Require Import ZArith Lia.
Open Scope Z_scope.

(** ** Data *)

(** A call that code running on some goroutine makes on the event loop. *)
Inductive Effect : Type :=
| ECall (t : Task)            (** [el.AsyncExecute(t)] *)
| EStop (wake : bool).        (** [el.Stop()]; with [wake], [el.AsyncStop()] *)

(** Where a call is. *)
Inductive PPc : Type :=
| PIdle                       (** no call under way *)
| PLock (t : Task)            (** [el.taskMutex.Lock()] *)
| PPush (t : Task)            (** [el.pendingTasks.PushBack(task)] *)
| PUnlock                     (** [el.taskMutex.Unlock()] *)
| PWake.                      (** [el.Wakeup()] *)

(** Where the loop goes on when user code on its goroutine returns. *)
Inductive Cont : Type :=
| KIter (pt pos : nat)        (** a task returned: [e = e.Next()] *)
| KDrain                      (** a handler returned, the wakeup channel is next *)
| KRead.                      (** a handler returned, the wakeup channel is not *)

(** Where the loop's goroutine is. *)
Inductive LPc : Type :=
| LStart                      (** [atomic.StoreInt32(&el.quit, 0)] *)
| LTest                       (** [atomic.LoadInt32(&el.quit) != 0] *)
| LWait                       (** in [epoll_wait] *)
| LDrain                      (** the wakeup channel is active: [handleRead] *)
| LRead                       (** [pt := el.pendingTasks] *)
| LLock (pt : nat)            (** [el.taskMutex.Lock()] *)
| LSwap (pt : nat)            (** [el.pendingTasks = list.New()] *)
| LUnlock (pt : nat)          (** [el.taskMutex.Unlock()] *)
| LIter (pt pos : nat)        (** the [for] over [pt] *)
| LCall (k : Cont) (p : PPc) (es : list Effect)
                              (** in a task or a handler, which still makes
                                  the calls [es] after the one at [p] *)
| LEnd.                       (** the loop was left *)

Inductive Owner : Type := OwnLoop | OwnProd (i : nat).
#[export] Instance Owner_eq_dec : EqDecision Owner.
Proof. solve_decision. Defined.

Record QState : Type := mkQState {
  q_lists : gmap nat (list Task);
  q_pending : nat;                  (** [el.pendingTasks] *)
  q_mutex : option Owner;
  q_counter : Z;                    (** the eventfd *)
  q_quit : bool;
  q_loop : LPc;
  q_prods : gmap nat PPc;
  pushed : list Task;
  ran : list Task;
}.
#[export] Instance eta_QState : Eta QState := fun s =>
  mkQState (q_lists s) (q_pending s) (q_mutex s) (q_counter s) (q_quit s) (q_loop s)
    (q_prods s) (pushed s) (ran s).

Inductive Action : Type :=
| ABegin (i : nat) (e : Effect)     (** goroutine [i] makes the call [e] *)
| AProd (i : nat)                   (** the next access of goroutine [i] *)
| ALoop                             (** the next access of the loop *)
| AOther (es : list Effect).        (** the handler of another channel, making the
                                        calls [es]; or a timeout, with none *)

(** ** Operations *)

Definition prod_at (s : QState) (i : nat) : PPc := default PIdle (q_prods s !! i).

(** The call under way on a goroutine, the loop's or another. *)
Definition caller_at (s : QState) (o : Owner) : PPc :=
  match o with
  | OwnProd i => prod_at s i
  | OwnLoop => match q_loop s with LCall _ p _ => p | _ => PIdle end
  end.
Definition set_caller (o : Owner) (p : PPc) (s : QState) : QState :=
  match o with
  | OwnProd i => s <| q_prods ::= <[i := p]> |>
  | OwnLoop => match q_loop s with
               | LCall k _ es => s <| q_loop := LCall k p es |>
               | _ => s
               end
  end.

(** The begin of a call: [Stop] is its store alone, [AsyncStop] has the
    [Wakeup] left. *)
Definition begin_call (o : Owner) (e : Effect) (s : QState) : QState :=
  match e with
  | ECall t => set_caller o (PLock t) s
  | EStop wake => set_caller o (if wake then PWake else PIdle) (s <| q_quit := true |>)
  end.

(** [AsyncExecute] and [Wakeup], one access at a time. *)
Definition call_step (o : Owner) (s : QState) : option QState :=
  match caller_at s o with
  | PIdle => None
  | PLock t => match q_mutex s with
               | None => Some (set_caller o (PPush t) (s <| q_mutex := Some o |>))
               | Some _ => None
               end
  | PPush t => Some (set_caller o PUnlock
                 (s <| q_lists ::= alter (fun l => l ++ [t]) (q_pending s) |>
                    <| pushed := pushed s ++ [t] |>))
  | PUnlock => Some (set_caller o PWake (s <| q_mutex := None |>))
  | PWake => Some (set_caller o PIdle (s <| q_counter := q_counter s + 1 |>))
  end.

Definition resume (k : Cont) : LPc :=
  match k with KIter pt pos => LIter pt pos | KDrain => LDrain | KRead => LRead end.

(** A new loop, before [Loop] is called. *)
Definition q_init : QState := mkQState {[ 0%nat := [] ]} 0 None 0 false LStart ∅ [] [].

Section Protocol.
Context (effects : nat -> Task -> list Effect).

(** [runPendingTasks], one access at a time; a task is entered with the calls
    it is going to make. *)
Definition round_step (s : QState) : option QState :=
  match q_loop s with
  | LRead => Some (s <| q_loop := LLock (q_pending s) |>)
  | LLock pt => match q_mutex s with
                | None => Some (s <| q_mutex := Some OwnLoop |> <| q_loop := LSwap pt |>)
                | Some _ => None
                end
  | LSwap pt =>
    let new := fresh (dom (q_lists s)) in
    Some (s <| q_lists ::= <[new := []]> |> <| q_pending := new |> <| q_loop := LUnlock pt |>)
  | LUnlock pt => Some (s <| q_mutex := None |> <| q_loop := LIter pt 0 |>)
  | LIter pt pos =>
    match q_lists s !! pt ≫= fun l => l !! pos with
    | Some t => Some (s <| ran := ran s ++ [t] |>
                        <| q_loop := LCall (KIter pt (S pos)) PIdle (effects (length (ran s)) t) |>)
    | None => Some (s <| q_loop := LTest |>)
    end
  | _ => None
  end.

(** [Loop], one access at a time: the [quit] flag, [epoll_wait], the wakeup
    channel's handler, then [runPendingTasks]; in a task or a handler, the next
    of its calls. *)
Definition loop_step (s : QState) : option QState :=
  match q_loop s with
  | LStart => Some (s <| q_quit := false |> <| q_loop := LTest |>)
  | LTest => Some (s <| q_loop := if q_quit s then LEnd else LWait |>)
  | LWait => if 0 <? q_counter s then Some (s <| q_loop := LDrain |>) else None
  | LDrain => Some (s <| q_counter := 0 |> <| q_loop := LRead |>)
  | LCall k PIdle [] => Some (s <| q_loop := resume k |>)
  | LCall k PIdle (e :: es) => Some (begin_call OwnLoop e (s <| q_loop := LCall k PIdle es |>))
  | LCall _ _ _ => call_step OwnLoop s
  | LEnd => None
  | _ => round_step s
  end.

(** One step of some goroutine; the handlers of the other active channels run
    before or after the wakeup channel's. *)
Definition act (a : Action) (s : QState) : option QState :=
  match a with
  | ABegin i e => match prod_at s i with
                  | PIdle => Some (begin_call (OwnProd i) e s)
                  | _ => None
                  end
  | AProd i => call_step (OwnProd i) s
  | ALoop => loop_step s
  | AOther es => match q_loop s with
                 | LWait | LRead => Some (s <| q_loop := LCall KRead PIdle es |>)
                 | LDrain => Some (s <| q_loop := LCall KDrain PIdle es |>)
                 | _ => None
                 end
  end.

(** ** Reachable states *)

Inductive q_reachable : QState -> Prop :=
| reach_init : q_reachable q_init
| reach_step s a s' : q_reachable s -> act a s = Some s' -> q_reachable s'.

Fixpoint acts (l : list Action) (s : QState) : option QState :=
  match l with
  | [] => Some s
  | a :: l => s' ← act a s; acts l s'
  end.

Lemma acts_reachable l s s' : q_reachable s -> acts l s = Some s' -> q_reachable s'.
Proof.
  revert s. induction l as [|a l IH]; intros s Hs; cbn [acts]; [by intros [= <-]|].
  intros (s1 & Ha & Hl)%bind_Some. eapply IH; [|exact Hl]. by eapply reach_step.
Qed.

(** The queue the field points to. *)
Definition queue (s : QState) : list Task := default [] (q_lists s !! q_pending s).

(** What the loop has taken and not yet run. *)
Definition taken (s : QState) : list Task :=
  match q_loop s with
  | LUnlock pt => default [] (q_lists s !! pt)
  | LIter pt pos | LCall (KIter pt pos) _ _ => drop pos (default [] (q_lists s !! pt))
  | _ => []
  end.

(** ** The invariant of the protocol *)

Definition in_section (l : LPc) : bool :=
  match l with LSwap _ | LUnlock _ => true | _ => false end.
Definition prod_owns (p : PPc) : bool :=
  match p with PPush _ | PUnlock => true | _ => false end.
Definition holds (s : QState) (o : Owner) : bool :=
  prod_owns (caller_at s o) || (bool_decide (o = OwnLoop) && in_section (q_loop s)).
(** Between appending to the queue and writing to the eventfd. *)
Definition will_wake (p : PPc) : bool :=
  match p with PUnlock | PWake => true | _ => false end.
(** After the swap of one round and before the drain of the next. *)
Definition must_wake (l : LPc) : bool :=
  match l with
  | LStart | LTest | LWait | LUnlock _ | LIter _ _ | LCall (KIter _ _) _ _ => true
  | _ => false
  end.
Definition loop_list (s : QState) : Prop :=
  match q_loop s with
  | LLock pt | LSwap pt => pt = q_pending s
  | LUnlock pt | LIter pt _ | LCall (KIter pt _) _ _ =>
    pt <> q_pending s /\ is_Some (q_lists s !! pt)
  | _ => True
  end.

Record q_inv (s : QState) : Prop := {
  qi_pending : is_Some (q_lists s !! q_pending s);
  qi_loop : loop_list s;
  qi_fifo : pushed s = ran s ++ taken s ++ queue s;
  qi_own o : q_mutex s = Some o <-> holds s o = true;
  qi_wake : must_wake (q_loop s) = true -> queue s <> [] ->
    0 < q_counter s \/ exists o, will_wake (caller_at s o) = true;
  qi_counter : 0 <= q_counter s;
  qi_end : q_loop s = LEnd -> q_quit s = true;
}.

Lemma set_caller_same o p s :
  q_lists (set_caller o p s) = q_lists s /\ q_pending (set_caller o p s) = q_pending s /\
  q_mutex (set_caller o p s) = q_mutex s /\ q_counter (set_caller o p s) = q_counter s /\
  q_quit (set_caller o p s) = q_quit s /\ pushed (set_caller o p s) = pushed s /\
  ran (set_caller o p s) = ran s.
Proof. destruct o; simpl; [destruct (q_loop s)|]; done. Qed.

(** A call moves on within one phase of the loop. *)
Lemma set_caller_phase o p s :
  taken (set_caller o p s) = taken s /\ (loop_list (set_caller o p s) <-> loop_list s) /\
  in_section (q_loop (set_caller o p s)) = in_section (q_loop s) /\
  must_wake (q_loop (set_caller o p s)) = must_wake (q_loop s) /\
  (q_loop (set_caller o p s) = LEnd <-> q_loop s = LEnd).
Proof.
  unfold taken, loop_list.
  destruct o; simpl; destruct (q_loop s) as [| | | | | | | | |[]|] eqn:E; simpl; rewrite ?E; done.
Qed.

(** The goroutines that can be in a call. *)
Definition can_call (s : QState) (o : Owner) : bool :=
  match o, q_loop s with
  | OwnLoop, LCall _ _ _ | OwnProd _, _ => true
  | _, _ => false
  end.

Lemma caller_at_set s o p o' :
  can_call s o = true ->
  caller_at (set_caller o p s) o' = if decide (o = o') then p else caller_at s o'.
Proof.
  destruct o as [|i], o' as [|j]; simpl.
  - by destruct (q_loop s).
  - by destruct (q_loop s).
  - by destruct (q_loop s).
  - intros _. unfold prod_at. simpl. rewrite lookup_insert.
    destruct (decide (i = j)), (decide (OwnProd i = OwnProd j)); simpl; congruence.
Qed.

Lemma caller_at_ext s s' o :
  q_prods s' = q_prods s -> q_loop s' = q_loop s -> caller_at s' o = caller_at s o.
Proof. destruct o; simpl; unfold prod_at; intros H1 H2; by rewrite ?H1, ?H2. Qed.

Lemma holds_caller s o : can_call s o = true -> holds s o = prod_owns (caller_at s o).
Proof.
  unfold holds. destruct o; simpl; [|by rewrite orb_false_r]. destruct (q_loop s); try done.
  intros _. by rewrite orb_false_r.
Qed.

(** A step of a call that changes neither the lists nor the phase of the loop. *)
Lemma caller_move_inv s s1 o p :
  q_inv s -> can_call s o = true -> q_lists s1 = q_lists s -> q_pending s1 = q_pending s ->
  q_loop s1 = q_loop s -> q_prods s1 = q_prods s -> pushed s1 = pushed s -> ran s1 = ran s ->
  (forall o', q_mutex s1 = Some o' <->
     (if decide (o = o') then prod_owns p else holds s o') = true) ->
  q_counter s <= q_counter s1 ->
  (will_wake (caller_at s o) = true -> will_wake p = true \/ 0 < q_counter s1) ->
  (q_quit s = true -> q_quit s1 = true) ->
  q_inv (set_caller o p s1).
Proof.
  intros [] Hcan Hl Hp Hlp Hpr Hpu Hrn Hown Hc Hw Hqt.
  assert (Hcan1 : can_call s1 o = true) by (unfold can_call in *; by rewrite Hlp).
  assert (Hat : forall o', caller_at (set_caller o p s1) o' =
    if decide (o = o') then p else caller_at s o').
  { intros o'. rewrite caller_at_set by done. by rewrite (caller_at_ext s s1). }
  destruct (set_caller_same o p s1) as (El & Ep & Em & Ec & Eq & Epu & Ern).
  destruct (set_caller_phase o p s1) as (Et & Ell & Es & Emw & Ee).
  assert (Htk : taken s1 = taken s) by (unfold taken; by rewrite Hlp, Hl).
  assert (Hqu : queue (set_caller o p s1) = queue s)
    by (unfold queue; by rewrite El, Ep, Hl, Hp).
  split.
  - by rewrite El, Ep, Hl, Hp.
  - apply Ell. unfold loop_list in *. by rewrite Hlp, Hp, Hl.
  - by rewrite Epu, Ern, Et, Htk, Hqu, Hpu, Hrn.
  - intros o'. rewrite Em, Hown. unfold holds. rewrite Hat, Es, Hlp.
    case_decide as Ho; [|done]. subst o'. destruct o; simpl; rewrite ?orb_false_r; [|done].
    simpl in Hcan. destruct (q_loop s); try done. by rewrite orb_false_r.
  - rewrite Emw, Hqu, Ec, Hlp. intros Hm Hne.
    destruct (qi_wake0 Hm Hne) as [?|[o' Ho']]; [left; lia|].
    destruct (decide (o = o')) as [->|Hoo].
    + destruct (Hw Ho') as [?|?]; [right|by left]. exists o'. by rewrite Hat, decide_True.
    + right. exists o'. by rewrite Hat, decide_False.
  - rewrite Ec. lia.
  - rewrite Ee, Hlp, Eq. auto.
Qed.

(** The append itself: the loop cannot be in its critical section. *)
Lemma caller_push_inv s o t :
  q_inv s -> can_call s o = true -> caller_at s o = PPush t ->
  q_inv (set_caller o PUnlock (s <| q_lists ::= alter (fun l => l ++ [t]) (q_pending s) |>
                                 <| pushed := pushed s ++ [t] |>)).
Proof.
  intros [[l Hl] Hll Hf Hown Hw Hc He] Hcan Hpc.
  set (s1 := s <| q_lists ::= _ |> <| pushed := _ |>).
  assert (Hl1 : q_lists s1 !! q_pending s = Some (l ++ [t])).
  { simpl. by rewrite lookup_alter_eq, Hl. }
  assert (Hne : forall pt, pt <> q_pending s -> q_lists s1 !! pt = q_lists s !! pt).
  { intros pt Hpt. simpl. by apply lookup_alter_ne. }
  destruct (set_caller_same o PUnlock s1) as (El & Ep & Em & Ec & Eq & Epu & Ern).
  destruct (set_caller_phase o PUnlock s1) as (Et & Ell & Es & Emw & Ee).
  assert (Hat : forall o', caller_at (set_caller o PUnlock s1) o' =
    if decide (o = o') then PUnlock else caller_at s o') by (intros; by rewrite caller_at_set).
  assert (Htk : taken s1 = taken s).
  { unfold taken, loop_list in *. change (q_loop s1) with (q_loop s).
    destruct (q_loop s) as [| | | | | | | | |[]|]; try done; by rewrite Hne by apply Hll. }
  split.
  - rewrite El, Ep. exists (l ++ [t]). exact Hl1.
  - apply Ell. unfold loop_list in *. change (q_loop s1) with (q_loop s).
    change (q_pending s1) with (q_pending s).
    destruct (q_loop s) as [| | | | | | | | |[]|]; try done; by rewrite Hne by apply Hll.
  - unfold queue. rewrite Et, Htk, El, Ep, Epu, Ern. change (q_pending s1) with (q_pending s).
    rewrite Hl1. simpl. unfold queue in Hf. rewrite Hl in Hf. by rewrite Hf, <- !app_assoc.
  - intros o'. rewrite Em. change (q_mutex s1) with (q_mutex s). rewrite Hown. unfold holds.
    rewrite Hat, Es. change (q_loop s1) with (q_loop s). case_decide; [|done]. subst o'. by rewrite Hpc.
  - intros _ _. right. exists o. by rewrite Hat, decide_True.
  - by rewrite Ec.
  - by rewrite Ee, Eq.
Qed.

Lemma call_step_inv s o s' :
  q_inv s -> can_call s o = true -> call_step o s = Some s' -> q_inv s'.
Proof.
  intros Hi Hcan. pose proof Hi as [_ _ _ Hown _ Hc _]. pose proof (holds_caller s o Hcan) as Hho.
  unfold call_step. destruct (caller_at s o) as [|t|t| |] eqn:Hpc; intros Hs; [done| | | |].
  - destruct (q_mutex s) eqn:Hm; [done|]. injection Hs as <-.
    apply (caller_move_inv s); try done; [|by rewrite Hpc]. simpl. intros o'.
    case_decide; [by subst|]. rewrite <- Hown. split; intros; congruence.
  - injection Hs as <-. by apply caller_push_inv.
  - injection Hs as <-. apply (caller_move_inv s); try done; [|by left].
    simpl. intros o'. case_decide as Ho; [done|]. split; [done|].
    rewrite <- Hown. apply Hown in Hho. intros; congruence.
  - injection Hs as <-.
    apply (caller_move_inv s); try done; simpl; [|lia|intros; right; lia].
    intros o'. rewrite Hown. case_decide; [subst; by rewrite Hho|done].
Qed.

Lemma begin_call_inv s o e :
  q_inv s -> can_call s o = true -> caller_at s o = PIdle -> q_inv (begin_call o e s).
Proof.
  intros Hi Hcan Hpc. pose proof Hi as [_ _ _ Hown _ Hc _].
  pose proof (holds_caller s o Hcan) as Hho. rewrite Hpc in Hho.
  destruct e as [t|wake]; apply (caller_move_inv s); try done; try (by rewrite Hpc).
  - intros o'. rewrite Hown. case_decide; [subst; by rewrite Hho|done].
  - intros o'. simpl. rewrite Hown. case_decide; [subst; rewrite Hho; by destruct wake|done].
Qed.

(** The steps of the loop outside calls that change neither the lists nor the
    field. *)
Lemma loop_move_inv s s' :
  q_inv s -> q_lists s' = q_lists s -> q_pending s' = q_pending s -> q_prods s' = q_prods s ->
  pushed s' = pushed s -> ran s' ++ taken s' = ran s ++ taken s -> loop_list s' ->
  caller_at s OwnLoop = PIdle -> caller_at s' OwnLoop = PIdle ->
  (q_mutex s' = Some OwnLoop <-> in_section (q_loop s') = true) ->
  (forall i, q_mutex s' = Some (OwnProd i) <-> q_mutex s = Some (OwnProd i)) ->
  (must_wake (q_loop s') = true -> must_wake (q_loop s) = true /\ q_counter s' = q_counter s) ->
  0 <= q_counter s' -> (q_loop s' = LEnd -> q_quit s' = true) ->
  q_inv s'.
Proof.
  intros [] Hl Hp Hpr Hpu Hrt Hll Hca Hca' Hol Hop Hw Hc He.
  assert (Hq : queue s' = queue s) by (unfold queue; by rewrite Hl, Hp).
  assert (Hat : forall o, caller_at s' o = caller_at s o).
  { intros [|i]; [congruence|]. simpl. unfold prod_at. by rewrite Hpr. }
  split; [by rewrite Hl, Hp|done| | | |done|done].
  - by rewrite Hpu, Hq, app_assoc, Hrt, <- app_assoc.
  - intros [|i]; unfold holds; rewrite Hat; [by rewrite Hca|].
    rewrite Hop, qi_own0. unfold holds. simpl. by rewrite !orb_false_r.
  - intros Hm. destruct (Hw Hm) as [Hm' ->]. rewrite Hq. intros Hne.
    destruct (qi_wake0 Hm' Hne) as [?|[o Ho]]; [by left|right]. exists o. by rewrite Hat.
Qed.

Lemma loop_swap_inv s pt :
  q_inv s -> q_loop s = LSwap pt ->
  q_inv (s <| q_lists ::= <[fresh (dom (q_lists s)) := []]> |>
           <| q_pending := fresh (dom (q_lists s)) |> <| q_loop := LUnlock pt |>).
Proof.
  intros [[l Hl] Hll Hf Hown Hw Hc He] Hpc. unfold loop_list in Hll. rewrite Hpc in Hll. subst pt.
  set (new := fresh (dom (q_lists s))).
  assert (Hnew : q_lists s !! new = None) by apply not_elem_of_dom, is_fresh.
  assert (Hne : q_pending s <> new) by congruence.
  split; simpl.
  - rewrite lookup_insert_eq. by eexists.
  - unfold loop_list. simpl. rewrite lookup_insert_ne by done. by split; [|eexists].
  - rewrite Hf. unfold taken, queue. rewrite Hpc. simpl.
    by rewrite lookup_insert_eq, lookup_insert_ne, Hl, app_nil_r.
  - intros o. rewrite Hown. unfold holds. simpl. rewrite Hpc. by destruct o; simpl; rewrite ?Hpc.
  - unfold queue. simpl. by rewrite lookup_insert_eq.
  - done.
  - done.
Qed.

Lemma loop_call_inv s k p es s' :
  q_inv s -> q_loop s = LCall k p es -> loop_step s = Some s' -> q_inv s'.
Proof.
  intros Hi Hpc. pose proof Hi as [Hpd Hll Hf Hown Hw Hc He]. unfold loop_step, round_step. rewrite Hpc.
  assert (Hcan : can_call s OwnLoop = true) by (simpl; by rewrite Hpc).
  destruct p as [|t|t| |]; try by apply call_step_inv.
  pose proof (Hown OwnLoop) as Hol. unfold holds in Hol. simpl in Hol. rewrite Hpc in Hol.
  simpl in Hol.
  destruct es as [|e es]; intros [= <-].
  - unfold loop_list in Hll. rewrite Hpc in Hll.
    destruct k as [pt pos| |]; apply (loop_move_inv s); try done;
      try (unfold taken; simpl; by rewrite Hpc); simpl; by rewrite Hpc.
  - apply begin_call_inv; [|done|done].
    apply (loop_move_inv s); try done; try (unfold taken; simpl; by rewrite Hpc).
    unfold loop_list in *. simpl. by rewrite Hpc in Hll.
Qed.

Lemma loop_step_inv s s' : q_inv s -> loop_step s = Some s' -> q_inv s'.
Proof.
  intros Hi. pose proof Hi as [Hpd Hll Hf Hown Hw Hc He].
  pose proof (Hown OwnLoop) as Hol. unfold holds in Hol. simpl in Hol.
  unfold loop_list in Hll.
  destruct (q_loop s) as [| | | | |pt|pt|pt|pt pos|k p es|] eqn:Hpc;
    try (by intros Hs; eapply loop_call_inv);
    unfold loop_step, round_step; rewrite Hpc; simpl in Hol; intros Hs.
  - injection Hs as <-. apply (loop_move_inv s); try done; simpl; rewrite ?Hpc; try done.
    unfold taken. by rewrite Hpc.
  - injection Hs as <-.
    apply (loop_move_inv s); try done; simpl; rewrite ?Hpc; try done;
      try (destruct (q_quit s); done). unfold taken. rewrite Hpc. simpl. by destruct (q_quit s).
  - destruct (0 <? q_counter s); [|done]. injection Hs as <-.
    apply (loop_move_inv s); try done; simpl; rewrite ?Hpc; try done. unfold taken. by rewrite Hpc.
  - injection Hs as <-. apply (loop_move_inv s); try done; simpl; rewrite ?Hpc; try done.
    unfold taken. by rewrite Hpc.
  - injection Hs as <-. apply (loop_move_inv s); try done; simpl; rewrite ?Hpc; try done.
    unfold taken. by rewrite Hpc.
  - destruct (q_mutex s) eqn:Hm; [done|]. injection Hs as <-.
    apply (loop_move_inv s); try done; simpl; rewrite ?Hpc, ?Hm; try done.
    unfold taken. by rewrite Hpc.
  - injection Hs as <-. by apply loop_swap_inv.
  - injection Hs as <-. apply (loop_move_inv s); try done; simpl; rewrite ?Hpc; try done.
    + unfold taken. by rewrite Hpc.
    + intros i. rewrite (proj2 Hol) by done. by split.
  - destruct Hll as [Hne [l Hl]]. rewrite Hl in Hs. simpl in Hs.
    destruct (l !! pos) as [t|] eqn:Ht; injection Hs as <-;
      apply (loop_move_inv s); try done; simpl; rewrite ?Hpc; try done;
      unfold taken; simpl; rewrite Hpc, Hl; simpl.
    + by rewrite <- app_assoc, (drop_S _ t pos).
    + by rewrite drop_ge by by apply lookup_ge_None.
  - done.
Qed.

Lemma reachable_inv s : q_reachable s -> q_inv s.
Proof.
  induction 1 as [|s a s' _ Hi Ha].
  - split; try done. by intros [|i].
  - destruct a as [i e|i| |es]; simpl in Ha.
    + destruct (prod_at s i) eqn:Hpc; try done. injection Ha as <-. by apply begin_call_inv.
    + by apply (call_step_inv s (OwnProd i)).
    + by eapply loop_step_inv.
    + pose proof (qi_own _ Hi OwnLoop) as Hol. unfold holds in Hol. simpl in Hol.
      pose proof (qi_counter _ Hi) as Hc.
      destruct (q_loop s) eqn:Hpc; try done; injection Ha as <-;
        apply (loop_move_inv s); try done; simpl; rewrite ?Hpc; try done;
        unfold taken; by rewrite Hpc.
Qed.

Lemma wait_returns s :
  q_inv s -> q_loop s = LWait -> queue s <> [] ->
  (forall i, will_wake (prod_at s i) = false) -> loop_step s = Some (s <| q_loop := LDrain |>).
Proof.
  intros [] Hw Hq Hp. unfold loop_step, round_step. rewrite Hw in *.
  destruct (qi_wake0 eq_refl Hq) as [Hc|[[|i] Ho]].
  - by rewrite (proj2 (Z.ltb_lt 0 (q_counter s))).
  - simpl in Ho. by rewrite Hw in Ho.
  - simpl in Ho. by rewrite Hp in Ho.
Qed.

(** ** Properties *)

(** C1: whatever the interleaving, the tasks that were run are a prefix of the
    tasks that were queued, in the order in which they were appended, and the
    rest is exactly what the loop has taken followed by what is queued: no
    task is lost, run twice or overtaken, although the loop reads the field
    before it takes the lock, and although tasks queue further tasks. *)
Theorem tasks_fifo_exactly_once (s : QState) (Hs : q_reachable s) :
  pushed s = ran s ++ taken s ++ queue s.
Proof. by apply qi_fifo, reachable_inv. Qed.

(** C8: no wakeup is lost: when the loop waits in [epoll_wait], tasks are queued
    and no caller is between its append and its write to the eventfd, the
    eventfd is readable, so that the wait returns. *)
Theorem no_lost_wakeup (s : QState) (Hs : q_reachable s) (Hw : q_loop s = LWait)
    (Hq : queue s <> []) (Hp : forall i, will_wake (prod_at s i) = false) :
  loop_step s = Some (s <| q_loop := LDrain |>).
Proof. by apply wait_returns; [apply reachable_inv|..]. Qed.

(** ** Progress of the loop on its own *)

Fixpoint loop_steps (n : nat) (s : QState) : option QState :=
  match n with
  | O => Some s
  | S n => s' ← loop_step s; loop_steps n s'
  end.

(** No goroutine but the loop's is between its lock and its wakeup. *)
Definition quiet (s : QState) : Prop :=
  forall i, prod_owns (prod_at s i) = false /\ will_wake (prod_at s i) = false.

(** A stop that is under way: the flag is set (and not about to be cleared by
    the start of [Loop]), or the running task or handler still sets it. *)
Definition stops (es : list Effect) : bool :=
  existsb (fun e => match e with EStop _ => true | ECall _ => false end) es.
Definition stopping (s : QState) : bool :=
  match q_loop s with
  | LStart => false
  | LCall _ _ es => q_quit s || stops es
  | _ => q_quit s
  end.
(** One of the tasks [T] that is still to be run stops the loop. *)
Definition will_stop (T : list Task) (s : QState) : Prop :=
  exists n t, (length (ran s) <= n)%nat /\ T !! n = Some t /\ stops (effects n t) = true.

(** The accesses the loop still does before it runs the next task, at most. *)
Definition call_left (p : PPc) (es : list Effect) : nat :=
  (match p with PIdle => 1 | PLock _ => 5 | PPush _ => 4 | PUnlock => 3 | PWake => 2 end
   + 5 * length es)%nat.
Definition after (k : Cont) : nat :=
  match k with KIter _ _ => 10 | KDrain => 5 | KRead => 4 end.
Definition to_next (s : QState) : nat :=
  match q_loop s with
  | LIter _ _ => match taken s with [] => 10 | _ => 0 end
  | LUnlock _ => match taken s with [] => 11 | _ => 1 end
  | LSwap _ => 2
  | LLock _ => 3
  | LRead => 4
  | LDrain => 5
  | LWait => 6
  | LTest => 7
  | LStart => 8
  | LEnd => 0
  | LCall k p es => after k + call_left p es
  end%nat.

(** Before and after the swap of a round. *)
Definition stage (s : QState) : nat :=
  match q_loop s with
  | LWait | LDrain | LRead | LLock _ | LSwap _ | LCall KDrain _ _ | LCall KRead _ _ => 1
  | _ => 0
  end%nat.

(** What a step that runs no task does. *)
Record moves (s s' : QState) : Prop := {
  mv_prods : q_prods s' = q_prods s;
  mv_pushed : pushed s `prefix_of` pushed s';
  mv_ran : ran s' = ran s;
  mv_taken : taken s `prefix_of` taken s';
  mv_stop : stopping s' = true -> stopping s = true;
  mv_quit : q_quit s = true -> q_loop s <> LStart ->
    q_quit s' = true /\ q_loop s' <> LStart /\ q_loop s' <> LWait;
  mv_stage : q_quit s = true ->
    (stage s' < stage s)%nat \/ stage s' = stage s /\ taken s' = taken s;
}.
(** The round goes on, or it was started with nothing queued. *)
Definition nearer (s s' : QState) : Prop :=
  (to_next s' < to_next s)%nat \/
  (stage s' < stage s)%nat /\ taken s = [] /\ queue s = [].

Ltac unfold_moves Hpc :=
  unfold nearer, to_next, taken, stopping, stage; simpl; rewrite ?Hpc; simpl; try done; auto.

Lemma mutex_free s :
  q_inv s -> quiet s -> holds s OwnLoop = false -> q_mutex s = None.
Proof.
  intros [] Hq Hl. destruct (q_mutex s) as [o|]; [|done]. exfalso.
  pose proof (proj1 (qi_own0 o) eq_refl) as Ho. destruct o as [|i]; [congruence|].
  destruct (Hq i) as [Hi _]. unfold holds in Ho. simpl in Ho. by rewrite Hi in Ho.
Qed.

Lemma return_moves s k :
  q_loop s = LCall k PIdle [] ->
  moves s (s <| q_loop := resume k |>) /\ nearer s (s <| q_loop := resume k |>).
Proof.
  intros Hpc. destruct k; (split; [split|]); unfold_moves Hpc; rewrite ?orb_false_r; auto;
    left; unfold call_left; simpl; try case_match; lia.
Qed.

Lemma call_moves s k p es :
  q_inv s -> quiet s -> q_loop s = LCall k p es ->
  exists s', loop_step s = Some s' /\ moves s s' /\ nearer s s'.
Proof.
  intros Hi Hq Hpc. pose proof (qi_loop _ Hi) as Hll. unfold loop_list in Hll.
  assert (Hm : prod_owns p = false -> q_mutex s = None).
  { intros Hp. apply mutex_free; [done|done|]. unfold holds. simpl. by rewrite Hpc, Hp. }
  destruct p as [|t|t| |]; [destruct es as [|[t|w] es]|..];
    [exists (s <| q_loop := resume k |>); split;
       [unfold loop_step; by rewrite Hpc|by apply return_moves]|..];
    unfold loop_step, round_step, call_step; simpl; rewrite Hpc in *;
    try rewrite (Hm eq_refl); simpl; rewrite ?Hpc;
    eexists; (split; [reflexivity|]); (split; [split|]); unfold_moves Hpc;
    try (left; unfold call_left; simpl; lia).
  - by rewrite orb_true_r.
  - left. unfold call_left. destruct w; simpl; lia.
  - by exists [t].
  - destruct k; try done. by rewrite lookup_alter_ne by (apply not_eq_sym, Hll).
  - intros _. right. split; [done|]. destruct k; try done.
    by rewrite lookup_alter_ne by (apply not_eq_sym, Hll).
Qed.

(** A step of the loop outside calls, from its program counter and the equation
    [Heq] its step depends on. *)
Ltac loop_moves Hpc Heq :=
  left; eexists; (split; [unfold loop_step, round_step; rewrite Hpc, ?Heq; reflexivity|]);
  (split; [split|]); unfold_moves Hpc; try (left; lia).

(** Every step of the loop either moves on or runs the next task. *)
Lemma loop_moves_on s :
  q_inv s -> quiet s -> q_loop s <> LEnd -> (q_loop s = LWait -> 0 < q_counter s) ->
  (exists s', loop_step s = Some s' /\ moves s s' /\ nearer s s') \/
  (exists pt pos l t, q_loop s = LIter pt pos /\ q_lists s !! pt = Some l /\ l !! pos = Some t).
Proof.
  intros Hi Hq Hne Hc. pose proof (qi_loop _ Hi) as Hll. unfold loop_list in Hll.
  destruct (q_loop s) as [| | | | |pt|pt|pt|pt pos|k p es|] eqn:Hpc; try done;
    try by left; eapply call_moves.
  - loop_moves Hpc Hpc.
  - loop_moves Hpc Hpc; destruct (q_quit s); simpl; try done; auto; left; lia.
  - loop_moves Hpc (proj2 (Z.ltb_lt 0 (q_counter s)) (Hc eq_refl)).
  - loop_moves Hpc Hpc.
  - loop_moves Hpc Hpc.
  - assert (Hm : q_mutex s = None).
    { apply mutex_free; [done|done|]. unfold holds. simpl. by rewrite Hpc. }
    loop_moves Hpc Hm.
  - subst pt. pose proof (qi_pending _ Hi) as [l Hl].
    assert (Hfr : q_lists s !! fresh (dom (q_lists s)) = None) by apply not_elem_of_dom, is_fresh.
    loop_moves Hpc Hpc; [apply prefix_nil|].
    rewrite lookup_insert_ne by congruence. unfold queue. rewrite Hl. simpl.
    destruct l; [right|left]; auto with lia.
  - loop_moves Hpc Hpc. rewrite drop_0. left. destruct (default _ _); lia.
  - destruct Hll as [Hne' [l Hl]].
    assert (Hlk : (q_lists s !! pt ≫= fun l => l !! pos) = l !! pos) by by rewrite Hl.
    destruct (l !! pos) as [t|] eqn:Ht; [right; by exists pt, pos, l, t|].
    assert (Hd : drop pos l = []) by by apply drop_ge, lookup_ge_None.
    loop_moves Hpc Hlk; rewrite Hl; simpl; rewrite Hd; auto with lia.
Qed.

Lemma run_step s pt pos l t :
  q_loop s = LIter pt pos -> q_lists s !! pt = Some l -> l !! pos = Some t ->
  let s' := s <| ran := ran s ++ [t] |>
              <| q_loop := LCall (KIter pt (S pos)) PIdle (effects (length (ran s)) t) |> in
  loop_step s = Some s' /\ taken s = t :: taken s' /\ stage s' = stage s.
Proof.
  intros Hpc Hl Ht. unfold loop_step, round_step, taken, stage. simpl. rewrite Hpc, Hl. simpl.
  rewrite Ht. split; [done|]. split; [by apply drop_S|done].
Qed.

(** *** Towards the end of the tasks [T] *)

Record progress (T : list Task) (s s' : QState) : Prop := {
  pg_prods : q_prods s' = q_prods s;
  pg_pushed : pushed s `prefix_of` pushed s';
  pg_ran : ran s ++ taken s `prefix_of` ran s' ++ taken s';
  pg_stop : stopping s' = true \/ will_stop T s' -> stopping s = true \/ will_stop T s;
  pg_left : length (ran s') = S (length (ran s)) \/
            length (ran s') = length (ran s) /\ (to_next s' < to_next s)%nat;
}.

(** While tasks of [T] are left to run and none is taken, the queue has some. *)
Lemma more_queued T s :
  q_inv s -> T `prefix_of` pushed s -> (length (ran s) < length T)%nat -> taken s = [] ->
  queue s <> [].
Proof.
  intros [] HT Hlt Ht Hq. rewrite qi_fifo0, Ht, Hq, app_nil_r in HT.
  apply prefix_length in HT. lia.
Qed.

(** Running the task [T] has at this place. *)
Lemma progress_run T s s' t es pt pos :
  q_inv s -> T `prefix_of` pushed s -> (length (ran s) < length T)%nat ->
  q_loop s = LIter pt pos -> taken s = t :: taken s' -> es = effects (length (ran s)) t ->
  s' = s <| ran := ran s ++ [t] |> <| q_loop := LCall (KIter pt (S pos)) PIdle es |> ->
  progress T s s'.
Proof.
  intros [] [T' HT] Hlt Hpc Htk -> Hs'.
  assert (HTt : T !! length (ran s) = Some t).
  { rewrite <- (lookup_app_l T T') by done. rewrite <- HT, qi_fifo0, Htk.
    rewrite lookup_app_r by done. by rewrite Nat.sub_diag. }
  split; rewrite ?Htk, ?Hs'; try done.
  - simpl. by rewrite <- app_assoc.
  - unfold stopping, will_stop. simpl. rewrite Hpc. intros [[Hs|Hs]%orb_true_iff|H]; [by left| |].
    + right. by exists (length (ran s)), t.
    + right. destruct H as (n & t' & Hn & HTn & Hst). rewrite length_app in Hn. simpl in Hn.
      exists n, t'. split; [lia|done].
  - left. simpl. rewrite length_app. simpl. lia.
Qed.

Lemma loop_progress T s :
  q_inv s -> quiet s -> T `prefix_of` pushed s -> (length (ran s) < length T)%nat ->
  q_loop s <> LEnd -> exists s', loop_step s = Some s' /\ progress T s s'.
Proof.
  intros Hi Hq HT Hlt Hne. pose proof (more_queued T s Hi HT Hlt) as Hmore.
  destruct (loop_moves_on s Hi Hq Hne) as [(s' & Hst & [] & Hn)|(pt & pos & l & t & Hpc & Hl & Ht)].
  - intros Hpc. assert (Hq' : queue s <> []) by (apply Hmore; unfold taken; by rewrite Hpc).
    pose proof (wait_returns s Hi Hpc Hq' (fun i => proj2 (Hq i))) as Hw.
    unfold loop_step in Hw. rewrite Hpc in Hw. destruct (Z.ltb_spec 0 (q_counter s)); done.
  - exists s'. split; [done|]. split; rewrite ?mv_ran0; try done.
    + by apply prefix_app.
    + unfold will_stop. rewrite mv_ran0. intros [?|?]; auto.
    + right. split; [done|]. destruct Hn as [?|(_ & Htk & Hnq)]; [done|]. by destruct (Hmore Htk).
  - destruct (run_step s pt pos l t Hpc Hl Ht) as (Hst & Htk & _). eexists. split; [exact Hst|].
    by eapply progress_run.
Qed.

Lemma prefix_of_longer (l1 l2 l : list Task) :
  l1 `prefix_of` l -> l2 `prefix_of` l -> (length l1 <= length l2)%nat -> l1 `prefix_of` l2.
Proof.
  intros H1 H2 Hle. destruct (prefix_weak_total l1 l2 l H1 H2) as [|H]; [done|].
  by rewrite (prefix_length_eq l2 l1 H Hle).
Qed.

Lemma loop_steps_one s s1 n : loop_step s = Some s1 -> loop_steps (S n) s = loop_steps n s1.
Proof. intros H. cbn [loop_steps]. by rewrite H. Qed.

Lemma loop_reaches T r m s :
  r = (length T - length (ran s))%nat -> m = to_next s ->
  q_inv s -> quiet s -> T `prefix_of` pushed s ->
  exists n s', loop_steps n s = Some s' /\ q_inv s' /\
    ran s ++ taken s `prefix_of` ran s' ++ taken s' /\
    (T `prefix_of` ran s' \/
     q_loop s' = LEnd /\ (stopping s = true \/ will_stop T s)).
Proof.
  revert m s. induction r as [r IHr] using lt_wf_ind.
  intros m. induction m as [m IHm] using lt_wf_ind. intros s -> -> Hi Hq HT.
  destruct (decide (length T <= length (ran s))%nat) as [Hle|Hlt].
  { exists 0%nat, s. do 3 (split; [done|]). left.
    apply (prefix_of_longer T _ (pushed s)); [done| |done]. rewrite (qi_fifo _ Hi). by eexists. }
  assert (q_loop s = LEnd \/ q_loop s <> LEnd) as [He|Hne] by (destruct (q_loop s); auto).
  { exists 0%nat, s. do 3 (split; [done|]). right. split; [done|]. left.
    unfold stopping. rewrite He. by apply (qi_end _ Hi). }
  destruct (loop_progress T s) as (s1 & Hst & [Hpr Hpu Hrn Hsp Hl]); [done..|lia|done|].
  assert (Hi1 : q_inv s1) by by eapply loop_step_inv.
  assert (Hq1 : quiet s1) by (intros i; unfold prod_at; rewrite Hpr; apply Hq).
  assert (HT1 : T `prefix_of` pushed s1) by by etrans.
  assert (Hrec : exists n s', loop_steps n s1 = Some s' /\ q_inv s' /\
    ran s1 ++ taken s1 `prefix_of` ran s' ++ taken s' /\
    (T `prefix_of` ran s' \/ q_loop s' = LEnd /\ (stopping s1 = true \/ will_stop T s1))).
  { destruct Hl as [Hl|[Hl Hn]].
    - eapply IHr; [|done..]. lia.
    - eapply IHm; [|by rewrite Hl|done..]. lia. }
  destruct Hrec as (n & s' & Hrun & Hi' & Hr' & Hend). exists (S n), s'.
  rewrite (loop_steps_one s s1) by done. do 2 (split; [done|]). split; [by etrans|].
  destruct Hend as [?|[? ?]]; auto.
Qed.

(** *** Towards the end of the loop *)

(** The flag is set and the loop does not sleep. *)
Definition stop_ready (s : QState) : Prop :=
  q_quit s = true /\ q_loop s <> LStart /\ (q_loop s = LWait -> 0 < q_counter s).

Definition stop_less (s' s : QState) : Prop :=
  (stage s' < stage s)%nat \/
  stage s' = stage s /\
    ((length (taken s') < length (taken s))%nat \/
     length (taken s') = length (taken s) /\ (to_next s' < to_next s)%nat).

Lemma stop_step s :
  q_inv s -> quiet s -> stop_ready s -> q_loop s <> LEnd ->
  exists s', loop_step s = Some s' /\ quiet s' /\ stop_ready s' /\ stop_less s' s /\
    ran s ++ taken s `prefix_of` ran s' ++ taken s'.
Proof.
  intros Hi Hq (Hqt & Hst & Hw) Hne.
  destruct (loop_moves_on s Hi Hq Hne Hw)
    as [(s' & Hs & [] & Hn)|(pt & pos & l & t & Hpc & Hl & Ht)].
  - destruct (mv_quit0 Hqt Hst) as (Hqt' & Hst' & Hw'). exists s'. split; [done|].
    split; [intros i; unfold prod_at; rewrite mv_prods0; apply Hq|]. split; [by split|].
    split; [|rewrite mv_ran0; by apply prefix_app].
    destruct (mv_stage0 Hqt) as [?|[Hsg Htk]]; [by left|]. right. split; [done|]. right.
    rewrite Htk. split; [done|]. destruct Hn as [?|[? _]]; [done|lia].
  - destruct (run_step s pt pos l t Hpc Hl Ht) as (Hs & Htk & Hsg). eexists. split; [exact Hs|].
    split; [exact Hq|]. split; [by split|]. split; [|rewrite Htk; simpl; by rewrite <- app_assoc].
    right. split; [done|]. left. rewrite Htk. simpl. lia.
Qed.

Lemma loop_ends a b c s :
  a = stage s -> b = length (taken s) -> c = to_next s -> q_inv s -> quiet s -> stop_ready s ->
  exists n s', loop_steps n s = Some s' /\ q_loop s' = LEnd /\
    ran s ++ taken s `prefix_of` ran s'.
Proof.
  revert b c s. induction a as [a IHa] using lt_wf_ind.
  intros b. induction b as [b IHb] using lt_wf_ind.
  intros c. induction c as [c IHc] using lt_wf_ind. intros s -> -> -> Hi Hq Hr.
  assert (q_loop s = LEnd \/ q_loop s <> LEnd) as [He|Hne] by (destruct (q_loop s); auto).
  { exists 0%nat, s. do 2 (split; [done|]). unfold taken. by rewrite He, app_nil_r. }
  destruct (stop_step s Hi Hq Hr Hne) as (s1 & Hs & Hq1 & Hr1 & Hless & Hpre).
  assert (Hi1 : q_inv s1) by by eapply loop_step_inv.
  assert (Hrec : exists n s', loop_steps n s1 = Some s' /\ q_loop s' = LEnd /\
    ran s1 ++ taken s1 `prefix_of` ran s').
  { destruct Hless as [Ha|[Ha [Hb|[Hb Hc]]]].
    - by eapply (IHa _ Ha).
    - by eapply (IHb _ Hb).
    - by eapply (IHc _ Hc). }
  destruct Hrec as (n & s' & Hrun & He & Hp). exists (S n), s'.
  rewrite (loop_steps_one s s1) by done. do 2 (split; [done|]). by etrans.
Qed.


End Protocol.


Lemma quiet_forall s :
  map_Forall (fun _ p => prod_owns p = false /\ will_wake p = false) (q_prods s) -> quiet s.
Proof.
  intros H i. unfold prod_at. destruct (q_prods s !! i) as [p|] eqn:E; [by apply (H i)|done].
Qed.

(** ** Examples *)

(** Task 1 queues task 4; task 9 stops the loop. *)
Definition demo_effects (n : nat) (t : Task) : list Effect :=
  match t with
  | TaskUser 1 => [ECall (TaskUser 4)]
  | TaskUser 9 => [EStop false]
  | _ => []
  end.
Definition demo_run (l : list Action) : QState := default q_init (acts demo_effects l q_init).
Definition demo_exec (i : nat) (t : Task) : list Action :=
  [ABegin i (ECall t); AProd i; AProd i; AProd i; AProd i].

(** Goroutine 2 appends between the loop's read of the field and its lock. *)
Definition demo_race : list Action :=
  demo_exec 1 (TaskUser 1) ++ [ALoop; ALoop; ALoop; ALoop; ALoop] ++
  [ABegin 2 (ECall (TaskUser 2)); AProd 2; AProd 2; AProd 2].
(** ... and goroutine 3 while the loop runs the first task. *)
Definition demo_late : list Action :=
  demo_race ++ [AProd 2; ALoop; ALoop; ALoop; ALoop] ++ demo_exec 3 (TaskUser 3).
(** ... with the loop back in [epoll_wait]. *)
Definition demo_waiting : list Action := demo_late ++ replicate 10 ALoop.

Lemma demo_reachable l :
  is_Some (acts demo_effects l q_init) -> q_reachable demo_effects (demo_run l).
Proof.
  intros [s Hs]. unfold demo_run. rewrite Hs. eapply acts_reachable; [constructor|exact Hs].
Qed.

Lemma tasks_fifo_exactly_once_witness :
  [TaskUser 1; TaskUser 2] =
  ran (demo_run demo_race) ++ taken (demo_run demo_race) ++ queue (demo_run demo_race).
Proof.
  apply (tasks_fifo_exactly_once demo_effects (demo_run demo_race)).
  apply demo_reachable. vm_compute. by eexists.
Defined.

Lemma no_lost_wakeup_witness :
  queue (demo_run demo_waiting) = [TaskUser 3; TaskUser 4] /\
  loop_step demo_effects (demo_run demo_waiting) =
    Some ((demo_run demo_waiting) <| q_loop := LDrain |>).
Proof.
  split; [vm_compute; reflexivity|].
  apply (no_lost_wakeup demo_effects (demo_run demo_waiting)).
  - apply demo_reachable. vm_compute. by eexists.
  - vm_compute. reflexivity.
  - vm_compute. discriminate.
  - intros i. apply (quiet_forall (demo_run demo_waiting)), (bool_decide_unpack _).
    vm_compute. exact I.
Defined.

(** The same with [AsyncStop] called while task 1 runs. *)
Definition demo_stop : list Action :=
  demo_late ++ [ABegin 3 (EStop true); AProd 3].


(** Both ends happen: without a stop, the task queued by task 1 is run too ... *)
Example demo_all_run :
  ran <$> loop_steps demo_effects 19 (demo_run demo_late) =
  Some [TaskUser 1; TaskUser 2; TaskUser 3; TaskUser 4].
Proof. vm_compute. reflexivity. Qed.

(** ... and after task 9 the loop ends with task 2 queued behind it. *)
Example demo_stopped :
  (fun s => (q_loop s, ran s, queue s)) <$> loop_steps demo_effects 4
    (demo_run (demo_exec 1 (TaskUser 9) ++ replicate 8 ALoop ++ demo_exec 2 (TaskUser 2) ++ [ALoop]))
  = Some (LEnd, [TaskUser 9], [TaskUser 2]).
Proof. vm_compute. reflexivity. Qed.

(** A [Stop] before [Loop] has no effect: [Loop] clears the flag. *)
Example demo_stop_before_loop :
  q_loop <$> loop_steps demo_effects 2 (demo_run [ABegin 1 (EStop false)]) = Some LWait.
Proof. vm_compute. reflexivity. Qed.
