(* ===== verification/Engine.v ===== *)
(** * eventloop_engine.go, eventloop_engine_group.go

    [EventloopEngine.StartLoop] starts a goroutine that makes the loop and
    hands it over under a mutex and a condition variable: its accesses are the
    actions of a small transition system. [EventloopEngineGroup] makes the
    worker loops and deals them out. *)

From S2P Require Import Prelude.
From S2P Require Import GoLib.
From S2P Require Import World.
From S2P Require Import Sim.
From S2P Require Import Poller.
From S2P Require Import Eventloop.
From stdpp Require Import base list gmap strings.
From Stdlib Require Import ZArith Lia.
Open Scope Z_scope.

(** ** The handshake of StartLoop *)

(** The caller of [StartLoop]. *)
Inductive SPc : Type :=
| SLock                       (** [eng.mu.Lock()] *)
| STest                       (** [for eng.el == nil] *)
| SWaiting                    (** asleep in [eng.cond.Wait()], without the mutex *)
| SRelock                     (** woken up, [Wait] takes the mutex again *)
| SUnlock                     (** [eng.mu.Unlock()] *)
| SReturn                     (** [return eng.el] *)
| SDone (el : option nat).

(** The goroutine of [run]; [RMake] is [NewEventloop]. *)
Inductive RPc : Type := RMake | RLock | RSet | RBroadcast | RUnlock | RLoop.

Inductive Who : Type := Starter | Runner.

Record HState : Type := mkHState {
  eng_el : option nat;
  eng_mu : option Who;
  s_pc : SPc;
  r_pc : RPc;
}.
#[export] Instance eta_HState : Eta HState := fun s =>
  mkHState (eng_el s) (eng_mu s) (s_pc s) (r_pc s).

(** After [go eng.run()]. *)
Definition h_init : HState := mkHState None None SLock RMake.

Section handshake.
(** The loop that [NewEventloop] returns. *)
Context (made : nat).

Definition start_step (s : HState) : option HState :=
  match s_pc s with
  | SLock | SRelock =>
    match eng_mu s with
    | None => Some (s <| eng_mu := Some Starter |> <| s_pc := STest |>)
    | Some _ => None
    end
  | STest =>
    match eng_el s with
    | None => Some (s <| eng_mu := None |> <| s_pc := SWaiting |>)
    | Some _ => Some (s <| s_pc := SUnlock |>)
    end
  | SWaiting => None
  | SUnlock => Some (s <| eng_mu := None |> <| s_pc := SReturn |>)
  | SReturn => Some (s <| s_pc := SDone (eng_el s) |>)
  | SDone _ => None
  end.

Definition run_step (s : HState) : option HState :=
  match r_pc s with
  | RMake => Some (s <| r_pc := RLock |>)
  | RLock =>
    match eng_mu s with
    | None => Some (s <| eng_mu := Some Runner |> <| r_pc := RSet |>)
    | Some _ => None
    end
  | RSet => Some (s <| eng_el := Some made |> <| r_pc := RBroadcast |>)
  | RBroadcast =>
    Some (s <| s_pc := match s_pc s with SWaiting => SRelock | p => p end |>
            <| r_pc := RUnlock |>)
  | RUnlock => Some (s <| eng_mu := None |> <| r_pc := RLoop |>)
  | RLoop => None
  end.

Definition h_step (who : Who) (s : HState) : option HState :=
  match who with Starter => start_step s | Runner => run_step s end.

Inductive h_reachable : HState -> Prop :=
| h_reach_init : h_reachable h_init
| h_reach_step s who s' : h_reachable s -> h_step who s = Some s' -> h_reachable s'.

Definition start_rank (s : HState) : nat :=
  match s_pc s with
  | SLock => 8
  | STest => match eng_el s with Some _ => 4 | None => 7 end
  | SWaiting => 6
  | SRelock => 5
  | SUnlock => 3
  | SReturn => 2
  | SDone _ => 0
  end.
Definition run_rank (s : HState) : nat :=
  match r_pc s with
  | RMake => 5 | RLock => 4 | RSet => 3 | RBroadcast => 2 | RUnlock => 1 | RLoop => 0
  end.

Definition set_before (r : RPc) : bool :=
  match r with RMake | RLock | RSet => true | _ => false end.

Record h_inv (s : HState) : Prop := {
  hi_el : eng_el s = if set_before (r_pc s) then None else Some made;
  hi_mu : eng_mu s =
    match s_pc s, r_pc s with
    | (STest | SUnlock), _ => Some Starter
    | _, (RSet | RBroadcast | RUnlock) => Some Runner
    | _, _ => None
    end;
  hi_excl : match s_pc s, r_pc s with
    | (STest | SUnlock), (RSet | RBroadcast | RUnlock) => False
    | SWaiting, (RUnlock | RLoop) => False
    | SRelock, (RMake | RLock | RSet | RBroadcast) => False
    | (SUnlock | SReturn), r => set_before r = false
    | SDone v, r => set_before r = false /\ v = Some made
    | _, _ => True
    end;
}.

Lemma h_step_inv who s s' : h_inv s -> h_step who s = Some s' -> h_inv s'.
Proof.
  destruct s as [e m p r]. intros [He Hm Hx]; simpl in *. subst e m.
  destruct who; simpl; unfold start_step, run_step; simpl;
    destruct p, r; simpl in *; try done; intros [= <-]; split; simpl; try done.
  all: by destruct Hx.
Qed.

Lemma h_reachable_inv s : h_reachable s -> h_inv s.
Proof. induction 1; [by split|by eapply h_step_inv]. Qed.

(** C12: the handshake always ends well: every step of either goroutine brings
    it closer to its end, and the only states in which neither can move are
    those in which [StartLoop] has returned the loop that [run] made and the
    goroutine has gone on to run it; no broadcast is missed. *)
Theorem StartLoop_returns (s : HState) (Hs : h_reachable s) :
  (forall who s', h_step who s = Some s' ->
     (start_rank s' + run_rank s' < start_rank s + run_rank s)%nat) /\
  (h_step Starter s = None /\ h_step Runner s = None <->
   s_pc s = SDone (Some made) /\ r_pc s = RLoop).
Proof.
  apply h_reachable_inv in Hs. destruct s as [e m p r], Hs as [He Hm Hx]; simpl in *. subst e m.
  split.
  - intros who s'. destruct who; simpl; unfold start_step, run_step, start_rank, run_rank; simpl;
      destruct p, r; simpl in *; try done; intros [= <-]; simpl; lia.
  - unfold start_step, run_step; simpl. destruct p, r; simpl in *; try done;
      first [split; intros [? ?]; done|destruct Hx as [_ ->]; done].
Qed.
End handshake.

(** The first steps of a run in which the caller waits before the loop exists. *)
Fixpoint h_run (made : nat) (l : list Who) (s : HState) : option HState :=
  match l with
  | [] => Some s
  | who :: l => s' ← h_step made who s; h_run made l s'
  end.

Lemma h_run_reachable made l s s' :
  h_reachable made s -> h_run made l s = Some s' -> h_reachable made s'.
Proof.
  revert s. induction l as [|who l IH]; intros s Hs; cbn [h_run]; [by intros [= <-]|].
  intros (s1 & Hst & Hl)%bind_Some. eapply IH; [|exact Hl]. by eapply h_reach_step.
Qed.

(** ** The engine and the group *)

Section ops.
Context {K : Type} `{!Kernel K}.
Abbreviation W := (World K).

(** [StartLoop] returns the loop its goroutine makes ([StartLoop_returns]). *)
Definition StartLoop (id : bytes) : M W nat := NewEventloop id.

Definition NewEventloopEngineGroup (engineCnt : Z) (boss : nat) : EventloopEngineGroup :=
  mkGroup boss [] [] engineCnt false 0.

Definition engine_id (i : Z) : bytes := B "worker-engine-" ++ Itoa i.

(** The iterations [i], [i+1], ... of the loop of [Start], [n] of them. *)
Fixpoint start_engines (n : nat) (i : Z) (g : EventloopEngineGroup) :
    M W EventloopEngineGroup :=
  match n with
  | O => mret g
  | S n =>
    let id := engine_id i in
    let g := g <| engines := engines g ++ [id] |> in
    el ← StartLoop id;
    start_engines n (i + 1) (g <| works := works g ++ [el] |>)
  end.

Definition group_Start (g : EventloopEngineGroup) : M W EventloopEngineGroup :=
  let g := if negb (g_started g) then g <| g_started := true |> else g in
  start_engines (Z.to_nat (engineCnt g)) 0 g.

End ops.

Definition GetNextLoop (g : EventloopEngineGroup) : res (nat * EventloopEngineGroup) :=
  if zlen (works g) =? 0 then Ok (boss g, g)
  else
    let g := if zlen (works g) <=? g_next g then g <| g_next := 0 |> else g in
    next ← index (works g) (g_next g);
    Ok (next, g <| g_next := g_next g + 1 |>).

(** ** Properties *)

(** [k] calls of [GetNextLoop]. *)
Fixpoint deal (k : nat) (g : EventloopEngineGroup) : res (list nat * EventloopEngineGroup) :=
  match k with
  | O => Ok ([], g)
  | S k => '(el, g) ← GetNextLoop g; '(els, g) ← deal k g; Ok (el :: els, g)
  end.

Lemma GetNextLoop_ok g :
  works g <> [] -> 0 <= g_next g <= zlen (works g) ->
  exists el, works g !! (Z.to_nat (g_next g) mod length (works g))%nat = Some el /\
    GetNextLoop g = Ok (el, g <| g_next := 1 + (g_next g) mod (zlen (works g)) |>).
Proof.
  intros Hne Hb. unfold GetNextLoop.
  assert (Hlen : 0 < zlen (works g)) by (destruct (works g); [done|zl]).
  rewrite (proj2 (Z.eqb_neq (zlen (works g)) 0)) by lia.
  assert (Hn : Z.of_nat (Z.to_nat (g_next g) mod length (works g)) = g_next g mod zlen (works g)).
  { rewrite Nat2Z.inj_mod, Z2Nat.id by lia. done. }
  assert (Hi : exists el, works g !! (Z.to_nat (g_next g) mod length (works g))%nat = Some el).
  { apply lookup_lt_is_Some_2, Nat.mod_upper_bound. unfold zlen in Hlen. lia. }
  destruct Hi as [el Hel]. exists el. split; [done|].
  assert (Hidx : forall i, 0 <= i -> i = g_next g mod zlen (works g) -> index (works g) i = Ok el).
  { intros i Hi0 Hi. unfold index. rewrite (proj2 (Z.leb_le 0 i)) by done.
    replace (Z.to_nat i) with (Z.to_nat (g_next g) mod length (works g))%nat by lia.
    by rewrite Hel. }
  destruct (Z.leb_spec (zlen (works g)) (g_next g)) as [Hge|Hlt].
  - assert (g_next g = zlen (works g)) as Heq by lia.
    assert (Hz : g_next g mod zlen (works g) = 0) by (rewrite Heq; by apply Z.mod_same; lia).
    simpl. rewrite (Hidx 0), Hz by (done || lia). done.
  - rewrite (Hidx (g_next g)) by (lia || by rewrite Z.mod_small by lia). mred.
    rewrite Z.mod_small by lia. by rewrite Z.add_comm.
Qed.

(** C26: the workers are dealt out in turn: any number of calls of
    [GetNextLoop] returns the workers cyclically, starting where the last
    call left off, without an index out of range. *)
Theorem GetNextLoop_round_robin (k : nat) (g : EventloopEngineGroup)
    (Hne : works g <> []) (Hb : 0 <= g_next g <= zlen (works g)) :
  exists l g', deal k g = Ok (l, g') /\ length l = k /\ works g' = works g /\
    0 <= g_next g' <= zlen (works g) /\
    forall j, (j < k)%nat ->
      l !! j = works g !! ((Z.to_nat (g_next g) + j) mod length (works g))%nat.
Proof.
  revert g Hne Hb. induction k as [|k IH]; intros g Hne Hb.
  { exists [], g. split; [done|]. split; [done|]. split; [done|]. split; [done|]. lia. }
  destruct (GetNextLoop_ok g Hne Hb) as (el & Hel & Hg).
  assert (Hlen : 0 < zlen (works g)) by (destruct (works g); [done|zl]).
  pose proof (Z.mod_pos_bound (g_next g) _ Hlen) as Hm.
  set (g1 := g <| g_next := 1 + g_next g mod zlen (works g) |>) in *.
  destruct (IH g1 Hne) as (l & g' & Hd & Hl & Hw & Hb' & Hj); [simpl; lia|].
  exists (el :: l), g'. split; [cbn [deal]; rewrite Hg; simpl; by rewrite Hd|].
  split; [simpl; by rewrite Hl|]. split; [done|]. split; [done|].
  intros [|j] Hjk; cbn [lookup list_lookup]; [by rewrite Nat.add_0_r|].
  change (l !! j = works g !! ((Z.to_nat (g_next g) + S j) mod length (works g))%nat).
  rewrite (Hj j) by lia. simpl. f_equal. unfold zlen in *.
  replace (Z.to_nat (1 + g_next g mod Z.of_nat (length (works g))) + j)%nat
    with (Z.to_nat (g_next g) mod length (works g) + S j)%nat.
  - rewrite Nat.Div0.add_mod_idemp_l. done.
  - assert (Z.of_nat (Z.to_nat (g_next g) mod length (works g)) = g_next g mod Z.of_nat (length (works g))).
    { rewrite Nat2Z.inj_mod, Z2Nat.id by lia. done. }
    lia.
Qed.

Section group.
Context {K : Type} `{!Kernel K} `{!EpollLaws K} `{!FdLaws K}.
Abbreviation W := (World K).

(** The kernel has descriptors left. *)
Definition fds_available : Prop :=
  (forall k, exists fd k', k_epoll_create k = (inl fd, k')) /\
  (forall k, exists fd k', k_timerfd_create k = (inl fd, k')) /\
  (forall k, exists fd k', k_eventfd k = (inl fd, k')).

(** Every channel belongs to a loop that exists. *)
Definition channels_owned (w : W) : Prop :=
  forall c ch, w_chs w !! c = Some ch -> is_Some (w_els w !! ch_el ch).

Lemma StartLoop_ok id (w : W) :
  fds_available -> channels_owned w ->
  exists el e w', StartLoop id w = Ok (el, w') /\ w_els w !! el = None /\
    w_els w' !! el = Some e /\ el_id e = id /\
    (forall i, i <> el -> w_els w' !! i = w_els w !! i) /\ channels_owned w'.
Proof.
  intros (Hep & Ht & Hev) Hch. destruct (Hep (w_k w)) as (fd & k1 & Hk).
  destruct (NewEventloop_ok id w fd k1 Hch Hk Ht Hev)
    as (el & e & w' & Hrun & Hnew & [He Hid _ _ _ _ _ _ _] & Hoth & Hchs).
  exists el, e, w'. do 5 (split; [done|]). intros c ch Hc.
  destruct (decide (ch_el ch = el)) as [->|Hne]; [by exists e|]. rewrite Hoth by done.
  destruct (Hchs c ch Hc) as [?|?]; [by eapply Hch|done].
Qed.

(** [els] are the loops numbered from [i] on, new in [w'] with respect to [w]. *)
Definition new_workers (i : Z) (els : list nat) (w w' : W) : Prop :=
  NoDup els /\ forall j el, els !! j = Some el ->
    w_els w !! el = None /\
    exists e, w_els w' !! el = Some e /\ el_id e = engine_id (i + Z.of_nat j).

Lemma start_engines_ok n i g (w : W) :
  fds_available -> channels_owned w ->
  exists new w', start_engines n i g w =
      Ok (g <| engines := engines g ++ (engine_id <$> seqZ i (Z.of_nat n)) |>
            <| works := works g ++ new |>, w') /\
    length new = n /\ new_workers i new w w' /\
    (forall j, is_Some (w_els w !! j) -> w_els w' !! j = w_els w !! j).
Proof.
  intros Hfd. revert i g w. induction n as [|n IH]; intros i g w Hch.
  { exists [], w. split; [simpl; rewrite !app_nil_r; by destruct g|]. split; [done|].
    split; [|done]. split; [constructor|done]. }
  destruct (StartLoop_ok (engine_id i) w Hfd Hch)
    as (el & e & w1 & Hrun & Hnew & He & Hid & Hoth & Hch1).
  destruct (IH (i + 1) (g <| engines := engines g ++ [engine_id i] |>
                          <| works := works g ++ [el] |>) w1 Hch1)
    as (new & w' & Hrun' & Hlen & [Hnd Hw] & Hkeep).
  exists (el :: new), w'. split; [|split; [simpl; by rewrite Hlen|split; [split|]]].
  - cbn [start_engines]. eapply bind_Ok_M; [exact Hrun|]. etransitivity; [exact Hrun'|]. simpl.
    rewrite <- !app_assoc, (seqZ_cons i) by lia. simpl.
    replace (Z.pred (Z.of_nat (S n))) with (Z.of_nat n) by lia. done.
  - constructor; [|done]. intros (j & Hj)%list_elem_of_lookup.
    destruct (Hw j el Hj) as [Hn _]. congruence.
  - intros [|j] x Hx; simpl in Hx.
    + simplify_eq. split; [done|]. exists e. rewrite Hkeep by by exists e.
      split; [done|]. by rewrite Z.add_0_r.
    + destruct (Hw j x Hx) as (Hn & ex & Hex & Hidx). split.
      * destruct (decide (x = el)) as [->|Hne]; [done|]. by rewrite <- Hoth.
      * exists ex. split; [done|]. rewrite Hidx. f_equal. lia.
  - intros j [ej Hj]. assert (j <> el) by congruence.
    rewrite Hkeep by (rewrite Hoth by done; by exists ej). by apply Hoth.
Qed.

(** C27: [Start] makes exactly [engineCnt] new, distinct worker loops, named
    [worker-engine-0] and on, and appends them to the workers; the existing
    loops are untouched. It does so whether or not the group is marked as
    started, so that a second call adds another [engineCnt] workers. *)
Theorem group_Start_functional (g : EventloopEngineGroup) (w : W)
    (Hfd : fds_available) (Hch : channels_owned w) :
  exists g' new w', group_Start g w = Ok (g', w') /\ g_started g' = true /\
    works g' = works g ++ new /\ length new = Z.to_nat (engineCnt g) /\
    engines g' = engines g ++ (engine_id <$> seqZ 0 (engineCnt g)) /\
    new_workers 0 new w w' /\
    (forall j, is_Some (w_els w !! j) -> w_els w' !! j = w_els w !! j).
Proof.
  set (g1 := if negb (g_started g) then g <| g_started := true |> else g).
  assert (Hg1 : g_started g1 = true /\ works g1 = works g /\ engines g1 = engines g /\
                engineCnt g1 = engineCnt g).
  { unfold g1. destruct (g_started g) eqn:E; done. }
  destruct Hg1 as (Hs & Hw1 & He1 & Hc1).
  destruct (start_engines_ok (Z.to_nat (engineCnt g)) 0 g1 w Hfd Hch)
    as (new & w' & Hrun & Hlen & Hnw & Hkeep).
  eexists _, new, w'. split; [unfold group_Start; fold g1; rewrite Hc1; exact Hrun|].
  split; [exact Hs|]. split; [simpl; by rewrite Hw1|]. split; [done|].
  split; [|done]. simpl. rewrite He1. do 2 f_equal.
  destruct (Z.le_ge_cases 0 (engineCnt g)); [by rewrite Z2Nat.id|].
  rewrite !seqZ_nil by lia. done.
Qed.

End group.

(** ** Examples *)

Lemma StartLoop_returns_witness :
  let s := mkHState (Some 7%nat) (Some Runner) SRelock RUnlock in
  (forall who s', h_step 7 who s = Some s' ->
     (start_rank s' + run_rank s' < start_rank s + run_rank s)%nat) /\
  (h_step 7 Starter s = None /\ h_step 7 Runner s = None <->
   s_pc s = SDone (Some 7%nat) /\ r_pc s = RLoop).
Proof.
  apply (StartLoop_returns 7 (mkHState (Some 7%nat) (Some Runner) SRelock RUnlock)).
  apply (h_run_reachable 7 [Starter; Starter; Runner; Runner; Runner; Runner] h_init);
    [constructor|reflexivity].
Defined.

Definition demo_group : EventloopEngineGroup := mkGroup 0 [4; 5; 6]%nat [] 3 true 3.

Lemma GetNextLoop_round_robin_witness :
  exists l g', deal 5 demo_group = Ok (l, g') /\ length l = 5%nat /\
    works g' = works demo_group /\ 0 <= g_next g' <= 3 /\
    forall j, (j < 5)%nat -> l !! j = works demo_group !! ((3 + j) mod 3)%nat.
Proof.
  apply (GetNextLoop_round_robin 5 demo_group); [discriminate|vm_compute; split; discriminate].
Defined.

Lemma group_Start_functional_witness :
  exists g' new w', group_Start demo_group demo_world = Ok (g', w') /\ g_started g' = true /\
    works g' = [4; 5; 6]%nat ++ new /\ length new = 3%nat /\
    engines g' = engine_id <$> [0; 1; 2] /\
    new_workers 0 new demo_world w' /\
    (forall j, is_Some (w_els demo_world !! j) -> w_els w' !! j = w_els demo_world !! j).
Proof.
  apply (group_Start_functional demo_group demo_world).
  - split; [|split]; intros k; by do 2 eexists.
  - intros c ch Hc. unfold demo_world in Hc. simpl in Hc.
    apply lookup_singleton_Some in Hc as [_ <-]. by exists demo_loop.
Defined.
