(* ===== verification/Addr.v ===== *)
(** * Addresses: socket.go, tcp_server.go, acceptor.go

    Conversions between the textual form of an address, [net.TCPAddr] and
    [unix.Sockaddr], and the two decimal printers of the source. Name
    resolution and the table of network interfaces are the class [Net]; the
    methods of [net.IP] are defined here. *)

From S2P Require Import Prelude.
From S2P Require Import GoLib.
From S2P Require Import Buffer.
From S2P Require Import World.
From stdpp Require Import base list gmap strings.
From Stdlib Require Import ZArith Lia Ascii.
Open Scope Z_scope.

(** ** The decimal printers *)

(** The loop of [uint2decimalStr]: [val], [i] and [buf]. *)
Fixpoint uint2decimal_loop (fuel : nat) (val i : Z) (buf : bytes) : res (Z * Z * bytes) :=
  match fuel with
  | O => Panic "uint2decimalStr: out of fuel"
  | S fuel =>
    if 10 <=? val then
      let q := val / 10 in
      buf ← put buf i (byte_of (u64 (u64 (48 + val) - u64 (q * 10))));
      uint2decimal_loop fuel q (i - 1) buf
    else Ok (val, i, buf)
  end.

Definition uint2decimalStr (val : Z) : res bytes :=
  if val =? 0 then Ok (B "0")
  else
    buf ← make_bytes 20;
    '(val, i, buf) ← uint2decimal_loop 64 val (zlen buf - 1) buf;
    buf ← put buf i (byte_of (48 + val));
    slice buf i (zlen buf).

(** The loop of [itod]: [i], [bp] and [b]. *)
Fixpoint itod_loop (fuel : nat) (i bp : Z) (b : bytes) : res (Z * bytes) :=
  match fuel with
  | O => Panic "itod: out of fuel"
  | S fuel =>
    if 0 <? i then
      let bp := bp - 1 in
      b ← put b bp (byte_of (byte_val (byte_of (i mod 10)) + 48));
      itod_loop fuel (i / 10) bp b
    else Ok (bp, b)
  end.

Definition itod (i : Z) : res bytes :=
  if i =? 0 then Ok (B "0")
  else
    b ← make_bytes 32;
    '(bp, b) ← itod_loop 64 i (zlen b) b;
    slice b bp (zlen b).

(** What both loops have written when [done_] digits of a number are there. *)
Lemma insert_last {A} (l m : list A) (x y : A) :
  <[length l := y]> (l ++ x :: m) = l ++ y :: m.
Proof. rewrite insert_app_r_alt by lia. by rewrite Nat.sub_diag. Qed.

Lemma put_before (n : nat) (x c : ascii) (d : bytes) (i : Z) :
  i = Z.of_nat n -> put (replicate (S n) x ++ d) i c = Ok (replicate n x ++ c :: d).
Proof.
  intros ->. rewrite put_Ok.
  - f_equal. rewrite Nat2Z.id. rewrite replicate_S_end, <- app_assoc. simpl.
    pose proof (insert_last (replicate n x) d x c) as H. rewrite length_replicate in H. exact H.
  - zl.
Qed.

Lemma slice_after (n : nat) (x : ascii) (d : bytes) (i j : Z) :
  i = Z.of_nat n -> j = zlen (replicate n x ++ d) -> slice (replicate n x ++ d) i j = Ok d.
Proof.
  intros -> ->. rewrite slice_Ok by zl. f_equal. rewrite Nat2Z.id.
  rewrite drop_app_ge by by rewrite length_replicate. rewrite length_replicate, Nat.sub_diag.
  simpl. rewrite drop_0. apply take_ge. zl.
Qed.

Lemma uint2decimal_digit val :
  0 <= val < 2 ^ 64 -> byte_of (u64 (u64 (48 + val) - u64 (val / 10 * 10))) = digit (val mod 10).
Proof.
  intros Hv. unfold digit. f_equal. unfold u64.
  rewrite <- Zminus_mod. rewrite Z.mod_small; pose proof (Z.div_mod val 10 ltac:(lia));
    pose proof (Z.mod_pos_bound val 10 ltac:(lia)); lia.
Qed.

Lemma div10_lt val n : 0 <= val < 10 ^ Z.of_nat (S n) -> 0 <= val / 10 < 10 ^ Z.of_nat n.
Proof.
  intros Hv. split; [apply Z.div_pos; lia|]. apply Z.div_lt_upper_bound; [lia|].
  rewrite Nat2Z.inj_succ, Z.pow_succ_r in Hv by lia. lia.
Qed.

(** With room for [n] more digits and the digits [d] written. *)
Lemma uint2decimal_loop_ok n fuel val d x :
  1 <= val < 2 ^ 64 -> val < 10 ^ Z.of_nat n -> (n <= fuel)%nat ->
  exists v m d', uint2decimal_loop fuel val (Z.of_nat n - 1) (replicate n x ++ d) =
      Ok (v, Z.of_nat m, replicate (S m) x ++ d') /\ 0 <= v < 10 /\
    decimal val ++ d = digit v :: d'.
Proof.
  revert fuel val d. induction n as [|n IH]; intros fuel val d Hv Hn Hf; [simpl in Hn; lia|].
  destruct fuel as [|fuel]; [lia|]. cbn [uint2decimal_loop].
  replace (Z.of_nat (S n) - 1) with (Z.of_nat n) by lia.
  destruct (Z.leb_spec 10 val) as [Hge|Hlt].
  - rewrite uint2decimal_digit, (put_before n) by (done || lia). mred.
    pose proof (div10_lt val n ltac:(lia)).
    assert (1 <= val / 10) by (apply Z.div_le_lower_bound; lia).
    pose proof (Z.div_le_upper_bound val 10 val ltac:(lia) ltac:(lia)).
    destruct (IH fuel (val / 10) (digit (val mod 10) :: d)) as (v & m & d' & -> & Hv' & Hd);
      [lia|lia|lia|].
    exists v, m, d'. split; [done|]. split; [done|].
    by rewrite decimal_step, <- app_assoc by done.
  - exists val, n, d. split; [done|]. split; [lia|]. by rewrite decimal_small by lia.
Qed.

Lemma itod_loop_ok n fuel i d x :
  0 <= i < 10 ^ Z.of_nat n -> (n < fuel)%nat ->
  exists m, itod_loop fuel i (Z.of_nat n) (replicate n x ++ d) =
    Ok (Z.of_nat m, replicate m x ++ (if i =? 0 then d else decimal i ++ d)).
Proof.
  revert fuel i d. induction n as [|n IH]; intros fuel i d Hi Hf; (destruct fuel as [|fuel]; [lia|]);
    cbn [itod_loop].
  - assert (i = 0) as -> by lia. by exists 0%nat.
  - destruct (Z.ltb_spec 0 i) as [Hpos|Hz].
    2:{ assert (i = 0) as -> by lia. by exists (S n). }
    rewrite (put_before n) by lia. mred.
    assert (Hdig : byte_of (byte_val (byte_of (i mod 10)) + 48) = digit (i mod 10)).
    { pose proof (Z.mod_pos_bound i 10 ltac:(lia)). unfold digit. f_equal.
      rewrite byte_val_of; lia. }
    rewrite Hdig. replace (Z.of_nat (S n) - 1) with (Z.of_nat n) by lia.
    destruct (IH fuel (i / 10) (digit (i mod 10) :: d)) as (m & ->); [by apply div10_lt|lia|].
    exists m. rewrite (proj2 (Z.eqb_neq i 0)) by lia. do 3 f_equal.
    destruct (Z.lt_ge_cases i 10).
    + by rewrite Z.div_small, Z.mod_small, (decimal_small i) by lia.
    + assert (1 <= i / 10) by (apply Z.div_le_lower_bound; lia).
      by rewrite (proj2 (Z.eqb_neq (i / 10) 0)), (decimal_step i), <- app_assoc by lia.
Qed.

Lemma itod_Itoa v : 0 <= v < 2 ^ 64 -> itod v = Ok (Itoa v).
Proof.
  intros Hv. unfold itod, Itoa. rewrite (proj2 (Z.ltb_ge v 0)) by lia.
  destruct (Z.eqb_spec v 0) as [->|Hne]; [done|].
  destruct (itod_loop_ok 32 64 v [] "000"%char) as (m & Hloop); [lia|lia|].
  rewrite app_nil_r, (proj2 (Z.eqb_neq v 0)), app_nil_r in Hloop by done.
  change (make_bytes 32) with (Ok (replicate 32 "000"%char)). mred.
  change (zlen (replicate 32 "000"%char)) with (Z.of_nat 32). rewrite Hloop.
  by apply slice_after.
Qed.

(** C33: the two hand-written printers agree with [strconv.Itoa] on every
    64-bit unsigned value: their buffers are large enough (no index is out of
    range) and the wrap-around of the subtraction is harmless. *)
Theorem decimal_printers_correct (v : Z) (Hv : 0 <= v < 2 ^ 64) :
  uint2decimalStr v = Ok (Itoa v) /\ itod v = Ok (Itoa v).
Proof.
  split; [|by apply itod_Itoa]. unfold uint2decimalStr, Itoa.
  rewrite (proj2 (Z.ltb_ge v 0)) by lia. destruct (Z.eqb_spec v 0) as [->|Hne]; [done|].
  destruct (uint2decimal_loop_ok 20 64 v [] "000"%char) as (u & m & d & Hloop & Hu & Hd);
    [lia|lia|lia|].
  rewrite app_nil_r in Hloop, Hd. change (make_bytes 20) with (Ok (replicate 20 "000"%char)).
  mred. change (zlen (replicate 20 "000"%char) - 1) with (Z.of_nat 20 - 1). rewrite Hloop.
  rewrite (put_before m) by done. rewrite Hd. by apply slice_after.
Qed.

Lemma decimal_printers_correct_witness :
  uint2decimalStr (2 ^ 64 - 1) = Ok (B "18446744073709551615") /\
  itod (2 ^ 64 - 1) = Ok (B "18446744073709551615").
Proof. apply (decimal_printers_correct (2 ^ 64 - 1)). lia. Defined.

(** ** net.IP *)

Definition v4InV6Prefix : bytes :=
  replicate 10 "000"%char ++ ["255"%char; "255"%char].
Definition IPv4zero : bytes := v4InV6Prefix ++ replicate 4 "000"%char.
Definition IPv6zero : bytes := replicate 16 "000"%char.

(** [ip.To4()], with [[]] for [nil]. *)
Definition To4 (ip : bytes) : bytes :=
  if zlen ip =? 4 then ip
  else if (zlen ip =? 16) && bool_decide (take 12 ip = v4InV6Prefix) then drop 12 ip
  else [].

(** [ip.To16()] *)
Definition To16 (ip : bytes) : bytes :=
  if zlen ip =? 4 then v4InV6Prefix ++ ip
  else if zlen ip =? 16 then ip
  else [].

(** [ip.Equal(x)]: an IPv4 address and its IPv6 form are equal. *)
Definition IP_Equal (ip x : bytes) : bool :=
  if zlen ip =? zlen x then bool_decide (ip = x)
  else if (zlen ip =? 4) && (zlen x =? 16) then bool_decide (v4InV6Prefix ++ ip = x)
  else if (zlen ip =? 16) && (zlen x =? 4) then bool_decide (ip = v4InV6Prefix ++ x)
  else false.

Definition non_nil (b : bytes) : bool := negb (bool_decide (b = [])).

(** Name resolution and the interfaces of the machine. *)
Class Net : Type := {
  ResolveTCPAddr : bytes -> bytes -> (bytes * Z * bytes) + GoError;  (* IP, port, zone *)
  InterfaceByIndex : Z -> option bytes;
  InterfaceByName : bytes -> option Z;
  unicode_ToLower : bytes -> bytes;
  addr_String : NetAddr -> bytes;                                    (* net.Addr.String *)
}.

Section addr.
Context {net : Net}.

(** ** acceptor.go: parseProtoAddr *)

Definition parseProtoAddr (addr : bytes) : res (bytes * bytes) :=
  let network := B "tcp" in
  let address := ToLower unicode_ToLower addr in
  if Contains address (B "://") then
    let pair := Split address (B "://") in
    network ← index pair 0;
    address ← index pair 1;
    Ok (network, address)
  else Ok (network, address).

(** ** socket.go *)

Definition AF_INET : Z := 2.
Definition AF_INET6 : Z := 10.

Definition ip6ZoneToString (zone : Z) : res bytes :=
  if zone =? 0 then Ok []
  else match InterfaceByIndex zone with
       | Some name => Ok name
       | None => uint2decimalStr zone
       end.

Definition SockaddrToTCPOrUnixAddr (sa : Sockaddr) : res (option NetAddr) :=
  match sa with
  | SockaddrInet4 port addr => Ok (Some (TCPAddr addr port []))
  | SockaddrInet6 port zoneId addr =>
    zone ← ip6ZoneToString zoneId; Ok (Some (TCPAddr addr port zone))
  | SockaddrUnix name => Ok (Some (UnixAddr name (B "unix")))
  | SockaddrOther => Ok None
  end.

Definition determineTCPProto (proto ip : bytes) : bytes + GoError :=
  if non_nil (To4 ip) then inl (B "tcp4")
  else if non_nil (To16 ip) then inl (B "tcp6")
  else if bool_decide (proto ∈ [B "tcp"; B "tcp4"; B "tcp6"]) then inl proto
  else inr ErrUnsupportedTCPProtocol.

Definition ipToSockaddrInet4 (ip : bytes) (port : Z) : Sockaddr + GoError :=
  let ip := if zlen ip =? 0 then IPv4zero else ip in
  let ip4 := To4 ip in
  if non_nil ip4 then inl (SockaddrInet4 port (gocopy (replicate 4 "000"%char) ip4))
  else inr (AddrError (B "non-IPv4 address")).

Definition ipToSockaddrInet6 (ip : bytes) (port : Z) (zone : bytes) : Sockaddr + GoError :=
  let ip := if (zlen ip =? 0) || IP_Equal ip IPv4zero then IPv6zero else ip in
  let ip6 := To16 ip in
  if non_nil ip6 then
    let addr := gocopy (replicate 16 "000"%char) ip6 in
    match InterfaceByName zone with
    | None => inl (SockaddrInet6 port 0 addr)
    | Some idx => inl (SockaddrInet6 port (u32 idx) addr)
    end
  else inr (AddrError (B "non-IPv6 address")).

Definition ipToSockaddr (family : Z) (ip : bytes) (port : Z) (zone : bytes) :
    Sockaddr + GoError :=
  if family =? AF_INET then ipToSockaddrInet4 ip port
  else if family =? AF_INET6 then ipToSockaddrInet6 ip port zone
  else inr (AddrError (B "invalid address family")).

(** The address, the family and [ipv6only], or the error. *)
Definition GetTCPSockAddr (proto addr : bytes) : (Sockaddr * Z * bool) + GoError :=
  match ResolveTCPAddr proto addr with
  | inr err => inr err
  | inl (ip, port, zone) =>
    match determineTCPProto proto ip with
    | inr err => inr err
    | inl tcpVersion =>
      if bool_decide (tcpVersion = B "tcp4") then
        match ipToSockaddr AF_INET ip port [] with
        | inl sa => inl (sa, AF_INET, false) | inr err => inr err
        end
      else if bool_decide (tcpVersion = B "tcp6") then
        match ipToSockaddr AF_INET6 ip port zone with
        | inl sa => inl (sa, AF_INET6, true) | inr err => inr err
        end
      else if bool_decide (tcpVersion = B "tcp") then
        match ipToSockaddr AF_INET6 ip port zone with
        | inl sa => inl (sa, AF_INET6, false) | inr err => inr err
        end
      else inr ErrUnsupportedProtocol
    end
  end.

(** ** tcp_server.go: the other conversion *)

Definition IP6ZoneToString (zone : Z) : res bytes :=
  if zone =? 0 then Ok []
  else match InterfaceByIndex zone with
       | Some name => Ok name
       | None => itod (u64 zone)
       end.

Definition SockaddrToIPAndZone (sa : Sockaddr) : res (option bytes * bytes) :=
  match sa with
  | SockaddrInet4 _ addr =>
    ip ← make_bytes 16;
    ip ← put ip 10 "255"%char;
    ip ← put ip 11 "255"%char;
    '(ip, _) ← copy_at ip 12 addr;
    Ok (Some ip, [])
  | SockaddrInet6 _ zoneId addr =>
    ip ← make_bytes 16;
    zone ← IP6ZoneToString zoneId;
    Ok (Some (gocopy ip addr), zone)
  | _ => Ok (None, [])
  end.

Definition SockaddrToTCPAddr (sa : Sockaddr) : res (option NetAddr) :=
  '(ip, zone) ← SockaddrToIPAndZone sa;
  match sa with
  | SockaddrInet4 port _ => Ok (Some (TCPAddr (default [] ip) port []))
  | SockaddrInet6 port _ _ => Ok (Some (TCPAddr (default [] ip) port zone))
  | _ => Ok None
  end.

(** ** Properties *)

(** The interface index a zone name stands for (0 when there is none). *)
Definition zone_index (zone : bytes) : Z := u32 (default 0 (InterfaceByName zone)).

Lemma non_nil_length (b : bytes) : b <> [] -> non_nil b = true.
Proof. intros H. unfold non_nil. by rewrite bool_decide_eq_false_2. Qed.

Lemma gocopy_exact {A} (d s : list A) : length s = length d -> gocopy d s = s.
Proof. intros Hl. rewrite gocopy_fits by lia. by rewrite Hl, drop_ge, app_nil_r. Qed.

Lemma zlen_eqb {A} (l : list A) n : Z.of_nat (length l) = n -> (zlen l =? n) = true.
Proof. intros <-. apply Z.eqb_refl. Qed.

Lemma zlen_neqb {A} (l : list A) n : Z.of_nat (length l) <> n -> (zlen l =? n) = false.
Proof. intros H. by apply Z.eqb_neq. Qed.

Definition mapped (ip : bytes) : Prop := take 12 ip = v4InV6Prefix.

Lemma To4_v4 ip : length ip = 4%nat -> To4 ip = ip.
Proof. intros H. unfold To4. by rewrite (zlen_eqb ip 4) by lia. Qed.
Lemma To4_mapped ip : length ip = 16%nat -> mapped ip -> To4 ip = drop 12 ip.
Proof.
  intros H Hm. unfold To4. rewrite (zlen_neqb ip 4), (zlen_eqb ip 16) by lia.
  by rewrite bool_decide_eq_true_2.
Qed.
Lemma To4_v6 ip : length ip = 16%nat -> ~ mapped ip -> To4 ip = [].
Proof.
  intros H Hm. unfold To4. rewrite (zlen_neqb ip 4), (zlen_eqb ip 16) by lia.
  by rewrite bool_decide_eq_false_2.
Qed.
Lemma To16_v6 ip : length ip = 16%nat -> To16 ip = ip.
Proof. intros H. unfold To16. by rewrite (zlen_neqb ip 4), (zlen_eqb ip 16) by lia. Qed.

Lemma ipToSockaddrInet4_ok ip port :
  ip <> [] -> length (To4 ip) = 4%nat ->
  ipToSockaddrInet4 ip port = inl (SockaddrInet4 port (To4 ip)).
Proof.
  intros Hne Hl. unfold ipToSockaddrInet4.
  rewrite (zlen_neqb ip 0) by (destruct ip; [done|simpl; lia]).
  rewrite non_nil_length by (intros E; rewrite E in Hl; discriminate).
  by rewrite gocopy_exact.
Qed.

Lemma ipToSockaddrInet6_ok ip port zone :
  length ip = 16%nat -> ~ mapped ip ->
  ipToSockaddrInet6 ip port zone = inl (SockaddrInet6 port (zone_index zone) ip).
Proof.
  intros Hl Hm. unfold ipToSockaddrInet6.
  rewrite (zlen_neqb ip 0) by lia. unfold IP_Equal.
  rewrite (zlen_eqb ip (zlen IPv4zero)) by by rewrite Hl.
  rewrite bool_decide_eq_false_2 by (intros ->; by apply Hm). cbn [orb].
  rewrite To16_v6, non_nil_length by (done || intros ->; discriminate).
  rewrite gocopy_exact by done. unfold zone_index. by destruct (InterfaceByName zone).
Qed.

Lemma ipToSockaddrInet6_empty port zone :
  ipToSockaddrInet6 [] port zone = inl (SockaddrInet6 port (zone_index zone) IPv6zero).
Proof.
  unfold ipToSockaddrInet6, zone_index. cbn [zlen length Z.of_nat Z.eqb orb].
  rewrite To16_v6, non_nil_length, gocopy_exact by done. by destruct (InterfaceByName zone).
Qed.

(** The socket address that an address means. *)
Definition sockaddr_of (proto ip : bytes) (port : Z) (zone : bytes) :
    (Sockaddr * Z * bool) + GoError :=
  match ip with
  | [] =>
    if bool_decide (proto = B "tcp4")
    then inl (SockaddrInet4 port (replicate 4 "000"%char), AF_INET, false)
    else if bool_decide (proto = B "tcp6")
    then inl (SockaddrInet6 port (zone_index zone) IPv6zero, AF_INET6, true)
    else if bool_decide (proto = B "tcp")
    then inl (SockaddrInet6 port (zone_index zone) IPv6zero, AF_INET6, false)
    else inr ErrUnsupportedTCPProtocol
  | _ =>
    if (zlen ip =? 4) then inl (SockaddrInet4 port ip, AF_INET, false)
    else if bool_decide (mapped ip) then inl (SockaddrInet4 port (drop 12 ip), AF_INET, false)
    else inl (SockaddrInet6 port (zone_index zone) ip, AF_INET6, true)
  end.

Lemma GetTCPSockAddr_empty proto addr port zone :
  ResolveTCPAddr proto addr = inl ([], port, zone) ->
  GetTCPSockAddr proto addr = sockaddr_of proto [] port zone.
Proof.
  intros Hres. unfold GetTCPSockAddr, sockaddr_of. rewrite Hres.
  assert (Hdet : determineTCPProto proto [] =
    if bool_decide (proto ∈ [B "tcp"; B "tcp4"; B "tcp6"]) then inl proto
    else inr ErrUnsupportedTCPProtocol) by done.
  rewrite Hdet. clear Hdet. unfold ipToSockaddr. rewrite !ipToSockaddrInet6_empty.
  generalize (zone_index zone) (zone_index []). intros z z0. clear Hres.
  destruct (decide (proto = B "tcp4")) as [->|H4]; [by vm_compute|].
  destruct (decide (proto = B "tcp6")) as [->|H6]; [by vm_compute|].
  destruct (decide (proto = B "tcp")) as [->|Ht]; [by vm_compute|].
  rewrite bool_decide_eq_false_2.
  - by rewrite !bool_decide_eq_false_2.
  - rewrite !elem_of_cons. intros [?|[?|[?|?%elem_of_nil]]]; done.
Qed.

Lemma GetTCPSockAddr_nonempty proto addr ip port zone :
  ResolveTCPAddr proto addr = inl (ip, port, zone) ->
  length ip = 4%nat \/ length ip = 16%nat ->
  GetTCPSockAddr proto addr = sockaddr_of proto ip port zone.
Proof.
  intros Hres Hlen.
  assert (Hne : ip <> []) by (intros ->; simpl in Hlen; lia).
  unfold GetTCPSockAddr. rewrite Hres. unfold determineTCPProto.
  destruct (decide (length (To4 ip) = 4%nat)) as [H4|H4].
  - rewrite non_nil_length by (intros E; rewrite E in H4; discriminate).
    rewrite bool_decide_eq_true_2 by done. unfold ipToSockaddr. simpl.
    rewrite ipToSockaddrInet4_ok by done. destruct ip as [|x ip']; [done|].
    unfold sockaddr_of. unfold To4 in *. set (ip := x :: ip') in *.
    destruct (zlen ip =? 4); [done|]. unfold mapped in *.
    destruct (_ && bool_decide _) eqn:E; [|done]. apply andb_prop in E as [_ E].
    by rewrite E.
  - destruct Hlen as [Hl|Hl]; [by rewrite To4_v4 in H4|].
    assert (Hm : ~ mapped ip).
    { intros Hm. rewrite To4_mapped, length_drop, Hl in H4 by done. done. }
    rewrite To4_v6 by done. simpl. rewrite To16_v6, non_nil_length by done.
    rewrite bool_decide_eq_false_2, bool_decide_eq_true_2 by done.
    unfold ipToSockaddr. simpl. rewrite ipToSockaddrInet6_ok by done.
    destruct ip as [|x ip']; [done|]. unfold sockaddr_of. set (ip := x :: ip') in *.
    rewrite (zlen_neqb ip 4) by lia.
    by rewrite bool_decide_eq_false_2.
Qed.

(** C35: the socket address of a resolved address: an IPv4 address (in its 4 or
    16 byte form) gives an [AF_INET] address with its four bytes, any other
    16 byte address an [AF_INET6] one with its zone's index; without an
    address the protocol decides, and "tcp" gives the IPv6 wildcard. *)
Theorem GetTCPSockAddr_functional (proto addr ip : bytes) (port : Z) (zone : bytes)
    (Hres : ResolveTCPAddr proto addr = inl (ip, port, zone))
    (Hlen : length ip = 0%nat \/ length ip = 4%nat \/ length ip = 16%nat) :
  GetTCPSockAddr proto addr = sockaddr_of proto ip port zone.
Proof.
  destruct Hlen as [Hl|Hlen]; [|by apply GetTCPSockAddr_nonempty].
  apply nil_length_inv in Hl as ->. by apply GetTCPSockAddr_empty.
Qed.

Lemma SockaddrToTCPAddr_v4 port addr :
  length addr = 4%nat ->
  SockaddrToTCPAddr (SockaddrInet4 port addr) = Ok (Some (TCPAddr (v4InV6Prefix ++ addr) port [])).
Proof. destruct addr as [|a [|b [|c [|d [|]]]]]; intros H; try discriminate. reflexivity. Qed.

Lemma SockaddrToTCPAddr_v6 port z addr zone :
  length addr = 16%nat -> IP6ZoneToString z = Ok zone ->
  SockaddrToTCPAddr (SockaddrInet6 port z addr) = Ok (Some (TCPAddr addr port zone)).
Proof.
  intros Hl Hz. unfold SockaddrToTCPAddr, SockaddrToIPAndZone.
  change (make_bytes 16) with (Ok (replicate 16 "000"%char)). mred. rewrite Hz.
  by rewrite gocopy_exact.
Qed.

Lemma IP_Equal_mapped ip : length ip = 4%nat -> IP_Equal ip (v4InV6Prefix ++ ip) = true.
Proof.
  intros Hl. unfold IP_Equal.
  assert (Hz : zlen (v4InV6Prefix ++ ip) = 16) by (unfold zlen; rewrite length_app, Hl; done).
  rewrite Hz, (zlen_neqb ip 16), (zlen_eqb ip 4) by lia. simpl.
  by rewrite bool_decide_eq_true_2.
Qed.

Lemma IP_Equal_refl ip : IP_Equal ip ip = true.
Proof. unfold IP_Equal. by rewrite Z.eqb_refl, bool_decide_eq_true_2. Qed.

(** The zone is the name of an interface the tables agree on, or empty. *)
Definition zone_ok (zone : bytes) : Prop :=
  (zone = [] /\ InterfaceByName zone = None) \/
  exists i, 0 < i < 2 ^ 32 /\ InterfaceByName zone = Some i /\ InterfaceByIndex i = Some zone.

(** What is printed for a zone: nothing for one without an interface, otherwise
    the name of the interface with that index, or the index itself. *)
Definition zone_shown (zone : bytes) : bytes :=
  if zone_index zone =? 0 then []
  else default (Itoa (zone_index zone)) (InterfaceByIndex (zone_index zone)).

Lemma zone_printed zone : IP6ZoneToString (zone_index zone) = Ok (zone_shown zone).
Proof.
  unfold IP6ZoneToString, zone_shown. destruct (zone_index zone =? 0); [done|].
  destruct (InterfaceByIndex _); [done|].
  assert (0 <= zone_index zone < 2 ^ 32) by (apply Z.mod_pos_bound; lia).
  unfold u64. rewrite Z.mod_small by lia. apply itod_Itoa. lia.
Qed.

Lemma zone_roundtrip zone : zone_ok zone -> zone_shown zone = zone.
Proof.
  unfold zone_index, zone_shown. intros [[-> Hn]|(i & Hi & Hn & Hx)]; unfold zone_index.
  - by rewrite Hn.
  - rewrite Hn. simpl. unfold u32. rewrite Z.mod_small by lia.
    by rewrite (proj2 (Z.eqb_neq i 0)), Hx by lia.
Qed.

(** The address got back: the wildcard of the protocol for no address, an equal
    one otherwise. *)
Definition same_ip (proto ip ip' : bytes) : Prop :=
  match ip with
  | [] => ip' = if bool_decide (proto = B "tcp4") then IPv4zero else IPv6zero
  | _ => IP_Equal ip ip' = true
  end.
Definition back (proto ip : bytes) (port : Z) (zone : bytes) (sa : Sockaddr) (family : Z) : Prop :=
  exists ip' zone', SockaddrToTCPAddr sa = Ok (Some (TCPAddr ip' port zone')) /\
    same_ip proto ip ip' /\
    (family = AF_INET /\ zone' = [] \/
     family = AF_INET6 /\ zone' = zone_shown zone /\ (zone_ok zone -> zone' = zone)).

Lemma back_v4 proto ip port zone addr :
  length addr = 4%nat -> same_ip proto ip (v4InV6Prefix ++ addr) ->
  back proto ip port zone (SockaddrInet4 port addr) AF_INET.
Proof.
  intros Hl Hip. do 2 eexists. split; [by apply SockaddrToTCPAddr_v4|]. split; [done|by left].
Qed.
Lemma back_v6 proto ip port zone addr :
  length addr = 16%nat -> same_ip proto ip addr ->
  back proto ip port zone (SockaddrInet6 port (zone_index zone) addr) AF_INET6.
Proof.
  intros Hl Hip. do 2 eexists. split; [apply SockaddrToTCPAddr_v6; [done|apply zone_printed]|].
  split; [done|]. right. do 2 (split; [done|]). apply zone_roundtrip.
Qed.

(** C34: what was parsed can be printed. For a resolved address with no IP, a
    4 byte or a 16 byte one (and, without an IP, one of the three TCP
    protocols), the socket address made from it converts back to a TCP address
    with the same port. Its IP is equal to the resolved one in the sense of
    [IP.Equal]; without an IP it is the IPv4 wildcard for "tcp4" and the IPv6
    wildcard for "tcp" and "tcp6". An [AF_INET] address has lost its zone; the
    zone of an [AF_INET6] address is what the interface tables show for it,
    and the same as before when they map the zone to an index and back. *)
Theorem address_roundtrip (proto addr ip : bytes) (port : Z) (zone : bytes)
    (Hres : ResolveTCPAddr proto addr = inl (ip, port, zone))
    (Hlen : (length ip = 0%nat /\ proto ∈ [B "tcp"; B "tcp4"; B "tcp6"]) \/
            length ip = 4%nat \/ length ip = 16%nat) :
  exists sa family only,
    GetTCPSockAddr proto addr = inl (sa, family, only) /\
    exists ip' zone', SockaddrToTCPAddr sa = Ok (Some (TCPAddr ip' port zone')) /\
      same_ip proto ip ip' /\
      (family = AF_INET /\ zone' = [] \/
       family = AF_INET6 /\ zone' = zone_shown zone /\ (zone_ok zone -> zone' = zone)).
Proof.
  destruct Hlen as [[Hl Hp]|Hlen].
  - apply nil_length_inv in Hl as ->. rewrite (GetTCPSockAddr_empty proto addr port zone Hres).
    unfold sockaddr_of. rewrite !elem_of_cons, elem_of_nil in Hp.
    destruct Hp as [->|[->|[->|[]]]]; do 3 eexists; (split; [reflexivity|]);
      first [by apply back_v4|by apply back_v6].
  - rewrite (GetTCPSockAddr_nonempty proto addr ip port zone Hres Hlen). unfold sockaddr_of.
    destruct ip as [|x ip']; [destruct Hlen; discriminate|]. set (ip := x :: ip') in *.
    destruct Hlen as [Hl|Hl].
    + rewrite (zlen_eqb ip 4) by lia. do 3 eexists. split; [done|].
      apply back_v4; [done|]. by apply IP_Equal_mapped.
    + rewrite (zlen_neqb ip 4) by lia. case_bool_decide as Hm; do 3 eexists; (split; [done|]).
      * apply back_v4; [rewrite length_drop; lia|]. rewrite <- Hm, take_drop. apply IP_Equal_refl.
      * apply back_v6; [done|]. apply IP_Equal_refl.
Qed.

End addr.

(** ** Examples *)

(** A resolver that knows one IPv4 host, one link-local IPv6 host and a bare port. *)
Definition demo_ip6 : bytes := "254"%char :: "128"%char :: replicate 13 "000"%char ++ ["001"%char].
#[export] Instance DemoNet : Net := {|
  ResolveTCPAddr proto addr :=
    if bool_decide (addr = B "host4:80") then inl (["127"; "000"; "000"; "001"]%char, 80, [])
    else if bool_decide (addr = B "host6:80") then inl (demo_ip6, 80, B "eth0")
    else if bool_decide (addr = B ":80") then inl ([], 80, [])
    else inr (AddrError (B "no such host"));
  InterfaceByIndex i := if i =? 2 then Some (B "eth0") else None;
  InterfaceByName s := if bool_decide (s = B "eth0") then Some 2 else None;
  unicode_ToLower s := s;
  addr_String a := match a with TCPAddr ip port _ => ip ++ B ":" ++ Itoa port
                              | UnixAddr name _ => name end;
|}.

(** A listener on a bare port gets an IPv6 address, although [newSocket] makes
    an IPv4 socket. *)
Lemma GetTCPSockAddr_functional_witness :
  GetTCPSockAddr (B "tcp") (B ":80") = inl (SockaddrInet6 80 0 IPv6zero, AF_INET6, false).
Proof.
  rewrite (GetTCPSockAddr_functional (B "tcp") (B ":80") [] 80 []);
    [vm_compute; reflexivity|vm_compute; reflexivity|by left].
Defined.

Lemma address_roundtrip_witness :
  zone_ok (B "eth0") /\
  (exists sa family only,
    GetTCPSockAddr (B "tcp") (B "host6:80") = inl (sa, family, only) /\
    exists ip' zone', SockaddrToTCPAddr sa = Ok (Some (TCPAddr ip' 80 zone')) /\
      same_ip (B "tcp") demo_ip6 ip' /\
      (family = AF_INET /\ zone' = [] \/
       family = AF_INET6 /\ zone' = zone_shown (B "eth0") /\
       (zone_ok (B "eth0") -> zone' = B "eth0"))) /\
  (exists sa family only,
    GetTCPSockAddr (B "tcp") (B ":80") = inl (sa, family, only) /\
    exists ip' zone', SockaddrToTCPAddr sa = Ok (Some (TCPAddr ip' 80 zone')) /\
      ip' = IPv6zero /\
      (family = AF_INET /\ zone' = [] \/
       family = AF_INET6 /\ zone' = zone_shown [] /\ (zone_ok [] -> zone' = []))).
Proof.
  split; [|split].
  - right. exists 2. split; [lia|]. split; vm_compute; reflexivity.
  - apply (address_roundtrip (B "tcp") (B "host6:80") demo_ip6 80 (B "eth0"));
      [vm_compute; reflexivity|by right; right].
  - apply (address_roundtrip (B "tcp") (B ":80") [] 80 []);
      [vm_compute; reflexivity|left; split; [reflexivity|]].
    apply elem_of_cons. by left.
Defined.
