(* ===== verification/Frame.v ===== *)
(** * What a piece of code does to the world, as a relation

    [steps R m]: whenever [m] returns, the world before and after are related
    by [R]. For a preorder [R] this composes along the structure of the code,
    and the hints of the database [steps] do so; a component only shows it for
    the places where it writes to the store that [R] talks about. *)

From S2P Require Import Prelude.
From S2P Require Import World.
From S2P Require Import Poller.
From S2P Require Import GoHeap.
From S2P Require Import Timer.
From S2P Require Import Eventloop.
From stdpp Require Import base list gmap strings.
From Stdlib Require Import ZArith Lia.
Open Scope Z_scope.

Definition steps {S A} (R : S -> S -> Prop) (m : M S A) : Prop :=
  forall s a s', m s = Ok (a, s') -> R s s'.

Create HintDb steps discriminated.

Section generic.
Context {S : Type} (R : S -> S -> Prop) `{!PreOrder R}.

Lemma steps_ret {A} (a : A) : steps R (mret a).
Proof. intros s x s' [= _ <-]. reflexivity. Qed.
Lemma steps_panic {A} msg : steps R (panic msg : M S A).
Proof. by intros s x s'. Qed.
Lemma steps_get : steps R get.
Proof. intros s x s' [= _ <-]. reflexivity. Qed.
Lemma steps_lift {A} (r : res A) : steps R (lift r).
Proof. intros s x s'. unfold lift. destruct r; [intros [= _ <-]; reflexivity|done]. Qed.
Lemma steps_AssertM c msg : steps R (AssertM c msg).
Proof. apply steps_lift. Qed.

Lemma steps_bind {A B} (m : M S A) (f : A -> M S B) :
  steps R m -> (forall a, steps R (f a)) -> steps R (m ≫= f).
Proof.
  intros Hm Hf s b s'. unfold mbind, M_bind. destruct (m s) as [[a s1]|] eqn:E; [|done].
  intros Hr. transitivity s1; [by eapply Hm|by eapply Hf].
Qed.

Lemma steps_if {A} (c : bool) (m n : M S A) : steps R m -> steps R n -> steps R (if c then m else n).
Proof. by destruct c. Qed.
Lemma steps_option {A B} (o : option B) (f : B -> M S A) (n : M S A) :
  (forall b, steps R (f b)) -> steps R n -> steps R (match o with Some b => f b | None => n end).
Proof. destruct o; auto. Qed.
Lemma steps_sum {A B C} (o : B + C) (f : B -> M S A) (g : C -> M S A) :
  (forall b, steps R (f b)) -> (forall c, steps R (g c)) ->
  steps R (match o with inl b => f b | inr c => g c end).
Proof. destruct o; auto. Qed.
Lemma steps_pair {A B C} (o : B * C) (f : B -> C -> M S A) :
  (forall b c, steps R (f b c)) -> steps R (let '(b, c) := o in f b c).
Proof. destruct o; auto. Qed.
Lemma steps_forM {A} (l : list A) (f : A -> M S unit) :
  (forall x, steps R (f x)) -> steps R (forM l f).
Proof.
  intros Hf. induction l as [|x l IH]; cbn [forM]; [apply steps_ret|].
  by apply steps_bind.
Qed.
End generic.

#[export] Hint Resolve steps_ret steps_panic steps_get steps_lift steps_AssertM : steps.
#[export] Hint Resolve steps_bind steps_if steps_option steps_sum steps_pair steps_forM : steps.

(** Code that does not write to the stores [R] looks at. *)
Section world.
Context {K : Type} `{!Kernel K}.
Abbreviation W := (World K).
Context (R : W -> W -> Prop) `{!PreOrder R}.

Lemma steps_load {V} (store : W -> gmap nat V) p : steps R (load store p).
Proof.
  intros s x s'. unfold load. destruct (store s !! p); [intros [= _ <-]; reflexivity|done].
Qed.
Lemma steps_alloc {V} (store : W -> gmap nat V) : steps R (alloc store).
Proof. intros s x s' [= _ <-]. reflexivity. Qed.

(** [R] does not depend on the kernel, the loops and the timers, nor on what
    channels there are and what they hold but for their write callbacks. *)
Class Blind : Prop := {
  blind_k w k : R w (w <| w_k := k |>);
  blind_els w m : R w (w <| w_els := m |>);
  blind_tts w m : R w (w <| w_tts := m |>);
  blind_ch w p ch v : w_chs w !! p = Some ch -> writeCallback v = writeCallback ch ->
    R w (w <| w_chs ::= <[p := v]> |>);
  blind_new_ch w p v : w_chs w !! p = None -> R w (w <| w_chs ::= <[p := v]> |>);
}.
Context `{!Blind}.

Lemma steps_sys {A} (f : K -> A * K) : steps R (sys f).
Proof. intros w x w'. rewrite sys_ok. intros [= _ <-]. apply blind_k. Qed.
Lemma steps_modify_k (f : K -> K) : steps R (modify (fun w => w <| w_k ::= f |>)).
Proof. intros w x w' [= _ <-]. apply (blind_k w (f (w_k w))). Qed.
Lemma steps_set_el p v : steps R (set_el p v).
Proof. intros w x w' [= _ <-]. apply (blind_els w (<[p:=v]> (w_els w))). Qed.
Lemma steps_set_tt p v : steps R (set_tt p v).
Proof. intros w x w' [= _ <-]. apply (blind_tts w (<[p:=v]> (w_tts w))). Qed.
Lemma steps_upd_el p f : steps R (upd_el p f).
Proof. apply steps_bind; [done|apply steps_load|]. intros. apply steps_set_el. Qed.
Lemma steps_upd_ch p f :
  (forall ch, writeCallback (f ch) = writeCallback ch) -> steps R (upd_ch p f).
Proof.
  intros Hf w x w'. unfold upd_ch, load, mbind, M_bind.
  destruct (w_chs w !! p) as [ch|] eqn:E; [|done]. intros [= _ <-]. by apply (blind_ch w p ch).
Qed.
Lemma steps_upd_tt p f : steps R (upd_tt p f).
Proof. apply steps_bind; [done|apply steps_load|]. intros. apply steps_set_tt. Qed.
End world.
#[export] Hint Resolve steps_load steps_alloc steps_sys steps_modify_k steps_set_el
  steps_set_tt steps_upd_el steps_upd_ch steps_upd_tt : steps.

#[export] Hint Extern 0 (forall ch : Channel, writeCallback _ = writeCallback ch) =>
  (intros; reflexivity) : steps.

(** Follow the structure of the code; named operations come from the hints. *)
Ltac stp :=
  intros;
  lazymatch goal with
  | |- steps _ (mbind _ _) => apply steps_bind; [typeclasses eauto|stp|stp]
  | |- steps _ (mret _) => apply steps_ret; typeclasses eauto
  | |- steps _ (panic _) => apply steps_panic
  | |- steps _ get => apply steps_get; typeclasses eauto
  | |- steps _ (lift _) => apply steps_lift; typeclasses eauto
  | |- steps _ (AssertM _ _) => apply steps_AssertM; typeclasses eauto
  | |- steps _ (forM _ _) => apply steps_forM; [typeclasses eauto|stp]
  | |- steps _ (if ?c then _ else _) => destruct c; stp
  | |- steps _ (match ?o with _ => _ end) => destruct o; stp
  | |- steps _ (let '(_, _) := ?o in _) => destruct o; stp
  | |- _ => try solve [eauto 6 with steps typeclass_instances]
  end.

Section blind.
Context {K : Type} `{!Kernel K}.
Abbreviation W := (World K).
Context (R : W -> W -> Prop) `{!PreOrder R} `{!Blind R}.

Lemma steps_poller_updateChannel el c : steps R (poller_updateChannel el c).
Proof. unfold poller_updateChannel, poller_update, epollCtl, get_poller, set_poller. stp. Qed.
Lemma steps_poller_removeChannel el c : steps R (poller_removeChannel el c).
Proof. unfold poller_removeChannel, poller_update, epollCtl, get_poller, set_poller. stp. Qed.
Hint Resolve steps_poller_updateChannel steps_poller_removeChannel : steps.
Lemma steps_poll el t : steps R (poll el t).
Proof.
  unfold poll, epollWait, fillActiveChannels, activate, growEventList, get_poller, set_poller. stp.
Qed.
Lemma steps_newPoller : steps R newPoller.
Proof. unfold newPoller. stp. Qed.
Lemma steps_channel_update c : steps R (channel_update c).
Proof. unfold channel_update, el_updateChannel. stp. Qed.
Hint Resolve steps_channel_update : steps.
Lemma steps_enableReading c : steps R (enableReading c).
Proof. unfold enableReading. stp. Qed.
Lemma steps_enableWriting c : steps R (enableWriting c).
Proof. unfold enableWriting. stp. Qed.
Lemma steps_disableWriting c : steps R (disableWriting c).
Proof. unfold disableWriting. stp. Qed.
Lemma steps_disableAll c : steps R (disableAll c).
Proof. unfold disableAll. stp. Qed.
Lemma steps_el_removeChannel el c : steps R (el_removeChannel el c).
Proof. apply steps_poller_removeChannel. Qed.
Lemma steps_NewChannel el fd : steps R (NewChannel el fd).
Proof.
  intros w x w'. unfold NewChannel, mbind, M_bind, alloc, set_ch, modify. intros [= <- <-].
  apply (blind_new_ch R w), not_elem_of_dom, is_fresh.
Qed.
Lemma steps_setReadCallback c cb : steps R (setReadCallback c cb).
Proof. unfold setReadCallback. stp. Qed.
Lemma steps_setErrorCallback c cb : steps R (setErrorCallback c cb).
Proof. unfold setErrorCallback. stp. Qed.
Hint Resolve steps_NewChannel steps_setReadCallback steps_enableReading : steps.

Lemma steps_Wakeup el : steps R (Wakeup el).
Proof. unfold Wakeup. stp. Qed.
Hint Resolve steps_Wakeup : steps.
Lemma steps_AsyncExecute el t : steps R (AsyncExecute el t).
Proof. unfold AsyncExecute. stp. Qed.
Hint Resolve steps_AsyncExecute : steps.

Lemma steps_with_heap {A} el (f : THeap -> res (A * THeap)) : steps R (with_heap el f).
Proof.
  unfold with_heap. stp. intros w x w' [= _ <-]. exact (blind_tts R w _).
Qed.
Hint Resolve steps_with_heap : steps.
Lemma steps_newTimerTask el cb t i : steps R (newTimerTask el cb t i).
Proof. unfold newTimerTask. stp. Qed.
Lemma steps_resetTimerFd fd t : steps R (resetTimerFd fd t).
Proof. unfold resetTimerFd. stp. Qed.
Hint Resolve steps_newTimerTask steps_resetTimerFd : steps.
Lemma steps_addTask el cb t i : steps R (addTask el cb t i).
Proof. unfold addTask, timer_insert. stp. Qed.
Lemma steps_addTask0 el t : steps R (addTask0 el t).
Proof. unfold addTask0, timer_insert. stp. Qed.
Lemma steps_Cancel t : steps R (Timer.Cancel t).
Proof. unfold Timer.Cancel. stp. Qed.
Lemma steps_cancel_closure t : steps R (cancel_closure t).
Proof. unfold cancel_closure. stp. Qed.
Lemma steps_reset el l t : steps R (reset el l t).
Proof. unfold reset, restart, timer_insert. stp. Qed.
Lemma steps_newTimerQueue el : steps R (newTimerQueue el).
Proof. unfold newTimerQueue. stp. Qed.
Lemma steps_timer_shutdown el : steps R (timer_shutdown el).
Proof. unfold timer_shutdown. stp. Qed.
Hint Resolve steps_reset steps_newTimerQueue steps_newPoller steps_timer_shutdown : steps.
Lemma steps_timer_handleRead run el ts :
  (forall cb, steps R (run cb)) -> steps R (timer_handleRead run el ts).
Proof. intros Hrun. unfold timer_handleRead, getExpired, run_expired. stp. Qed.

Lemma steps_NewEventloop id : steps R (NewEventloop id).
Proof. unfold NewEventloop, createEventFd. stp. Qed.
Lemma steps_el_handleRead el : steps R (el_handleRead el).
Proof. unfold el_handleRead. stp. Qed.
Lemma steps_AsyncScheduleDelay el cb d : steps R (AsyncScheduleDelay el cb d).
Proof. unfold AsyncScheduleDelay. stp. Qed.
Hint Resolve steps_poll : steps.
Lemma steps_handleEvent dispatch c ts :
  (forall cb t, steps R (dispatch cb t)) -> steps R (handleEvent dispatch c ts).
Proof. intros Hd. unfold handleEvent, fire. stp. Qed.
Lemma steps_iteration dispatch exec el :
  (forall cb t, steps R (dispatch cb t)) -> (forall t, steps R (exec t)) ->
  steps R (iteration dispatch exec el).
Proof.
  intros Hd He. unfold iteration, runPendingTasks. stp. by apply steps_handleEvent.
Qed.
Lemma steps_loop dispatch exec n el :
  (forall cb t, steps R (dispatch cb t)) -> (forall t, steps R (exec t)) ->
  steps R (loop dispatch exec n el).
Proof.
  intros Hd He. induction n as [|n IH]; cbn [loop]; stp. by apply steps_iteration.
Qed.
Lemma steps_Loop dispatch exec n el :
  (forall cb t, steps R (dispatch cb t)) -> (forall t, steps R (exec t)) ->
  steps R (Loop dispatch exec n el).
Proof. intros Hd He. unfold Loop, destroy. stp. by apply steps_loop. Qed.
End blind.

#[export] Hint Resolve steps_enableReading steps_enableWriting steps_disableWriting
  steps_disableAll steps_el_removeChannel steps_NewChannel steps_setReadCallback
  steps_setErrorCallback steps_AsyncExecute steps_addTask0 steps_Cancel
  steps_cancel_closure steps_NewEventloop steps_el_handleRead steps_AsyncScheduleDelay
  steps_timer_handleRead steps_handleEvent steps_iteration steps_Loop : steps.

(** The closures of the user respect [R]. *)
Class UserSteps {K : Type} `{!UserCode K} (R : World K -> World K -> Prop) : Prop := {
  us_task u : steps R (u_task u);
  us_event u : steps R (u_event u);
  us_conn u c : steps R (u_conn u c);
  us_msg u c ts : steps R (u_msg u c ts);
  us_async u c e : steps R (u_async u c e);
  us_accept u fd a : steps R (u_accept u fd a);
  us_connected u fd : steps R (u_connected u fd);
}.
#[export] Hint Resolve us_task us_event us_conn us_msg us_async us_accept us_connected : steps.
