(* ===== verification/TcpConn.v ===== *)
(** * tcp_conn.go: connections

    Every method of [TcpConn]. The close callback of a connection is a
    parameter ([close_cb]), instantiated in [Reactor]; user callbacks come from
    [UserCode]. [stream] is what the connection has been given to send: the
    bytes the kernel accepted followed by the unread part of [outbound]. *)

From S2P Require Import Prelude.
From S2P Require Import GoLib.
From S2P Require Import Buffer.
From S2P Require Import World.
From S2P Require Import Sim.
From S2P Require Import Poller.
From S2P Require Import GoHeap.
From S2P Require Import Timer.
From S2P Require Import Eventloop.
From S2P Require Import Frame.
From stdpp Require Import base list gmap strings.
From Stdlib Require Import ZArith Lia Ascii.
Open Scope Z_scope.

Abbreviation nil_deref := "invalid memory address or nil pointer dereference" (only parsing).

(** [err != nil && err != unix.EWOULDBLOCK] *)
Definition hard_error (err : option Errno) : option Errno :=
  match err with
  | Some e => if bool_decide (e = EAGAIN) then None else Some e
  | None => None
  end.

Section ops.
Context {K : Type} `{!Kernel K} `{!UserCode K}.
Abbreviation W := (World K).

(** [addr.String()] for a log line or a name: a method call on an interface. *)
Definition need_addr (a : option NetAddr) : M W unit :=
  match a with Some _ => mret tt | None => panic nil_deref end.

Definition NewTcpConn (el : nat) (name : bytes) (fd : Z) (local peer : option NetAddr) :
    M W nat :=
  ch ← NewChannel el fd;
  c ← alloc w_conns;
  set_conn c {| c_el := el; c_name := name; c_so := fd; c_ch := ch; localAddr := local;
                peerAddr := peer; c_state := Connecting; onConn := None; onMsg := None;
                onClose := None; onWriteComplete := None; inbound := NewBuffer;
                outbound := NewBuffer; c_ctx := None |} ;;
  need_addr peer ;;
  setReadCallback ch (CbConnRead c) ;;
  mret c.

Definition SetOnConn (c : nat) (cb : option nat) : M W unit :=
  upd_conn c (fun conn => conn <| onConn := cb |>).
Definition SetOnMsg (c : nat) (cb : option nat) : M W unit :=
  upd_conn c (fun conn => conn <| onMsg := cb |>).
Definition setOnClose (c : nat) (cb : CloseCb) : M W unit :=
  upd_conn c (fun conn => conn <| onClose := Some cb |>).
Definition SetOnWriteComplete (c : nat) (cb : option nat) : M W unit :=
  upd_conn c (fun conn => conn <| onWriteComplete := cb |>).

Definition GetConnState (c : nat) : M W ConnState := conn ← load w_conns c; mret (c_state conn).
Definition GetLocalAddr (c : nat) : M W (option NetAddr) :=
  conn ← load w_conns c; mret (localAddr conn).
Definition GetPeerAddr (c : nat) : M W (option NetAddr) :=
  conn ← load w_conns c; mret (peerAddr conn).
Definition GetInboundBuffer (c : nat) : M W Buffer := conn ← load w_conns c; mret (inbound conn).
Definition GetOutboundBuffer (c : nat) : M W Buffer := conn ← load w_conns c; mret (outbound conn).
Definition IsConnected (conn : TcpConn) : bool := bool_decide (c_state conn = Connected).
Definition IsDisconnected (conn : TcpConn) : bool := bool_decide (c_state conn = Disconnected).
Definition Name (c : nat) : M W bytes := conn ← load w_conns c; mret (c_name conn).

(** [SetContext] stores a pointer to its argument in the first word of the
    interface, [GetContext] dereferences it, which panics when it is unset. *)
Definition SetContext (c : nat) (ctx : nat) : M W unit :=
  upd_conn c (fun conn => conn <| c_ctx := Some ctx |>).
Definition GetContext (c : nat) : M W nat :=
  conn ← load w_conns c;
  match c_ctx conn with Some ctx => mret ctx | None => panic nil_deref end.

(** [c.outbound.Write(p)] and the like: the buffer belongs to the connection. *)
Definition with_outbound {A} (c : nat) (f : Buffer -> res (A * Buffer)) : M W A :=
  conn ← load w_conns c;
  '(a, b) ← lift (f (outbound conn));
  set_conn c (conn <| outbound := b |>) ;;
  mret a.

(** [if c.onWriteComplete != nil { c.el.AsyncExecute(...) }] *)
Definition notify_complete (c : nat) : M W unit :=
  conn ← load w_conns c;
  match onWriteComplete conn with
  | Some _ => AsyncExecute (c_el conn) (TaskWriteComplete c)
  | None => mret tt
  end.

(** [if sent < len(buf) { ... }] of [Write]. *)
Definition queue_rest (c : nat) (sent : Z) (p : bytes) : M W unit :=
  if sent <? zlen p then
    rest ← lift (slice p sent (zlen p));
    _ ← with_outbound c (Buffer.Write rest);
    conn ← load w_conns c;
    ch ← load w_chs (c_ch conn);
    if negb (isWriting ch) then enableWriting (c_ch conn) else mret tt
  else mret tt.

Definition Write (c : nat) (p : bytes) : M W (Z * option GoError) :=
  conn ← load w_conns c;
  if IsConnected conn then
    if zlen p =? 0 then mret (0, None)
    else
      ch ← load w_chs (c_ch conn);
      if negb (isWriting ch) && (ReadableBytes (outbound conn) =? 0) then
        '(n, err) ← sys (k_write (ch_fd ch) p);
        match hard_error err with
        | Some e => mret (0, Some (Sys e))
        | None =>
          (if n <? zlen p then mret tt else notify_complete c) ;;
          queue_rest c n p ;; mret (n, None)
        end
      else queue_rest c 0 p ;; mret (0, None)
  else mret (0, Some ErrConnNotOpened).

Definition handleError (c : nat) : M W unit :=
  conn ← load w_conns c; need_addr (peerAddr conn).

(** The closure that [AsyncWrite] queues. *)
Definition async_write (c : nat) (p : bytes) (cb : option nat) : M W unit :=
  '(_, err) ← Write c p;
  err ← match cb with Some u => u_async u c err | None => mret err end;
  match (err : option GoError) with Some _ => handleError c | None => mret tt end.

Definition AsyncWrite (c : nat) (p : bytes) (cb : option nat) : M W (option GoError) :=
  conn ← load w_conns c;
  if IsConnected conn
  then AsyncExecute (c_el conn) (TaskAsyncWrite c p cb) ;; mret None
  else mret (Some ErrConnNotOpened).

Definition ShutdownWrite (c : nat) : M W unit :=
  conn ← load w_conns c;
  if IsConnected conn then
    set_conn c (conn <| c_state := Disconnecting |>) ;;
    AsyncExecute (c_el conn) (TaskShutdownWrite c)
  else mret tt.

(** socket.go: [setTcpNoDelay] *)
Definition SetTcpNoDelay (c : nat) (enable : bool) : M W (option Errno) :=
  conn ← load w_conns c; sys (k_set_nodelay (c_so conn) (if enable then 1 else 0)).

Definition shutdownWrite (c : nat) : M W unit :=
  conn ← load w_conns c;
  ch ← load w_chs (c_ch conn);
  if negb (isWriting ch) then _ ← sys (k_shutdown (ch_fd ch)); mret tt else mret tt.

Definition connectEstablished (c : nat) : M W unit :=
  conn ← load w_conns c;
  AssertM (bool_decide (c_state conn = Connecting)) "state should be connecting" ;;
  set_conn c (conn <| c_state := Connected |>) ;;
  enableReading (c_ch conn) ;;
  match onConn conn with Some u => u_conn u c | None => mret tt end.

Definition connectDestroyed (c : nat) : M W unit :=
  conn ← load w_conns c;
  AssertM (bool_decide (c_state conn = Connected) || bool_decide (c_state conn = Disconnecting))
    "state should be connected or disconnecting" ;;
  set_conn c (conn <| c_state := Disconnected |>) ;;
  disableAll (c_ch conn) ;;
  match onConn conn with Some u => u_conn u c | None => panic nil_deref end ;;
  conn ← load w_conns c;
  el_removeChannel (c_el conn) (c_ch conn).

Section close.
Context (close_cb : CloseCb -> nat -> M W unit).

Definition handleClose (c : nat) : M W unit :=
  conn ← load w_conns c;
  need_addr (peerAddr conn) ;;
  disableAll (c_ch conn) ;;
  conn ← load w_conns c;
  match onClose conn with Some cb => close_cb cb c | None => panic nil_deref end.

Definition conn_handleRead (c : nat) (ts : Z) : M W unit :=
  conn ← load w_conns c;
  ch ← load w_chs (c_ch conn);
  r ← sys (k_readv (ch_fd ch) (WritableBytes (inbound conn)));
  '((n, err), b) ← lift (ReadFd r (inbound conn));
  set_conn c (conn <| inbound := b |>) ;;
  match (err : option Errno) with
  | Some _ => handleError c
  | None =>
    if 0 <? n then
      match onMsg conn with Some u => u_msg u c ts | None => mret tt end
    else handleClose c
  end.

End close.

(** The rest of [handleWrite] after [c.outbound.Advance(n)]. *)
Definition after_advance (c : nat) : M W unit :=
  conn ← load w_conns c;
  if ReadableBytes (outbound conn) =? 0 then
    disableWriting (c_ch conn) ;;
    notify_complete c ;;
    conn ← load w_conns c;
    if bool_decide (c_state conn = Disconnecting) then shutdownWrite c else mret tt
  else mret tt.

Definition conn_handleWrite (c : nat) : M W unit :=
  conn ← load w_conns c;
  ch ← load w_chs (c_ch conn);
  if isWriting ch then
    data ← lift (Peek (outbound conn));
    '(n, err) ← sys (k_write (ch_fd ch) data);
    match hard_error err with
    | Some _ => handleError c
    | None => set_conn c (conn <| outbound := Advance n (outbound conn) |>) ;; after_advance c
    end
  else mret tt.
End ops.

(** ** The life of a connection *)

Definition state_rank (s : ConnState) : Z :=
  match s with Connecting => 0 | Connected => 1 | Disconnecting => 2 | Disconnected => 3 end.

(** A connection keeps its identity and its state only moves forward. *)
Record conn_le (a b : TcpConn) : Prop := {
  le_el : c_el b = c_el a;
  le_name : c_name b = c_name a;
  le_so : c_so b = c_so a;
  le_ch : c_ch b = c_ch a;
  le_addrs : localAddr b = localAddr a /\ peerAddr b = peerAddr a;
  le_state : state_rank (c_state a) <= state_rank (c_state b);
}.

#[export] Instance conn_le_preorder : PreOrder conn_le.
Proof.
  split.
  - intros a. split; (done || lia).
  - intros a b c [] []. split; try congruence; [|lia].
    destruct le_addrs0, le_addrs1. split; congruence.
Qed.

Section relations.
Context {K : Type} `{!Kernel K}.
Abbreviation W := (World K).

(** A relation that does not look at acceptors, servers, connectors and clients
    either, and that allows a connection to move forward and a connection to be
    made on a channel without a write callback. *)
Class ConnFrame (R : W -> W -> Prop) : Prop := {
  #[global] cfr_preorder :: PreOrder R;
  #[global] cfr_blind :: Blind R;
  cfr_accs w m : R w (w <| w_accs := m |>);
  cfr_svrs w m : R w (w <| w_svrs := m |>);
  cfr_ctors w m : R w (w <| w_ctors := m |>);
  cfr_clis w m : R w (w <| w_clis := m |>);
  cfr_conn w c conn v : w_conns w !! c = Some conn -> conn_le conn v ->
    R w (w <| w_conns ::= <[c := v]> |>);
  cfr_new_conn w c conn ch : w_conns w !! c = None -> w_chs w !! c_ch conn = Some ch ->
    writeCallback ch = None -> R w (w <| w_conns ::= <[c := conn]> |>);
}.

Definition conn_rel (w w' : W) : Prop :=
  forall c conn, w_conns w !! c = Some conn ->
    exists conn', w_conns w' !! c = Some conn' /\ conn_le conn conn'.
Definition same_conns (w w' : W) : Prop := w_conns w' = w_conns w.

#[export] Instance conn_rel_preorder : PreOrder conn_rel.
Proof.
  split.
  - intros w c conn Hc. by exists conn.
  - intros w1 w2 w3 H12 H23 c conn Hc. destruct (H12 c conn Hc) as (c2 & Hc2 & L2).
    destruct (H23 c c2 Hc2) as (c3 & Hc3 & L3). exists c3. split; [done|]. by etransitivity.
Qed.
#[export] Instance same_conns_preorder : PreOrder same_conns.
Proof. split; [by intros w|]. unfold same_conns. intros w1 w2 w3 -> ->. done. Qed.

Lemma same_conns_rel w w' : same_conns w w' -> conn_rel w w'.
Proof. intros H c conn Hc. rewrite H. by exists conn. Qed.

#[export] Instance same_conns_blind : Blind same_conns.
Proof. by split. Qed.
#[export] Instance conn_rel_frame : ConnFrame conn_rel.
Proof.
  split; try typeclasses eauto; try (intros; by apply same_conns_rel).
  - split; intros; by apply same_conns_rel.
  - intros w c conn v Hc Hle d dn Hd. simpl. rewrite lookup_insert.
    case_decide; [subst; simplify_eq; by exists v|]. exists dn. split; [done|reflexivity].
  - intros w c conn ch Hc _ _ d dn Hd. exists dn. split; [|reflexivity]. simpl.
    rewrite lookup_insert_ne; [done|congruence].
Qed.
End relations.

Section life.
Context {K : Type} `{!Kernel K} `{!UserCode K}.
Abbreviation W := (World K).
Context (R : W -> W -> Prop) `{!ConnFrame R}.

(** Code that starts where [c] points to [conn]. *)
Definition steps_at {A} (c : nat) (conn : TcpConn) (m : M W A) : Prop :=
  forall w a w', w_conns w !! c = Some conn -> m w = Ok (a, w') -> R w w'.

Lemma steps_load_conn {A} c (f : TcpConn -> M W A) :
  (forall conn, steps_at c conn (f conn)) -> steps R (load w_conns c ≫= f).
Proof.
  intros Hf w a w'. unfold load, mbind, M_bind. destruct (w_conns w !! c) eqn:E; [|done].
  by apply Hf.
Qed.

(** Reading first, ... *)
Lemma steps_at_read {A B} c conn (m : M W A) (f : A -> M W B) :
  steps same_conns m -> steps R m -> (forall a, steps_at c conn (f a)) -> steps_at c conn (m ≫= f).
Proof.
  intros Hm HR Hf w b w' Hc. unfold mbind, M_bind. destruct (m w) as [[a w1]|] eqn:E; [|done].
  intros Hr. pose proof (Hm _ _ _ E) as Hs. transitivity w1; [by eapply HR|].
  eapply Hf; [|exact Hr]. by rewrite Hs.
Qed.
(** ... then a write, then anything. *)
Lemma steps_at_set {A} c conn v (k : M W A) :
  conn_le conn v -> steps R k -> steps_at c conn (set_conn c v ;; k).
Proof.
  intros Hle Hk w a w' Hc Hr. transitivity (w <| w_conns ::= <[c := v]> |>); [|by eapply Hk].
  by apply (cfr_conn w c conn).
Qed.
Lemma steps_at_any {A} c conn (m : M W A) : steps R m -> steps_at c conn m.
Proof. intros Hm w a w' _. apply Hm. Qed.

Lemma steps_upd_conn c f : (forall conn, conn_le conn (f conn)) -> steps R (upd_conn c f).
Proof.
  intros Hf. apply steps_load_conn. intros conn w a w' Hc Hr.
  refine (steps_at_set c conn (f conn) (mret tt) (Hf conn) _ w tt w' Hc _); [stp|].
  by injection Hr as <- <-.
Qed.
Hint Resolve steps_upd_conn : steps.

(** [v] is the connection with other fields changed. *)
Ltac solve_conn_le := split; simpl; first [done|split; done|lia].

Lemma steps_need_addr a : steps R (need_addr a : M W unit).
Proof. unfold need_addr. stp. Qed.
Hint Resolve steps_need_addr : steps.

Lemma steps_NewTcpConn el name fd l p : steps R (NewTcpConn el name fd l p).
Proof.
  intros w c w'. unfold NewTcpConn. destruct (NewChannel_ok el fd w) as (x & Hx & Hch).
  pose proof (steps_NewChannel R el fd w x _ Hch) as H1.
  unfold mbind at 1, M_bind at 1. rewrite Hch.
  unfold mbind at 1, M_bind at 1, alloc. set (w1 := w <| w_chs ::= _ |>) in *.
  set (d := fresh _). set (conn := mkTcpConn _ _ _ _ _ _ _ _ _ _ _ _ _ _).
  intros Hr. transitivity w1; [done|]. transitivity (w1 <| w_conns ::= <[d := conn]> |>).
  - apply (cfr_new_conn w1 d conn (blank_channel el fd)); [|apply lookup_insert_eq|done].
    apply not_elem_of_dom, is_fresh.
  - revert Hr. unfold mbind at 1, M_bind at 1, set_conn, modify.
    assert (Hs : steps R (need_addr p ;; setReadCallback x (CbConnRead d) ;; mret d : M W nat))
      by stp.
    apply Hs.
Qed.

Lemma steps_with_outbound {A} c (f : Buffer -> res (A * Buffer)) :
  steps R (with_outbound c f).
Proof.
  apply steps_load_conn. intros conn. apply steps_at_read; [stp|stp|]. intros [a b].
  apply steps_at_set; [solve_conn_le|stp].
Qed.
Hint Resolve steps_with_outbound : steps.

Lemma steps_notify_complete c : steps R (notify_complete c).
Proof. unfold notify_complete. stp. Qed.
Lemma steps_queue_rest c n p : steps R (queue_rest c n p).
Proof. unfold queue_rest. stp. Qed.
Hint Resolve steps_notify_complete steps_queue_rest : steps.
Lemma steps_Write c p : steps R (Write c p).
Proof. unfold Write. stp. Qed.
Lemma steps_handleError c : steps R (handleError c).
Proof. unfold handleError. stp. Qed.
Hint Resolve steps_Write steps_handleError : steps.
Lemma steps_AsyncWrite c p cb : steps R (AsyncWrite c p cb).
Proof. unfold AsyncWrite. stp. Qed.
Lemma steps_ShutdownWrite c : steps R (ShutdownWrite c).
Proof.
  apply steps_load_conn. intros conn. unfold IsConnected. case_bool_decide as Hst.
  - apply steps_at_set; [|stp]. split; simpl; first [done|rewrite Hst; simpl; lia].
  - apply steps_at_any. stp.
Qed.
Lemma steps_shutdownWrite c : steps R (shutdownWrite c).
Proof. unfold shutdownWrite. stp. Qed.
Hint Resolve steps_shutdownWrite : steps.

Section user.
Context `{!UserSteps R}.

Lemma steps_async_write c p cb : steps R (async_write c p cb).
Proof. unfold async_write. stp. Qed.

Lemma steps_connectEstablished c : steps R (connectEstablished c).
Proof.
  apply steps_load_conn. intros conn w a w' Hc. unfold AssertM.
  case_bool_decide as Hst; [|done]. revert w a w' Hc.
  apply (steps_at_set c conn); [|stp]. split; simpl; first [done|rewrite Hst; simpl; lia].
Qed.

Lemma steps_connectDestroyed c : steps R (connectDestroyed c).
Proof.
  apply steps_load_conn. intros conn. apply steps_at_read; [stp|stp|]. intros _.
  apply steps_at_set; [|stp]. split; simpl; first [done|destruct (c_state conn); simpl; lia].
Qed.

Context (close_cb : CloseCb -> nat -> M W unit) (Hclose : forall cb c, steps R (close_cb cb c)).

Lemma steps_handleClose c : steps R (handleClose close_cb c).
Proof. unfold handleClose. stp. Qed.
Hint Resolve steps_handleClose : steps.

Lemma steps_conn_handleRead c ts : steps R (conn_handleRead close_cb c ts).
Proof.
  apply steps_load_conn. intros conn. apply steps_at_read; [stp|stp|]. intros ch.
  apply steps_at_read; [stp|stp|]. intros r. apply steps_at_read; [stp|stp|]. intros [[n err] b].
  apply steps_at_set; [solve_conn_le|stp].
Qed.
End user.

Lemma steps_after_advance c : steps R (after_advance c).
Proof. unfold after_advance. stp. Qed.
Hint Resolve steps_after_advance : steps.
Lemma steps_conn_handleWrite c : steps R (conn_handleWrite c).
Proof.
  apply steps_load_conn. intros conn. apply steps_at_read; [stp|stp|]. intros ch.
  destruct (isWriting ch); [|apply steps_at_any; stp].
  apply steps_at_read; [stp|stp|]. intros data. apply steps_at_read; [stp|stp|]. intros [n err].
  destruct (hard_error err); [apply steps_at_any; stp|].
  apply steps_at_set; [solve_conn_le|stp].
Qed.
End life.
#[export] Hint Resolve steps_upd_conn steps_need_addr steps_NewTcpConn steps_AsyncWrite
  steps_ShutdownWrite steps_shutdownWrite steps_async_write steps_connectEstablished
  steps_connectDestroyed steps_conn_handleRead steps_conn_handleWrite : steps.

(** ** The stream of bytes sent *)

(** What write(2) promises: a prefix of the data is accepted, or nothing; only
    writing to a descriptor adds to its stream, and only epoll_ctl(2) changes
    interest lists. *)
Class WriteLaws (K : Type) `{!Kernel K} `{!EpollLaws K} : Type := {
  sent_on : K -> Z -> bytes;
  law_write fd p k n k' : k_write fd p k = ((n, None), k') ->
    0 <= n <= zlen p /\
    forall x, sent_on k' x = if decide (x = fd) then sent_on k fd ++ take (Z.to_nat n) p
                             else sent_on k x;
  law_write_err fd p k n e k' x : k_write fd p k = ((n, Some e), k') -> sent_on k' x = sent_on k x;
  law_ctl_sent ep op fd ev d k x : sent_on (snd (k_epoll_ctl ep op fd ev d k)) x = sent_on k x;
  law_write8_sent fd k x : sent_on (k_write8 fd k) x = sent_on k x;
  law_shutdown_sent fd k x : sent_on (snd (k_shutdown fd k)) x = sent_on k x;
  law_write_interest fd p k ep : interest (snd (k_write fd p k)) ep = interest k ep;
  law_write8_interest fd k ep : interest (k_write8 fd k) ep = interest k ep;
  law_shutdown_interest fd k ep : interest (snd (k_shutdown fd k)) ep = interest k ep;
}.

Section stream.
Context {K : Type} `{!Kernel K} `{!UserCode K} `{!EpollLaws K} `{!WriteLaws K}.
Abbreviation W := (World K).

Definition same_sent (w w' : W) : Prop :=
  w_conns w' = w_conns w /\ forall x, sent_on (w_k w') x = sent_on (w_k w) x.
#[local] Instance same_sent_preorder : PreOrder same_sent.
Proof.
  split; [by intros w|]. intros w1 w2 w3 [C1 S1] [C2 S2].
  split; [by rewrite C2|intros x; by rewrite S2].
Qed.

Lemma sent_ctl ep op fd ev d : steps same_sent (sys (k_epoll_ctl ep op fd ev d) : M W _).
Proof. intros w a w'. rewrite sys_ok. intros [= _ <-]. split; [done|]. apply law_ctl_sent. Qed.
Lemma sent_shutdown fd : steps same_sent (sys (k_shutdown fd) : M W _).
Proof. intros w a w'. rewrite sys_ok. intros [= _ <-]. split; [done|]. apply law_shutdown_sent. Qed.
Lemma sent_write8 fd : steps same_sent (modify (fun w : W => w <| w_k ::= k_write8 fd |>)).
Proof. intros w a w' [= _ <-]. split; [done|]. apply law_write8_sent. Qed.
Lemma sent_set_el p v : steps same_sent (set_el p v : M W unit).
Proof. by intros w a w' [= _ <-]. Qed.
Lemma sent_set_ch p v : steps same_sent (set_ch p v : M W unit).
Proof. by intros w a w' [= _ <-]. Qed.
Hint Resolve sent_ctl sent_shutdown sent_write8 sent_set_el sent_set_ch : steps.
Lemma sent_channel_update c : steps same_sent (channel_update c : M W unit).
Proof.
  unfold channel_update, el_updateChannel, poller_updateChannel, poller_update, epollCtl,
    get_poller, set_poller, upd_ch, upd_el. stp.
Qed.
Lemma sent_set_events c f : steps same_sent (set_events c f : M W unit).
Proof. pose proof sent_channel_update. unfold set_events, upd_ch. stp. Qed.
Lemma sent_AsyncExecute el t : steps same_sent (AsyncExecute el t : M W unit).
Proof. unfold AsyncExecute, upd_el, Wakeup. stp. Qed.
Lemma sent_shutdownWrite c : steps same_sent (shutdownWrite c : M W unit).
Proof. unfold shutdownWrite. stp. Qed.

(** A connection, its channel and its loop's poller are in order. *)
Record conn_ok (c : nat) (conn : TcpConn) (ch : Channel) (p : Poller) (w : W) : Prop := {
  ck_conn : w_conns w !! c = Some conn;
  ck_ch : w_chs w !! c_ch conn = Some ch;
  ck_fd : ch_fd ch = c_so conn;
  ck_el : ch_el ch = c_el conn;
  ck_poller : poller_ok (c_el conn) p w;
  ck_free : ch_index ch = channelNew -> channelMap p !! ch_fd ch = None;
  ck_out : wf (outbound conn);
}.

(** What the connection has to send and has sent. *)
Definition stream (w : W) (conn : TcpConn) : bytes :=
  sent_on (w_k w) (c_so conn) ++ contents (outbound conn).

Lemma ck_loop c conn ch p w : conn_ok c conn ch p w -> exists e, w_els w !! c_el conn = Some e.
Proof.
  intros [_ _ _ _ Hp _ _]. apply ok_poller, poller_of_inv in Hp as (e & He & _). by exists e.
Qed.

(** Changing the events of the connection's channel. *)
Lemma conn_set_events c conn ch p w f :
  conn_ok c conn ch p w ->
  exists ch' p' w', set_events (c_ch conn) f w = Ok (tt, w') /\ conn_ok c conn ch' p' w' /\
    events ch' = f (events ch) /\ same_sent w w'.
Proof.
  intros [Hc Hch Hfd Hel Hp Hfree Hwf].
  destruct (set_events_ok (c_el conn) p w (c_ch conn) ch f Hp Hch Hel Hfree)
    as (p' & w' & Hrun & Hp' & Hf & Hep & Hch' & Hm').
  pose proof (sent_set_events _ _ _ _ _ Hrun) as Hs.
  exists (ch <| events := f (events ch) |> <| ch_index := next_index ch (f (events ch)) |>), p', w'.
  split; [exact Hrun|]. split; [|split; [reflexivity|exact Hs]].
  split; [|exact Hch'|exact Hfd|exact Hel|exact Hp'| |exact Hwf].
  - rewrite (proj1 Hs). exact Hc.
  - simpl. unfold next_index. repeat case_match; discriminate.
Qed.

(** A buffer that takes all of [p] ([Write_lossless_iff] says when). *)
Definition takes_all (p : bytes) (b : Buffer) : Prop := accepted (zlen p) b = zlen p.

Lemma takes_all_empty p b : wf b -> ReadableBytes b = 0 -> takes_all p b.
Proof.
  intros _ Hr. unfold takes_all, accepted. rewrite Hr.
  destruct (Z.leb_spec (zlen p) (WritableBytes b)); [done|].
  rewrite (proj2 (Z.ltb_lt _ _)) by lia. done.
Qed.

(** The connection with another outbound buffer. *)
Lemma conn_ok_outbound c conn ch p w b :
  conn_ok c conn ch p w -> wf b ->
  conn_ok c (conn <| outbound := b |>) ch p (w <| w_conns ::= <[c := conn <| outbound := b |>]> |>).
Proof.
  intros [Hc Hch Hfd Hel Hp Hfree Hwf] Hb. split; try done; simpl.
  - apply lookup_insert_eq.
  - eapply poller_ok_ext; [exact Hp|exact (ok_poller _ _ _ Hp)|done|done].
Qed.

Lemma writing_enabled ev : has (Z.lor ev eventWrite) eventWrite = true.
Proof.
  unfold has. apply negb_true_iff, Z.eqb_neq. intros H.
  assert (Hb : Z.testbit (Z.land (Z.lor ev eventWrite) eventWrite) 2 = false) by (rewrite H; apply Z.bits_0).
  by rewrite Z.land_spec, Z.lor_spec, orb_true_r in Hb.
Qed.

Lemma queue_rest_ok c conn ch p w n d :
  conn_ok c conn ch p w -> 0 <= n <= zlen d ->
  takes_all (drop (Z.to_nat n) d) (outbound conn) ->
  exists conn' ch' p' w', queue_rest c n d w = Ok (tt, w') /\ conn_ok c conn' ch' p' w' /\
    c_state conn' = c_state conn /\ c_so conn' = c_so conn /\
    (forall x, sent_on (w_k w') x = sent_on (w_k w) x) /\
    contents (outbound conn') = contents (outbound conn) ++ drop (Z.to_nat n) d /\
    (n < zlen d -> isWriting ch' = true).
Proof.
  intros Hok Hn Hall. unfold queue_rest. destruct (Z.ltb_spec n (zlen d)) as [Hlt|Hge].
  2:{ exists conn, ch, p, w. do 5 (split; [done|]). split; [|lia].
      rewrite drop_ge, app_nil_r by zl. done. }
  destruct (Write_Ok (outbound conn) (drop (Z.to_nat n) d) (ck_out _ _ _ _ _ Hok))
    as (b & HW & Hwf & Hcon).
  rewrite Hall in HW, Hcon. rewrite take_ge in Hcon by (unfold zlen; lia).
  assert (Hsl : slice d n (zlen d) = Ok (drop (Z.to_nat n) d)).
  { rewrite slice_Ok by lia. f_equal. apply take_ge. rewrite length_drop. zl. }
  set (conn1 := conn <| outbound := b |>). set (w1 := w <| w_conns ::= <[c := conn1]> |>).
  assert (Hok1 : conn_ok c conn1 ch p w1) by by apply conn_ok_outbound.
  assert (Hpre : forall r, ((if negb (isWriting ch) then enableWriting (c_ch conn) else mret tt)
      : M W unit) w1 = r -> (rest ← lift (slice d n (zlen d)); _ ← with_outbound c (Buffer.Write rest);
      conn ← load w_conns c; ch ← load w_chs (c_ch conn);
      if negb (isWriting ch) then enableWriting (c_ch conn) else mret tt) w = r).
  { intros r Hr. eapply bind_Ok_M; [unfold lift; by rewrite Hsl|]. eapply bind_Ok_M.
    { unfold with_outbound. eapply bind_Ok_M; [unfold load; by rewrite (ck_conn _ _ _ _ _ Hok)|].
      eapply bind_Ok_M; [unfold lift; by rewrite HW|]. reflexivity. }
    eapply bind_Ok_M; [unfold load; fold conn1 w1; by rewrite (ck_conn _ _ _ _ _ Hok1)|].
    eapply bind_Ok_M; [unfold load; fold conn1 w1; by rewrite (ck_ch _ _ _ _ _ Hok1)|]. exact Hr. }
  destruct (isWriting ch) eqn:Hw.
  - exists conn1, ch, p, w1. split; [by apply Hpre|]. do 4 (split; [done|]). done.
  - destruct (conn_set_events c conn1 ch p w1 (fun ev => Z.lor ev eventWrite) Hok1)
      as (ch' & p' & w' & Hrun & Hok' & Hev & Hs).
    exists conn1, ch', p', w'. split; [apply Hpre; exact Hrun|]. do 3 (split; [done|]).
    split; [exact (proj2 Hs)|]. split; [done|]. intros _. unfold isWriting. rewrite Hev.
    apply writing_enabled.
Qed.

(** The connection in a world with another kernel state. *)
Lemma conn_ok_kernel c conn ch p w k :
  conn_ok c conn ch p w -> (forall ep, interest k ep = interest (w_k w) ep) ->
  conn_ok c conn ch p (w <| w_k := k |>).
Proof.
  intros [Hc Hch Hfd Hel Hp Hfree Hwf] Hi. split; try done.
  eapply poller_ok_ext; [exact Hp|exact (ok_poller _ _ _ Hp)|done|apply Hi].
Qed.

Lemma notify_complete_ok c conn ch p w :
  conn_ok c conn ch p w ->
  exists w', notify_complete c w = Ok (tt, w') /\ conn_ok c conn ch p w' /\ same_sent w w'.
Proof.
  intros Hok. unfold notify_complete. destruct (ck_loop _ _ _ _ _ Hok) as [e He].
  pose proof Hok as [Hc Hch Hfd Hel Hp Hfree Hwf].
  destruct (onWriteComplete conn) eqn:E.
  2:{ exists w. split; [|split; [done|by split]].
      eapply bind_Ok_M; [unfold load; by rewrite Hc|]. by rewrite E. }
  pose proof (AsyncExecute_ok _ e w (TaskWriteComplete c) He) as Hrun.
  eexists. split; [eapply bind_Ok_M; [unfold load; by rewrite Hc|]; rewrite E; exact Hrun|].
  split; [|by eapply sent_AsyncExecute]. split; try done. eapply poller_ok_ext; [exact Hp| |done|].
  - unfold poller_of. simpl. rewrite lookup_insert_eq. simpl.
    apply ok_poller, poller_of_inv in Hp as (e0 & ? & ?). by simplify_eq.
  - apply law_write8_interest.
Qed.

(** The kernel does not answer a write of [d] with EAGAIN. *)
Definition no_EAGAIN (fd : Z) (d : bytes) (k : K) : Prop :=
  forall n k', k_write fd d k <> ((n, Some EAGAIN), k').

(** What a write of [d] that answered [n] and [err] did. An error of the
    kernel is passed on and nothing is sent or queued; otherwise the first [n]
    bytes were sent, the rest is queued, and if there is a rest the loop waits
    for the descriptor to become writable. *)
Definition wrote (d : bytes) (n : Z) (err : option GoError) (conn conn' : TcpConn)
    (ch ch' : Channel) (w w' : W) : Prop :=
  match err with
  | Some e => n = 0 /\ outbound conn' = outbound conn /\
      sent_on (w_k w') (c_so conn) = sent_on (w_k w) (c_so conn) /\
      exists m e' k', k_write (ch_fd ch) d (w_k w) = ((m, Some e'), k') /\ e = Sys e'
  | None => 0 <= n <= zlen d /\
      sent_on (w_k w') (c_so conn) = sent_on (w_k w) (c_so conn) ++ take (Z.to_nat n) d /\
      contents (outbound conn') = contents (outbound conn) ++ drop (Z.to_nat n) d /\
      (n < zlen d -> isWriting ch' = true)
  end.

(** With nothing queued before, or nothing sent now, the order is kept. *)
Lemma wrote_stream d n err conn conn' ch ch' (w w' : W) :
  wrote d n err conn conn' ch ch' w w' -> c_so conn' = c_so conn ->
  contents (outbound conn) = [] \/ n = 0 ->
  stream w' conn' = stream w conn ++ match err with Some _ => [] | None => d end.
Proof.
  unfold wrote, stream. intros Hw -> Hor. destruct err as [e|].
  - destruct Hw as (_ & -> & -> & _). by rewrite app_nil_r.
  - destruct Hw as (_ & -> & -> & _). destruct Hor as [-> | ->].
    + by rewrite !app_nil_r, <- app_assoc, app_nil_l, take_drop.
    + by rewrite app_nil_r, <- app_assoc.
Qed.

Lemma Write_direct c conn ch p w d :
  conn_ok c conn ch p w -> ReadableBytes (outbound conn) = 0 -> zlen d <> 0 ->
  no_EAGAIN (ch_fd ch) d (w_k w) ->
  exists n err conn' ch' p' w',
    ('(n, err) ← sys (k_write (ch_fd ch) d);
     match hard_error err with
     | Some e => mret (0, Some (Sys e))
     | None => (if n <? zlen d then mret tt else notify_complete c) ;;
               queue_rest c n d ;; mret (n, None)
     end) w = Ok ((n, err), w') /\
    conn_ok c conn' ch' p' w' /\ c_state conn' = c_state conn /\ c_so conn' = c_so conn /\
    wrote d n err conn conn' ch ch' w w'.
Proof.
  intros Hok Hr Hd Hag. pose proof (ck_fd _ _ _ _ _ Hok) as Hfd.
  destruct (k_write (ch_fd ch) d (w_k w)) as [[n err] k1] eqn:Hk.
  assert (Hok1 : conn_ok c conn ch p (w <| w_k := k1 |>)).
  { apply conn_ok_kernel; [done|]. intros ep. pose proof (law_write_interest (ch_fd ch) d (w_k w) ep) as H.
    by rewrite Hk in H. }
  destruct err as [e|].
  - assert (e <> EAGAIN) by (intros ->; by eapply Hag).
    exists 0, (Some (Sys e)), conn, ch, p, (w <| w_k := k1 |>).
    split; [|do 3 (split; [done|])].
    + eapply bind_Ok_M; [rewrite sys_ok, Hk; reflexivity|]. simpl.
      by rewrite bool_decide_eq_false_2.
    + do 2 (split; [done|]). split; [apply (law_write_err _ _ _ _ _ _ _ Hk)|]. by exists n, e, k1.
  - destruct (law_write _ _ _ _ _ Hk) as [Hn Hsent].
    assert (Hnot : exists w2, (if n <? zlen d then mret tt else notify_complete c)
        (w <| w_k := k1 |>) = Ok (tt, w2) /\ conn_ok c conn ch p w2 /\
        same_sent (w <| w_k := k1 |>) w2).
    { destruct (n <? zlen d); [by eexists|by apply notify_complete_ok]. }
    destruct Hnot as (w2 & Hrun2 & Hok2 & Hs2).
    destruct (queue_rest_ok c conn ch p w2 n d Hok2 Hn) as
      (conn' & ch' & p' & w' & Hrun' & Hok' & Hst & Hso & Hs' & Hcon & Hwr).
    { apply takes_all_empty; [exact (ck_out _ _ _ _ _ Hok)|done]. }
    exists n, None, conn', ch', p', w'. split; [|do 3 (split; [done|])].
    + eapply bind_Ok_M; [rewrite sys_ok, Hk; reflexivity|]. simpl.
      eapply bind_Ok_M; [exact Hrun2|]. by eapply bind_Ok_M; [exact Hrun'|].
    + split; [done|]. split; [|done]. rewrite Hs', (proj2 Hs2). simpl.
      by rewrite Hsent, decide_True, Hfd.
Qed.

Lemma Write_result c conn ch p w d :
  conn_ok c conn ch p w -> c_state conn = Connected -> takes_all d (outbound conn) ->
  no_EAGAIN (ch_fd ch) d (w_k w) ->
  exists n err conn' ch' p' w', Write c d w = Ok ((n, err), w') /\
    conn_ok c conn' ch' p' w' /\ c_state conn' = c_state conn /\ c_so conn' = c_so conn /\
    wrote d n err conn conn' ch ch' w w' /\ (contents (outbound conn) = [] \/ n = 0).
Proof.
  intros Hok Hst Htake Hag.
  assert (Hpre : forall r, (if zlen d =? 0 then mret (0, None) else
      if negb (isWriting ch) && (ReadableBytes (outbound conn) =? 0) then
        '(n, err) ← sys (k_write (ch_fd ch) d);
        match hard_error err with
        | Some e => mret (0, Some (Sys e))
        | None => (if n <? zlen d then mret tt else notify_complete c) ;;
                  queue_rest c n d ;; mret (n, None)
        end
      else queue_rest c 0 d ;; mret (0, None)) w = r -> Write c d w = r).
  { intros r Hr. eapply bind_Ok_M; [unfold load; by rewrite (ck_conn _ _ _ _ _ Hok)|].
    unfold IsConnected. rewrite bool_decide_eq_true_2 by done. destruct (zlen d =? 0); [done|].
    eapply bind_Ok_M; [unfold load; by rewrite (ck_ch _ _ _ _ _ Hok)|]. exact Hr. }
  destruct (Z.eqb_spec (zlen d) 0) as [Hz|Hnz].
  { assert (d = []) as -> by (destruct d; [done|zl]). exists 0, None, conn, ch, p, w.
    split; [by apply Hpre|]. do 3 (split; [done|]). split; [|by right].
    unfold wrote. simpl. by rewrite !app_nil_r. }
  destruct (negb (isWriting ch) && (ReadableBytes (outbound conn) =? 0)) eqn:Hpath.
  - apply andb_prop in Hpath as [_ Hr%Z.eqb_eq].
    destruct (Write_direct c conn ch p w d Hok Hr Hnz Hag)
      as (n & err & conn' & ch' & p' & w' & Hrun & Hok' & Hst' & Hso & Hwr).
    exists n, err, conn', ch', p', w'. split; [by apply Hpre|]. do 4 (split; [done|]). left.
    apply nil_length_inv. pose proof (zlen_contents _ (ck_out _ _ _ _ _ Hok)). unfold zlen in *. lia.
  - destruct (queue_rest_ok c conn ch p w 0 d Hok) as
      (conn' & ch' & p' & w' & Hrun' & Hok' & Hst' & Hso & Hs' & Hcon & Hwr); [zl|done|].
    exists 0, None, conn', ch', p', w'. split; [apply Hpre; by eapply bind_Ok_M|].
    do 3 (split; [done|]). split; [|by right]. unfold wrote. rewrite Hs', Hcon. simpl.
    rewrite app_nil_r. split; [zl|done].
Qed.

(** C5: a write on an open connection adds the bytes to the end of the stream
    or fails without sending any of them, whatever part of the data the kernel
    accepts and whether or not older data is still queued. The count returned
    is the number of bytes the kernel took; the rest is queued, and if there is
    a rest, the channel is waiting to write. The connection, its channel and
    the epoll registration stay in order. Two situations are excluded: that
    the outbound buffer drops a part of the data ([takes_all], see
    [Write_lossless_iff]), and that the kernel answers EAGAIN ([no_EAGAIN],
    see [Write_EAGAIN_panics]). *)
Theorem Write_in_order (c : nat) (conn : TcpConn) (ch : Channel) (p : Poller) (w : W) (d : bytes)
    (Hok : conn_ok c conn ch p w) (Hst : c_state conn = Connected)
    (Htake : takes_all d (outbound conn)) (Hag : no_EAGAIN (ch_fd ch) d (w_k w)) :
  exists n err conn' ch' p' w', Write c d w = Ok ((n, err), w') /\
    conn_ok c conn' ch' p' w' /\ c_state conn' = Connected /\
    wrote d n err conn conn' ch ch' w w' /\
    stream w' conn' = stream w conn ++ match err with Some _ => [] | None => d end.
Proof.
  destruct (Write_result c conn ch p w d Hok Hst Htake Hag)
    as (n & err & conn' & ch' & p' & w' & Hrun & Hok' & Hst' & Hso & Hwr & Hor).
  exists n, err, conn', ch', p', w'. do 2 (split; [done|]). split; [congruence|].
  split; [done|by eapply wrote_stream].
Qed.

(** C39: a write that the kernel answers with EAGAIN panics: the count of the
    failed call, -1, is used as the number of bytes sent. *)
Theorem Write_EAGAIN_panics (c : nat) (conn : TcpConn) (ch : Channel) (p : Poller) (w : W)
    (d : bytes) (k1 : K)
    (Hok : conn_ok c conn ch p w) (Hst : c_state conn = Connected) (Hd : d <> [])
    (Hidle : isWriting ch = false) (Hempty : ReadableBytes (outbound conn) = 0)
    (Hag : k_write (ch_fd ch) d (w_k w) = ((-1, Some EAGAIN), k1)) :
  panics (Write c d w).
Proof.
  assert (Hlen : 0 < zlen d) by (destruct d; [done|zl]).
  exists "slice bounds out of range"%string. unfold Write.
  eapply bind_Ok_M; [unfold load; by rewrite (ck_conn _ _ _ _ _ Hok)|].
  unfold IsConnected. rewrite bool_decide_eq_true_2, (proj2 (Z.eqb_neq _ _)) by (done || lia).
  eapply bind_Ok_M; [unfold load; by rewrite (ck_ch _ _ _ _ _ Hok)|].
  rewrite Hidle, Hempty. simpl. eapply bind_Ok_M; [rewrite sys_ok, Hag; reflexivity|]. simpl.
  rewrite (proj2 (Z.ltb_lt (-1) (zlen d))) by lia. eapply bind_Ok_M; [reflexivity|].
  unfold queue_rest. rewrite (proj2 (Z.ltb_lt (-1) (zlen d))) by lia.
  destruct (slice_panics d (-1) (zlen d)) as [msg Hm]; [lia|].
  unfold mbind, M_bind, lift. unfold slice in *. done.
Qed.

Lemma shutdownWrite_ok c conn ch p w :
  conn_ok c conn ch p w ->
  exists w', shutdownWrite c w = Ok (tt, w') /\ conn_ok c conn ch p w' /\ same_sent w w'.
Proof.
  intros Hok.
  assert (Hrun : exists w', shutdownWrite c w = Ok (tt, w') /\ conn_ok c conn ch p w').
  { assert (Hpre : forall r, ((if negb (isWriting ch) then _ ← sys (k_shutdown (ch_fd ch)); mret tt
      else mret tt) : M W unit) w = r -> shutdownWrite c w = r).
    { intros r Hr. eapply bind_Ok_M; [unfold load; by rewrite (ck_conn _ _ _ _ _ Hok)|].
      by eapply bind_Ok_M; [unfold load; by rewrite (ck_ch _ _ _ _ _ Hok)|]. }
    destruct (isWriting ch); [by exists w; split; [apply Hpre|]|].
    eexists. split; [apply Hpre; eapply bind_Ok_M; [apply sys_ok|reflexivity]|].
    apply conn_ok_kernel; [done|]. intros ep. apply law_shutdown_interest. }
  destruct Hrun as (w' & Hr & Hok'). exists w'. split; [done|]. split; [done|].
  by eapply sent_shutdownWrite.
Qed.

Lemma after_advance_ok c conn ch p w :
  conn_ok c conn ch p w ->
  exists ch' p' w', after_advance c w = Ok (tt, w') /\ conn_ok c conn ch' p' w' /\
    same_sent w w' /\
    isWriting ch' = if ReadableBytes (outbound conn) =? 0 then false else isWriting ch.
Proof.
  intros Hok. unfold after_advance. destruct (ReadableBytes (outbound conn) =? 0) eqn:Hr.
  2:{ exists ch, p, w. split; [|split; [done|by split]].
      eapply bind_Ok_M; [unfold load; by rewrite (ck_conn _ _ _ _ _ Hok)|]. by rewrite Hr. }
  destruct (conn_set_events c conn ch p w (fun ev => Z.land ev (2 ^ 32 - 1 - eventWrite)) Hok)
    as (ch' & p' & w1 & Hrun1 & Hok1 & Hev & Hs1).
  destruct (notify_complete_ok c conn ch' p' w1 Hok1) as (w2 & Hrun2 & Hok2 & Hs2).
  assert (Hlast : exists w3, (if bool_decide (c_state conn = Disconnecting) then shutdownWrite c
      else mret tt) w2 = Ok (tt, w3) /\ conn_ok c conn ch' p' w3 /\ same_sent w2 w3).
  { case_bool_decide; [by apply shutdownWrite_ok|by exists w2]. }
  destruct Hlast as (w3 & Hrun3 & Hok3 & Hs3). exists ch', p', w3. split; [|split; [done|split]].
  - eapply bind_Ok_M; [unfold load; by rewrite (ck_conn _ _ _ _ _ Hok)|]. rewrite Hr.
    eapply bind_Ok_M; [exact Hrun1|]. eapply bind_Ok_M; [exact Hrun2|].
    eapply bind_Ok_M; [unfold load; by rewrite (ck_conn _ _ _ _ _ Hok2)|exact Hrun3].
  - etransitivity; [exact Hs1|]. by etransitivity.
  - unfold isWriting, has. rewrite Hev, <- Z.land_assoc.
    change (Z.land (2 ^ 32 - 1 - eventWrite) eventWrite) with 0. by rewrite Z.land_0_r.
Qed.

(** C13: draining the outbound buffer: when the descriptor is writable,
    [handleWrite] sends a prefix of the queued bytes, whatever its length; the
    stream stays the same, and writing is switched off exactly when nothing is
    left, so that no byte is lost, repeated or reordered. *)
Theorem handleWrite_keeps_stream (c : nat) (conn : TcpConn) (ch : Channel) (p : Poller) (w : W)
    (n : Z) (k1 : K)
    (Hok : conn_ok c conn ch p w) (Hw : isWriting ch = true)
    (Hk : k_write (ch_fd ch) (contents (outbound conn)) (w_k w) = ((n, None), k1)) :
  exists conn' ch' p' w', conn_handleWrite c w = Ok (tt, w') /\ conn_ok c conn' ch' p' w' /\
    stream w' conn' = stream w conn /\
    contents (outbound conn') = drop (Z.to_nat n) (contents (outbound conn)) /\
    isWriting ch' = bool_decide (contents (outbound conn') <> []).
Proof.
  destruct (law_write _ _ _ _ _ Hk) as [Hn Hsent]. pose proof (ck_out _ _ _ _ _ Hok) as Hwf.
  pose proof (ck_fd _ _ _ _ _ Hok) as Hfd. pose proof (zlen_contents _ Hwf) as Hlen.
  destruct (Advance_contents (outbound conn) n Hwf) as [Hwf' Hcon]; [lia|].
  set (conn1 := conn <| outbound := Advance n (outbound conn) |>).
  set (w1 := w <| w_k := k1 |> <| w_conns ::= <[c := conn1]> |>).
  assert (Hok1 : conn_ok c conn1 ch p w1).
  { apply (conn_ok_outbound c conn ch p (w <| w_k := k1 |>)); [|done].
    apply conn_ok_kernel; [done|]. intros ep.
    pose proof (law_write_interest (ch_fd ch) (contents (outbound conn)) (w_k w) ep) as H.
    by rewrite Hk in H. }
  destruct (after_advance_ok c conn1 ch p w1 Hok1) as (ch' & p' & w' & Hrun & Hok' & Hs & Hw').
  exists conn1, ch', p', w'. split; [|split; [done|split; [|split; [done|]]]].
  - unfold conn_handleWrite. eapply bind_Ok_M; [unfold load; by rewrite (ck_conn _ _ _ _ _ Hok)|].
    eapply bind_Ok_M; [unfold load; by rewrite (ck_ch _ _ _ _ _ Hok)|]. rewrite Hw.
    eapply bind_Ok_M; [unfold lift; by rewrite Peek_contents|].
    eapply bind_Ok_M; [rewrite sys_ok, Hk; reflexivity|]. simpl.
    by eapply bind_Ok_M; [reflexivity|].
  - unfold stream. rewrite (proj2 Hs). simpl. rewrite Hsent, Hfd, decide_True, Hcon by done.
    by rewrite <- app_assoc, take_drop.
  - change (outbound conn1) with (Advance n (outbound conn)) in *. rewrite Hw', Hw, <- (zlen_contents _ Hwf').
    destruct (contents (Advance n (outbound conn))) eqn:E; [done|].
    rewrite (proj2 (Z.eqb_neq _ _)) by zl. by rewrite bool_decide_eq_true_2.
Qed.
End stream.

Section undrained.
Context {K : Type} `{!Kernel K} `{!UserCode K}.
Abbreviation W := (World K).

(** A guarded callback that is not installed, or whose condition is false. *)
Lemma fire_nothing dispatch c ts cond cb (w : W) ch :
  w_chs w !! c = Some ch -> cond ch = false \/ cb ch = None ->
  fire dispatch c ts cond cb w = Ok (tt, w).
Proof.
  intros Hc H. unfold fire. eapply bind_Ok_M; [by apply load_ch_ok|].
  destruct H as [-> | ->]; [done|]. by destruct (cond ch).
Qed.

(** A channel that is only writable and has no write callback. *)
Lemma handleEvent_writable dispatch c ts (w : W) ch :
  w_chs w !! c = Some ch -> writeCallback ch = None -> revents ch = POLLOUT ->
  handleEvent dispatch c ts w =
    Ok (tt, w <| w_chs ::= <[c := ch <| evtHandling := false |>]> |>).
Proof.
  intros Hc Hw Hr. unfold handleEvent. set (ch1 := ch <| evtHandling := true |>).
  set (w1 := w <| w_chs ::= <[c := ch1]> |>).
  assert (Hc1 : w_chs w1 !! c = Some ch1) by apply lookup_insert_eq.
  eapply bind_Ok_M; [by apply upd_ch_ok|].
  eapply bind_Ok_M; [eapply (fire_nothing _ _ _ _ _ w1 ch1); [done|left; unfold hup_only; simpl; by rewrite Hr]|].
  eapply bind_Ok_M; [eapply (fire_nothing _ _ _ _ _ w1 ch1); [done|left; simpl; by rewrite Hr]|].
  eapply bind_Ok_M; [eapply (fire_nothing _ _ _ _ _ w1 ch1); [done|left; simpl; by rewrite Hr]|].
  eapply bind_Ok_M; [eapply (fire_nothing _ _ _ _ _ w1 ch1); [done|by right]|].
  rewrite (upd_ch_ok w1 c ch1) by done. unfold w1. simpl. by rewrite insert_insert_eq.
Qed.

(** No connection has a channel with a write callback. *)
Definition mute (w : W) (x : nat) : Prop :=
  exists ch, w_chs w !! x = Some ch /\ writeCallback ch = None.
Definition conns_mute (w : W) : Prop :=
  forall c conn, w_conns w !! c = Some conn -> mute w (c_ch conn).

(** Channels without a write callback stay so, and connections are only made on
    such channels. *)
Definition mute_rel (w w' : W) : Prop :=
  (forall x, mute w x -> mute w' x) /\ (conns_mute w -> conns_mute w').

Lemma mute_rel_chs w w' :
  w_conns w' = w_conns w -> (forall x, mute w x -> mute w' x) -> mute_rel w w'.
Proof. intros Hc Hm. split; [done|]. intros H c conn Hl. rewrite Hc in Hl. by eapply Hm, H. Qed.

#[export] Instance mute_rel_preorder : PreOrder mute_rel.
Proof.
  split; [by intros w|]. intros w1 w2 w3 [A1 B1] [A2 B2]. split; auto.
Qed.

#[export] Instance mute_rel_blind : Blind mute_rel.
Proof.
  split; intros; apply mute_rel_chs; try done; intros x (ch' & Hch & Hw); unfold mute; simpl.
  - rewrite lookup_insert. case_decide; [subst; eexists; split; [done|congruence]|by exists ch'].
  - rewrite lookup_insert_ne by congruence. by exists ch'.
Qed.

#[export] Instance mute_rel_frame : ConnFrame mute_rel.
Proof.
  split; try typeclasses eauto; try (intros; by apply mute_rel_chs).
  - intros w c conn v Hc [_ _ _ Hch _ _]. split; [done|]. intros H d dn. simpl.
    rewrite lookup_insert. case_decide; [|apply H]. subst. intros [= <-]. rewrite Hch. by apply (H d).
  - intros w c conn ch Hc Hch Hw. split; [done|]. intros H d dn. simpl.
    rewrite lookup_insert. case_decide; [|apply H]. intros [= <-]. by exists ch.
Qed.

(** The poller's report that a connection's descriptor is writable. *)
Lemma writable_ignored (w : W) (c el : nat) conn e :
  conns_mute w -> w_conns w !! c = Some conn -> w_els w !! el = Some e ->
  exists w1 ch, activate el (POLLOUT, c_ch conn) w = Ok (tt, w1) /\
    w_chs w1 !! c_ch conn = Some ch /\ revents ch = POLLOUT /\
    forall dispatch ts, handleEvent dispatch (c_ch conn) ts w1 =
      Ok (tt, w1 <| w_chs ::= <[c_ch conn := ch <| evtHandling := false |>]> |>).
Proof.
  intros Hm Hc He. destruct (Hm c conn Hc) as (ch & Hch & Hw).
  do 2 eexists. split; [by apply activate_ok|]. split; [apply lookup_insert_eq|].
  split; [done|]. intros dispatch ts. apply handleEvent_writable; [apply lookup_insert_eq|done..].
Qed.
End undrained.

(** ** Examples *)

#[export] Instance SimWriteLaws : WriteLaws Sim.
Proof.
  refine {| sent_on := sim_sent_on |}; simpl.
  - intros fd p k n k'. unfold sim_write. destruct (sim_window k =? 0) eqn:E; [done|].
    intros [= <- <-]. split.
    + rewrite zlen_take. zl.
    + intros x. unfold sim_sent_on at 1. simpl. rewrite lookup_insert.
      rewrite (decide_ext (fd = x) (x = fd)) by naive_solver. case_decide; [subst|done]. simpl.
      f_equal. rewrite zlen_take. destruct (Z.le_ge_cases (Z.of_nat (Z.to_nat (sim_window k))) (zlen p)).
      * rewrite Z.min_l by done. by rewrite Nat2Z.id.
      * rewrite Z.min_r by done. unfold zlen in *. rewrite Nat2Z.id, !take_ge by lia. done.
  - intros fd p k n e k' x. unfold sim_write. destruct (sim_window k =? 0); [|done].
    by intros [= _ _ <-].
  - intros ep op fd ev d k x. unfold sim_ctl. by destruct op, (sim_interest k ep !! fd).
  - done.
  - done.
  - intros fd p k ep. unfold sim_write. by destruct (sim_window k =? 0).
  - done.
  - done.
Defined.

(** An open connection on descriptor 9, whose channel is registered. *)
Definition demo_conn (b : Buffer) : TcpConn :=
  mkTcpConn 0 (B "srv-conn-1") 9 7 None (Some (UnixAddr (B "peer") (B "unix"))) Connected
    None None None (Some 1%nat) NewBuffer b None.
Definition demo_cworld (b : Buffer) (k : Sim) : World Sim :=
  demo_world <| w_k := k |> <| w_conns := {[ 0%nat := demo_conn b ]} |>.

Lemma demo_conn_ok b k :
  wf b -> (forall ep, sim_interest k ep = sim_interest sim0 ep) ->
  conn_ok 0 (demo_conn b) demo_channel demo_poller (demo_cworld b k).
Proof.
  intros Hb Hk. split; try done.
  eapply poller_ok_ext; [exact demo_poller_ok|exact (ok_poller _ _ _ demo_poller_ok)|done|apply Hk].
Qed.

(** The kernel takes four of five bytes. *)
Lemma Write_in_order_witness :
  exists n err conn' ch' p' w',
    Write 0 (B "hello") (demo_cworld NewBuffer sim0) = Ok ((n, err), w') /\
    conn_ok 0 conn' ch' p' w' /\ c_state conn' = Connected /\
    wrote (B "hello") n err (demo_conn NewBuffer) conn' demo_channel ch'
      (demo_cworld NewBuffer sim0) w' /\
    stream w' conn' = stream (demo_cworld NewBuffer sim0) (demo_conn NewBuffer) ++
      match err with Some _ => [] | None => B "hello" end.
Proof.
  apply (Write_in_order 0 (demo_conn NewBuffer) demo_channel demo_poller
           (demo_cworld NewBuffer sim0) (B "hello")).
  - by apply demo_conn_ok; [apply NewBuffer_wf|].
  - reflexivity.
  - vm_compute. reflexivity.
  - intros n k'. vm_compute. discriminate.
Defined.

Lemma Write_EAGAIN_panics_witness :
  panics (Write 0 (B "hello") (demo_cworld NewBuffer (sim0 <| sim_window := 0 |>))).
Proof.
  apply (Write_EAGAIN_panics 0 (demo_conn NewBuffer) demo_channel demo_poller
           (demo_cworld NewBuffer (sim0 <| sim_window := 0 |>)) (B "hello")
           (sim0 <| sim_window := 0 |>)).
  - by apply demo_conn_ok; [apply NewBuffer_wf|].
  - reflexivity.
  - discriminate.
  - reflexivity.
  - reflexivity.
  - vm_compute. reflexivity.
Defined.

Definition demo_outbound : Buffer := mkBuffer (B "xxhello---") 2 7.
Definition demo_writing : Channel := demo_channel <| events := 7 |> <| ch_index := channelAdd |>.
Definition demo_wpoller : Poller := mkPoller 3 16 {[ 9 := 7%nat ]}.
Definition demo_wworld : World Sim :=
  (demo_cworld demo_outbound (sim_set_interest 3 {[ 9 := (7, 7%nat) ]} sim0))
    <| w_els := {[ 0%nat := demo_loop <| poller := Some demo_wpoller |> ]} |>
    <| w_chs := {[ 7%nat := demo_writing ]} |>.

Lemma demo_writing_ok : conn_ok 0 (demo_conn demo_outbound) demo_writing demo_wpoller demo_wworld.
Proof.
  split; try done. split; simpl.
  - done.
  - intros fd c [<- <-]%lookup_singleton_Some. exists demo_writing.
    split; [apply lookup_singleton_eq|]. repeat split. by left.
  - intros c ch [<- <-]%lookup_singleton_Some _. right. apply lookup_singleton_eq.
  - intros fd. unfold expected. change (sim_interest _ 3) with ({[ 9 := (7, 7%nat) ]} : gmap Z (Z * nat)).
    simpl. destruct (decide (fd = 9)) as [->|Hne]; [reflexivity|].
    by rewrite !lookup_singleton_ne by done.
Qed.

Lemma handleWrite_keeps_stream_witness :
  exists conn' ch' p' w', conn_handleWrite 0 demo_wworld = Ok (tt, w') /\
    conn_ok 0 conn' ch' p' w' /\
    stream w' conn' = stream demo_wworld (demo_conn demo_outbound) /\
    contents (outbound conn') = B "o" /\
    isWriting ch' = bool_decide (contents (outbound conn') <> []).
Proof.
  apply (handleWrite_keeps_stream 0 (demo_conn demo_outbound) demo_writing demo_wpoller
           demo_wworld 4 (snd (sim_write 9 (B "hello") (w_k demo_wworld)))).
  - exact demo_writing_ok.
  - reflexivity.
  - vm_compute. reflexivity.
Defined.
