(* ===== verification/Server.v ===== *)
(** * socket.go (the calls), acceptor.go, tcp_server.go

    The acceptor turns readiness of the listening socket into calls of its
    callback; the server names the new connection, gives it to a loop and
    keeps it in [connMap] until it is removed. [server_ok] says that the keys
    of [connMap] are names the server has handed out, so that a new name is
    never in use. *)

From S2P Require Import Prelude.
From S2P Require Import GoLib.
From S2P Require Import Buffer.
From S2P Require Import World.
From S2P Require Import Sim.
From S2P Require Import Poller.
From S2P Require Import GoHeap.
From S2P Require Import Timer.
From S2P Require Import Eventloop.
From S2P Require Import Frame.
From S2P Require Import Engine.
From S2P Require Import Addr.
From S2P Require Import TcpConn.
From stdpp Require Import base list gmap strings.
From Stdlib Require Import ZArith Lia Ascii.
Open Scope Z_scope.

Section ops.
Context {K : Type} `{!Kernel K} `{!UserCode K} {net : Net}.
Abbreviation W := (World K).

(** ** socket.go *)

Definition newSocket : M W Z :=
  r ← sys k_socket;
  match r with inl fd => mret fd | inr _ => panic "socket" end.

Definition socket_bind (fd : Z) (network addr : bytes) : M W (Sockaddr + GoError) :=
  match GetTCPSockAddr network addr with
  | inr err => mret (inr err)
  | inl (sa, _, _) =>
    err ← sys (k_bind fd sa);
    match (err : option Errno) with Some _ => panic "bind" | None => mret (inl sa) end
  end.

Definition socket_accept (fd : Z) : M W ((Z * option NetAddr) + GoError) :=
  r ← sys (k_accept fd);
  match r with
  | inr e =>
    if bool_decide (e ∈ [EINTR; EAGAIN; ECONNABORTED]) then mret (inr (Sys e))
    else mret (inr ErrAcceptSocket)
  | inl (fd, sa) =>
    remoteAddr ← lift (SockaddrToTCPOrUnixAddr sa);
    mret (inl (fd, remoteAddr))
  end.

Definition socket_close (fd : Z) : M W (option Errno) := sys (k_close fd).

Definition socket_listen (fd : Z) : M W unit :=
  err ← sys (k_listen fd);
  match (err : option Errno) with Some _ => panic "listen" | None => mret tt end.

Definition setReuseAddr (fd : Z) (f : bool) : M W (option Errno) :=
  sys (k_set_reuseaddr fd (if f then 1 else 0)).

(** ** acceptor.go *)

Definition newAcceptor (el : nat) (addr : bytes) (cb : option AcceptCb) : M W nat :=
  so ← newSocket;
  ch ← NewChannel el so;
  a ← alloc w_accs;
  set_acc a {| a_el := el; a_so := so; a_ch := ch; a_cb := cb; a_localAddr := None;
               listening := false |} ;;
  _ ← setReuseAddr so true;
  '(network, addr) ← lift (parseProtoAddr addr);
  r ← socket_bind so network addr;
  local ← lift (match r with inl sa => SockaddrToTCPAddr sa | inr _ => Ok None end);
  upd_acc a (fun ac => ac <| a_localAddr := local |>) ;;
  setReadCallback ch (CbAcceptor a) ;;
  mret a.

Definition acc_listen (a : nat) : M W unit :=
  upd_acc a (fun ac => ac <| listening := true |>) ;;
  ac ← load w_accs a;
  socket_listen (a_so ac) ;;
  enableReading (a_ch ac).

Definition acc_handleRead (accept_cb : AcceptCb -> Z -> option NetAddr -> M W unit) (a : nat) :
    M W unit :=
  ac ← load w_accs a;
  r ← socket_accept (a_so ac);
  match r with
  | inr _ => _ ← socket_close (a_so ac); mret tt
  | inl (fd, addr) =>
    match a_cb ac with Some cb => accept_cb cb fd addr | None => mret tt end
  end.

(** ** tcp_server.go *)

(** [a.localAddr.String()]: a [*net.TCPAddr], which prints when it is nil. *)
Definition local_String (a : option NetAddr) : bytes :=
  match a with Some a => addr_String a | None => B "<nil>" end.

Definition NewTcpServer (el : nat) (name addr : bytes) (cnt : Z) : M W nat :=
  ac ← newAcceptor el addr None;
  s ← alloc w_svrs;
  acc ← load w_accs ac;
  set_svr s {| s_el := el; s_name := name; s_addr := local_String (a_localAddr acc); s_ac := ac;
               s_group := NewEventloopEngineGroup cnt el; s_onConn := None; s_onMsg := None;
               s_onWriteComplete := None; s_started := false; s_nextConnId := 1;
               connMap := ∅; s_tcpNoDelay := 1; s_keepAlive := 1 |} ;;
  upd_acc ac (fun a => a <| a_cb := Some (AcServer s) |>) ;;
  mret s.

Definition SetEngineCnt (s : nat) (cnt : Z) : M W unit :=
  upd_svr s (fun sv => sv <| s_group ::= fun g => g <| engineCnt := cnt |> |>).
Definition svr_SetTcpNoDelay (s : nat) (b : bool) : M W unit :=
  upd_svr s (fun sv => sv <| s_tcpNoDelay := if b then 1 else 0 |>).
Definition svr_SetOnConn (s : nat) (cb : nat) : M W unit :=
  upd_svr s (fun sv => sv <| s_onConn := Some cb |>).
Definition svr_SetOnMsg (s : nat) (cb : nat) : M W unit :=
  upd_svr s (fun sv => sv <| s_onMsg := Some cb |>).
Definition svr_SetOnWriteComplete (s : nat) (cb : nat) : M W unit :=
  upd_svr s (fun sv => sv <| s_onWriteComplete := Some cb |>).

Definition svr_Start (s : nat) : M W unit :=
  sv ← load w_svrs s;
  (if negb (s_started sv) then
     set_svr s (sv <| s_started := true |>) ;;
     g ← group_Start (s_group sv);
     upd_svr s (fun sv => sv <| s_group := g |>)
   else mret tt) ;;
  ac ← load w_accs (s_ac sv);
  if negb (listening ac) then AsyncExecute (s_el sv) (TaskListen (s_ac sv)) else mret tt.

(** The name of connection number [id]. *)
Definition conn_name (sv : TcpServer) (id : Z) : bytes :=
  s_name sv ++ B "[" ++ s_addr sv ++ B "]" ++ B "-conn-" ++ Itoa (i64 id).

Definition svr_newConn (s : nat) (fd : Z) (addr : option NetAddr) : M W unit :=
  sv ← load w_svrs s;
  let connName := conn_name sv (s_nextConnId sv) in
  set_svr s (sv <| s_nextConnId := u64 (s_nextConnId sv + 1) |>) ;;
  need_addr addr ;;
  ac ← load w_accs (s_ac sv);
  let localAddr := a_localAddr ac in
  '(el, g) ← lift (GetNextLoop (s_group sv));
  upd_svr s (fun sv => sv <| s_group := g |>) ;;
  conn ← NewTcpConn el connName fd localAddr addr;
  (if s_tcpNoDelay sv =? 1 then _ ← SetTcpNoDelay conn true; mret tt else mret tt) ;;
  upd_svr s (fun sv => sv <| connMap ::= <[connName := conn]> |>) ;;
  SetOnConn conn (s_onConn sv) ;;
  SetOnMsg conn (s_onMsg sv) ;;
  SetOnWriteComplete conn (s_onWriteComplete sv) ;;
  setOnClose conn (CcServerRemove s) ;;
  AsyncExecute el (TaskConnectEstablished conn).

Definition svr_removeConn (s conn : nat) : M W unit :=
  sv ← load w_svrs s; AsyncExecute (s_el sv) (TaskRemoveConnInLoop s conn).

Definition removeConnInLoop (s conn : nat) : M W unit :=
  c ← load w_conns conn;
  upd_svr s (fun sv => sv <| connMap ::= delete (c_name c) |>) ;;
  AsyncExecute (c_el c) (TaskDestroyAndClose conn).

(** The closure of [removeConnInLoop]. *)
Definition destroy_and_close (conn : nat) : M W unit :=
  connectDestroyed conn ;;
  c ← load w_conns conn;
  _ ← socket_close (c_so c);
  mret tt.

End ops.

(** ** Names *)

Lemma Itoa_inj n m : 0 <= n -> 0 <= m -> Itoa n = Itoa m -> n = m.
Proof.
  intros Hn Hm. unfold Itoa. rewrite !(proj2 (Z.ltb_ge _ 0)) by lia. by apply decimal_inj.
Qed.

Lemma i64_small z : 0 <= z < 2 ^ 63 -> i64 z = z.
Proof. intros Hz. unfold i64. rewrite Z.mod_small by lia. lia. Qed.

Lemma conn_name_inj {net : Net} sv id1 id2 :
  0 <= id1 < 2 ^ 63 -> 0 <= id2 < 2 ^ 63 -> conn_name sv id1 = conn_name sv id2 -> id1 = id2.
Proof.
  intros H1 H2 Heq. unfold conn_name in Heq. do 5 apply app_inv_head in Heq.
  rewrite !i64_small in Heq by done. by apply Itoa_inj in Heq; [|lia|lia].
Qed.

Section server.
Context {K : Type} `{!Kernel K} `{!UserCode K} {net : Net}.
Abbreviation W := (World K).

(** The keys of [connMap] are names handed out before, of the connections they map to. *)
Record server_ok (s : nat) (sv : TcpServer) (w : W) : Prop := {
  sk_svr : w_svrs w !! s = Some sv;
  sk_next : 1 <= s_nextConnId sv < 2 ^ 63;
  sk_map name c : connMap sv !! name = Some c ->
    exists id conn, 0 < id < s_nextConnId sv /\ name = conn_name sv id /\
      w_conns w !! c = Some conn /\ c_name conn = name;
}.

Lemma server_name_free s sv w :
  server_ok s sv w -> connMap sv !! conn_name sv (s_nextConnId sv) = None.
Proof.
  intros [_ Hn Hm]. destruct (connMap sv !! _) as [c|] eqn:E; [|done].
  destruct (Hm _ _ E) as (id & conn & Hid & Heq & _).
  apply conn_name_inj in Heq; lia.
Qed.

Lemma upd_svr_ok w s sv (f : TcpServer -> TcpServer) :
  w_svrs w !! s = Some sv -> upd_svr s f w = Ok (tt, w <| w_svrs ::= <[s := f sv]> |> : W).
Proof. intros H. wred. by rewrite H. Qed.
Lemma upd_conn_ok w c conn (f : TcpConn -> TcpConn) :
  w_conns w !! c = Some conn -> upd_conn c f w = Ok (tt, w <| w_conns ::= <[c := f conn]> |> : W).
Proof. intros H. wred. by rewrite H. Qed.

(** A connection as [NewTcpConn] makes it. *)
Definition new_conn (el : nat) (name : bytes) (fd : Z) (ch : nat) (local peer : option NetAddr) :
    TcpConn :=
  mkTcpConn el name fd ch local peer Connecting None None None None NewBuffer NewBuffer None.

Lemma NewTcpConn_ok el name fd local peer (w : W) :
  exists c x, w_conns w !! c = None /\ w_chs w !! x = None /\
    NewTcpConn el name fd local (Some peer) w =
      Ok (c, w <| w_chs ::= <[x := (blank_channel el fd) <| readCallback := Some (CbConnRead c) |>]> |>
               <| w_conns ::= <[c := new_conn el name fd x local (Some peer)]> |>).
Proof.
  destruct (NewChannel_ok el fd w) as (x & Hx & Hch).
  exists (fresh (dom (w_conns w))), x. split; [apply not_elem_of_dom, is_fresh|]. split; [done|].
  unfold NewTcpConn. eapply bind_Ok_M; [exact Hch|]. eapply bind_Ok_M; [reflexivity|].
  eapply bind_Ok_M; [reflexivity|]. eapply bind_Ok_M; [reflexivity|].
  eapply bind_Ok_M; [apply upd_ch_ok, lookup_insert_eq|].
  simpl. by rewrite insert_insert_eq.
Qed.

(** C14: accepting a connection: it gets a name no other connection of the
    server has, is entered in [connMap] under it, belongs to the loop whose
    turn it is, starts in state [Connecting] with the server's callbacks, and
    its establishment is queued on its own loop; the other connections, and
    the invariant of [connMap], stay. *)
Theorem newConn_functional (s : nat) (sv : TcpServer) (w : W) (fd : Z) (peer : NetAddr)
    (ac : acceptor) (el : nat) (g : EventloopEngineGroup) (e : Eventloop)
    (Hok : server_ok s sv w) (Hmax : s_nextConnId sv + 1 < 2 ^ 63)
    (Hac : w_accs w !! s_ac sv = Some ac)
    (Hg : GetNextLoop (s_group sv) = Ok (el, g)) (He : w_els w !! el = Some e) :
  let name := conn_name sv (s_nextConnId sv) in
  exists c x w', svr_newConn s fd (Some peer) w = Ok (tt, w') /\
    connMap sv !! name = None /\ w_conns w !! c = None /\ w_chs w !! x = None /\
    server_ok s (sv <| s_nextConnId := s_nextConnId sv + 1 |> <| s_group := g |>
                    <| connMap ::= <[name := c]> |>) w' /\
    w_conns w' = <[c := (new_conn el name fd x (a_localAddr ac) (Some peer))
                          <| onConn := s_onConn sv |> <| onMsg := s_onMsg sv |>
                          <| onWriteComplete := s_onWriteComplete sv |>
                          <| onClose := Some (CcServerRemove s) |>]> (w_conns w) /\
    w_els w' = <[el := e <| pendingTasks := pendingTasks e ++ [TaskConnectEstablished c] |>]> (w_els w).
Proof.
  intros name. pose proof (server_name_free s sv w Hok) as Hfree. destruct Hok as [Hs Hn Hm].
  assert (Hu : u64 (s_nextConnId sv + 1) = s_nextConnId sv + 1)
    by (unfold u64; rewrite Z.mod_small by lia; done).
  set (sv1 := sv <| s_nextConnId := u64 (s_nextConnId sv + 1) |> <| s_group := g |>).
  set (w1 := w <| w_svrs ::= <[s := sv1]> |>).
  destruct (NewTcpConn_ok el name fd (a_localAddr ac) peer w1) as (c & x & Hc & Hx & Hnew).
  set (w2 := w1 <| w_chs ::= _ |> <| w_conns ::= _ |>) in Hnew.
  assert (Hnd : exists k, (if s_tcpNoDelay sv =? 1 then _ ← SetTcpNoDelay c true; mret tt
      else mret tt) w2 = Ok (tt, w2 <| w_k := k |>)).
  { destruct (s_tcpNoDelay sv =? 1); [|exists (w_k w2); by destruct w2].
    eexists. eapply bind_Ok_M; [|reflexivity]. unfold SetTcpNoDelay.
    eapply bind_Ok_M; [unfold load; simpl; rewrite lookup_insert_eq; reflexivity|]. apply sys_ok. }
  destruct Hnd as (k & Hnd). eexists c, x, _. split.
  { unfold svr_newConn. eapply bind_Ok_M; [unfold load; by rewrite Hs|].
    eapply bind_Ok_M; [reflexivity|]. eapply bind_Ok_M; [reflexivity|].
    eapply bind_Ok_M; [unfold load; simpl; by rewrite Hac|].
    eapply bind_Ok_M; [unfold lift; by rewrite Hg|].
    eapply bind_Ok_M; [apply upd_svr_ok, lookup_insert_eq|]. eapply bind_Ok_M.
    { simpl. rewrite insert_insert_eq. exact Hnew. }
    eapply bind_Ok_M; [exact Hnd|].
    eapply bind_Ok_M; [apply upd_svr_ok, lookup_insert_eq|].
    do 4 (eapply bind_Ok_M; [apply upd_conn_ok, lookup_insert_eq|]).
    by apply AsyncExecute_ok. }
  simpl. rewrite !insert_insert_eq. do 3 (split; [done|]).
  split; [|split; [reflexivity|reflexivity]].
  split; simpl; [rewrite lookup_insert_eq, Hu; reflexivity|lia|].
  intros nm d. rewrite lookup_insert. case_decide as Hd.
  - intros [= <-]. subst nm. eexists (s_nextConnId sv), _. split; [lia|]. split; [done|].
    split; [apply lookup_insert_eq|done].
  - intros Hl. destruct (Hm nm d Hl) as (id & conn & Hid & Heq & Hcd & Hcn).
    exists id, conn. split; [lia|]. split; [done|]. split; [|done].
    rewrite lookup_insert_ne; [done|]. intros ->. simpl in Hc. congruence.
Qed.

End server.

Section teardown.
Context {K : Type} `{!Kernel K} `{!UserCode K} {net : Net} `{!EpollLaws K}.
Abbreviation W := (World K).

(** [disableAll] on the channel of a connection that has been registered. *)
Lemma conn_disableAll c conn ch p (w : W) :
  conn_ok c conn ch p w -> ch_index ch <> channelNew ->
  exists ch' p' w', disableAll (c_ch conn) w = Ok (tt, w') /\ conn_ok c conn ch' p' w' /\
    ch_index ch' <> channelNew /\ events ch' = eventNone.
Proof.
  intros [Hc Hch Hfd Hel Hp Hfree Hwf] Hidx.
  destruct (set_events_ok (c_el conn) p w (c_ch conn) ch (fun _ => eventNone) Hp Hch Hel Hfree)
    as (p' & w' & Hrun & Hp' & Hf & Hep & Hch' & Hm').
  assert (Hni : next_index ch eventNone <> channelNew).
  { unfold next_index. repeat case_match; discriminate. }
  exists (ch <| events := eventNone |> <| ch_index := next_index ch eventNone |>), p', w'.
  split; [exact Hrun|]. split; [|split; [exact Hni|done]].
  split; [|exact Hch'|exact Hfd|exact Hel|exact Hp'|done|exact Hwf].
  by rewrite (cf_conns _ _ _ _ Hf).
Qed.

(** C15: the end of a connection of the server: for an open or half-closed
    connection the queued closure moves it to [Disconnected] and takes all
    events from its channel, which gives the world [wa]; there it calls the
    connection callback, once, which gives [wb]; from [wb] it unregisters the
    channel, which gives [w1], where the descriptor is neither in [channelMap]
    nor watched by epoll; and only then it closes the descriptor. No assertion
    fails. The callback may do anything that leaves the connection and its
    channel in place. *)
Theorem destroy_and_close_functional (c u : nat) (conn : TcpConn) (ch : Channel) (p : Poller) (w : W)
    (Hok : conn_ok c conn ch p w) (Hidx : ch_index ch <> channelNew)
    (Hst : c_state conn = Connected \/ c_state conn = Disconnecting)
    (Hcb : onConn conn = Some u)
    (Hu : forall cn ch0 p0 (w0 : W), conn_ok c cn ch0 p0 w0 -> c_state cn = Disconnected ->
       exists w1, u_conn u c w0 = Ok (tt, w1) /\ conn_ok c cn ch0 p0 w1) :
  exists ch1 wa wb w1 p1,
    disableAll (c_ch conn) (w <| w_conns ::= <[c := conn <| c_state := Disconnected |>]> |>) =
      Ok (tt, wa) /\
    w_conns wa !! c = Some (conn <| c_state := Disconnected |>) /\
    w_chs wa !! c_ch conn = Some ch1 /\ events ch1 = eventNone /\
    u_conn u c wa = Ok (tt, wb) /\
    el_removeChannel (c_el conn) (c_ch conn) wb = Ok (tt, w1) /\
    destroy_and_close c w = Ok (tt, w1 <| w_k := snd (k_close (c_so conn) (w_k w1)) |>) /\
    w_conns w1 !! c = Some (conn <| c_state := Disconnected |>) /\
    poller_ok (c_el conn) p1 w1 /\ channelMap p1 !! c_so conn = None /\
    interest (w_k w1) (epollFd p1) !! c_so conn = None.
Proof.
  set (cn := conn <| c_state := Disconnected |>).
  set (w0 := w <| w_conns ::= <[c := cn]> |>).
  assert (Hok0 : conn_ok c cn ch p w0).
  { destruct Hok as [Hc Hch Hfd Hel Hp Hfree Hwf]. split; try done; [apply lookup_insert_eq|].
    eapply poller_ok_ext; [exact Hp|exact (ok_poller _ _ _ Hp)|done|done]. }
  destruct (conn_disableAll c cn ch p w0 Hok0 Hidx) as (ch1 & p1 & w1 & Hdis & Hok1 & Hidx1 & Hev1).
  destruct (Hu cn ch1 p1 w1 Hok1 eq_refl) as (w2 & Hcall & Hok2).
  pose proof Hok2 as [Hc2 Hch2 Hfd2 Hel2 Hp2 _ _].
  destruct (removeChannel_ok (c_el cn) p1 w2 (c_ch cn) ch1 Hp2 Hch2 Hel2 Hidx1)
    as (p3 & w3 & Hrem & Hp3 & Hf3 & Hep3 & Hm3 & Hch3).
  assert (Hc3 : w_conns w3 !! c = Some cn) by by rewrite (cf_conns _ _ _ _ Hf3).
  assert (Hfree : channelMap p3 !! c_so conn = None).
  { rewrite Hm3, Hfd2. apply lookup_delete_eq. }
  exists ch1, w1, w2, w3, p3. split; [exact Hdis|].
  split; [exact (ck_conn _ _ _ _ _ Hok1)|]. split; [exact (ck_ch _ _ _ _ _ Hok1)|].
  do 3 (split; [done|]). split; [|split; [done|split; [done|split; [done|]]]].
  - unfold destroy_and_close. eapply bind_Ok_M.
    { unfold connectDestroyed. eapply bind_Ok_M; [unfold load; by rewrite (ck_conn _ _ _ _ _ Hok)|].
      eapply bind_Ok_M; [by apply AssertM_Ok; destruct Hst as [-> | ->]|].
      eapply bind_Ok_M; [reflexivity|]. eapply bind_Ok_M; [exact Hdis|].
      eapply bind_Ok_M; [rewrite Hcb; exact Hcall|].
      eapply bind_Ok_M; [unfold load; by rewrite Hc2|exact Hrem]. }
    eapply bind_Ok_M; [unfold load; by rewrite Hc3|]. by eapply bind_Ok_M; [apply sys_ok|].
  - by eapply ok_interest_free.
Qed.

(** C16: closing a connection goes through the server's loop: [removeConn] only
    queues work there; that work takes exactly this name out of [connMap] and
    queues the destruction on the connection's own loop. *)
Theorem removeConn_functional (s c : nat) (sv : TcpServer) (conn : TcpConn) (e1 e2 : Eventloop) (w : W)
    (Hok : server_ok s sv w) (Hc : w_conns w !! c = Some conn)
    (He1 : w_els w !! s_el sv = Some e1) (He2 : w_els w !! c_el conn = Some e2) :
  svr_removeConn s c w =
    Ok (tt, w <| w_els ::= <[s_el sv := e1 <| pendingTasks := pendingTasks e1 ++
                                               [TaskRemoveConnInLoop s c] |>]> |>
              <| w_k ::= k_write8 (evtFd e1) |>) /\
  exists w', removeConnInLoop s c w = Ok (tt, w') /\
    server_ok s (sv <| connMap ::= delete (c_name conn) |>) w' /\
    w_els w' = <[c_el conn := e2 <| pendingTasks := pendingTasks e2 ++
                                      [TaskDestroyAndClose c] |>]> (w_els w) /\
    w_conns w' = w_conns w.
Proof.
  destruct Hok as [Hs Hn Hm]. split.
  - unfold svr_removeConn. eapply bind_Ok_M; [unfold load; by rewrite Hs|].
    by apply AsyncExecute_ok.
  - eexists. split.
    + unfold removeConnInLoop. eapply bind_Ok_M; [unfold load; by rewrite Hc|].
      eapply bind_Ok_M; [by apply upd_svr_ok|]. by apply AsyncExecute_ok.
    + split; [|done]. split; simpl; [apply lookup_insert_eq|done|].
      intros nm d Hl. apply lookup_delete_Some in Hl as [_ Hl].
      destruct (Hm nm d Hl) as (id & cn & Hid & Heq & Hd & Hnm). by exists id, cn.
Qed.

(** C28: the acceptor hands every accepted descriptor, with the peer's address,
    to its callback; but it closes the listening socket on every error of
    accept(2), the transient ones (EAGAIN, EINTR, ECONNABORTED) included. *)
Theorem acceptor_functional (accept_cb : AcceptCb -> Z -> option NetAddr -> M W unit)
    (a : nat) (ac : acceptor) (w : W) (Ha : w_accs w !! a = Some ac) :
  (forall e k1, k_accept (a_so ac) (w_k w) = (inr e, k1) ->
     acc_handleRead accept_cb a w = Ok (tt, w <| w_k := snd (k_close (a_so ac) k1) |>)) /\
  (forall fd sa k1 addr cb, k_accept (a_so ac) (w_k w) = (inl (fd, sa), k1) ->
     SockaddrToTCPOrUnixAddr sa = Ok addr -> a_cb ac = Some cb ->
     acc_handleRead accept_cb a w = accept_cb cb fd addr (w <| w_k := k1 |>)).
Proof.
  split.
  - intros e k1 Hk. unfold acc_handleRead. eapply bind_Ok_M; [unfold load; by rewrite Ha|].
    eapply bind_Ok_M.
    { unfold socket_accept. eapply bind_Ok_M; [rewrite sys_ok, Hk; reflexivity|]. simpl.
      instantiate (1 := w <| w_k := k1 |>).
      instantiate (1 := inr (if bool_decide (e ∈ [EINTR; EAGAIN; ECONNABORTED]) then Sys e
                             else ErrAcceptSocket)).
      by case_bool_decide. }
    cbn beta iota. by eapply bind_Ok_M; [apply sys_ok|].
  - intros fd sa k1 addr cb Hk Haddr Hcb. unfold acc_handleRead.
    eapply bind_Ok_M; [unfold load; by rewrite Ha|]. eapply bind_Ok_M.
    { unfold socket_accept. eapply bind_Ok_M; [rewrite sys_ok, Hk; reflexivity|]. simpl.
      eapply bind_Ok_M; [unfold lift; rewrite Haddr; reflexivity|reflexivity]. }
    cbn beta iota. by rewrite Hcb.
Qed.
End teardown.

(** ** Examples *)

Definition demo_server : TcpServer :=
  mkTcpServer 0 (B "echo") (B "127.0.0.1:80") 0 (mkGroup 0 [] [] 0 true 0) (Some 1%nat) None None
    true 2 {[ B "echo[127.0.0.1:80]-conn-1" := 0%nat ]} 1 1.
Definition demo_acceptor : acceptor := mkAcceptor 0 8 5 (Some (AcServer 0)) None true.
Definition demo_sconn : TcpConn :=
  (demo_conn demo_outbound) <| c_name := B "echo[127.0.0.1:80]-conn-1" |> <| onConn := Some 1%nat |>.
Definition demo_sworld : World Sim :=
  demo_wworld <| w_conns := {[ 0%nat := demo_sconn ]} |>
    <| w_svrs := {[ 0%nat := demo_server ]} |> <| w_accs := {[ 0%nat := demo_acceptor ]} |>.
Definition demo_sloop : Eventloop := demo_loop <| poller := Some demo_wpoller |>.

Lemma demo_server_ok : server_ok 0 demo_server demo_sworld.
Proof.
  split; [done|vm_compute; split; congruence|].
  intros name c Hl. unfold demo_server in Hl. simpl in Hl. apply lookup_singleton_Some in Hl as [<- <-]. exists 1, demo_sconn.
  split; [split; reflexivity|]. split; [vm_compute; reflexivity|]. split; reflexivity.
Qed.

Lemma demo_sconn_ok : conn_ok 0 demo_sconn demo_writing demo_wpoller demo_sworld.
Proof.
  destruct demo_writing_ok as [_ _ _ _ Hp _ Hwf]. split; try done.
  eapply poller_ok_ext; [exact Hp|done|done|done].
Qed.

Lemma newConn_functional_witness :
  let name := B "echo[127.0.0.1:80]-conn-2" in
  exists c x w', svr_newConn 0 12 (Some (UnixAddr (B "peer2") (B "unix"))) demo_sworld = Ok (tt, w') /\
    connMap demo_server !! name = None /\ w_conns demo_sworld !! c = None /\
    w_chs demo_sworld !! x = None /\
    server_ok 0 (demo_server <| s_nextConnId := 3 |> <| s_group := mkGroup 0 [] [] 0 true 0 |>
                    <| connMap ::= <[name := c]> |>) w' /\
    w_conns w' = <[c := (new_conn 0 name 12 x None (Some (UnixAddr (B "peer2") (B "unix"))))
                          <| onConn := Some 1%nat |> <| onMsg := None |>
                          <| onWriteComplete := None |>
                          <| onClose := Some (CcServerRemove 0) |>]> (w_conns demo_sworld) /\
    w_els w' = <[0%nat := demo_sloop <| pendingTasks := [TaskConnectEstablished c] |>]>
                 (w_els demo_sworld).
Proof.
  apply (newConn_functional 0 demo_server demo_sworld 12 (UnixAddr (B "peer2") (B "unix"))
           demo_acceptor 0 (mkGroup 0 [] [] 0 true 0) demo_sloop demo_server_ok).
  - vm_compute. reflexivity.
  - reflexivity.
  - reflexivity.
  - reflexivity.
Defined.

Lemma destroy_and_close_functional_witness :
  exists ch1 wa wb w1 p1,
    disableAll (c_ch demo_sconn)
      (demo_sworld <| w_conns ::= <[0%nat := demo_sconn <| c_state := Disconnected |>]> |>) =
      Ok (tt, wa) /\
    w_conns wa !! 0%nat = Some (demo_sconn <| c_state := Disconnected |>) /\
    w_chs wa !! c_ch demo_sconn = Some ch1 /\ events ch1 = eventNone /\
    u_conn 1 0 wa = Ok (tt, wb) /\
    el_removeChannel 0 (c_ch demo_sconn) wb = Ok (tt, w1) /\
    destroy_and_close 0 demo_sworld = Ok (tt, w1 <| w_k := snd (k_close 9 (w_k w1)) |>) /\
    w_conns w1 !! 0%nat = Some (demo_sconn <| c_state := Disconnected |>) /\
    poller_ok 0 p1 w1 /\ channelMap p1 !! 9 = None /\
    interest (w_k w1) (epollFd p1) !! 9 = None.
Proof.
  apply (destroy_and_close_functional 0 1 demo_sconn demo_writing demo_wpoller demo_sworld
           demo_sconn_ok).
  - discriminate.
  - by left.
  - reflexivity.
  - intros cn ch0 p0 w0 Hok _. by exists w0.
Defined.

Lemma removeConn_functional_witness :
  svr_removeConn 0 0 demo_sworld =
    Ok (tt, demo_sworld <| w_els ::= <[0%nat := demo_sloop <| pendingTasks :=
                                         [TaskRemoveConnInLoop 0 0] |>]> |>
              <| w_k ::= k_write8 5 |>) /\
  exists w', removeConnInLoop 0 0 demo_sworld = Ok (tt, w') /\
    server_ok 0 (demo_server <| connMap ::= delete (B "echo[127.0.0.1:80]-conn-1") |>) w' /\
    w_els w' = <[0%nat := demo_sloop <| pendingTasks := [TaskDestroyAndClose 0] |>]>
                 (w_els demo_sworld) /\
    w_conns w' = w_conns demo_sworld.
Proof.
  apply (removeConn_functional 0 0 demo_server demo_sconn demo_sloop demo_sloop demo_sworld
           demo_server_ok); reflexivity.
Defined.

(** The peer was gone before it was accepted: the server stops listening. *)
Definition demo_aborted : World Sim :=
  demo_sworld <| w_k := sim0 <| sim_accept := [inr ECONNABORTED] |> |>.
Lemma acceptor_functional_witness :
  acc_handleRead (fun _ _ _ => mret tt) 0 demo_aborted =
    Ok (tt, demo_aborted <| w_k := sim0 <| sim_closed := [8] |> |>).
Proof.
  rewrite (proj1 (acceptor_functional (fun _ _ _ => mret tt) 0 demo_acceptor demo_aborted eq_refl)
             ECONNABORTED sim0); [reflexivity|].
  vm_compute. reflexivity.
Defined.
