(* ===== verification/Client.v ===== *)
(** * connector.go, tcp_client.go

    The connector makes a non-blocking connect(2), watches the descriptor
    until it is writable and hands it on, or retries with a delay that
    doubles up to a bound; the client turns the descriptor into a connection.
    [retryDelay] is in nanoseconds; the source computes its minimum in
    [float64], which is exact for the values that occur (below 2^53). *)

From S2P Require Import Prelude.
From S2P Require Import GoLib.
From S2P Require Import Buffer.
From S2P Require Import World.
From S2P Require Import Sim.
From S2P Require Import Poller.
From S2P Require Import GoHeap.
From S2P Require Import Timer.
From S2P Require Import Eventloop.
From S2P Require Import Frame.
From S2P Require Import Addr.
From S2P Require Import TcpConn.
From stdpp Require Import base list gmap strings.
From Stdlib Require Import ZArith Lia Ascii.
Open Scope Z_scope.

Definition Millisecond : Z := 1000000.
Definition Second : Z := 1000 * Millisecond.
Definition initRetryDelay : Z := 500 * Millisecond.
Definition maxRetryDelay : Z := 30 * Second.

(** [time.Duration(math.Min(float64(c.retryDelay*2), float64(30*time.Second)))] *)
Definition next_delay (d : Z) : Z := Z.min (i64 (d * 2)) maxRetryDelay.

(** What [connect0] does with the error of connect(2). *)
Inductive Verdict : Type := VConnecting | VRetry | VGiveUp.
Definition classify (err : option Errno) : Verdict :=
  match err with
  | None => VConnecting
  | Some (EINPROGRESS | EINTR | EISCONN) => VConnecting
  | Some (EAGAIN | EADDRINUSE | EADDRNOTAVAIL | ECONNREFUSED | ENETUNREACH) => VRetry
  | Some _ => VGiveUp
  end.

Section ops.
Context {K : Type} `{!Kernel K} `{!UserCode K} {net : Net}.
Abbreviation W := (World K).

(** ** connector.go *)

Definition NewConnector (el : nat) (addr : bytes) (cb : option ConnectCb) : M W (nat + GoError) :=
  '(network, a) ← lift (parseProtoAddr addr);
  match GetTCPSockAddr network a with
  | inr err => mret (inr err)
  | inl (sa, _, _) =>
    c ← alloc w_ctors;
    set_ctor c {| k_el := el; svrAddr := addr; unixSvrAddr := sa; k_connect := false;
                  k_state := connectorDisconnected; k_ch := None; k_cb := cb;
                  retryDelay := initRetryDelay; k_tt := None |} ;;
    mret (inl c)
  end.

Definition ctor_Start (c : nat) : M W unit :=
  upd_ctor c (fun k => k <| k_connect := true |>) ;;
  k ← load w_ctors c;
  AsyncExecute (k_el k) (TaskConnectorStart c).

Definition ctor_Stop (c : nat) : M W unit :=
  upd_ctor c (fun k => k <| k_connect := false |>) ;;
  k ← load w_ctors c;
  match k_tt k with Some t => Timer.Cancel t | None => mret tt end.

Definition connecting (c : nat) (fd : Z) : M W unit :=
  upd_ctor c (fun k => k <| k_state := connectorConnecting |>) ;;
  k ← load w_ctors c;
  ch ← NewChannel (k_el k) fd;
  upd_ctor c (fun k => k <| k_ch := Some ch |>) ;;
  setWriteCallback ch (CbConnectorWrite c) ;;
  setErrorCallback ch (CbConnectorError c) ;;
  enableWriting ch.

Definition retry (c : nat) (fd : Z) : M W unit :=
  _ ← sys (k_close fd);
  upd_ctor c (fun k => k <| k_state := connectorDisconnected |>) ;;
  k ← load w_ctors c;
  if k_connect k then
    tt' ← AsyncScheduleDelay (k_el k) (TcConnectorStart c) (retryDelay k);
    upd_ctor c (fun k => k <| k_tt := Some tt' |> <| retryDelay := next_delay (retryDelay k) |>)
  else mret tt.

Definition connect0 (c : nat) : M W unit :=
  r ← sys k_socket;
  match r with
  | inr _ => panic "socket"
  | inl fd =>
    k ← load w_ctors c;
    err ← sys (k_connect_to fd (unixSvrAddr k));
    match classify err with
    | VConnecting => connecting c fd
    | VRetry => retry c fd
    | VGiveUp => _ ← sys (k_close fd); mret tt
    end
  end.

Definition ctor_start (c : nat) : M W unit :=
  k ← load w_ctors c;
  if k_connect k then connect0 c else mret tt.

Definition Restart (c : nat) : M W unit :=
  upd_ctor c (fun k => k <| k_connect := true |> <| k_state := connectorDisconnected |>
                         <| retryDelay := initRetryDelay |>) ;;
  ctor_start c.

Definition removeAndResetChannel (c : nat) : M W Z :=
  k ← load w_ctors c;
  match k_ch k with
  | None => panic nil_deref
  | Some ch =>
    disableAll ch ;;
    el_removeChannel (k_el k) ch ;;
    chn ← load w_chs ch;
    AsyncExecute (k_el k) (TaskConnectorClearCh c) ;;
    mret (ch_fd chn)
  end.

(** The closure of [removeAndResetChannel]. *)
Definition clear_ch (c : nat) : M W unit := upd_ctor c (fun k => k <| k_ch := None |>).

Definition ctor_handleWrite (connect_cb : ConnectCb -> Z -> M W unit) (c : nat) : M W unit :=
  k ← load w_ctors c;
  if bool_decide (k_state k = connectorConnecting) then
    fd ← removeAndResetChannel c;
    '(_, err) ← sys (k_so_error fd);
    match (err : option Errno) with
    | Some _ => retry c fd
    | None =>
      upd_ctor c (fun k => k <| k_state := connectorConnected |>) ;;
      k ← load w_ctors c;
      if k_connect k then
        match k_cb k with Some cb => connect_cb cb fd | None => panic nil_deref end
      else _ ← sys (k_close fd); mret tt
    end
  else mret tt.

Definition ctor_handleError (c : nat) : M W unit :=
  k ← load w_ctors c;
  if bool_decide (k_state k = connectorConnecting) then
    fd ← removeAndResetChannel c; retry c fd
  else mret tt.

(** ** tcp_client.go *)

Definition NewTcpClient (el : nat) (addr : bytes) : M W (nat + GoError) :=
  r ← NewConnector el addr None;
  match r with
  | inr err => mret (inr err)
  | inl k =>
    cli ← alloc w_clis;
    set_cli cli {| cl_el := el; cl_connector := k; cl_onConn := None; cl_onMsg := None;
                   cl_onWriteComplete := None; cl_retry := false; cl_connect := true;
                   cl_nextConnId := 1; cl_conn := None |} ;;
    upd_ctor k (fun c => c <| k_cb := Some (KcClient cli) |>) ;;
    mret (inl cli)
  end.

Definition GetConn (cli : nat) : M W (option nat) := c ← load w_clis cli; mret (cl_conn c).
Definition SetRetry (cli : nat) (b : bool) : M W unit :=
  upd_cli cli (fun c => c <| cl_retry := b |>).
Definition cli_SetOnConn (cli cb : nat) : M W unit :=
  upd_cli cli (fun c => c <| cl_onConn := Some cb |>).
Definition cli_SetOnMsg (cli cb : nat) : M W unit :=
  upd_cli cli (fun c => c <| cl_onMsg := Some cb |>).

Definition cli_Connect (cli : nat) : M W unit :=
  upd_cli cli (fun c => c <| cl_connect := true |>) ;;
  c ← load w_clis cli; ctor_Start (cl_connector c).

Definition Disconnect (cli : nat) : M W unit :=
  upd_cli cli (fun c => c <| cl_connect := false |>) ;;
  c ← load w_clis cli;
  match cl_conn c with Some conn => ShutdownWrite conn | None => mret tt end.

Definition cli_Stop (cli : nat) : M W unit :=
  upd_cli cli (fun c => c <| cl_connect := false |>) ;;
  c ← load w_clis cli; ctor_Stop (cl_connector c).

Definition cli_Destroy (cli : nat) : M W unit :=
  upd_cli cli (fun c => c <| cl_connect := false |>) ;;
  c ← load w_clis cli;
  ctor_Stop (cl_connector c) ;;
  match cl_conn c with
  | Some conn => AsyncExecute (cl_el c) (TaskClientSetOnClose cli conn)
  | None =>
    ctor_Stop (cl_connector c) ;;
    _ ← AsyncScheduleDelay (cl_el c) TcNothing Second;
    mret tt
  end.

(** The closure set by [Destroy], and what the callback it installs does. *)
Definition client_set_on_close (cli conn : nat) : M W unit := setOnClose conn (CcClientDestroy cli).
Definition client_destroy_close (cli conn : nat) : M W unit :=
  c ← load w_clis cli; AsyncExecute (cl_el c) (TaskConnectDestroyed conn).

Definition fd_GetLocalAddr (fd : Z) : M W (option NetAddr + GoError) :=
  r ← sys (k_getsockname fd);
  match r with
  | inr e => mret (inr (Sys e))
  | inl sa => a ← lift (SockaddrToTCPOrUnixAddr sa); mret (inl a)
  end.

Definition addr_Str (a : option NetAddr) : M W bytes :=
  match a with Some a => mret (addr_String a) | None => panic nil_deref end.

Definition cli_newConn (cli : nat) (fd : Z) : M W unit :=
  c ← load w_clis cli;
  k ← load w_ctors (cl_connector c);
  peer ← lift (SockaddrToTCPOrUnixAddr (unixSvrAddr k));
  r ← fd_GetLocalAddr fd;
  match r with
  | inr _ => mret tt
  | inl local =>
    ls ← addr_Str local;
    ps ← addr_Str peer;
    let name := ls ++ B "-" ++ ps ++ B "#" ++ decimal (cl_nextConnId c) in
    upd_cli cli (fun c => c <| cl_nextConnId := u64 (cl_nextConnId c + 1) |>) ;;
    conn ← NewTcpConn (cl_el c) name fd local peer;
    _ ← SetTcpNoDelay conn true;
    SetOnConn conn (cl_onConn c) ;;
    SetOnMsg conn (cl_onMsg c) ;;
    SetOnWriteComplete conn (cl_onWriteComplete c) ;;
    setOnClose conn (CcClientRemove cli) ;;
    upd_cli cli (fun c => c <| cl_conn := Some conn |>) ;;
    connectEstablished conn
  end.

Definition cli_removeConn (cli conn : nat) : M W unit :=
  upd_cli cli (fun c => c <| cl_conn := None |>) ;;
  c ← load w_clis cli;
  AsyncExecute (cl_el c) (TaskConnectDestroyed conn) ;;
  if cl_retry c && cl_connect c then Restart (cl_connector c) else mret tt.

End ops.

(** ** Properties *)

Lemma next_delay_small d : 0 <= d <= maxRetryDelay -> next_delay d = Z.min (d * 2) maxRetryDelay.
Proof.
  unfold next_delay, i64, maxRetryDelay, Second, Millisecond. intros Hd.
  rewrite Z.mod_small by lia. f_equal. lia.
Qed.

(** C31: the delay before the attempt after [k] failures is half a second
    doubled [k] times, but at most thirty seconds: it never overflows and
    stays between these bounds however long the server is away. *)
Theorem retry_backoff (k : nat) :
  Nat.iter k next_delay initRetryDelay = Z.min (initRetryDelay * 2 ^ Z.of_nat k) maxRetryDelay.
Proof.
  induction k as [|k IH]; [reflexivity|].
  assert (Hp : 0 < 2 ^ Z.of_nat k) by (apply Z.pow_pos_nonneg; lia).
  change (next_delay (Nat.iter k next_delay initRetryDelay) = Z.min (initRetryDelay * 2 ^ Z.of_nat (S k)) maxRetryDelay).
  rewrite IH.
  replace (2 ^ Z.of_nat (S k)) with (2 * 2 ^ Z.of_nat k).
  2:{ rewrite Nat2Z.inj_succ, Z.pow_succ_r by lia. done. }
  unfold initRetryDelay, maxRetryDelay, Second, Millisecond in *.
  rewrite next_delay_small; unfold maxRetryDelay, Second, Millisecond; lia.
Qed.

Section connector.
Context {K : Type} `{!Kernel K} `{!UserCode K} {net : Net} `{!EpollLaws K}.
Abbreviation W := (World K).

Lemma upd_ctor_ok w c k (f : Connector -> Connector) :
  w_ctors w !! c = Some k -> upd_ctor c f w = Ok (tt, w <| w_ctors ::= <[c := f k]> |> : W).
Proof. intros H. wred. by rewrite H. Qed.
Lemma load_ctor_ok w c k : w_ctors w !! c = Some k -> load w_ctors c w = Ok (k, w : W).
Proof. intros H. wred. by rewrite H. Qed.
Lemma set_ctors_twice (w : W) c k1 k2 :
  w <| w_ctors ::= <[c := k1]> |> <| w_ctors ::= <[c := k2]> |> = w <| w_ctors ::= <[c := k2]> |>.
Proof. simpl. by rewrite insert_insert_eq. Qed.

(** The invariant of the poller does not look at the connectors. *)
Lemma poller_ok_ctors el p (w : W) m : poller_ok el p w -> poller_ok el p (w <| w_ctors := m |>).
Proof. intros Hp. eapply poller_ok_ext; [exact Hp|exact (ok_poller _ _ _ Hp)|done|done]. Qed.

(** The channel that watches a connection attempt. *)
Definition attempt_channel (el c : nat) (fd : Z) : Channel :=
  (blank_channel el fd) <| writeCallback := Some (CbConnectorWrite c) |>
    <| errorCallback := Some (CbConnectorError c) |>.

Lemma connecting_ok c k p (w : W) fd :
  w_ctors w !! c = Some k -> poller_ok (k_el k) p w -> channelMap p !! fd = None ->
  exists ch p' w', connecting c fd w = Ok (tt, w') /\ poller_ok (k_el k) p' w' /\
    w_ctors w' = <[c := k <| k_state := connectorConnecting |> <| k_ch := Some ch |>]> (w_ctors w) /\
    w_chs w' !! ch = Some ((attempt_channel (k_el k) c fd) <| events := eventWrite |>
                             <| ch_index := channelAdd |>) /\
    interest (w_k w') (epollFd p') !! fd = Some (eventWrite, ch).
Proof.
  intros Hc Hp Hfree. set (k1 := k <| k_state := connectorConnecting |>).
  set (w1 := w <| w_ctors ::= <[c := k1]> |>).
  destruct (NewChannel_ok (k_el k) fd w1) as (x & Hx & Hnew).
  set (k2 := k1 <| k_ch := Some x |>). set (att := attempt_channel (k_el k) c fd).
  set (w2 := w <| w_ctors ::= <[c := k2]> |> <| w_chs ::= <[x := att]> |>).
  assert (Hp2 : poller_ok (k_el k) p w2).
  { apply poller_ok_new_channel; [by apply poller_ok_ctors|done|done]. }
  destruct (set_events_ok (k_el k) p w2 x att (fun ev => Z.lor ev eventWrite) Hp2)
    as (p' & w' & Hrun & Hp' & Hf & Hep & Hx' & Hm'); [apply lookup_insert_eq|done|done|].
  exists x, p', w'. split; [|split; [done|split; [by rewrite (cf_ctors _ _ _ _ Hf)|split; [exact Hx'|]]]].
  - unfold connecting. eapply bind_Ok_M; [by apply upd_ctor_ok|].
    eapply bind_Ok_M; [apply load_ctor_ok, lookup_insert_eq|]. eapply bind_Ok_M; [exact Hnew|].
    eapply bind_Ok_M; [apply upd_ctor_ok, lookup_insert_eq|].
    do 2 (eapply bind_Ok_M; [apply upd_ch_ok, lookup_insert_eq|]).
    simpl. rewrite !insert_insert_eq. exact Hrun.
  - rewrite (ok_reg _ _ _ Hp'). unfold expected. rewrite Hm', lookup_insert_eq. simpl.
    by rewrite Hx'.
Qed.

(** C29: once a socket was made, a connection attempt ends in one of three
    ways, decided by the answer of connect(2): on success, EINPROGRESS, EINTR
    and EISCONN the new descriptor is watched for writability and the state is
    [connectorConnecting]; on EAGAIN, EADDRINUSE, EADDRNOTAVAIL, ECONNREFUSED
    and ENETUNREACH the attempt is retried; on every other error the descriptor
    is closed and nothing else happens. *)
Theorem connect0_functional (c : nat) (k : Connector) (p : Poller) (w : W) (fd : Z) (k1 k2 : K)
    (err : option Errno)
    (Hc : w_ctors w !! c = Some k) (Hp : poller_ok (k_el k) p w)
    (Hso : k_socket (w_k w) = (inl fd, k1)) (Hfree : channelMap p !! fd = None)
    (Hcon : k_connect_to fd (unixSvrAddr k) k1 = (err, k2))
    (Hint : forall ep, interest k2 ep = interest (w_k w) ep) :
  let goes_on := [None; Some EINPROGRESS; Some EINTR; Some EISCONN] in
  let again := [Some EAGAIN; Some EADDRINUSE; Some EADDRNOTAVAIL; Some ECONNREFUSED;
                Some ENETUNREACH] in
  (err ∈ goes_on -> exists ch p' w', connect0 c w = Ok (tt, w') /\ poller_ok (k_el k) p' w' /\
      w_ctors w' = <[c := k <| k_state := connectorConnecting |> <| k_ch := Some ch |>]> (w_ctors w) /\
      w_chs w' !! ch = Some ((attempt_channel (k_el k) c fd) <| events := eventWrite |>
                               <| ch_index := channelAdd |>) /\
      interest (w_k w') (epollFd p') !! fd = Some (eventWrite, ch)) /\
  (err ∈ again -> connect0 c w = retry c fd (w <| w_k := k2 |>)) /\
  ((err ∉ goes_on) -> (err ∉ again) ->
   connect0 c w = Ok (tt, w <| w_k := snd (k_close fd k2) |>)).
Proof.
  intros goes_on again.
  set (w2 := w <| w_k := k2 |>).
  assert (Hpre : connect0 c w = match classify err with
    | VConnecting => connecting c fd | VRetry => retry c fd
    | VGiveUp => _ ← sys (k_close fd); mret tt end w2).
  { unfold connect0. eapply bind_Ok_M; [rewrite sys_ok, Hso; reflexivity|]. cbn beta iota.
    eapply bind_Ok_M; [by apply load_ctor_ok|].
    by eapply bind_Ok_M; [rewrite sys_ok; simpl; rewrite Hcon; reflexivity|]. }
  rewrite Hpre. split; [|split].
  - intros Hin. assert (classify err = VConnecting) as ->.
    { by repeat (apply elem_of_cons in Hin as [-> |Hin]; [done|]); apply elem_of_nil in Hin. }
    apply (connecting_ok c k p w2 fd); [done| |done].
    eapply poller_ok_ext; [exact Hp|exact (ok_poller _ _ _ Hp)|done|apply Hint].
  - intros Hin. assert (classify err = VRetry) as ->; [|done].
    by repeat (apply elem_of_cons in Hin as [-> |Hin]; [done|]); apply elem_of_nil in Hin.
  - intros Hn1 Hn2. assert (classify err = VGiveUp) as ->; [|by eapply bind_Ok_M; [apply sys_ok|]].
    destruct err as [[]|]; try done; exfalso;
      first [by apply Hn1; repeat constructor|by apply Hn2; repeat constructor].
Qed.

(** C30: a failed attempt: the descriptor is closed and the connector is
    disconnected; when the user still wants the connection, a timer that
    starts the next attempt after the current delay is handed to the loop and
    the delay grows, otherwise nothing is scheduled. *)
Theorem retry_functional (c : nat) (k : Connector) (e : Eventloop) (w : W) (fd now : Z) (k1 : K)
    (Hc : w_ctors w !! c = Some k) (He : w_els w !! k_el k = Some e)
    (Hnow : k_now (snd (k_close fd (w_k w))) = (now, k1)) :
  if k_connect k then
    exists t w', retry c fd w = Ok (tt, w') /\ w_tts w !! t = None /\
      w_tts w' = <[t := new_task (k_el k) (TcConnectorStart c) (now + retryDelay k) 0]> (w_tts w) /\
      w_els w' = <[k_el k := e <| pendingTasks := pendingTasks e ++ [TaskAddTask0 (k_el k) t] |>]>
                   (w_els w) /\
      w_ctors w' = <[c := k <| k_state := connectorDisconnected |> <| k_tt := Some t |>
                            <| retryDelay := next_delay (retryDelay k) |>]> (w_ctors w)
  else retry c fd w =
    Ok (tt, w <| w_k := snd (k_close fd (w_k w)) |>
              <| w_ctors ::= <[c := k <| k_state := connectorDisconnected |>]> |>).
Proof.
  set (kd := k <| k_state := connectorDisconnected |>).
  set (w1 := w <| w_k := snd (k_close fd (w_k w)) |> <| w_ctors ::= <[c := kd]> |>).
  assert (Hpre : retry c fd w = (if k_connect k then
      t ← AsyncScheduleDelay (k_el k) (TcConnectorStart c) (retryDelay k);
      upd_ctor c (fun k => k <| k_tt := Some t |> <| retryDelay := next_delay (retryDelay k) |>)
    else mret tt) w1).
  { unfold retry. eapply bind_Ok_M; [apply sys_ok|]. eapply bind_Ok_M; [by apply upd_ctor_ok|].
    eapply bind_Ok_M; [apply load_ctor_ok, lookup_insert_eq|]. reflexivity. }
  rewrite Hpre. destruct (k_connect k); [|done].
  destruct (newTimerTask_ok (k_el k) (TcConnectorStart c) (now + retryDelay k) 0
              (w1 <| w_k := k1 |>)) as (t & Ht & Hnew).
  eexists t, _. split.
  { eapply bind_Ok_M.
    - unfold AsyncScheduleDelay. eapply bind_Ok_M; [rewrite sys_ok; simpl; rewrite Hnow; reflexivity|].
      eapply bind_Ok_M; [exact Hnew|]. eapply bind_Ok_M; [by apply (AsyncExecute_ok _ e)|reflexivity].
    - apply upd_ctor_ok, lookup_insert_eq. }
  split; [exact Ht|]. split; [done|]. split; [done|]. simpl. by rewrite insert_insert_eq.
Qed.

Lemma removeAndResetChannel_ok c k p (w : W) x ch :
  w_ctors w !! c = Some k -> k_ch k = Some x -> w_chs w !! x = Some ch -> ch_el ch = k_el k ->
  ch_index ch <> channelNew -> poller_ok (k_el k) p w ->
  (forall fd kk ep, interest (k_write8 fd kk) ep = interest kk ep) ->
  exists p' w', removeAndResetChannel c w = Ok (ch_fd ch, w') /\ poller_ok (k_el k) p' w' /\
    channelMap p' !! ch_fd ch = None /\ interest (w_k w') (epollFd p') !! ch_fd ch = None /\
    w_ctors w' = w_ctors w /\
    exists e', w_els w' !! k_el k = Some e' /\ TaskConnectorClearCh c ∈ pendingTasks e'.
Proof.
  intros Hc Hx Hch Hel Hidx Hp Hw8.
  destruct (set_events_ok (k_el k) p w x ch (fun _ => eventNone) Hp Hch Hel)
    as (p1 & w1 & Hdis & Hp1 & Hf1 & _ & Hch1 & _); [done|].
  assert (Hni : next_index ch eventNone <> channelNew).
  { unfold next_index. repeat case_match; discriminate. }
  destruct (removeChannel_ok (k_el k) p1 w1 x _ Hp1 Hch1 Hel Hni)
    as (p2 & w2 & Hrem & Hp2 & Hf2 & _ & Hm2 & Hch2).
  pose proof (ok_poller _ _ _ Hp2) as Hpo. apply poller_of_inv in Hpo as (e & He & Hpe).
  pose proof (AsyncExecute_ok _ e w2 (TaskConnectorClearCh c) He) as Has.
  set (w3 := _ <| w_k ::= _ |>) in Has.
  assert (Hfree : channelMap p2 !! ch_fd ch = None) by (rewrite Hm2; apply lookup_delete_eq).
  assert (Hp3 : poller_ok (k_el k) p2 w3).
  { eapply poller_ok_ext; [exact Hp2| |done|apply Hw8].
    unfold poller_of. simpl. by rewrite lookup_insert_eq. }
  exists p2, w3. split; [|split; [exact Hp3|split; [done|split; [|split]]]].
  - unfold removeAndResetChannel. eapply bind_Ok_M; [by apply load_ctor_ok|]. rewrite Hx.
    eapply bind_Ok_M; [exact Hdis|]. eapply bind_Ok_M; [exact Hrem|].
    eapply bind_Ok_M; [by apply load_ch_ok|]. by eapply bind_Ok_M; [exact Has|].
  - by eapply ok_interest_free.
  - simpl. by rewrite (cf_ctors _ _ _ _ Hf2), (cf_ctors _ _ _ _ Hf1).
  - eexists. split; [apply lookup_insert_eq|]. simpl. apply elem_of_app. right.
    by apply list_elem_of_singleton.
Qed.

(** C32: the descriptor of an attempt becomes writable. While connecting, its
    channel is taken out of the poller and getsockopt(2) is asked for SO_ERROR.
    If the call itself fails, the attempt is retried; if it succeeds, whatever
    value it gives, the state becomes [connectorConnected] and the descriptor is
    handed on, or closed when the connection is no longer wanted. In any other
    state nothing happens. *)
Theorem ctor_handleWrite_functional (connect_cb : ConnectCb -> Z -> M W unit) (c x : nat)
    (k : Connector) (ch : Channel) (p : Poller) (w : W) (cb : ConnectCb)
    (Hc : w_ctors w !! c = Some k) (Hcb : k_cb k = Some cb)
    (Hx : k_ch k = Some x) (Hch : w_chs w !! x = Some ch) (Hel : ch_el ch = k_el k)
    (Hidx : ch_index ch <> channelNew) (Hp : poller_ok (k_el k) p w)
    (Hw8 : forall fd kk ep, interest (k_write8 fd kk) ep = interest kk ep) :
  if decide (k_state k = connectorConnecting) then
    exists p1 w1, removeAndResetChannel c w = Ok (ch_fd ch, w1) /\
      poller_ok (k_el k) p1 w1 /\ channelMap p1 !! ch_fd ch = None /\
      interest (w_k w1) (epollFd p1) !! ch_fd ch = None /\ w_ctors w1 = w_ctors w /\
      forall v err k1, k_so_error (ch_fd ch) (w_k w1) = ((v, err), k1) ->
        ctor_handleWrite connect_cb c w =
          match err with
          | Some _ => retry c (ch_fd ch) (w1 <| w_k := k1 |>)
          | None =>
            let w2 := w1 <| w_k := k1 |>
                         <| w_ctors := <[c := k <| k_state := connectorConnected |>]> (w_ctors w) |> in
            if k_connect k then connect_cb cb (ch_fd ch) w2
            else Ok (tt, w2 <| w_k := snd (k_close (ch_fd ch) k1) |>)
          end
  else ctor_handleWrite connect_cb c w = Ok (tt, w).
Proof.
  unfold ctor_handleWrite. case_decide as Hst.
  2:{ eapply bind_Ok_M; [by apply load_ctor_ok|]. by rewrite bool_decide_eq_false_2. }
  destruct (removeAndResetChannel_ok c k p w x ch Hc Hx Hch Hel Hidx Hp Hw8)
    as (p1 & w1 & Hrem & Hp1 & Hfree & Hnoint & Hctors & _).
  exists p1, w1. do 5 (split; [done|]). intros v err k1 Hv.
  eapply bind_Ok_M; [by apply load_ctor_ok|]. rewrite bool_decide_eq_true_2 by done.
  eapply bind_Ok_M; [exact Hrem|]. eapply bind_Ok_M; [rewrite sys_ok, Hv; reflexivity|].
  destruct err; [done|]. cbn beta iota.
  eapply bind_Ok_M; [apply upd_ctor_ok; simpl; by rewrite Hctors|].
  eapply bind_Ok_M; [apply load_ctor_ok, lookup_insert_eq|]. simpl. rewrite Hcb, Hctors.
  by destruct (k_connect k); [|eapply bind_Ok_M; [apply sys_ok|]].
Qed.
End connector.

(** ** Examples *)

Definition demo_sa : Sockaddr := SockaddrInet4 80 ["127"; "000"; "000"; "001"]%char.
Definition demo_connector : Connector :=
  mkConnector 0 (B "tcp://host4:80") demo_sa true connectorDisconnected None (Some (KcUser 3))
    initRetryDelay None.
Definition demo_kworld : World Sim := demo_world <| w_ctors := {[ 0%nat := demo_connector ]} |>.

(** The server is not there: the attempt is retried. *)
Lemma connect0_functional_witness :
  connect0 0 (demo_kworld <| w_k := sim0 <| sim_connect := [Some ECONNREFUSED] |> |>) =
    retry 0 3 (demo_kworld <| w_k := sim0 <| sim_nextfd := 4 |> |>).
Proof.
  refine (proj1 (proj2 (connect0_functional 0 demo_connector demo_poller
           (demo_kworld <| w_k := sim0 <| sim_connect := [Some ECONNREFUSED] |> |>) 3
           (sim0 <| sim_connect := [Some ECONNREFUSED] |> <| sim_nextfd := 4 |>)
           (sim0 <| sim_nextfd := 4 |>) (Some ECONNREFUSED) _ _ _ _ _ _)) _).
  - reflexivity.
  - apply (poller_ok_ext _ _ demo_kworld); [apply poller_ok_ctors, demo_poller_ok|done|done|done].
  - vm_compute. reflexivity.
  - reflexivity.
  - reflexivity.
  - intros ep. reflexivity.
  - set_solver.
Defined.

Lemma retry_functional_witness :
  exists t w', retry 0 12 demo_kworld = Ok (tt, w') /\ w_tts demo_kworld !! t = None /\
    w_tts w' = <[t := new_task 0 (TcConnectorStart 0) 1500000000 0]> (w_tts demo_kworld) /\
    w_els w' = <[0%nat := demo_loop <| pendingTasks := [TaskAddTask0 0 t] |>]> (w_els demo_kworld) /\
    w_ctors w' = <[0%nat := demo_connector <| k_state := connectorDisconnected |>
                              <| k_tt := Some t |> <| retryDelay := 1000000000 |>]>
                   (w_ctors demo_kworld).
Proof.
  apply (retry_functional 0 demo_connector demo_loop demo_kworld 12 1000000000
           (sim0 <| sim_closed := [12] |>)); reflexivity.
Defined.

(** The attempt on descriptor 9 is writable. *)
Definition demo_attempt : Connector :=
  demo_connector <| k_state := connectorConnecting |> <| k_ch := Some 7%nat |>.
Definition demo_aworld : World Sim := demo_wworld <| w_ctors := {[ 0%nat := demo_attempt ]} |>.

Lemma ctor_handleWrite_functional_witness :
  exists p1 w1, removeAndResetChannel 0 demo_aworld = Ok (9, w1) /\
    poller_ok 0 p1 w1 /\ channelMap p1 !! 9 = None /\
    interest (w_k w1) (epollFd p1) !! 9 = None /\ w_ctors w1 = w_ctors demo_aworld /\
    forall v err k1, k_so_error 9 (w_k w1) = ((v, err), k1) ->
      ctor_handleWrite (fun _ _ => mret tt) 0 demo_aworld =
        match err with
        | Some _ => retry 0 9 (w1 <| w_k := k1 |>)
        | None => Ok (tt, w1 <| w_k := k1 |>
            <| w_ctors := <[0%nat := demo_attempt <| k_state := connectorConnected |>]>
                            (w_ctors demo_aworld) |>)
        end.
Proof.
  refine (ctor_handleWrite_functional (fun _ _ => mret tt) 0 7 demo_attempt demo_writing
    demo_wpoller demo_aworld (KcUser 3) eq_refl eq_refl eq_refl eq_refl eq_refl _ _ _).
  - discriminate.
  - apply poller_ok_ctors. exact (ck_poller _ _ _ _ _ demo_writing_ok).
  - reflexivity.
Defined.
