(* ===== verification/Reactor.v ===== *)
(** * The reactor: every closure of the package and what it does

    The constructors of [Callback], [Task], [TimeoutCb], [CloseCb], [AcceptCb]
    and [ConnectCb] are the method values and closures that the package stores
    and calls later; here each is given its meaning, which closes the loop of
    [Eventloop] over all components. *)

From S2P Require Import Prelude.
From S2P Require Import GoLib.
From S2P Require Import Buffer.
From S2P Require Import World.
From S2P Require Import Sim.
From S2P Require Import Poller.
From S2P Require Import GoHeap.
From S2P Require Import Timer.
From S2P Require Import Eventloop.
From S2P Require Import Frame.
From S2P Require Import Engine.
From S2P Require Import Addr.
From S2P Require Import TcpConn.
From S2P Require Import Server.
From S2P Require Import Client.
From stdpp Require Import base list gmap strings.
From Stdlib Require Import ZArith Lia.
Open Scope Z_scope.

Section reactor.
Context {K : Type} `{!Kernel K} `{!UserCode K} {net : Net}.
Abbreviation W := (World K).

Definition close_cb (cb : CloseCb) (conn : nat) : M W unit :=
  match cb with
  | CcServerRemove s => svr_removeConn s conn
  | CcClientRemove cli => cli_removeConn cli conn
  | CcClientDestroy cli => client_destroy_close cli conn
  end.

Definition accept_cb (cb : AcceptCb) (fd : Z) (addr : option NetAddr) : M W unit :=
  match cb with
  | AcServer s => svr_newConn s fd addr
  | AcUser u => u_accept u fd addr
  end.

Definition connect_cb (cb : ConnectCb) (fd : Z) : M W unit :=
  match cb with
  | KcClient cli => cli_newConn cli fd
  | KcUser u => u_connected u fd
  end.

Definition timeout_cb (cb : TimeoutCb) : M W unit :=
  match cb with
  | TcConnectorStart c => ctor_start c
  | TcNothing => mret tt
  | TcUser u => u_task u
  end.

(** The callback of a channel. *)
Definition dispatch (cb : Callback) (ts : Z) : M W unit :=
  match cb with
  | CbTimerQueue el => timer_handleRead timeout_cb el ts
  | CbWakeup el => el_handleRead el
  | CbConnRead conn => conn_handleRead close_cb conn ts
  | CbAcceptor a => acc_handleRead accept_cb a
  | CbConnectorWrite c => ctor_handleWrite connect_cb c
  | CbConnectorError c => ctor_handleError c
  | CbUser u => u_event u
  end.

Definition write_complete (conn : nat) : M W unit :=
  c ← load w_conns conn;
  match onWriteComplete c with Some u => u_conn u conn | None => panic nil_deref end.

(** A task of a loop. *)
Definition exec (t : Task) : M W unit :=
  match t with
  | TaskUser u => u_task u
  | TaskCancel t => cancel_closure t
  | TaskAddTask0 el t => addTask0 el t
  | TaskWriteComplete conn => write_complete conn
  | TaskAsyncWrite conn p cb => async_write conn p cb
  | TaskShutdownWrite conn => shutdownWrite conn
  | TaskConnectEstablished conn => connectEstablished conn
  | TaskRemoveConnInLoop s conn => removeConnInLoop s conn
  | TaskDestroyAndClose conn => destroy_and_close conn
  | TaskConnectDestroyed conn => connectDestroyed conn
  | TaskListen a => acc_listen a
  | TaskConnectorStart c => ctor_start c
  | TaskConnectorClearCh c => clear_ch c
  | TaskClientSetOnClose cli conn => client_set_on_close cli conn
  end.

(** [el.Loop()] of the whole program, [n] iterations at most. *)
Definition run_loop (n el : nat) : M W bool := Loop dispatch exec n el.

(** ** What the whole program does to connections *)

Section frame.
Context (R : W -> W -> Prop) `{!ConnFrame R}.

Lemma steps_upd_acc p f : steps R (upd_acc p f : M W unit).
Proof.
  apply steps_bind; [typeclasses eauto|stp|]. intros v w x w' [= _ <-].
  apply (cfr_accs w (<[p := f v]> (w_accs w))).
Qed.
Lemma steps_set_svr p v : steps R (set_svr p v : M W unit).
Proof. intros w x w' [= _ <-]. apply (cfr_svrs w (<[p := v]> (w_svrs w))). Qed.
Hint Resolve steps_set_svr : steps.
Lemma steps_upd_svr p f : steps R (upd_svr p f : M W unit).
Proof. unfold upd_svr. stp. Qed.
Lemma steps_upd_ctor p f : steps R (upd_ctor p f : M W unit).
Proof.
  apply steps_bind; [typeclasses eauto|stp|]. intros v w x w' [= _ <-].
  apply (cfr_ctors w (<[p := f v]> (w_ctors w))).
Qed.
Lemma steps_upd_cli p f : steps R (upd_cli p f : M W unit).
Proof.
  apply steps_bind; [typeclasses eauto|stp|]. intros v w x w' [= _ <-].
  apply (cfr_clis w (<[p := f v]> (w_clis w))).
Qed.
Hint Resolve steps_upd_acc steps_upd_svr steps_upd_ctor steps_upd_cli : steps.

(** The connector installs a write callback, on a channel it has just made. *)
Lemma steps_connecting c fd : steps R (connecting c fd : M W unit).
Proof.
  unfold connecting. do 2 (apply steps_bind; [typeclasses eauto|stp|]; intros). intros w x w'.
  destruct (NewChannel_ok (k_el a0) fd w) as (y & Hy & Hch).
  unfold mbind at 1, M_bind at 1. rewrite Hch. unfold mbind at 1, M_bind at 1, upd_ctor, load.
  unfold mbind at 1, M_bind at 1. simpl. destruct (w_ctors w !! c) as [k|]; [|done].
  unfold set_ctor, modify, mbind at 1, M_bind at 1, setWriteCallback.
  rewrite (upd_ch_ok _ y (blank_channel (k_el a0) fd)) by apply lookup_insert_eq.
  set (ch := (blank_channel (k_el a0) fd) <| writeCallback := _ |>). simpl. rewrite insert_insert_eq.
  intros Hr. transitivity (w <| w_chs ::= <[y := ch]> |>); [by apply (blind_new_ch R w)|].
  set (w1 := w <| w_chs ::= <[y := ch]> |>).
  set (cs := <[c := k <| k_ch := Some y |>]> (w_ctors w)).
  transitivity (w1 <| w_ctors := cs |>); [apply cfr_ctors|].
  assert (Hs : steps R (setErrorCallback y (CbConnectorError c) ;; enableWriting y : M W unit)) by stp.
  exact (Hs _ _ _ Hr).
Qed.

Lemma steps_svr_removeConn s c : steps R (svr_removeConn s c : M W unit).
Proof. unfold svr_removeConn. stp. Qed.
Lemma steps_retry c fd : steps R (retry c fd : M W unit).
Proof. unfold retry. stp. Qed.
Hint Resolve steps_svr_removeConn steps_connecting steps_retry : steps.
Lemma steps_connect0 c : steps R (connect0 c : M W unit).
Proof. unfold connect0. stp. Qed.
Hint Resolve steps_connect0 : steps.
Lemma steps_ctor_start c : steps R (ctor_start c : M W unit).
Proof. unfold ctor_start. stp. Qed.
Hint Resolve steps_ctor_start : steps.
Lemma steps_cli_removeConn cli c : steps R (cli_removeConn cli c : M W unit).
Proof. unfold cli_removeConn, Restart. stp. Qed.
Lemma steps_client_destroy_close cli c : steps R (client_destroy_close cli c : M W unit).
Proof. unfold client_destroy_close. stp. Qed.
Hint Resolve steps_cli_removeConn steps_client_destroy_close : steps.
Lemma steps_close_cb cb c : steps R (close_cb cb c).
Proof. unfold close_cb. stp. Qed.
Hint Resolve steps_close_cb : steps.

Lemma steps_conn_setters c :
  (forall cb, steps R (SetOnConn c cb : M W unit)) /\
  (forall cb, steps R (SetOnMsg c cb : M W unit)) /\
  (forall cb, steps R (SetOnWriteComplete c cb : M W unit)) /\
  (forall cb, steps R (setOnClose c cb : M W unit)).
Proof.
  repeat split; intros cb; apply (steps_upd_conn R); intros conn; split; simpl;
    first [done|split; done|lia].
Qed.
Lemma steps_SetTcpNoDelay c b : steps R (SetTcpNoDelay c b : M W _).
Proof. unfold SetTcpNoDelay. stp. Qed.
Hint Resolve steps_SetTcpNoDelay : steps.

Lemma steps_svr_newConn s fd a : steps R (svr_newConn s fd a : M W unit).
Proof.
  unfold svr_newConn. stp; by apply steps_conn_setters.
Qed.
Lemma steps_removeAndResetChannel c : steps R (removeAndResetChannel c : M W Z).
Proof. unfold removeAndResetChannel. stp. Qed.
Hint Resolve steps_svr_newConn steps_removeAndResetChannel : steps.

Context `{!UserSteps R}.

Lemma steps_accept_cb cb fd a : steps R (accept_cb cb fd a).
Proof. unfold accept_cb. stp. Qed.
Lemma steps_cli_newConn cli fd : steps R (cli_newConn cli fd : M W unit).
Proof. unfold cli_newConn, fd_GetLocalAddr, addr_Str. stp; by apply steps_conn_setters. Qed.
Hint Resolve steps_accept_cb steps_cli_newConn : steps.
Lemma steps_connect_cb cb fd : steps R (connect_cb cb fd).
Proof. unfold connect_cb. stp. Qed.
Lemma steps_timeout_cb cb : steps R (timeout_cb cb).
Proof. unfold timeout_cb. stp. Qed.
Hint Resolve steps_connect_cb steps_timeout_cb : steps.

Lemma steps_dispatch cb ts : steps R (dispatch cb ts).
Proof.
  destruct cb; simpl; unfold acc_handleRead, socket_accept, socket_close, ctor_handleWrite,
    ctor_handleError; stp.
Qed.

Lemma steps_exec t : steps R (exec t).
Proof.
  destruct t; simpl; unfold write_complete, removeConnInLoop, destroy_and_close, socket_close,
    acc_listen, socket_listen, clear_ch, client_set_on_close; stp; by apply steps_conn_setters.
Qed.

Lemma steps_run_loop n el : steps R (run_loop n el).
Proof. apply steps_Loop; [typeclasses eauto..|apply steps_dispatch|apply steps_exec]. Qed.
End frame.

(** C6: however long a loop of the program runs, and whatever events, timers,
    accepted or made connections and queued tasks it handles: a connection
    that exists keeps its name, loop, socket, channel and addresses, and its
    state only moves forward through [Connecting], [Connected],
    [Disconnecting] and [Disconnected], provided the user's callbacks only use
    operations that do so. *)
Theorem connections_only_move_forward `{!UserSteps conn_rel} (n el : nat) (w w' : W) (ended : bool)
    (Hrun : run_loop n el w = Ok (ended, w')) : conn_rel w w'.
Proof.
  by eapply (steps_run_loop conn_rel).
Qed.

(** C40: however long a loop of the program runs, no connection gets a write
    callback, neither the ones there were nor those accepted or made on the
    way; so when the poller reports, in any state the loop gets to, that the
    descriptor of a connection is writable, the handling of that event does
    nothing but clear [evtHandling]: what [Write] left in the outbound buffer
    is not sent, although [Write] asked the poller for the event. *)
Theorem writable_connection_ignored `{!UserSteps mute_rel} (n el : nat) (w w' : W) (ended : bool)
    (Hm : conns_mute w) (Hrun : run_loop n el w = Ok (ended, w')) :
  conns_mute w' /\
  forall c conn el' e ts, w_conns w' !! c = Some conn -> w_els w' !! el' = Some e ->
    exists w1 ch, activate el' (POLLOUT, c_ch conn) w' = Ok (tt, w1) /\
      w_chs w1 !! c_ch conn = Some ch /\ revents ch = POLLOUT /\
      handleEvent dispatch (c_ch conn) ts w1 =
        Ok (tt, w1 <| w_chs ::= <[c_ch conn := ch <| evtHandling := false |>]> |>).
Proof.
  assert (Hm' : conns_mute w') by by apply (steps_run_loop mute_rel n el w ended w' Hrun).
  split; [done|]. intros c conn el' e ts Hc He.
  destruct (writable_ignored w' c el' conn e Hm' Hc He) as (w1 & ch & Ha & Hch & Hr & Hev).
  by exists w1, ch.
Qed.

End reactor.

(** ** Examples *)

#[export] Instance NoUserSteps (R : World Sim -> World Sim -> Prop) `{!PreOrder R} : UserSteps R.
Proof. split; intros; apply steps_ret; typeclasses eauto. Qed.

(** The peer of the connection of [demo_sworld] closes its end. *)
Definition demo_eof : World Sim :=
  demo_sworld
    <| w_conns := {[ 0%nat := demo_sconn <| onClose := Some (CcServerRemove 0) |> ]} |>
    <| w_k ::= fun k => k <| sim_ready := [[(POLLIN, 7%nat)]] |> <| sim_input := [RvOk []] |> |>.
Definition demo_eof_result : res (bool * World Sim) := run_loop 2 0 demo_eof.

(** Two iterations later it is out of the server's table, disconnected, and
    its descriptor is closed. *)
Example demo_eof_ends :
  match demo_eof_result with
  | Ok (ended, w) =>
    ended = false /\ c_state <$> w_conns w !! 0%nat = Some Disconnected /\
    connMap <$> w_svrs w !! 0%nat = Some ∅ /\ sim_closed (w_k w) = [9]
  | Panic _ => False
  end.
Proof. vm_compute. repeat split. Qed.

Lemma connections_only_move_forward_witness :
  match demo_eof_result with Ok (_, w') => conn_rel demo_eof w' | Panic _ => False end.
Proof.
  destruct demo_eof_result as [[ended w']|msg] eqn:E.
  - apply (connections_only_move_forward 2 0 demo_eof w' ended E).
  - vm_compute in E. discriminate.
Defined.

(** The connection has bytes to send and its descriptor is writable. *)
Definition demo_writable : World Sim :=
  demo_sworld
    <| w_conns := {[ 0%nat := demo_sconn <| outbound := demo_outbound |> ]} |>
    <| w_k ::= fun k => k <| sim_ready := [[(POLLOUT, 7%nat)]] |> |>.
Definition demo_writable_result : res (bool * World Sim) := run_loop 1 0 demo_writable.

(** The event was reported and handled, and the bytes are still there. *)
Example demo_writable_unsent :
  match demo_writable_result with
  | Ok (_, w) =>
    revents <$> w_chs w !! 7%nat = Some POLLOUT /\
    outbound <$> w_conns w !! 0%nat = Some demo_outbound /\ sim_sent_on (w_k w) 9 = []
  | Panic _ => False
  end.
Proof. vm_compute. repeat split. Qed.

Lemma writable_connection_ignored_witness :
  match demo_writable_result with
  | Ok (_, w') =>
    is_Some (w_conns w' !! 0%nat) /\ is_Some (w_els w' !! 0%nat) /\ conns_mute w' /\
    forall c conn el' e ts, w_conns w' !! c = Some conn -> w_els w' !! el' = Some e ->
      exists w1 ch, activate el' (POLLOUT, c_ch conn) w' = Ok (tt, w1) /\
        w_chs w1 !! c_ch conn = Some ch /\ revents ch = POLLOUT /\
        handleEvent dispatch (c_ch conn) ts w1 =
          Ok (tt, w1 <| w_chs ::= <[c_ch conn := ch <| evtHandling := false |>]> |>)
  | Panic _ => False
  end.
Proof.
  destruct demo_writable_result as [[ended w']|msg] eqn:E.
  - split; [|split].
    + vm_compute in E. injection E as _ <-. vm_compute. by eexists.
    + vm_compute in E. injection E as _ <-. vm_compute. by eexists.
    + apply (writable_connection_ignored 1 0 demo_writable w' ended); [|exact E].
      intros c conn Hc. unfold demo_writable in Hc. simpl in Hc.
      apply lookup_singleton_Some in Hc as [_ <-]. vm_compute. by eexists.
  - vm_compute in E. discriminate.
Defined.
