(* ===== verification/Memcached.v ===== *)
(** * examples/memcached/server: item.go, memcached_server.go

    Items and the sharded table of a memcached server written with the
    library. The checksum that selects a slot is a parameter ([hash]); the
    theorems hold for any function. The table refines a finite map from
    pairs of a slot and a key to items ([represents_slots]); as long as every
    item is hashed under the key it carries, it refines one map from keys to
    items ([represents]). *)

From S2P Require Import Prelude.
From S2P Require Import GoLib.
From S2P Require Import Buffer.
From S2P Require Import World.
From S2P Require Import Sim.
From S2P Require Import Engine.
From S2P Require Import Addr.
From S2P Require Import TcpConn.
From S2P Require Import Server.
From stdpp Require Import base list gmap strings.
From Stdlib Require Import ZArith Lia Ascii.
Open Scope Z_scope.

(** ** item.go *)

Inductive UpdatePolicy : Type := Invalid | Set_ | Add | Replace | Append_ | Prepend | Cas.
#[export] Instance UpdatePolicy_eq_dec : EqDecision UpdatePolicy.
Proof. solve_decision. Defined.

Record Item : Type := mkItem {
  keylen : Z;
  flags : Z;
  exptime : Z;
  valuelen : Z;
  recvBytes : Z;
  cas : Z;
  it_hash : Z;
  data : bytes;
}.
#[export] Instance eta_Item : Eta Item := fun i =>
  mkItem (keylen i) (flags i) (exptime i) (valuelen i) (recvBytes i) (cas i) (it_hash i) (data i).

Definition NeedBytes (it : Item) : Z := keylen it + valuelen it - recvBytes it.

(** [copy(it.data[it.recvBytes:], data); it.recvBytes += len(data)] *)
Definition Append (p : bytes) (it : Item) : res Item :=
  '(d, _) ← copy_at (data it) (recvBytes it) p;
  Ok (it <| data := d |> <| recvBytes := recvBytes it + zlen p |>).

Definition EndWithCRLF (it : Item) : res bool :=
  a ← index (data it) (recvBytes it - 2);
  if bool_decide (a = "013"%char) then
    b ← index (data it) (recvBytes it - 1); Ok (bool_decide (b = "010"%char))
  else Ok false.

Definition Key (it : Item) : res bytes := slice (data it) 0 (keylen it).
Definition Value (it : Item) : res bytes := slice (data it) (keylen it) (zlen (data it)).

Definition out (p : bytes) (b : Buffer) : res Buffer := '(_, b) ← Buffer.Write p b; Ok b.

Definition Output (it : Item) (needCas : bool) (b : Buffer) : res Buffer :=
  b ← out (B "VALUE ") b;
  k ← slice (data it) 0 (keylen it);
  b ← out k b;
  b ← out (B " ") b;
  b ← out (Itoa (flags it)) b;
  b ← out (B " ") b;
  b ← out (Itoa (valuelen it - 2)) b;
  b ← (if needCas then b ← out (B " ") b; out (Itoa (i64 (cas it))) b else Ok b);
  b ← out CRLF b;
  v ← Value it;
  out v b.

(** ** memcached_server.go *)

Record Options : Type := mkOptions { engineCnt_opt : Z; port_opt : Z }.
Inductive Option_ : Type := WithEngineCnt (n : Z) | WithPort (n : Z).

Definition apply_option (o : Options) (f : Option_) : Options :=
  match f with
  | WithEngineCnt n => mkOptions n (port_opt o)
  | WithPort n => mkOptions (engineCnt_opt o) n
  end.
Definition loadOptions (l : list Option_) : Options := fold_left apply_option l (mkOptions 0 0).

Record Memcached : Type := mkMemcached {
  slots : list (gmap bytes Item);
  slotn : Z;
  g_cas : Z;                       (** [_g_cas], the counter of the process *)
  m_server : nat;
  m_el : nat;
  stime : Z;                       (** nanoseconds since the epoch *)
}.
#[export] Instance eta_Memcached : Eta Memcached := fun m =>
  mkMemcached (slots m) (slotn m) (g_cas m) (m_server m) (m_el m) (stime m).

(** The zero [time.Time], January 1 of year 1. *)
Definition zero_time : Z := -62135596800 * 10 ^ 9.

Section hashed.
Context (hash : bytes -> Z).

Definition NewItem (key : bytes) (fl exp vlen c : Z) : res Item :=
  let kl := zlen key in
  d ← make_bytes (kl + vlen);
  Ok {| keylen := kl; flags := fl; exptime := exp; valuelen := vlen; recvBytes := 0; cas := c;
        it_hash := hash key; data := d |}.

Definition ResetKey (key : bytes) (it : Item) : res Item :=
  it ← Append key (it <| keylen := zlen key |> <| recvBytes := 0 |>);
  Ok (it <| it_hash := hash key |>).

(** [m.slots[h%uint64(m.slotn)]] *)
Definition slot_index (h : Z) (m : Memcached) : nat := Z.to_nat (u64 h mod slotn m).
Definition slot (h : Z) (m : Memcached) : res (gmap bytes Item) := index (slots m) (u64 h mod slotn m).
Definition set_slot (h : Z) (items : gmap bytes Item) (m : Memcached) : Memcached :=
  m <| slots := <[slot_index h m := items]> (slots m) |>.

(** [atomic.AddUint64(&_g_cas, 1)] *)
Definition next_cas (m : Memcached) : Z := u64 (g_cas m + 1).

(** [item.cas = atomic.AddUint64(...); items[keyStr] = item] *)
Definition put_item (h : Z) (items : gmap bytes Item) (key : bytes) (it : Item) (m : Memcached) :
    Memcached :=
  (set_slot h (<[key := it <| cas := next_cas m |>]> items) m) <| g_cas := next_cas m |>.

(** The item that [append] and [prepend] build. *)
Definition join (policy : UpdatePolicy) (key : bytes) (item old : Item) (c : Z) : res Item :=
  let newLen := valuelen item + valuelen old - 2 in
  nw ← NewItem key (flags item) (exptime item) newLen c;
  iv ← Value item;
  ov ← Value old;
  nw ← (if bool_decide (policy = Append_) then
          p ← slice ov 0 (valuelen old - 2);
          nw ← Append p nw; Append iv nw
        else
          p ← slice iv 0 (valuelen item - 2);
          nw ← Append p nw; Append ov nw);
  _ ← Assert (keylen nw + valuelen nw - recvBytes nw =? 0)
        "newItem.keylen+newItem.valuelen-newItem.recvBytes == 0";
  e ← EndWithCRLF nw;
  _ ← Assert e "newItem.EndWithCRLF()";
  Ok nw.

(** [(success, exist)] and the table afterwards. *)
Definition Store (item : Item) (policy : UpdatePolicy) (m : Memcached) :
    res ((bool * bool) * Memcached) :=
  items ← slot (it_hash item) m;
  keyStr ← Key item;
  let old := items !! keyStr in
  let exist := match old with Some _ => true | None => false end in
  let stored := Ok ((true, exist), put_item (it_hash item) items keyStr item m) in
  match policy with
  | Set_ => stored
  | Add => if exist then Ok ((false, true), m) else stored
  | Replace => if exist then stored else Ok ((false, false), m)
  | Append_ | Prepend =>
    match old with
    | None => Ok ((false, false), m)
    | Some oldItem =>
      let c := next_cas m in
      nw ← join policy keyStr item oldItem c;
      Ok ((true, true), (set_slot (it_hash item) (<[keyStr := nw]> items) m) <| g_cas := c |>)
    end
  | Cas =>
    match old with
    | Some oldItem => if cas oldItem =? cas item then stored else Ok ((false, true), m)
    | None => Ok ((false, false), m)
    end
  | Invalid => Panic "invalid policy"
  end.

Definition Get (key : bytes) (m : Memcached) : res (option Item) :=
  items ← slot (hash key) m; Ok (items !! key).

Definition Delete (key : bytes) (m : Memcached) : res (bool * Memcached) :=
  items ← slot (hash key) m;
  match items !! key with
  | Some _ => Ok (true, set_slot (hash key) (delete key items) m)
  | None => Ok (false, m)
  end.

End hashed.

Section server.
Context {K : Type} `{!Kernel K} `{!UserCode K} {net : Net}.

Definition NewMemcached (el : nat) (opts : list Option_) : M (World K) Memcached :=
  let options := loadOptions opts in
  s ← NewTcpServer el (B "memcached") (B "tcp4://:" ++ Itoa (port_opt options))
        (engineCnt_opt options);
  mret {| slots := replicate 1024 ∅; slotn := 1024; g_cas := 0; m_server := s; m_el := el;
          stime := zero_time |}.

Definition startTime (m : Memcached) : Z := stime m.

Definition mc_Start (m : Memcached) : M (World K) Memcached :=
  now ← sys k_now;
  svr_Start (m_server m) ;;
  mret (m <| stime := now |>).

Definition setEngineCnt (m : Memcached) (n : Z) : M (World K) unit := SetEngineCnt (m_server m) n.
End server.

(** ** The table refines a finite map *)

(** The abstract server: one map from keys to items and the counter. *)
Record Spec : Type := mkSpec { sp_map : gmap bytes Item; sp_cas : Z }.

Module Abstract.
Definition put (key : bytes) (it : Item) (s : Spec) : Spec :=
  let c := u64 (sp_cas s + 1) in
  mkSpec (<[key := it <| cas := c |>]> (sp_map s)) c.

(** Which updates take effect. *)
Definition allowed (policy : UpdatePolicy) (item : Item) (old : option Item) : bool :=
  match policy with
  | Set_ => true
  | Add => bool_decide (old = None)
  | Replace => negb (bool_decide (old = None))
  | Cas => match old with Some o => cas o =? cas item | None => false end
  | _ => false
  end.

Definition store (key : bytes) (item : Item) (policy : UpdatePolicy) (s : Spec) :
    (bool * bool) * Spec :=
  let old := sp_map s !! key in
  let ok := allowed policy item old in
  ((ok, negb (bool_decide (old = None))), if ok then put key item s else s).
End Abstract.

(** The operations of the table; [append] and [prepend] are below. *)
Inductive McOp : Type :=
| McStore (key : bytes) (item : Item) (policy : UpdatePolicy)
| McGet (key : bytes)
| McDelete (key : bytes).
Inductive McOut : Type :=
| OutStore (success exist : bool)
| OutGet (item : option Item)
| OutDelete (success : bool).

Definition spec_mop (o : McOp) (s : Spec) : McOut * Spec :=
  match o with
  | McStore key item policy =>
    let '((ok, ex), s) := Abstract.store key item policy s in (OutStore ok ex, s)
  | McGet key => (OutGet (sp_map s !! key), s)
  | McDelete key =>
    (OutDelete (negb (bool_decide (sp_map s !! key = None))), mkSpec (delete key (sp_map s)) (sp_cas s))
  end.
Fixpoint spec_mops (os : list McOp) (s : Spec) : list McOut * Spec :=
  match os with
  | [] => ([], s)
  | o :: os => let '(x, s) := spec_mop o s in let '(xs, s) := spec_mops os s in (x :: xs, s)
  end.

(** The abstract server that keeps the slots apart: an item is stored in the
    slot of the checksum it carries, and looked for in the slot of its key's. *)
Module Sharded.
Record Spec : Type := mkSpec { sl_map : gmap (nat * bytes) Item; sl_cas : Z }.

(** The slot of a checksum among [n]. *)
Definition slot_of (n h : Z) : nat := Z.to_nat (u64 h mod n).

Definition store (at_ : nat * bytes) (item : Item) (policy : UpdatePolicy) (s : Spec) :
    (bool * bool) * Spec :=
  let old := sl_map s !! at_ in
  let c := u64 (sl_cas s + 1) in
  let ok := Abstract.allowed policy item old in
  ((ok, negb (bool_decide (old = None))),
   if ok then mkSpec (<[at_ := item <| cas := c |>]> (sl_map s)) c else s).

Definition op (hash : bytes -> Z) (n : Z) (o : McOp) (s : Spec) : McOut * Spec :=
  match o with
  | McStore key item policy =>
    let '((ok, ex), s) := store (slot_of n (it_hash item), key) item policy s in
    (OutStore ok ex, s)
  | McGet key => (OutGet (sl_map s !! (slot_of n (hash key), key)), s)
  | McDelete key =>
    let at_ := (slot_of n (hash key), key) in
    (OutDelete (negb (bool_decide (sl_map s !! at_ = None))),
     mkSpec (delete at_ (sl_map s)) (sl_cas s))
  end.
Fixpoint ops (hash : bytes -> Z) (n : Z) (os : list McOp) (s : Spec) : list McOut * Spec :=
  match os with
  | [] => ([], s)
  | o :: os => let '(x, s) := op hash n o s in let '(xs, s) := ops hash n os s in (x :: xs, s)
  end.
End Sharded.

Section refinement.
Context (hash : bytes -> Z).

Definition do_mop (o : McOp) (m : Memcached) : res (McOut * Memcached) :=
  match o with
  | McStore _ item policy => '((ok, ex), m) ← Store hash item policy m; Ok (OutStore ok ex, m)
  | McGet key => it ← Get hash key m; Ok (OutGet it, m)
  | McDelete key => '(ok, m) ← Delete hash key m; Ok (OutDelete ok, m)
  end.
Fixpoint do_mops (os : list McOp) (m : Memcached) : res (list McOut * Memcached) :=
  match os with
  | [] => Ok ([], m)
  | o :: os => '(x, m) ← do_mop o m; '(xs, m) ← do_mops os m; Ok (x :: xs, m)
  end.

(** An item that carries the key it is hashed under. *)
Definition mop_ok (o : McOp) : Prop :=
  match o with
  | McStore key item policy =>
    Key item = Ok key /\ it_hash item = hash key /\ policy ∈ [Set_; Add; Replace; Cas]
  | _ => True
  end.

(** The table holds exactly the bindings of the map, each in its slot. *)
Record represents (m : Memcached) (s : Spec) : Prop := {
  rp_slotn : 0 < slotn m;
  rp_len : zlen (slots m) = slotn m;
  rp_get key : slots m !! slot_index (hash key) m ≫= (fun items => items !! key) = sp_map s !! key;
  rp_cas : sp_cas s = g_cas m;
}.

Lemma slot_ok m s key :
  represents m s ->
  exists items, slot (hash key) m = Ok items /\
    slots m !! slot_index (hash key) m = Some items /\ items !! key = sp_map s !! key.
Proof.
  intros [Hn Hl Hg _]. pose proof (Z.mod_pos_bound (u64 (hash key)) (slotn m) Hn) as Hb.
  destruct (lookup_lt_is_Some_2 (slots m) (slot_index (hash key) m)) as [items Hi].
  { unfold slot_index. zl. }
  exists items. split; [|split; [done|]].
  - unfold slot, index. rewrite (proj2 (Z.leb_le 0 _)) by lia. unfold slot_index in Hi. by rewrite Hi.
  - specialize (Hg key). rewrite Hi in Hg. exact Hg.
Qed.

(** Changing the binding of [key] in its slot. *)
Lemma represents_update m s key items items' x c :
  represents m s -> slots m !! slot_index (hash key) m = Some items ->
  items' !! key = x -> (forall k, k <> key -> items' !! k = items !! k) ->
  represents ((set_slot (hash key) items' m) <| g_cas := c |>)
    (mkSpec (partial_alter (fun _ => x) key (sp_map s)) c).
Proof.
  intros [Hn Hl Hg Hc] Hi Hx Hother. split; simpl; [done|by rewrite <- Hl; unfold zlen; rewrite length_insert| |done].
  intros k. change (slot_index (hash k) _) with (slot_index (hash k) m).
  destruct (decide (k = key)) as [->|Hne].
  - rewrite lookup_partial_alter_eq, list_lookup_insert_eq by by eapply lookup_lt_Some. exact Hx.
  - rewrite lookup_partial_alter_ne, <- Hg by done.
    destruct (decide (slot_index (hash k) m = slot_index (hash key) m)) as [E|E].
    + rewrite E, list_lookup_insert_eq, Hi by by eapply lookup_lt_Some. simpl. by apply Hother.
    + by rewrite list_lookup_insert_ne.
Qed.

Lemma put_item_ok m s key items it :
  represents m s -> slots m !! slot_index (hash key) m = Some items ->
  represents (put_item (hash key) items key it m) (Abstract.put key it s).
Proof.
  intros Hr Hi. unfold put_item, Abstract.put. rewrite (rp_cas _ _ Hr). fold (next_cas m).
  apply (represents_update m s key items _ (Some (it <| cas := next_cas m |>)) (next_cas m) Hr Hi).
  - apply lookup_insert_eq.
  - intros k Hk. by rewrite lookup_insert_ne.
Qed.

Lemma do_mop_refines o m s :
  represents m s -> mop_ok o ->
  exists x m', do_mop o m = Ok (x, m') /\ represents m' (spec_mop o s).2 /\ (spec_mop o s).1 = x.
Proof.
  intros Hr Hok. destruct o as [key item policy|key|key]; simpl.
  - destruct Hok as (Hk & Hh & Hp). destruct (slot_ok m s key Hr) as (items & Hs & Hi & Hl).
    unfold Store. rewrite Hh, Hs, Hk. mred. rewrite Hl.
    pose proof (put_item_ok m s key items item Hr Hi) as Hput.
    unfold Abstract.store. destruct (sp_map s !! key) as [old|] eqn:E; simpl.
    + rewrite !elem_of_cons in Hp.
      destruct Hp as [-> |[-> |[-> |[-> |Hp%elem_of_nil]]]]; [..|done]; simpl; eauto 6.
      destruct (cas old =? cas item); eauto 6.
    + rewrite !elem_of_cons in Hp.
      destruct Hp as [-> |[-> |[-> |[-> |Hp%elem_of_nil]]]]; [..|done]; simpl; eauto 6.
  - destruct (slot_ok m s key Hr) as (items & Hs & Hi & Hl).
    unfold Get. rewrite Hs. mred. rewrite Hl. eauto.
  - destruct (slot_ok m s key Hr) as (items & Hs & Hi & Hl).
    unfold Delete. rewrite Hs. mred. rewrite Hl.
    destruct (sp_map s !! key) as [old|] eqn:E; simpl.
    + do 2 eexists. split; [done|]. split; [|done]. rewrite (rp_cas _ _ Hr).
      pose proof (represents_update m s key items (delete key items) None (g_cas m) Hr Hi) as H.
      apply H; [apply lookup_delete_eq|]. intros k Hk. by rewrite lookup_delete_ne.
    + do 2 eexists. split; [done|]. split; [|done]. rewrite delete_id by done. by destruct s.
Qed.

Lemma do_mops_refines os m s :
  represents m s -> Forall mop_ok os ->
  exists xs m', do_mops os m = Ok (xs, m') /\ (spec_mops os s).1 = xs /\
    represents m' (spec_mops os s).2.
Proof.
  intros Hr Hok. revert m s Hr.
  induction Hok as [|o os Ho _ IH]; intros m s Hr; cbn [do_mops spec_mops].
  { by exists [], m. }
  destruct (do_mop_refines o m s Hr Ho) as (x & m1 & -> & Hr1 & Hx).
  destruct (spec_mop o s) as [x' s1]. simpl in *. subst x'.
  destruct (IH m1 s1 Hr1) as (xs & m2 & -> & Hxs & Hr2).
  destruct (spec_mops os s1) as [xs' s2]. simpl in *. subst xs'. by exists (x :: xs), m2.
Qed.

(** *** Any items: the slots apart *)

Definition mop_keyed (o : McOp) : Prop :=
  match o with
  | McStore key item policy => Key item = Ok key /\ policy ∈ [Set_; Add; Replace; Cas]
  | _ => True
  end.

Record represents_slots (m : Memcached) (s : Sharded.Spec) : Prop := {
  rs_slotn : 0 < slotn m;
  rs_len : zlen (slots m) = slotn m;
  rs_get i key : slots m !! i ≫= (fun items => items !! key) = Sharded.sl_map s !! (i, key);
  rs_cas : Sharded.sl_cas s = g_cas m;
}.

Lemma slot_at m s h :
  represents_slots m s ->
  exists items, slot h m = Ok items /\ slots m !! Sharded.slot_of (slotn m) h = Some items /\
    forall key, items !! key = Sharded.sl_map s !! (Sharded.slot_of (slotn m) h, key).
Proof.
  intros [Hn Hl Hg _]. pose proof (Z.mod_pos_bound (u64 h) (slotn m) Hn) as Hb.
  destruct (lookup_lt_is_Some_2 (slots m) (Sharded.slot_of (slotn m) h)) as [items Hi].
  { unfold Sharded.slot_of. zl. }
  exists items. split; [|split; [done|]].
  - unfold slot, index. rewrite (proj2 (Z.leb_le 0 _)) by lia. unfold Sharded.slot_of in Hi.
    by rewrite Hi.
  - intros key. specialize (Hg (Sharded.slot_of (slotn m) h) key). by rewrite Hi in Hg.
Qed.

Lemma slots_update m s h key items items' x c :
  represents_slots m s -> slots m !! Sharded.slot_of (slotn m) h = Some items ->
  items' !! key = x -> (forall k, k <> key -> items' !! k = items !! k) ->
  represents_slots ((set_slot h items' m) <| g_cas := c |>)
    (Sharded.mkSpec
       (partial_alter (fun _ => x) (Sharded.slot_of (slotn m) h, key) (Sharded.sl_map s)) c).
Proof.
  intros [Hn Hl Hg Hc] Hi Hx Hother.
  split; simpl; [done|by rewrite <- Hl; unfold zlen; rewrite length_insert| |done].
  intros i k. fold (Sharded.slot_of (slotn m) h).
  change (slot_index h m) with (Sharded.slot_of (slotn m) h).
  destruct (decide (i = Sharded.slot_of (slotn m) h)) as [->|Hne].
  - rewrite list_lookup_insert_eq by by eapply lookup_lt_Some. simpl.
    destruct (decide (k = key)) as [->|Hk]; [by rewrite lookup_partial_alter_eq|].
    rewrite lookup_partial_alter_ne by congruence. rewrite <- Hg, Hi. simpl. by apply Hother.
  - rewrite list_lookup_insert_ne by done. rewrite lookup_partial_alter_ne by congruence. apply Hg.
Qed.

Lemma do_mop_sharded o m s :
  represents_slots m s -> mop_keyed o ->
  exists x m', do_mop o m = Ok (x, m') /\ slotn m' = slotn m /\
    represents_slots m' (Sharded.op hash (slotn m) o s).2 /\
    (Sharded.op hash (slotn m) o s).1 = x.
Proof.
  intros Hr Hok. destruct o as [key item policy|key|key]; simpl.
  - destruct Hok as (Hk & Hp). destruct (slot_at m s (it_hash item) Hr) as (items & Hs & Hi & Hl).
    unfold Store. rewrite Hs, Hk. mred. rewrite Hl.
    assert (Hput : represents_slots (put_item (it_hash item) items key item m)
      (Sharded.mkSpec (<[(Sharded.slot_of (slotn m) (it_hash item), key) :=
         item <| cas := next_cas m |>]> (Sharded.sl_map s)) (next_cas m))).
    { apply (slots_update m s (it_hash item) key items _ (Some (item <| cas := next_cas m |>))
        (next_cas m) Hr Hi); [apply lookup_insert_eq|]. intros k Hne. by rewrite lookup_insert_ne. }
    unfold Sharded.store. rewrite (rs_cas _ _ Hr). fold (next_cas m).
    rewrite !elem_of_cons, elem_of_nil in Hp.
    destruct (Sharded.sl_map s !! _) as [old|] eqn:E; simpl;
      destruct Hp as [-> |[-> |[-> |[-> |[]]]]]; simpl; eauto 8.
    destruct (cas old =? cas item); eauto 8.
  - destruct (slot_at m s (hash key) Hr) as (items & Hs & Hi & Hl).
    unfold Get. rewrite Hs. mred. rewrite Hl. eauto 8.
  - destruct (slot_at m s (hash key) Hr) as (items & Hs & Hi & Hl).
    unfold Delete. rewrite Hs. mred. rewrite Hl.
    destruct (Sharded.sl_map s !! _) as [old|] eqn:E; simpl;
      (do 2 eexists; split; [done|]; split; [done|]; split; [|done]).
    + rewrite (rs_cas _ _ Hr).
      pose proof (slots_update m s (hash key) key items (delete key items) None (g_cas m) Hr Hi) as H.
      apply H; [apply lookup_delete_eq|]. intros k Hk. by rewrite lookup_delete_ne.
    + rewrite delete_id by done. by destruct s.
Qed.

Lemma do_mops_sharded os m s :
  represents_slots m s -> Forall mop_keyed os ->
  exists xs m', do_mops os m = Ok (xs, m') /\ (Sharded.ops hash (slotn m) os s).1 = xs /\
    represents_slots m' (Sharded.ops hash (slotn m) os s).2.
Proof.
  intros Hr Hok. revert m s Hr.
  induction Hok as [|o os Ho _ IH]; intros m s Hr; cbn [do_mops Sharded.ops].
  { by exists [], m. }
  destruct (do_mop_sharded o m s Hr Ho) as (x & m1 & -> & Hn & Hr1 & Hx).
  destruct (Sharded.op hash (slotn m) o s) as [x' s1]. simpl in *. subst x'.
  destruct (IH m1 s1 Hr1) as (xs & m2 & -> & Hxs & Hr2). rewrite Hn in *.
  destruct (Sharded.ops hash (slotn m) os s1) as [xs' s2]. simpl in *. subst xs'.
  by exists (x :: xs), m2.
Qed.

(** C9: any sequence of set, add, replace, cas, get and delete on the table, for
    any hash function and any items that carry a key, gives the answers of the
    abstract server that stores an item in the slot of the checksum it carries
    and looks for a key in the slot of the key's checksum: no operation
    panics, each policy's condition is the one of the slot, every successful
    update gets the next number of the counter. If moreover every stored item
    is hashed under the key it carries, the slots do not show: the answers are
    those of one map from keys to items. [NewItem] alone does not give that
    (it hashes the key of the command line, while [Key] is the start of the
    data block), so both cases occur. *)
Theorem memcached_refines_map (os : list McOp) (m : Memcached) (s : Sharded.Spec)
    (Hr : represents_slots m s) (Hk : Forall mop_keyed os) :
  exists xs m', do_mops os m = Ok (xs, m') /\ (Sharded.ops hash (slotn m) os s).1 = xs /\
    represents_slots m' (Sharded.ops hash (slotn m) os s).2 /\
    forall s1, represents m s1 -> Forall mop_ok os ->
      (spec_mops os s1).1 = xs /\ represents m' (spec_mops os s1).2.
Proof.
  destruct (do_mops_sharded os m s Hr Hk) as (xs & m' & Hrun & Hxs & Hr').
  exists xs, m'. do 3 (split; [done|]). intros s1 Hr1 Hok.
  destruct (do_mops_refines os m s1 Hr1 Hok) as (xs1 & m1 & Hrun1 & Hxs1 & Hr1').
  rewrite Hrun in Hrun1. by injection Hrun1 as -> ->.
Qed.

(** A complete item: its data is the key and the value. *)
Definition item_full (it : Item) : Prop :=
  0 < keylen it /\ 2 <= valuelen it /\ zlen (data it) = keylen it + valuelen it.

Lemma Append_recv p it it' :
  Append p it = Ok it' ->
  recvBytes it' = recvBytes it + zlen p /\ keylen it' = keylen it /\ valuelen it' = valuelen it.
Proof.
  unfold Append. destruct (copy_at (data it) (recvBytes it) p) as [[d n]|]; [|done].
  by intros [= <-].
Qed.

Lemma join_panics policy key item old c :
  item_full item -> item_full old -> key <> [] -> panics (join hash policy key item old c).
Proof.
  intros (Hk1 & Hv1 & Hd1) (Hk2 & Hv2 & Hd2) Hkey. unfold join, NewItem.
  assert (Hkl : 0 < zlen key) by (destruct key; [done|zl]).
  unfold make_bytes. rewrite (proj2 (Z.ltb_ge _ 0)) by lia.
  assert (Hval : forall it, 0 < keylen it -> 2 <= valuelen it -> zlen (data it) = keylen it + valuelen it ->
    exists v, Value it = Ok v /\ zlen v = valuelen it).
  { intros it H1 H2 H3. unfold Value. rewrite slice_Ok by lia. eexists. split; [done|]. zl. }
  destruct (Hval item Hk1 Hv1 Hd1) as (iv & -> & Hiv).
  destruct (Hval old Hk2 Hv2 Hd2) as (ov & -> & Hov). mred.
  set (nw := mkItem _ _ _ _ _ _ _ _).
  assert (Hbad : forall p q r, zlen p + zlen q = valuelen nw ->
    (nw1 ← Append p nw; Append q nw1) = Ok r -> (keylen r + valuelen r - recvBytes r =? 0) = false).
  { intros p q r Hlen Hr. apply bind_Ok in Hr as (n1 & H1%Append_recv & H2%Append_recv).
    destruct H1 as (R1 & K1 & V1), H2 as (R2 & K2 & V2). apply Z.eqb_neq.
    rewrite R2, R1, K2, K1, V2, V1. change (recvBytes nw) with 0. change (keylen nw) with (zlen key).
    lia. }
  unfold panics. change (valuelen nw) with (valuelen item + valuelen old - 2) in Hbad.
  case_bool_decide.
  - destruct (slice ov 0 (valuelen old - 2)) as [p|] eqn:Hs; [|by eauto].
    apply slice_bounds in Hs as (_ & _ & Hp).
    destruct (Append p nw) as [n1|] eqn:E1; [|by eauto]. destruct (Append iv n1) as [r|] eqn:E2; [|by eauto].
    rewrite (Hbad p iv r); [by eauto|lia|]. unfold mbind, res_bind. by rewrite E1.
  - destruct (slice iv 0 (valuelen item - 2)) as [p|] eqn:Hs; [|by eauto].
    apply slice_bounds in Hs as (_ & _ & Hp).
    destruct (Append p nw) as [n1|] eqn:E1; [|by eauto]. destruct (Append ov n1) as [r|] eqn:E2; [|by eauto].
    rewrite (Hbad p ov r); [by eauto|lia|]. unfold mbind, res_bind. by rewrite E1.
Qed.

End refinement.

(** ** Witnesses *)

(** An item of key "k" and the value "v\r\n", whose data starts with the key. *)
Definition wit_item (c : Z) : Item :=
  mkItem 1 0 0 3 4 c 1 (B "kv" ++ CRLF).
Definition wit_table : Memcached := mkMemcached [∅; ∅] 2 0 0 0 0.

Lemma wit_represents : represents zlen wit_table (mkSpec ∅ 0).
Proof.
  split; [done|done| |done]. intros key. simpl. rewrite lookup_empty.
  destruct (slot_index (zlen key) wit_table) as [|[|n]]; simpl; by rewrite ?lookup_empty, ?lookup_nil.
Qed.

Lemma wit_represents_slots : represents_slots wit_table (Sharded.mkSpec ∅ 0).
Proof.
  split; [done|done| |done]. intros i key. change (Sharded.sl_map _) with (∅ : gmap (nat * bytes) Item).
  rewrite lookup_empty.
  destruct i as [|[|n]]; simpl; by rewrite ?lookup_empty, ?lookup_nil.
Qed.

(** First an item under the key's own checksum, then the same key under another
    slot's: the second is stored and not found. *)
Lemma memcached_refines_map_witness :
  (exists xs m',
    do_mops zlen [McStore (B "k") (wit_item 0) Add; McStore (B "k") (wit_item 7) Cas;
                  McGet (B "k"); McDelete (B "k")] wit_table = Ok (xs, m') /\
    [OutStore true false; OutStore false true; OutGet (Some (wit_item 1)); OutDelete true] = xs /\
    represents_slots m' (Sharded.mkSpec ∅ 1) /\
    forall s1, represents zlen wit_table s1 ->
      Forall (mop_ok zlen) [McStore (B "k") (wit_item 0) Add; McStore (B "k") (wit_item 7) Cas;
                            McGet (B "k"); McDelete (B "k")] ->
      (spec_mops [McStore (B "k") (wit_item 0) Add; McStore (B "k") (wit_item 7) Cas;
                  McGet (B "k"); McDelete (B "k")] s1).1 = xs /\
      represents zlen m' (spec_mops [McStore (B "k") (wit_item 0) Add;
        McStore (B "k") (wit_item 7) Cas; McGet (B "k"); McDelete (B "k")] s1).2) /\
  (exists xs m',
    do_mops zlen [McStore (B "k") ((wit_item 0) <| it_hash := 2 |>) Set_; McGet (B "k")] wit_table
      = Ok (xs, m') /\ [OutStore true false; OutGet None] = xs).
Proof.
  split.
  - refine (memcached_refines_map zlen
      [McStore (B "k") (wit_item 0) Add; McStore (B "k") (wit_item 7) Cas;
       McGet (B "k"); McDelete (B "k")] wit_table (Sharded.mkSpec ∅ 0) wit_represents_slots _).
    repeat constructor.
  - destruct (memcached_refines_map zlen
      [McStore (B "k") ((wit_item 0) <| it_hash := 2 |>) Set_; McGet (B "k")] wit_table
      (Sharded.mkSpec ∅ 0) wit_represents_slots) as (xs & m' & Hrun & Hxs & _).
    + repeat constructor.
    + exists xs, m'. split; [exact Hrun|exact Hxs].
Defined.

