(* ===== verification/Session.v ===== *)
(** * examples/memcached/server: session.go, and [Memcached.onConn]

    The protocol state machine of one client of the memcached server. A
    session uses its connection through four calls ([ConnOps]); the instance
    [tcp_conn_ops] is the connection of [TcpConn], and a log of the calls is
    the instance of the witnesses. The state of a handler ([SS]) is the
    connection's world, the table, the session and the inbound buffer.

    [OnMsg] loops while bytes are left. The loop is run with
    [2 * readable + 2] units of fuel and says whether it ended by itself;
    [OnMsg_ends] shows that it always does. *)

From stdpp Require Import base list gmap strings.
From Stdlib Require Import ZArith Lia Ascii.
From S2P Require Import Prelude.
From S2P Require Import GoLib.
From S2P Require Import Buffer.
From S2P Require Import World.
From S2P Require Import Sim.
From S2P Require Import Frame.
From S2P Require Import Engine.
From S2P Require Import Addr.
From S2P Require Import TcpConn.
From S2P Require Import Server.
From S2P Require Import Memcached.
Open Scope Z_scope.

Inductive SessionState : Type := NewCommand | RecvValue | DiscardValue.
#[export] Instance SessionState_eq_dec : EqDecision SessionState.
Proof. solve_decision. Defined.

Inductive ProtocolType : Type := Ascii_ | Binary | Auto.
#[export] Instance ProtocolType_eq_dec : EqDecision ProtocolType.
Proof. solve_decision. Defined.

Record Session : Type := mkSession {
  state : SessionState;
  protocol : ProtocolType;
  command : bytes;
  noreply : bool;
  policy : UpdatePolicy;
  currItem : option Item;
  bytesToDiscard : Z;
  needle : Item;
  outputBuffer : Buffer;
  bytesRead : Z;
  reqProcessed : Z;
}.
#[export] Instance eta_Session : Eta Session := fun s =>
  mkSession (state s) (protocol s) (command s) (noreply s) (policy s) (currItem s)
    (bytesToDiscard s) (needle s) (outputBuffer s) (bytesRead s) (reqProcessed s).

(** The calls a session makes on its connection. *)
Class ConnOps (W : Type) : Type := {
  conn_AsyncWrite : bytes -> M W unit;          (* conn.AsyncWrite(msg, nil) *)
  conn_Write : bytes -> M W unit;
  conn_ShutdownWrite : M W unit;
  conn_outWritable : M W Z;                     (* conn.GetOutboundBuffer().WritableBytes() *)
}.

(** The connection [c] of the library; both kinds of write ignore the error. *)
Definition tcp_conn_ops {K} `{!Kernel K} `{!UserCode K} (c : nat) : ConnOps (World K) := {|
  conn_AsyncWrite p := _ ← AsyncWrite c p None; mret tt;
  conn_Write p := _ ← TcpConn.Write c p; mret tt;
  conn_ShutdownWrite := ShutdownWrite c;
  conn_outWritable := b ← GetOutboundBuffer c; mret (WritableBytes b);
|}.

Record SS (W : Type) : Type := mkSS {
  ss_w : W;
  ss_mc : Memcached;
  ss_s : Session;
  ss_buf : Buffer;
}.
Arguments mkSS {W} _ _ _ _.
Arguments ss_w {W} _.
Arguments ss_mc {W} _.
Arguments ss_s {W} _.
Arguments ss_buf {W} _.
#[export] Instance eta_SS {W} : Eta (SS W) := fun s => mkSS (ss_w s) (ss_mc s) (ss_s s) (ss_buf s).

Definition LongestKeySize : Z := 250.
Definition LongestKey : bytes := replicate 250 "x"%char.

Definition IsBinaryProtocol (first : byte) : bool := byte_val first =? 128.

(** [command = "", noreply = false, ...] *)
Definition resetRequest (s : Session) : Session :=
  s <| command := [] |> <| noreply := false |> <| policy := Invalid |> <| currItem := None |>
    <| bytesToDiscard := 0 |>.

(** The [" noreply"] suffix of a command line. *)
Definition strip_noreply (line : bytes) : res (bool * bytes) :=
  let n := zlen line in
  if 8 <=? n then
    suffix ← slice line (n - 8) n;
    if bool_decide (suffix = B " noreply") then rest ← slice line 0 (n - 8); Ok (true, rest)
    else Ok (false, line)
  else Ok (false, line).

Definition policy_of (cmd : bytes) : res UpdatePolicy :=
  if bool_decide (cmd = B "set") then Ok Set_
  else if bool_decide (cmd = B "add") then Ok Add
  else if bool_decide (cmd = B "replace") then Ok Replace
  else if bool_decide (cmd = B "append") then Ok Append_
  else if bool_decide (cmd = B "prepend") then Ok Prepend
  else if bool_decide (cmd = B "cas") then Ok Cas
  else Panic "invalid policy".

(** An expiry time of more than 30 days is absolute: the seconds after
    [startTime().UnixMilli()], at least 1. *)
Definition rel_exptime (exptime : Z) (m : Memcached) : Z :=
  if 60 * 60 * 24 * 30 <? exptime then
    let e := i64 (exptime - startTime m / 10 ^ 6) in if e <? 1 then 1 else e
  else exptime.

Definition is_some {A} (o : option A) : bool := match o with Some _ => true | None => false end.

Section session.
Context {W : Type} {conn : ConnOps W} (hash : bytes -> Z).

Definition NewSession : res Session :=
  it ← NewItem hash LongestKey 0 0 2 0;
  Ok {| state := NewCommand; protocol := Ascii_; command := []; noreply := false;
        policy := Invalid; currItem := None; bytesToDiscard := 0; needle := it;
        outputBuffer := NewBuffer; bytesRead := 0; reqProcessed := 0 |}.

Definition on_conn {A} (m : M W A) : M (SS W) A := fun st =>
  match m (ss_w st) with Ok (a, w) => Ok (a, st <| ss_w := w |>) | Panic e => Panic e end.
Definition mod_s (f : Session -> Session) : M (SS W) unit := modify (fun st => st <| ss_s ::= f |>).
Definition set_buf (b : Buffer) : M (SS W) unit := modify (fun st => st <| ss_buf := b |>).
Definition set_mc (m : Memcached) : M (SS W) unit := modify (fun st => st <| ss_mc := m |>).

Definition Replay (msg : bytes) : M (SS W) unit :=
  s ← gets ss_s; if noreply s then mret tt else on_conn (conn_AsyncWrite msg).

Definition bad_format : bytes := B "CLIENT_ERROR bad command line format" ++ CRLF.

(** [s.needle.ResetKey(key)] *)
Definition reset_needle (key : bytes) : M (SS W) unit :=
  s ← gets ss_s; it ← lift (ResetKey hash key (needle s)); mod_s (fun s => s <| needle := it |>).

Definition delete_key (key : bytes) : M (SS W) bool :=
  m ← gets ss_mc; '(ok, m) ← lift (Delete hash key m); set_mc m ;; mret ok.

Definition DoUpdate (tokens : list bytes) : M (SS W) bool :=
  s ← gets ss_s;
  p ← lift (policy_of (command s));
  mod_s (fun s => s <| policy := p |>) ;;
  key ← lift (index tokens 0);
  t1 ← lift (index tokens 1);
  t2 ← lift (index tokens 2);
  t3 ← lift (index tokens 3);
  let fl := ParseUint t1 32 in
  let ex := ParseInt t2 64 in
  let bl := ParseInt t3 32 in
  let good := (zlen key <=? 250) && is_some fl && is_some ex && is_some bl in
  m ← gets ss_mc;
  let exptime := rel_exptime (default 0 ex) m in
  c ← (if good && bool_decide (p = Cas) then t4 ← lift (index tokens 4); mret (ParseUint t4 64)
       else mret (Some 0));
  if negb (good && is_some c) then Replay bad_format ;; mret true
  else if 1024 * 1024 <? default 0 bl then
    Replay (B "SERVER_ERROR object too large for cache" ++ CRLF) ;;
    reset_needle key ;;
    _ ← delete_key key;
    mod_s (fun s => s <| bytesToDiscard := u64 (default 0 bl + 2) |> <| state := DiscardValue |>) ;;
    mret true
  else
    it ← lift (NewItem hash key (default 0 fl) exptime (default 0 bl + 2) (default 0 c));
    mod_s (fun s => s <| currItem := Some it |> <| state := RecvValue |>) ;;
    mret false.

Definition DoDelete (tokens : list bytes) : M (SS W) unit :=
  key ← lift (index tokens 0);
  if negb (zlen key <=? 250) then Replay bad_format
  else
    usage ← (if zlen tokens <=? 1 then t ← lift (index tokens 1); mret (negb (bool_decide (t = B "0")))
             else mret false);
    if (usage : bool) then
      Replay (B "CLIENT_ERROR bad command line format.  Usage: delete <key> [noreply]\r\n")
    else
      reset_needle key ;;
      ok ← delete_key key;
      Replay ((if ok : bool then B "DELETED" else B "NOT_FOUND") ++ CRLF).

(** The loop of [get] and [gets] over the keys; [false] when a key is too long. *)
Fixpoint get_keys (needCas : bool) (keys : list bytes) : M (SS W) bool :=
  match keys with
  | [] => mret true
  | key :: keys =>
    if negb (zlen key <=? 250) then Replay bad_format ;; mret false
    else
      reset_needle key ;;
      m ← gets ss_mc;
      item ← lift (Get hash key m);
      match item with
      | Some it =>
        s ← gets ss_s;
        b ← lift (Output it needCas (outputBuffer s));
        mod_s (fun s => s <| outputBuffer := b |>)
      | None => mret tt
      end ;;
      get_keys needCas keys
  end.

(** After the loop: [END], and the output buffer is sent. *)
Definition send_output : M (SS W) unit :=
  s ← gets ss_s;
  b ← lift (out (B "END" ++ CRLF) (outputBuffer s));
  writable ← on_conn conn_outWritable;
  b ← (if 65536 + ReadableBytes b <? writable then lift (Shrink (65536 + ReadableBytes b) b)
       else mret b);
  '(p, b) ← lift (Next (-1) b);
  mod_s (fun s => s <| outputBuffer := b |>) ;;
  on_conn (conn_Write p).

Definition is_update (cmd : bytes) : bool :=
  bool_decide (cmd ∈ [B "set"; B "add"; B "replace"; B "append"; B "prepend"; B "cas"]).

(** [switch s.command] *)
Definition dispatch_command (cmd : bytes) (args : list bytes) : M (SS W) bool :=
  if is_update cmd then DoUpdate args
  else if bool_decide (cmd = B "get") || bool_decide (cmd = B "gets") then
    ok ← get_keys (bool_decide (cmd = B "gets")) args;
    (if ok : bool then send_output else mret tt) ;; mret true
  else if bool_decide (cmd = B "delete") then DoDelete args ;; mret true
  else if bool_decide (cmd = B "version") then
    Replay (B "VERSION 0.0.1 muduo" ++ CRLF) ;; mret true
  else if bool_decide (cmd = B "quit") || bool_decide (cmd = B "shutdown") then
    on_conn conn_ShutdownWrite ;; mret true
  else Replay (B "ERROR" ++ CRLF) ;; mret true.

Definition processRequest (line : bytes) : M (SS W) bool :=
  s ← gets ss_s;
  AssertM (bool_decide (command s = [])) "command should be empty" ;;
  AssertM (negb (noreply s)) "noreply should be false" ;;
  AssertM (bool_decide (policy s = Invalid)) "policy should be invalid" ;;
  AssertM (negb (is_some (currItem s))) "currItem should be nil" ;;
  AssertM (bytesToDiscard s =? 0) "bytesToDiscard should be zero" ;;
  mod_s (fun s => s <| reqProcessed := u64 (reqProcessed s + 1) |>) ;;
  '(nr, line) ← lift (strip_noreply line);
  when nr (mod_s (fun s => s <| noreply := true |>)) ;;
  match Fields line with
  | [] => Replay (B "ERROR" ++ CRLF) ;; mret true
  | cmd :: args => mod_s (fun s => s <| command := cmd |>) ;; dispatch_command cmd args
  end.

(** The answer to a stored value. *)
Definition store_reply (p : UpdatePolicy) (succ exists_ : bool) : bytes :=
  (if succ then B "STORED"
   else if bool_decide (p = Cas) then if exists_ then B "EXISTS" else B "NOT_FOUND"
   else B "NOT_STORED") ++ CRLF.

Definition store_item (it : Item) : M (SS W) unit :=
  e ← lift (EndWithCRLF it);
  if (e : bool) then
    s ← gets ss_s;
    m ← gets ss_mc;
    '((succ, ex), m) ← lift (Store hash it (policy s) m);
    set_mc m ;;
    Replay (store_reply (policy s) succ ex)
  else Replay (B "CLIENT_ERROR bad data chunk" ++ CRLF).

Definition recvValue : M (SS W) unit :=
  s ← gets ss_s;
  AssertM (bool_decide (state s = RecvValue)) "state should be recv value" ;;
  match currItem s with
  | None => panic "currItem should not be nil"
  | Some it =>
    b ← gets ss_buf;
    let avail := if NeedBytes it <=? ReadableBytes b then NeedBytes it else ReadableBytes b in
    data ← lift (Peek b);
    p ← lift (slice data 0 avail);
    it ← lift (Append p it);
    mod_s (fun s => s <| currItem := Some it |>) ;;
    set_buf (Advance avail b) ;;
    if NeedBytes it =? 0 then
      store_item it ;; mod_s (fun s => (resetRequest s) <| state := NewCommand |>)
    else mret tt
  end.

Definition discardValue : M (SS W) unit :=
  s ← gets ss_s;
  AssertM (bool_decide (state s = DiscardValue)) "state should be discard value" ;;
  AssertM (negb (is_some (currItem s))) "currItem should be nil" ;;
  b ← gets ss_buf;
  if ReadableBytes b <? i64 (bytesToDiscard s) then
    mod_s (fun s => s <| bytesToDiscard := u64 (bytesToDiscard s - ReadableBytes b) |>) ;;
    set_buf (Reset 0 b)
  else
    set_buf (Advance (i64 (bytesToDiscard s)) b) ;;
    mod_s (fun s => (resetRequest (s <| bytesToDiscard := 0 |>)) <| state := NewCommand |>).

(** [if s.protocol == Auto { ... }] *)
Definition detect_protocol : M (SS W) unit :=
  s ← gets ss_s;
  if bool_decide (protocol s = Auto) then
    AssertM (bytesRead s =? 0) "bytesRead should be zero" ;;
    b ← gets ss_buf;
    data ← lift (Peek b);
    first ← lift (index data 0);
    mod_s (fun s => s <| protocol := if IsBinaryProtocol first then Binary else Ascii_ |>)
  else mret tt.

(** A new command: [false] when the loop breaks. *)
Definition new_command : M (SS W) bool :=
  detect_protocol ;;
  s ← gets ss_s;
  AssertM (bool_decide (protocol s = Ascii_) || bool_decide (protocol s = Binary))
    "protocol should be ascii or binary" ;;
  if bool_decide (protocol s = Ascii_) then
    b ← gets ss_buf;
    search ← lift (Search CRLF b);
    if 0 <? search then
      data ← lift (Peek b);
      line ← lift (slice data 0 search);
      done ← processRequest line;
      when done (mod_s resetRequest) ;;
      set_buf (Advance (search + zlen CRLF) b) ;;
      mret true
    else
      when (1024 <? ReadableBytes b) (on_conn conn_ShutdownWrite) ;; mret false
  else mret true.

(** The body of the loop of [OnMsg]. *)
Definition OnMsg_body : M (SS W) bool :=
  s ← gets ss_s;
  match state s with
  | NewCommand => new_command
  | RecvValue => recvValue ;; mret true
  | DiscardValue => discardValue ;; mret true
  end.

(** [for buf.ReadableBytes() > 0 { ... }]; [false] when the fuel ran out. *)
Fixpoint OnMsg_loop (fuel : nat) : M (SS W) bool :=
  b ← gets ss_buf;
  if 0 <? ReadableBytes b then
    match fuel with
    | O => mret false
    | S fuel => go ← OnMsg_body; if (go : bool) then OnMsg_loop fuel else mret true
    end
  else mret true.

Definition OnMsg : M (SS W) bool :=
  b ← gets ss_buf;
  let initialReadable := ReadableBytes b in
  ended ← OnMsg_loop (Z.to_nat (2 * initialReadable + 2));
  b ← gets ss_buf;
  mod_s (fun s => s <| bytesRead := u64 (bytesRead s + u64 (initialReadable - ReadableBytes b)) |>) ;;
  mret ended.

(** memcached_server.go: [Memcached.onConn] on [m.sessions]; the arguments
    are [conn.IsConnected()] and [conn.Name()]. *)
Definition mc_onConn (connected : bool) (name : bytes) (sessions : gmap bytes Session) :
    res (gmap bytes Session) :=
  if connected then
    sess ← NewSession;
    _ ← Assert (negb (is_some (sessions !! name))) "m.sessions[conn.Name()] == nil";
    Ok (<[name := sess]> sessions)
  else Ok (delete name sessions).
End session.

(** ** The session's invariant *)

(** No request under way. *)
Definition request_clear (s : Session) : Prop :=
  command s = [] /\ noreply s = false /\ policy s = Invalid /\ currItem s = None /\
  bytesToDiscard s = 0.

(** An item that is being received. *)
Definition item_wf (it : Item) : Prop :=
  0 <= recvBytes it <= zlen (data it) /\ zlen (data it) = keylen it + valuelen it /\
  0 <= keylen it <= 250 /\ valuelen it <= 1024 * 1024 + 2.

Definition session_ok (s : Session) : Prop :=
  protocol s = Ascii_ /\
  match state s with
  | RecvValue => policy s <> Invalid /\ exists it, currItem s = Some it /\ item_wf it
  | _ => request_clear s
  end.

Section inv.
Context {W : Type} {conn : ConnOps W} (hash : bytes -> Z).

(** What code outside [DoUpdate] keeps. *)
Record kept (st st' : SS W) : Prop := {
  kept_buf : ss_buf st' = ss_buf st;
  kept_state : state (ss_s st') = state (ss_s st);
  kept_protocol : protocol (ss_s st') = protocol (ss_s st);
  kept_policy : policy (ss_s st') = policy (ss_s st);
}.
#[local] Instance kept_preorder : PreOrder kept.
Proof. split; [by split|]. intros a b c [] []. split; congruence. Qed.

Lemma kept_gets {A} (f : SS W -> A) : steps kept (gets f).
Proof. intros st a st' [= _ <-]. reflexivity. Qed.
Lemma kept_on_conn {A} (m : M W A) : steps kept (on_conn m).
Proof. intros st a st'. unfold on_conn. destruct (m _) as [[]|]; [|done]. by intros [= _ <-]. Qed.
Lemma kept_mod_s f :
  (forall s, state (f s) = state s /\ protocol (f s) = protocol s /\ policy (f s) = policy s) ->
  steps kept (mod_s f).
Proof. intros Hf st a st' [= _ <-]. split; simpl; [done|apply Hf..]. Qed.
Lemma kept_set_mc m : steps kept (set_mc m).
Proof. by intros st a st' [= _ <-]. Qed.
Hint Resolve kept_gets kept_on_conn kept_set_mc : steps.
Hint Extern 1 (steps kept (mod_s _)) => (apply kept_mod_s; intros; repeat split; reflexivity) : steps.

Lemma kept_Replay msg : steps kept (Replay msg).
Proof. unfold Replay. stp. Qed.
Hint Resolve kept_Replay : steps.
Lemma kept_reset_needle key : steps kept (reset_needle hash key).
Proof. unfold reset_needle. stp. Qed.
Lemma kept_delete_key key : steps kept (delete_key hash key).
Proof. unfold delete_key. stp. Qed.
Hint Resolve kept_reset_needle kept_delete_key : steps.
Lemma kept_DoDelete tokens : steps kept (DoDelete hash tokens).
Proof. unfold DoDelete. stp. Qed.
Lemma kept_get_keys c keys : steps kept (get_keys hash c keys).
Proof. induction keys as [|key keys IH]; cbn [get_keys]; stp. Qed.
Lemma kept_send_output : steps kept send_output.
Proof. unfold send_output. stp. Qed.
Lemma kept_store_item it : steps kept (store_item hash it).
Proof. unfold store_item. stp. Qed.
Hint Resolve kept_DoDelete kept_get_keys kept_send_output kept_store_item : steps.

Lemma bind_Ok_inv {S A B} (m : M S A) (f : A -> M S B) (s s' : S) b :
  (m ≫= f) s = Ok (b, s') -> exists a s1, m s = Ok (a, s1) /\ f a s1 = Ok (b, s').
Proof. unfold mbind, M_bind. destruct (m s) as [[a s1]|]; [eauto|done]. Qed.

Lemma lift_Ok_inv {S A} (r : res A) (s s' : S) a : lift r s = Ok (a, s') -> r = Ok a /\ s' = s.
Proof. unfold lift. destruct r; [by intros [= -> ->]|done]. Qed.

(** How a request ends: nothing more to come, a value to discard, or a value
    to receive. *)
Definition ended (st : SS W) (fin : bool) (st' : SS W) : Prop :=
  ss_buf st' = ss_buf st /\ protocol (ss_s st') = protocol (ss_s st) /\
  if fin then state (ss_s st') = state (ss_s st) \/ state (ss_s st') = DiscardValue
  else session_ok ((ss_s st') <| protocol := Ascii_ |>) /\ state (ss_s st') = RecvValue.

Lemma kept_ended st st' st2 fin : kept st st' -> ended st' fin st2 -> ended st fin st2.
Proof. intros [] (? & ? & H). unfold ended. split; [congruence|]. split; [congruence|]. by rewrite <- kept_state0. Qed.
Lemma kept_ended_true (m : M (SS W) unit) st fin st' :
  steps kept m -> (m ;; mret true) st = Ok (fin, st') -> ended st fin st'.
Proof.
  intros Hm (u & st1 & H1 & [= <- <-])%bind_Ok_inv. destruct (Hm _ _ _ H1).
  unfold ended. auto.
Qed.

Lemma policy_of_valid cmd p : policy_of cmd = Ok p -> p <> Invalid.
Proof. unfold policy_of. repeat case_bool_decide; by intros [= <-]. Qed.

Lemma NewItem_wf key fl ex vl c it :
  NewItem hash key fl ex vl c = Ok it -> zlen key <= 250 -> vl <= 1024 * 1024 + 2 -> item_wf it.
Proof.
  unfold NewItem, make_bytes. destruct (Z.ltb_spec (zlen key + vl) 0); [done|].
  intros [= <-] Hk Hv. unfold item_wf; simpl. zl.
Qed.

Lemma DoUpdate_ended tokens st fin st' :
  DoUpdate hash tokens st = Ok (fin, st') -> ended st fin st'.
Proof.
  unfold DoUpdate.
  intros (? & ? & [= <- <-] & (p & ? & [Hp ->]%lift_Ok_inv & H)%bind_Ok_inv)%bind_Ok_inv.
  apply policy_of_valid in Hp.
  apply bind_Ok_inv in H as (? & st1 & Hm & H).
  assert (E1 : ss_buf st1 = ss_buf st /\ protocol (ss_s st1) = protocol (ss_s st) /\
               state (ss_s st1) = state (ss_s st) /\ policy (ss_s st1) = p)
    by (by injection Hm as _ <-).
  clear Hm. revert H.
  intros (key & ? & [_ ->]%lift_Ok_inv & (t1 & ? & [_ ->]%lift_Ok_inv & H)%bind_Ok_inv)%bind_Ok_inv.
  apply bind_Ok_inv in H as (t2 & ? & [_ ->]%lift_Ok_inv & (t3 & ? & [_ ->]%lift_Ok_inv & H)%bind_Ok_inv).
  apply bind_Ok_inv in H as (m & ? & [= <- <-] & H).
  apply bind_Ok_inv in H as (c & st2 & Hc & H).
  assert (st2 = st1) as ->.
  { revert Hc. destruct (_ && _) in |- *; [|by intros [= _ <-]].
    intros (? & ? & [_ ->]%lift_Ok_inv & [= _ <-])%bind_Ok_inv. done. }
  destruct E1 as (Eb & Ep & Es & Epol).
  destruct (negb _) eqn:Hgood in H.
  { apply (kept_ended_true _ _ _ _ (kept_Replay _)) in H as (? & ? & H). unfold ended.
    rewrite <- Eb, <- Ep. destruct fin; [by rewrite <- Es|done]. }
  destruct (Z.ltb_spec (1024 * 1024) (default 0 (ParseInt t3 32))) as [Hbig|Hsmall].
  - apply bind_Ok_inv in H as (? & s2 & H1%kept_Replay & H).
    apply bind_Ok_inv in H as (? & s3 & H2%kept_reset_needle & H).
    apply bind_Ok_inv in H as (? & s4 & H3%kept_delete_key & H).
    apply bind_Ok_inv in H as (? & s5 & [= _ <-] & [= <- <-]).
    destruct H1, H2, H3. unfold ended; simpl. split; [congruence|]. split; [congruence|]. by right.
  - apply bind_Ok_inv in H as (it & ? & [Hit ->]%lift_Ok_inv & (? & s5 & [= _ <-] & [= <- <-])%bind_Ok_inv).
    unfold ended, session_ok; simpl. repeat split; [done|done|by rewrite Epol|].
    exists it. split; [done|]. eapply NewItem_wf; [done| |lia].
    apply negb_false_iff in Hgood. repeat (apply andb_prop in Hgood as [Hgood ?]). lia.
Qed.

Lemma dispatch_ended cmd args st fin st' :
  dispatch_command hash cmd args st = Ok (fin, st') -> ended st fin st'.
Proof.
  unfold dispatch_command. destruct (is_update cmd); [apply DoUpdate_ended|].
  repeat (destruct (bool_decide _)); simpl;
    try (apply kept_ended_true; solve [stp]);
    (intros (? & s2 & H1%kept_get_keys & H2)%bind_Ok_inv; eapply kept_ended; [exact H1|];
     revert H2; apply kept_ended_true; stp).
Qed.

Lemma processRequest_ended line st fin st' :
  processRequest hash line st = Ok (fin, st') -> ended st fin st'.
Proof.
  unfold processRequest. intros (s & ? & [= <- <-] & H)%bind_Ok_inv.
  do 5 (apply bind_Ok_inv in H as (? & ? & [_ ->]%lift_Ok_inv & H)).
  apply bind_Ok_inv in H as (? & s1 & Hm & H).
  assert (Hk1 : kept st s1) by (by injection Hm as _ <-).
  eapply kept_ended; [exact Hk1|]. clear Hm Hk1.
  apply bind_Ok_inv in H as ([nr l] & ? & [_ ->]%lift_Ok_inv & H).
  apply bind_Ok_inv in H as (? & s2 & Hs & H).
  assert (Hk : steps kept (when nr (mod_s (fun s => s <| noreply := true |>)))) by (unfold when; stp).
  eapply kept_ended; [exact (Hk _ _ _ Hs)|]. destruct (Fields l) as [|cmd args].
  - revert H. apply kept_ended_true. stp.
  - apply bind_Ok_inv in H as (? & s3 & Hm & H%dispatch_ended).
    assert (Hk3 : kept s2 s3) by (by injection Hm as _ <-). by eapply kept_ended.
Qed.

(** ** The loop of OnMsg *)

Definition good (st : SS W) : Prop := wf (ss_buf st) /\ session_ok (ss_s st).

(** Twice the bytes left, and one for a state other than [NewCommand]. *)
Definition weight (st : SS W) : Z :=
  2 * ReadableBytes (ss_buf st) + (if bool_decide (state (ss_s st) = NewCommand) then 0 else 1).

(** The loop stops: nothing left, or no complete command line at the front. *)
Definition idle (st : SS W) : Prop :=
  ReadableBytes (ss_buf st) <= 0 \/
  (state (ss_s st) = NewCommand /\ Index (contents (ss_buf st)) CRLF <= 0).

Lemma Advance_readable n b : ReadableBytes (Advance n b) = ReadableBytes b - n.
Proof. unfold Advance, ReadableBytes. simpl. lia. Qed.

(** A separator that is found lies within the string. *)
Lemma Index_CRLF_room s : 0 <= Index s CRLF -> Index s CRLF + 2 <= zlen s.
Proof.
  intros H. destruct (proj1 (Index_spec s CRLF (Z.to_nat (Index s CRLF))) ltac:(lia)) as [(a & t & Heq & Ha) _].
  pose proof (f_equal zlen Heq) as E. rewrite !zlen_app in E. change (zlen CRLF) with 2 in E. zl.
Qed.

Lemma resetRequest_ok s : protocol s = Ascii_ -> state s <> RecvValue -> session_ok (resetRequest s).
Proof. intros Hp Hs. split; [done|]. simpl. by destruct (state s). Qed.

Lemma new_command_step st go st' :
  good st -> state (ss_s st) = NewCommand -> new_command hash st = Ok (go, st') ->
  good st' /\
  if go then ReadableBytes (ss_buf st') + 3 <= ReadableBytes (ss_buf st) else idle st'.
Proof.
  intros [Hwf Hok] Hst. pose proof Hok as [Hp _].
  unfold new_command, detect_protocol.
  intros (? & ? & H1 & H)%bind_Ok_inv.
  apply bind_Ok_inv in H1 as (? & ? & [= <- <-] & H1).
  rewrite bool_decide_eq_false_2 in H1 by congruence. injection H1 as _ <-.
  apply bind_Ok_inv in H as (? & ? & [= <- <-] & H).
  apply bind_Ok_inv in H as (? & ? & [_ ->]%lift_Ok_inv & H).
  rewrite bool_decide_eq_true_2 in H by done.
  apply bind_Ok_inv in H as (? & ? & [= <- <-] & H).
  rewrite Search_contents in H by done.
  apply bind_Ok_inv in H as (? & ? & [[= <-] ->]%lift_Ok_inv & H).
  destruct (Z.ltb_spec 0 (Index (contents (ss_buf st)) CRLF)) as [Hi|Hi].
  - pose proof (Index_CRLF_room (contents (ss_buf st)) ltac:(lia)) as Hroom.
    rewrite zlen_contents in Hroom by done.
    apply bind_Ok_inv in H as (d & ? & [_ ->]%lift_Ok_inv & (line & ? & [_ ->]%lift_Ok_inv & H)%bind_Ok_inv).
    apply bind_Ok_inv in H as (fin & s1 & (Hb & Hp1 & Hf)%processRequest_ended & H).
    rewrite Hst in Hf. change (zlen CRLF) with 2 in H.
    set (i := Index _ _) in *.
    destruct (Advance_contents (ss_buf st) (i + 2) Hwf ltac:(lia)) as [Hwf' _].
    pose proof (Advance_readable (i + 2) (ss_buf st)) as Hr.
    destruct fin; simpl in H; injection H as <- <-; unfold good; simpl;
      (split; [split; [exact Hwf'|]|simpl; lia]).
    + apply resetRequest_ok; [congruence|]. destruct Hf as [-> | ->]; done.
    + destruct Hf as [[_ Hf] Hrecv]. split; [congruence|]. exact Hf.
  - assert (E : ss_buf st' = ss_buf st /\ ss_s st' = ss_s st /\ go = false).
    { apply bind_Ok_inv in H as (? & s1 & H1 & [= <- <-]). revert H1. unfold when, on_conn.
      destruct (_ <? _); [|by intros [= _ <-]]. destruct (conn_ShutdownWrite _) as [[]|]; [|done].
      by intros [= _ <-]. }
    destruct E as (E1 & E2 & ->). unfold good, idle. rewrite E1, E2. auto.
Qed.

Lemma recvValue_step st u st' :
  good st -> 0 < ReadableBytes (ss_buf st) -> recvValue hash st = Ok (u, st') ->
  good st' /\ weight st' < weight st.
Proof.
  intros [Hwf [Hp Hok]] Hr. unfold recvValue, weight, good.
  intros (? & ? & [= <- <-] & H)%bind_Ok_inv.
  apply bind_Ok_inv in H as (? & ? & [Hst%Assert_Ok%bool_decide_eq_true_1 ->]%lift_Ok_inv & H).
  rewrite Hst in *. destruct Hok as (Hpol & it & Hit & (Hrb & Hlen & Hkl)). rewrite Hit in H.
  apply bind_Ok_inv in H as (? & ? & [= <- <-] & H). rewrite Peek_contents in H by done.
  set (avail := if _ <=? _ then _ else _) in H.
  assert (Ha : 0 <= avail <= ReadableBytes (ss_buf st) /\ avail <= NeedBytes it /\
               (NeedBytes it = avail \/ 0 < avail)).
  { subst avail. unfold NeedBytes in *. destruct (Z.leb_spec (keylen it + valuelen it - recvBytes it) (ReadableBytes (ss_buf st))); lia. }
  clearbody avail. destruct Ha as (Ha & Han & Hapos).
  apply bind_Ok_inv in H as (? & ? & [[= <-] ->]%lift_Ok_inv & H).
  apply bind_Ok_inv in H as (q & ? & [(_ & _ & Hq)%slice_bounds ->]%lift_Ok_inv & H).
  apply bind_Ok_inv in H as (it' & ? & [Hit' ->]%lift_Ok_inv & H).
  apply bind_Ok_inv in H as (? & s1 & [= _ <-] & H). apply bind_Ok_inv in H as (? & s1 & Hm & H).
  assert (E : ss_buf s1 = Advance avail (ss_buf st) /\ protocol (ss_s s1) = Ascii_ /\
    state (ss_s s1) = RecvValue /\ policy (ss_s s1) = policy (ss_s st) /\ currItem (ss_s s1) = Some it').
  { by injection Hm as _ <-. }
  clear Hm. destruct E as (Eb & Ep & Es & Epol & Eit).
  destruct (Advance_contents (ss_buf st) avail Hwf ltac:(lia)) as [Hwf' _].
  pose proof (Advance_readable avail (ss_buf st)) as Hr'.
  assert (Hneed : NeedBytes it' = NeedBytes it - avail /\ item_wf it').
  { revert Hit'. unfold Append. rewrite copy_at_Ok by lia. simpl. intros [= <-].
    unfold NeedBytes, item_wf in *; simpl. zl. }
  destruct Hneed as [Hneed Hwfi]. destruct (Z.eqb_spec (NeedBytes it') 0) as [Hz|Hz].
  - apply bind_Ok_inv in H as (? & s2 & [Kb _ Kp _]%kept_store_item & [= _ <-]). simpl.
    rewrite Kb, Eb, Hr'. split; [|lia]. split; [exact Hwf'|]. split; [simpl; congruence|]. by simpl.
  - injection H as _ <-. rewrite Eb, Es, Hr'. split; [|simpl; lia]. split; [done|]. split; [done|].
    rewrite Es, Epol. eauto.
Qed.

Lemma discardValue_step st u st' :
  good st -> 0 < ReadableBytes (ss_buf st) -> discardValue st = Ok (u, st') ->
  good st' /\ weight st' < weight st.
Proof.
  intros [Hwf [Hp Hok]] Hr. unfold discardValue, weight, good.
  intros (? & ? & [= <- <-] & H)%bind_Ok_inv.
  apply bind_Ok_inv in H as (? & ? & [Hst%Assert_Ok%bool_decide_eq_true_1 ->]%lift_Ok_inv & H).
  rewrite Hst in *. destruct Hok as (_ & _ & _ & _ & Hz). rewrite Hz in H.
  apply bind_Ok_inv in H as (? & ? & [_ ->]%lift_Ok_inv & H).
  apply bind_Ok_inv in H as (? & ? & [= <- <-] & H). change (i64 0) with 0 in H.
  rewrite (proj2 (Z.ltb_ge _ 0)) in H by lia. injection H as _ <-. simpl.
  destruct (Advance_contents (ss_buf st) 0 Hwf ltac:(lia)) as [Hwf' _].
  pose proof (Advance_readable 0 (ss_buf st)) as Hr'. split; [|lia]. split; [exact Hwf'|]. by split.
Qed.

Lemma OnMsg_body_step st go st' :
  good st -> 0 < ReadableBytes (ss_buf st) -> OnMsg_body hash st = Ok (go, st') ->
  good st' /\ if go then weight st' < weight st else idle st'.
Proof.
  intros Hg Hr. unfold OnMsg_body. intros (? & ? & [= <- <-] & H)%bind_Ok_inv.
  destruct (state (ss_s st)) eqn:Hst.
  - destruct (new_command_step st go st' Hg Hst H) as [Hg' Hgo]. split; [done|].
    destruct go; [|done]. unfold weight. repeat case_bool_decide; lia.
  - apply bind_Ok_inv in H as (? & s1 & H1%recvValue_step & [= <- <-]); done.
  - apply bind_Ok_inv in H as (? & s1 & H1%discardValue_step & [= <- <-]); done.
Qed.

Lemma OnMsg_loop_ends fuel st fin st' :
  good st -> weight st <= Z.of_nat fuel -> OnMsg_loop hash fuel st = Ok (fin, st') ->
  fin = true /\ good st' /\ idle st'.
Proof.
  revert st. induction fuel as [|fuel IH]; intros st Hg Hw; cbn [OnMsg_loop];
    intros (? & ? & [= <- <-] & H)%bind_Ok_inv;
    (destruct (Z.ltb_spec 0 (ReadableBytes (ss_buf st))) as [Hr|Hr];
      [|injection H as <- <-; unfold idle; auto]).
  - exfalso. unfold weight in Hw. case_bool_decide; lia.
  - apply bind_Ok_inv in H as (go & s1 & Hb & H).
    destruct (OnMsg_body_step st go s1 Hg Hr Hb) as [Hg1 Hgo].
    destruct go; [|injection H as <- <-; auto]. apply (IH s1); [done|lia|done].
Qed.

(** C10: the loop of [OnMsg] always ends, whatever bytes arrive in whatever
    pieces: the fuel never runs out, so that the Go code returns or panics.
    When it returns, the session is in one of its three states with the data
    of that state (a value being received has room for exactly the bytes still
    needed), and either all bytes were consumed or the session waits for the
    end of a command line. *)
Theorem OnMsg_ends (st : SS W) (Hg : good st) :
  match OnMsg hash st with
  | Ok (fin, st') => fin = true /\ good st' /\ idle st'
  | Panic _ => True
  end.
Proof.
  destruct (OnMsg hash st) as [[fin st']|] eqn:H; [|done]. revert H. unfold OnMsg.
  intros (? & ? & [= <- <-] & H)%bind_Ok_inv.
  apply bind_Ok_inv in H as (e & s1 & Hl & H).
  apply OnMsg_loop_ends in Hl as (-> & Hg1 & Hi); [|done|].
  - by injection H as <- <-.
  - destruct Hg as [[? ?] _]. unfold weight, ReadableBytes in *. case_bool_decide; lia.
Qed.
End inv.

(** ** A [set] request from its bytes to the table *)

Lemma Index_first (line rest : bytes) :
  ("013"%char ∉ line) -> Index (line ++ CRLF ++ rest) CRLF = zlen line.
Proof.
  induction line as [|c line IH]; intros Hn; [by destruct rest|].
  apply not_elem_of_cons in Hn as [Hc Hn].
  cbn [app Index]. change (HasPrefix (c :: line ++ CRLF ++ rest) CRLF) with
    (Ascii.eqb "013" c && HasPrefix (line ++ CRLF ++ rest) ["010"%char]).
  rewrite (proj2 (Ascii.eqb_neq "013" c)) by done. rewrite IH by done. cbn [andb].
  rewrite (proj2 (Z.ltb_ge _ 0)) by zl. rewrite zlen_cons. lia.
Qed.

Section set_request.
Context {W : Type} {conn : ConnOps W} (hash : bytes -> Z).

(** The item of a complete [set]: its data is the whole data block, whose
    first bytes are taken as the key. *)
Definition received (key : bytes) (fl ex : Z) (value : bytes) : Item :=
  mkItem (zlen key) fl ex (zlen value + 2) (zlen key + (zlen value + 2)) 0 (hash key)
    (key ++ value ++ CRLF).

Lemma received_full key fl ex value it :
  NewItem hash key fl ex (zlen value + 2) 0 = Ok it ->
  NeedBytes it = zlen (key ++ value ++ CRLF) /\
  Append (key ++ value ++ CRLF) it = Ok (received key fl ex value).
Proof.
  unfold NewItem, make_bytes. destruct (Z.ltb_spec (zlen key + (zlen value + 2)) 0) as [|Hn]; [done|].
  intros [= <-]. unfold NeedBytes, Append. simpl.
  assert (Hl : zlen (key ++ value ++ CRLF) = zlen key + (zlen value + 2)) by (rewrite !zlen_app; done).
  rewrite copy_at_Ok by zl. split; [lia|]. unfold received. simpl. rewrite Hl. do 2 f_equal.
  change (Z.to_nat 0) with 0%nat. rewrite drop_0.
  rewrite gocopy_fits by (unfold zlen in *; rewrite length_replicate; lia).
  rewrite drop_ge; [by rewrite app_nil_r|]. unfold zlen in *. rewrite length_replicate. lia.
Qed.

Lemma received_CRLF key fl ex value : EndWithCRLF (received key fl ex value) = Ok true.
Proof.
  unfold EndWithCRLF, received; simpl.
  set (p := key ++ value). assert (Hp : zlen p = zlen key + zlen value) by apply zlen_app.
  rewrite app_assoc. fold p.
  replace (zlen key + (zlen value + 2) - 2) with (zlen p) by lia.
  replace (zlen key + (zlen value + 2) - 1) with (zlen p + 1) by lia.
  unfold index. rewrite !(proj2 (Z.leb_le 0 _)) by zl.
  rewrite !lookup_app_r by (unfold zlen; lia).
  replace (Z.to_nat (zlen p) - length p)%nat with 0%nat by (unfold zlen; lia).
  replace (Z.to_nat (zlen p + 1) - length p)%nat with 1%nat by (unfold zlen; lia).
  reflexivity.
Qed.

Lemma received_Key key fl ex value : Key (received key fl ex value) = Ok key.
Proof.
  unfold Key, received; simpl. rewrite slice_Ok by (rewrite ?zlen_app; zl).
  rewrite Z.sub_0_r. change (Z.to_nat 0) with 0%nat. rewrite drop_0. unfold zlen.
  by rewrite Nat2Z.id, take_app_length.
Qed.

(** The parts of a [set] request: the command line, its fields and numbers,
    and the bytes after it. *)
Record set_request (msg line key block : bytes) (n : Z) (nr : bool) (fl ex : Z) : Prop := {
  sr_msg : msg = line ++ CRLF ++ block;
  sr_line : ("013"%char ∉ line) /\ line <> [];
  sr_fields : exists body t1 t2 t3, strip_noreply line = Ok (nr, body) /\
    Fields body = [B "set"; key; t1; t2; t3] /\
    ParseUint t1 32 = Some fl /\ ParseInt t2 64 = Some ex /\ ParseInt t3 32 = Some n;
  sr_sizes : zlen key <= 250 /\ 0 <= n <= 1024 * 1024;
}.

Lemma DoUpdate_set st key t1 t2 t3 fl ex n it :
  command (ss_s st) = B "set" -> ParseUint t1 32 = Some fl -> ParseInt t2 64 = Some ex ->
  ParseInt t3 32 = Some n -> zlen key <= 250 -> n <= 1024 * 1024 ->
  NewItem hash key fl (rel_exptime ex (ss_mc st)) (n + 2) 0 = Ok it ->
  DoUpdate hash [key; t1; t2; t3] st = Ok (false, st <| ss_s := (ss_s st)
    <| policy := Set_ |> <| currItem := Some it |> <| state := RecvValue |> |>).
Proof.
  intros Hc H1 H2 H3 Hk Hn Hit. unfold DoUpdate. mred. rewrite Hc.
  cbv beta iota delta [index]. simpl. rewrite H1, H2, H3. simpl.
  rewrite (proj2 (Z.leb_le (zlen key) 250)), (proj2 (Z.ltb_ge _ n)) by lia. simpl.
  by rewrite Hit.
Qed.

(** The command line makes the session wait for the data block. *)
Lemma processRequest_set st msg line key block n nr fl ex :
  set_request msg line key block n nr fl ex -> request_clear (ss_s st) ->
  exists it, NewItem hash key fl (rel_exptime ex (ss_mc st)) (n + 2) 0 = Ok it /\
    processRequest hash line st = Ok (false, st <| ss_s := (ss_s st)
      <| reqProcessed := u64 (reqProcessed (ss_s st) + 1) |> <| noreply := nr |>
      <| command := B "set" |> <| policy := Set_ |> <| currItem := Some it |> <| state := RecvValue |> |>).
Proof.
  intros [_ _ (body & t1 & t2 & t3 & Hst & Hf & H1 & H2 & H3) [Hk [Hn0 Hv]]] (C1 & C2 & C3 & C4 & C5).
  assert (Hit : exists it, NewItem hash key fl (rel_exptime ex (ss_mc st)) (n + 2) 0 = Ok it).
  { unfold NewItem, make_bytes. rewrite (proj2 (Z.ltb_ge _ 0)) by zl. by eexists. }
  destruct Hit as [it Hit]. exists it. split; [done|].
  destruct st as [w m s b], s. simpl in *. subst.
  unfold processRequest. mred. simpl. rewrite Hst.
  unfold mod_s, modify. destruct nr; simpl; rewrite Hf;
    unfold dispatch_command; simpl;
    erewrite DoUpdate_set by (try eassumption; done); reflexivity.
Qed.

(** The state after the command line, with [fl], [ex] and the item it made. *)
Definition awaiting (st : SS W) (line : bytes) (nr : bool) (it : Item) : SS W :=
  st <| ss_s := (ss_s st)
          <| reqProcessed := u64 (reqProcessed (ss_s st) + 1) |> <| noreply := nr |>
          <| command := B "set" |> <| policy := Set_ |> <| currItem := Some it |>
          <| state := RecvValue |> |>
     <| ss_buf := Advance (zlen line + 2) (ss_buf st) |>.

Lemma new_command_set st line key block n nr fl ex :
  wf (ss_buf st) -> set_request (contents (ss_buf st)) line key block n nr fl ex ->
  session_ok (ss_s st) -> state (ss_s st) = NewCommand ->
  exists it, NewItem hash key fl (rel_exptime ex (ss_mc st)) (n + 2) 0 = Ok it /\
    new_command hash st = Ok (true, awaiting st line nr it).
Proof.
  intros Hwf Hreq [Hp Hclear] Hst. rewrite Hst in Hclear.
  destruct (processRequest_set _ _ _ _ _ _ _ _ _ Hreq Hclear) as (it & Hit & Hrun).
  exists it. split; [done|]. destruct Hreq as [Hmsg [Hcr Hne] _ _].
  unfold new_command, detect_protocol. mred. rewrite Hp.
  rewrite bool_decide_eq_false_2, bool_decide_eq_true_2 by done. cbn [orb].
  rewrite Search_contents, Peek_contents by done. rewrite Hmsg, Index_first by done.
  rewrite (proj2 (Z.ltb_lt 0 (zlen line))) by (destruct line; [done|zl]).
  rewrite slice_Ok by (rewrite ?zlen_app; zl).
  rewrite Z.sub_0_r. change (Z.to_nat 0) with 0%nat. rewrite drop_0.
  replace (Z.to_nat (zlen line)) with (length line) by (unfold zlen; lia).
  by rewrite take_app_length, Hrun.
Qed.

Lemma recvValue_set st key value fl ex it sp w' :
  wf (ss_buf st) -> contents (ss_buf st) = key ++ value ++ CRLF ->
  state (ss_s st) = RecvValue -> policy (ss_s st) = Set_ -> currItem (ss_s st) = Some it ->
  NewItem hash key fl ex (zlen value + 2) 0 = Ok it -> represents hash (ss_mc st) sp ->
  (if noreply (ss_s st) then Ok (tt, ss_w st)
   else conn_AsyncWrite (B "STORED" ++ CRLF) (ss_w st)) = Ok (tt, w') ->
  exists m' s', recvValue hash st =
      Ok (tt, mkSS w' m' s' (Advance (zlen (key ++ value ++ CRLF)) (ss_buf st))) /\
    represents hash m' (Abstract.put key (received key fl ex value) sp) /\
    state s' = NewCommand /\ request_clear s'.
Proof.
  intros Hwf Hc Hst Hpol Hcur Hit Hrep Hw.
  destruct (received_full key fl ex value it Hit) as [Hneed Happ].
  destruct (do_mop_refines hash (McStore key (received key fl ex value) Set_) (ss_mc st) sp Hrep)
    as (x & m' & Hstore & Hrep' & _).
  { split; [apply received_Key|]. split; [done|]. by left. }
  apply bind_Ok in Hstore as ([[succ ex'] m1] & Hstore & [= _ ->]).
  assert (succ = true) as ->.
  { revert Hstore. unfold Store. destruct (slot _ _); [|done]. rewrite received_Key. mred.
    by intros [= <- _ _]. }
  do 2 eexists. split; [|split; [exact Hrep'|]].
  - unfold recvValue, store_item, Replay, on_conn, set_buf, set_mc. mred.
    rewrite Hst, Hcur. rewrite bool_decide_eq_true_2 by done.
    assert (Hr : ReadableBytes (ss_buf st) = NeedBytes it) by (by rewrite Hneed, <- Hc, zlen_contents).
    rewrite Hr, Z.leb_refl, Peek_contents by done. rewrite Hc, Hneed, slice_full, Happ.
    assert (NeedBytes (received key fl ex value) = 0) as -> by (unfold NeedBytes; simpl; lia).
    rewrite Z.eqb_refl, received_CRLF. simpl. rewrite Hpol, Hstore.
    destruct (noreply (ss_s st)); [injection Hw as ->; reflexivity|]. simpl.
    change (store_reply Set_ true ex') with (B "STORED" ++ CRLF). by rewrite Hw.

  - done.
Qed.

Lemma awaiting_buf st line rest nr it :
  wf (ss_buf st) -> contents (ss_buf st) = line ++ CRLF ++ rest ->
  wf (ss_buf (awaiting st line nr it)) /\ contents (ss_buf (awaiting st line nr it)) = rest.
Proof.
  intros Hwf Hmsg. pose proof (zlen_contents _ Hwf) as Hl. rewrite Hmsg, !zlen_app in Hl.
  change (zlen CRLF) with 2 in Hl.
  destruct (Advance_contents (ss_buf st) (zlen line + 2) Hwf) as [Hwf' Hc]; [zl|].
  split; [done|]. simpl. rewrite Hc, Hmsg, app_assoc.
  rewrite drop_app_length'; [done|]. rewrite length_app. simpl. unfold zlen. lia.
Qed.

(** A value that has not arrived completely. *)
Lemma recvValue_partial st block it :
  wf (ss_buf st) -> contents (ss_buf st) = block ->
  state (ss_s st) = RecvValue -> currItem (ss_s st) = Some it ->
  0 <= recvBytes it <= zlen (data it) /\ zlen block < NeedBytes it ->
  exists it', recvValue hash st =
      Ok (tt, st <| ss_s := (ss_s st) <| currItem := Some it' |> |>
                 <| ss_buf := Advance (zlen block) (ss_buf st) |>) /\
    NeedBytes it' = NeedBytes it - zlen block.
Proof.
  intros Hwf Hc Hst Hcur [Hr Hn]. pose proof (zlen_contents _ Hwf) as Hl. rewrite Hc in Hl.
  assert (Happ : exists it', Append block it = Ok it' /\ NeedBytes it' = NeedBytes it - zlen block).
  { unfold Append. rewrite copy_at_Ok by lia. eexists. split; [done|]. unfold NeedBytes; simpl. lia. }
  destruct Happ as (it' & Happ & Hneed). exists it'. split; [|done].
  unfold recvValue. mred. rewrite Hst, Hcur, bool_decide_eq_true_2 by done.
  rewrite (proj2 (Z.leb_gt _ _)), Peek_contents by (done || lia).
  rewrite Hc, <- Hl, slice_full, Happ, (proj2 (Z.eqb_neq _ 0)) by lia. reflexivity.
Qed.

(** One command line, then the bytes after it are all taken as a value. *)
Lemma OnMsg_line_then_block st line block nr it st2 :
  wf (ss_buf st) -> contents (ss_buf st) = line ++ CRLF ++ block -> state (ss_s st) = NewCommand ->
  block <> [] -> new_command hash st = Ok (true, awaiting st line nr it) ->
  recvValue hash (awaiting st line nr it) = Ok (tt, st2) ->
  ss_buf st2 = Advance (zlen block) (ss_buf (awaiting st line nr it)) ->
  OnMsg hash st = Ok (true, st2 <| ss_s ::= (fun s => s <| bytesRead := u64 (bytesRead s +
    u64 (ReadableBytes (ss_buf st) - ReadableBytes (ss_buf st2))) |>) |>).
Proof.
  intros Hwf Hmsg Hst Hne H1 H2 Hb2.
  destruct (awaiting_buf st line block nr it Hwf Hmsg) as [Hwf1 Hc1].
  pose proof (zlen_contents _ Hwf) as Hl. pose proof (zlen_contents _ Hwf1) as Hl1.
  rewrite Hc1 in Hl1. rewrite Hmsg, !zlen_app in Hl. change (zlen CRLF) with 2 in Hl.
  assert (Hpos : 0 < zlen block) by (destruct block; [done|zl]).
  assert (Hr2 : ReadableBytes (ss_buf st2) = 0) by (rewrite Hb2, Advance_readable; lia).
  assert (Hfuel : exists n, Z.to_nat (2 * ReadableBytes (ss_buf st) + 2) = S (S n)).
  { exists (Z.to_nat (2 * ReadableBytes (ss_buf st))). zl. }
  destruct Hfuel as [n Hn].
  assert (Hrun : OnMsg_loop hash (S (S n)) st = Ok (true, st2)).
  { cbn [OnMsg_loop]. unfold OnMsg_body. mred.
    rewrite (proj2 (Z.ltb_lt 0 (ReadableBytes (ss_buf st)))), Hst, H1 by zl.
    rewrite (proj2 (Z.ltb_lt 0 (ReadableBytes (ss_buf (awaiting st line nr it))))) by lia.
    change (state (ss_s (awaiting st line nr it))) with RecvValue.
    cbv beta iota. rewrite H2.
    destruct n; cbn [OnMsg_loop]; mred; by rewrite Hr2. }
  unfold OnMsg. mred. by rewrite Hn, Hrun.
Qed.

(** C11: a [set] request that arrives in one piece and whose data block
    consists of the key, the value and CRLF is stored: [OnMsg] returns, the
    table then maps the key to an item with that value and a fresh number, the
    answer is [STORED] unless the client said [noreply], all bytes are
    consumed and the session is ready for the next command. *)
Theorem set_request_stored (st : SS W) (line key value : bytes) (nr : bool) (fl ex : Z)
    (sp : Spec) (w' : W)
    (Hwf : wf (ss_buf st)) (Hok : session_ok (ss_s st)) (Hst : state (ss_s st) = NewCommand)
    (Hreq : set_request (contents (ss_buf st)) line key (key ++ value ++ CRLF) (zlen value) nr fl ex)
    (Hrep : represents hash (ss_mc st) sp)
    (Hw : (if nr then Ok (tt, ss_w st)
           else conn_AsyncWrite (B "STORED" ++ CRLF) (ss_w st)) = Ok (tt, w')) :
  exists st', OnMsg hash st = Ok (true, st') /\
    represents hash (ss_mc st')
      (Abstract.put key (received key fl (rel_exptime ex (ss_mc st)) value) sp) /\
    ss_w st' = w' /\ contents (ss_buf st') = [] /\
    state (ss_s st') = NewCommand /\ request_clear (ss_s st').
Proof.
  destruct (new_command_set _ _ _ _ _ _ _ _ Hwf Hreq Hok Hst) as (it & Hit & H1).
  destruct Hreq as [Hmsg _ _ _].
  destruct (awaiting_buf st line (key ++ value ++ CRLF) nr it Hwf Hmsg) as [Hwf1 Hc1].
  destruct (recvValue_set (awaiting st line nr it) key value fl _ it sp w' Hwf1 Hc1 eq_refl eq_refl
    eq_refl Hit Hrep Hw) as (m' & s' & H2 & Hrep' & Hst' & Hclear).
  destruct (Advance_contents _ (zlen (key ++ value ++ CRLF)) Hwf1) as [_ Hc2].
  { rewrite <- zlen_contents, Hc1 by done. split; [apply zlen_nonneg|reflexivity]. }
  rewrite Hc1, drop_ge in Hc2 by (unfold zlen; lia).
  set (st2 := mkSS w' m' s' _) in H2.
  rewrite (OnMsg_line_then_block st line (key ++ value ++ CRLF) nr it st2) by (done || by destruct key, value).
  eexists. split; [done|]. done.
Qed.

(** C37: a [set] request as a memcached client sends it, with a data block of
    the value and CRLF only, is not answered: the item still needs as many
    bytes as the key has, so that the session keeps waiting and takes the
    start of the next request as the end of the value. *)
Theorem plain_set_waits (st : SS W) (line key value : bytes) (nr : bool) (fl ex : Z)
    (Hwf : wf (ss_buf st)) (Hok : session_ok (ss_s st)) (Hst : state (ss_s st) = NewCommand)
    (Hkey : key <> [])
    (Hreq : set_request (contents (ss_buf st)) line key (value ++ CRLF) (zlen value) nr fl ex) :
  exists st' it, OnMsg hash st = Ok (true, st') /\
    ss_w st' = ss_w st /\ ss_mc st' = ss_mc st /\ contents (ss_buf st') = [] /\
    state (ss_s st') = RecvValue /\ currItem (ss_s st') = Some it /\ NeedBytes it = zlen key.
Proof.
  destruct (new_command_set _ _ _ _ _ _ _ _ Hwf Hreq Hok Hst) as (it & Hit & H1).
  destruct Hreq as [Hmsg _ _ _].
  destruct (awaiting_buf st line (value ++ CRLF) nr it Hwf Hmsg) as [Hwf1 Hc1].
  destruct (recvValue_partial (awaiting st line nr it) (value ++ CRLF) it Hwf1 Hc1 eq_refl eq_refl)
    as (it' & H2 & Hneed).
  { revert Hit. unfold NewItem. destruct (make_bytes _) eqn:E; [|done]. intros [= <-].
    revert E. unfold make_bytes. destruct (_ <? _) eqn:E; [done|]. intros [= <-].
    assert (0 < zlen key) by (destruct key; [done|zl]).
    unfold NeedBytes; simpl. rewrite zlen_app. change (zlen CRLF) with 2. zl. }
  destruct (Advance_contents _ (zlen (value ++ CRLF)) Hwf1) as [_ Hc2].
  { rewrite <- zlen_contents, Hc1 by done. split; [apply zlen_nonneg|reflexivity]. }
  rewrite Hc1, drop_ge in Hc2 by (unfold zlen; lia).
  rewrite (OnMsg_line_then_block st line (value ++ CRLF) nr it _ Hwf Hmsg Hst) by (eassumption || by destruct value).
  do 2 eexists. split; [done|]. repeat (split; [done|]). rewrite Hneed.
  revert Hit. unfold NewItem. destruct (make_bytes _); [|done]. intros [= <-]. unfold NeedBytes; simpl.
  rewrite zlen_app. change (zlen CRLF) with 2. lia.
Qed.
End set_request.

(** ** Witnesses *)

(** A connection that records the calls made on it. *)
Inductive Call : Type := CAsyncWrite (p : bytes) | CWrite (p : bytes) | CShutdown.
#[local] Instance log_conn : ConnOps (list Call) := {|
  conn_AsyncWrite p := modify (fun l => l ++ [CAsyncWrite p]);
  conn_Write p := modify (fun l => l ++ [CWrite p]);
  conn_ShutdownWrite := modify (fun l => l ++ [CShutdown]);
  conn_outWritable := mret 1024;
|}.

Definition wit_session : Session :=
  mkSession NewCommand Ascii_ [] false Invalid None 0 (mkItem 0 0 0 0 0 0 0 []) NewBuffer 0 0.

(** A session that has just received [msg]. *)
Definition receiving (msg : bytes) : SS (list Call) :=
  mkSS [] wit_table wit_session (mkBuffer msg 0 (zlen msg)).

Lemma receiving_wf msg : wf (ss_buf (receiving msg)).
Proof. split; simpl; zl. Qed.
Lemma receiving_contents msg : contents (ss_buf (receiving msg)) = msg.
Proof.
  unfold contents; simpl. rewrite Z.sub_0_r. change (Z.to_nat 0) with 0%nat.
  rewrite drop_0. unfold zlen. by rewrite Nat2Z.id, firstn_all.
Qed.
Lemma wit_session_ok : session_ok wit_session.
Proof. repeat split. Qed.

Lemma OnMsg_ends_witness :
  good (receiving (B "version" ++ CRLF ++ B "get k")) /\
  match OnMsg zlen (receiving (B "version" ++ CRLF ++ B "get k")) with
  | Ok (fin, st') => fin = true /\ good st' /\ idle st'
  | Panic _ => True
  end.
Proof.
  assert (Hg : good (receiving (B "version" ++ CRLF ++ B "get k")))
    by (split; [apply receiving_wf|apply wit_session_ok]).
  split; [exact Hg|exact (OnMsg_ends zlen _ Hg)].
Defined.

Definition wit_line : bytes := B "set k 0 0 1".
Lemma wit_set_request block :
  set_request (contents (ss_buf (receiving (wit_line ++ CRLF ++ block)))) wit_line (B "k")
    block 1 false 0 0.
Proof.
  split.
  - apply receiving_contents.
  - split; [by apply (bool_decide_unpack _); vm_compute|discriminate].
  - exists wit_line, (B "0"), (B "0"), (B "1"). repeat split.
  - repeat split; discriminate.
Qed.

Lemma set_request_stored_witness :
  exists st', OnMsg zlen (receiving (wit_line ++ CRLF ++ B "k" ++ B "v" ++ CRLF)) = Ok (true, st') /\
    represents zlen (ss_mc st')
      (Abstract.put (B "k") (received zlen (B "k") 0 0 (B "v")) (mkSpec ∅ 0)) /\
    ss_w st' = [CAsyncWrite (B "STORED" ++ CRLF)] /\ contents (ss_buf st') = [] /\
    state (ss_s st') = NewCommand /\ request_clear (ss_s st').
Proof.
  refine (set_request_stored zlen (receiving (wit_line ++ CRLF ++ B "k" ++ B "v" ++ CRLF))
    wit_line (B "k") (B "v") false 0 0 (mkSpec ∅ 0) [CAsyncWrite (B "STORED" ++ CRLF)]
    (receiving_wf _) wit_session_ok eq_refl (wit_set_request _) wit_represents _).
  reflexivity.
Defined.

Lemma plain_set_waits_witness :
  exists st' it, OnMsg zlen (receiving (wit_line ++ CRLF ++ B "v" ++ CRLF)) = Ok (true, st') /\
    ss_w st' = [] /\ ss_mc st' = wit_table /\ contents (ss_buf st') = [] /\
    state (ss_s st') = RecvValue /\ currItem (ss_s st') = Some it /\ NeedBytes it = 1.
Proof.
  refine (plain_set_waits zlen (receiving (wit_line ++ CRLF ++ B "v" ++ CRLF))
    wit_line (B "k") (B "v") false 0 0 (receiving_wf _) wit_session_ok eq_refl _ (wit_set_request _)).
  discriminate.
Defined.

(** A new session satisfies the invariant. *)
Lemma NewSession_ok hash : exists s, NewSession hash = Ok s /\ session_ok s /\ state s = NewCommand.
Proof. eexists. split; [reflexivity|]. repeat split. Qed.

(** The bytes of a value that is too large are not discarded: [resetRequest]
    clears the count, and they are read as the next command. *)
Example oversized_value_is_a_command :
  match OnMsg zlen (receiving (B "set k 0 0 2000000" ++ CRLF ++ B "version" ++ CRLF)) with
  | Ok (_, st) => ss_w st = [CAsyncWrite (B "SERVER_ERROR object too large for cache" ++ CRLF);
                             CAsyncWrite (B "VERSION 0.0.1 muduo" ++ CRLF)]
  | Panic _ => False
  end.
Proof. vm_compute. reflexivity. Qed.

(** [delete] with the key alone, its usual form, indexes past the tokens. *)
Example delete_without_time_panics :
  OnMsg zlen (receiving (B "delete k" ++ CRLF)) = Panic "index out of range".
Proof. vm_compute. reflexivity. Qed.

(** An empty command line is never consumed. *)
Example empty_line_blocks :
  match OnMsg zlen (receiving (CRLF ++ B "version" ++ CRLF)) with
  | Ok (_, st) => ss_w st = [] /\ ReadableBytes (ss_buf st) = 11
  | Panic _ => False
  end.
Proof. vm_compute. split; reflexivity. Qed.

(** A value with the key in front is served by [gets] with its number. *)
Example gets_after_set :
  match OnMsg zlen (receiving (wit_line ++ CRLF ++ B "kv" ++ CRLF ++ B "gets k" ++ CRLF)) with
  | Ok (_, st) => ss_w st = [CAsyncWrite (B "STORED" ++ CRLF);
                             CWrite (B "VALUE k 0 1 1" ++ CRLF ++ B "v" ++ CRLF ++ B "END" ++ CRLF)]
  | Panic _ => False
  end.
Proof. vm_compute. reflexivity. Qed.
